(* ===== verification/_CoqProject ===== *)
-Q . S2P
Prelude.v
CometTypes.v
Toy.v
Storage.v
TimeHandler.v
Utils.v
Client.v
UpdateState.v
Evidence.v
RunBlock.v
Example.v
Frames.v
RunBlockSpec.v
UpdateSpec.v
Chain.v
Sound.v
RunBlockProps.v
BlockFacts.v
Txs.v
Protocol.v
Broadcast.v
StorageProps.v
StorageThreads.v
EvidenceProps.v
Pagination.v
Routes.v
RoutesProps.v
Reach.v
Goroutines.v
Interleave.v
Race.v
Main.v
Websocket.v
