(* ===== verification/Prelude.v ===== *)
(** * CometMock in Rocq

    CometMock (src/cometmock) stands in for a network of CometBFT nodes: one
    process drives any number of ABCI applications, makes the blocks all of them
    agree on, and answers CometBFT's RPC.  This library models that process in
    Rocq and proves what makes it correct.

    ** The program and its model

    - [Prelude]: byte strings, 64-bit integers, Go's way to return, fail, panic or
      wait for ever ([outcome]), the state monad [M], loops, and [within], the
      logic for "however this call ends, it changes no more than that".
    - [CometTypes]: the CometBFT and ABCI structs the code moves around; everything
      CometBFT, the applications, the clock and Go's random map order contribute
      is a field of the classes [CometTypes], [CometOps] and [Env], and the
      documented behaviour the proofs use is [CometLaws] and [EnvLaws].  Also
      [AbciCounterpartyClient] (abci_client/counterparty.go).
    - [Toy], [Example]: a concrete CometBFT and two applications, on which the
      examples run by computation; they show that the laws and the theorems'
      hypotheses can hold.  No theorem depends on them.
    - [Storage] (storage/storage.go): the interface as [StorageOps] with its
      contract [StorageLaws]; [MapStorage] with its four maps and its RWMutex, and
      the proof that it meets the contract.  [StorageProps] refines it to one
      locked map; [StorageThreads] interleaves the atomic steps of any number of
      readers and writers.
    - [TimeHandler] (abci_client/time_handler.go): the interface, its laws, both
      handlers, and the timestamps of a whole run.
    - [Utils] (utils/*.go): block identifiers, commit infos, votes.
    - [Client] (abci_client/client.go): the [AbciClient] struct and the process
      state [Sys] (client, block mutex, history of what the outside has seen),
      queues, lookups, signing status, the calls to all applications, [InitChain].
    - [UpdateState]: the state after a block, and the events published.
    - [Evidence]: made-up evidence of double signing and light client attacks.
    - [RunBlock]: [runBlock_helper] phase by phase, and its entry points.
    - [Goroutines]: the same code, and that of a broadcast, cut into steps of
      goroutines that run at the same time: [advance] is one step of one goroutine,
      [pstep] one step of the process, [schedule] runs them by a given order.
    - [Pagination], [Routes] (rpc_server/routes.go): argument checks and paging;
      one definition per endpoint and the table of routes.
    - [Websocket] (rpc_server/websocket.go): the requests of event subscriptions
      and the goroutine that forwards a subscription's messages.
    - [Main] (main.go): from the command line to the first block and the
      production loop.

    The parts meet in [Sys]: main makes the client and its first block; a route
    runs on the client; a block run asks the applications, then writes state and
    storage, under the block mutex; the time handler gives it its timestamp; the
    indexes and the event bus are fed by the events in the history.  Every
    definition keeps the name of the Go function it translates, with a prefix
    where two Go functions have the same name ([Route_Commit], [MapStorage_GetBlock]).

    ** What is shown

    - Specification and refinement.  [Chain] specifies one block ([chain_step])
      and well-formed chains ([chain_inv]: heights without gaps, commits by the
      right validators, links by commit, identifier, time, validators, application
      hash).  [RunBlockProps]: a block run that returns is one step; after an error,
      one of three situations; after a panic the process is wedged; stored entries
      never change.
    - Reachable processes.  Runs that fail leave traces: [Sound] says which
      ([chain_sound]: a replaced last commit, an empty application hash, nothing
      else), and [Reach] proves that every sequence of requests and rounds of the
      production loop, with whatever outcomes, leads to a sound chain or a locked
      storage, and to a well-formed chain if no run failed.
    - The order of the ABCI calls of one block ([Protocol]) and what a call to all
      applications does ([Broadcast]).
    - Conservation of transactions, runs of many blocks ([Txs]).
    - Overlap.  [Interleave]: whatever the order of the goroutines' steps, failing
      runs included, the block mutex lets one goroutine at a time into a block run,
      and the chain is built one block at a time; the invariant says what the holder
      of the mutex knows at each phase.  [Race]: the time of a block is read before
      the mutex is taken, so timestamps can coincide.
    - Who signs, and two ways in which a chain halts for good ([BlockFacts]).
    - The validator schedule and the events of a block ([UpdateState],
      [UpdateSpec]); the two kinds of evidence ([EvidenceProps]); commit infos
      ([Utils]); timestamps ([TimeHandler]).
    - Storage: contract, refinement, atomic reads; it stalls only if an update
      failed between its lock and its unlock.
    - RPC: which height a query is about, that queries change nothing, pages that
      partition the result, the two searches, signing status and time
      ([Pagination], [RoutesProps]).
    - A subscription delivers the bus's messages in order, without gaps, until it
      is canceled ([Websocket]).
    - Start-up and production loop ([Main]).

    [Frames], [RunBlockSpec] and [UpdateSpec] hold the lemmas these share: what
    each phase leaves alone, and what it yields.

    ** Choices

    - Go's [int64] arithmetic on durations and milliseconds, [int32] of indexes and
      the like wrap around ([wrap64], [wrap32], [wrapu32]); [time.Since] saturates.
      Block heights are integers without bound: one block per nanosecond would
      take centuries to reach [2^63].  Instants are nanoseconds without bound, as
      [time.Time] has a range of billions of years.
    - The environment answers each call as a function of the whole history, so any
      behaviour, random or dependent on time, is covered.
    - No function needs fuel: loops are over lists, [advance_blocks] recurses on
      its argument, the endless production loop is given its number of rounds,
      and its theorem is for every number.
    - Waiting for a lock that no one will release is the outcome [Blocked].  The
      block mutex and the RWMutex of the storage are modelled; [SetSigningStatus]
      and the time handlers' calls, each under its own mutex with nothing but
      assignments inside, are single steps.
    - A panic in a request is recovered by CometBFT's RPC server, so the process
      goes on from the state the panic left; a panic of the main goroutine, or of one
      that a broadcast started, ends it.
    - [sort.Slice] is a merge sort on the same comparison; its keys (heights, or
      heights and indexes) identify its elements, so the order is the same.
    - A Go map that is ranged over to make calls is a [gmap] visited in an order
      the environment picks; a map passed as an argument (the misbehaving
      validators) is the list of its entries in the order of the loop.

    ** What is not modelled

    CometBFT, the event bus, the indexers and the query parser are outside code.
    Logging has no counterpart.  The HTTP server (rpc_server/rpc_server.go) is
    glue around CometBFT's library, and the end-to-end tests are tests.

    ** Plan

    The request wrapper of rpc_server.go; queries cut into single reads between the
    phases of a block run (here a query is one step); what a block that fails in
    each phase leaves of the queues; the indexes seen by searches while blocks are
    made. *)

From Stdlib Require Export ZArith Lia.
From stdpp Require Export base list list_numbers gmap strings sorting relations.

(** ** Bytes

    A Go [[]byte] (transaction, hash, address, key) is a byte string; [nil]
    and the empty slice, which the code never tells apart, are both [""]. *)
Abbreviation bytes := string.

(** ** Machine integers *)

Definition max_int64 : Z := 9223372036854775807.
Definition min_int64 : Z := -9223372036854775808.

Definition in_int64 (z : Z) : Prop := (min_int64 ≤ z ≤ max_int64)%Z.

#[export] Instance in_int64_dec z : Decision (in_int64 z).
Proof. unfold in_int64. apply _. Defined.

(** Two's complement wrap-around of Go's [int64] arithmetic. *)
Definition wrap64 (z : Z) : Z := ((z + 2 ^ 63) mod 2 ^ 64 - 2 ^ 63)%Z.
(** Conversions [int32(x)] and [uint32(x)]. *)
Definition wrap32 (z : Z) : Z := ((z + 2 ^ 31) mod 2 ^ 32 - 2 ^ 31)%Z.
Definition wrapu32 (z : Z) : Z := (z mod 2 ^ 32)%Z.
(** Saturation, as [time.Time.Sub] does for durations. *)
Definition sat64 (z : Z) : Z := Z.max min_int64 (Z.min max_int64 z).

Lemma wrap64_id z : in_int64 z → wrap64 z = z.
Proof.
  unfold in_int64, wrap64, min_int64, max_int64. intros Hz.
  rewrite Z.mod_small; lia.
Qed.

Lemma wrap64_in z : in_int64 (wrap64 z).
Proof.
  unfold in_int64, wrap64, min_int64, max_int64.
  pose proof (Z.mod_pos_bound (z + 2 ^ 63) (2 ^ 64) ltac:(lia)). lia.
Qed.

(** Wrapping only ever moves a value by a multiple of [2^64]. *)
Lemma wrap64_shift z k : wrap64 (z + k * 2 ^ 64) = wrap64 z.
Proof.
  unfold wrap64.
  replace (z + k * 2 ^ 64 + 2 ^ 63)%Z with (z + 2 ^ 63 + k * 2 ^ 64)%Z by lia.
  by rewrite Z.mod_add by lia.
Qed.

Lemma wrap64_cong z : ∃ k, wrap64 z = (z + k * 2 ^ 64)%Z.
Proof.
  exists (- ((z + 2 ^ 63) / 2 ^ 64))%Z. unfold wrap64.
  rewrite Z.mod_eq by lia. lia.
Qed.

Lemma wrap64_add_l a b : wrap64 (wrap64 a + b) = wrap64 (a + b).
Proof.
  destruct (wrap64_cong a) as [k ->].
  replace (a + k * 2 ^ 64 + b)%Z with (a + b + k * 2 ^ 64)%Z by lia.
  apply wrap64_shift.
Qed.

Lemma wrap64_add_r a b : wrap64 (a + wrap64 b) = wrap64 (a + b).
Proof. rewrite Z.add_comm, wrap64_add_l. f_equal. lia. Qed.

Lemma sat64_id z : in_int64 z → sat64 z = z.
Proof. unfold in_int64, sat64. lia. Qed.

Lemma sat64_in z : in_int64 (sat64 z).
Proof. unfold in_int64, sat64, min_int64, max_int64. lia. Qed.

Lemma wrap32_id z : (- 2 ^ 31 ≤ z < 2 ^ 31)%Z → wrap32 z = z.
Proof. unfold wrap32. intros Hz. rewrite Z.mod_small; lia. Qed.

(** ** Errors, panics, outcomes *)

(** A Go [error]: a value made outside the repository, or [fmt.Errorf] of a
    format and those of its arguments that are strings, integers or errors
    (printed structs are dropped). *)
Inductive error : Type :=
  | ExtErr (what : string)
  | Errorf (fmt : string) (args : list farg)
with farg : Type :=
  | AStr (s : string)
  | AInt (z : Z)
  | AErr (e : error).

Inductive panic_value : Type :=
  | NilDereference
  | IndexOutOfRange
  | FatalUnlock
  | PanicMsg (what : string)
  | PanicErr (e : error).

(** What a call can do: return, return a non-nil [error], panic, or wait
    forever for a lock that is held. *)
Inductive outcome (A : Type) : Type :=
  | Ret (a : A)
  | Err (e : error)
  | Panic (p : panic_value)
  | Blocked.
Arguments Ret {A} a.
Arguments Err {A} e.
Arguments Panic {A} p.
Arguments Blocked {A}.

#[export] Instance outcome_ret : MRet outcome := λ A a, Ret a.
#[export] Instance outcome_bind : MBind outcome := λ A B k o,
  match o with
  | Ret a => k a
  | Err e => Err e
  | Panic p => Panic p
  | Blocked => Blocked
  end.

Lemma outcome_bind_ret {A B} (o : outcome A) (k : A → outcome B) b :
  o ≫= k = Ret b ↔ ∃ a, o = Ret a ∧ k a = Ret b.
Proof. destruct o; simpl; (split; [by eauto | by intros (? & ? & ?); simplify_eq]). Qed.

(** [return .., fmt.Errorf(fmt, err)] on an error. *)
Definition wrapO (fmt : string) {A} (o : outcome A) : outcome A :=
  match o with Err e => Err (Errorf fmt [AErr e]) | _ => o end.

Lemma wrapO_ret fmt {A} (o : outcome A) a : wrapO fmt o = Ret a ↔ o = Ret a.
Proof. by destruct o. Qed.

Definition is_Ret {A} (o : outcome A) : bool :=
  match o with Ret _ => true | _ => false end.

(** ** Stateful code *)

Definition M (S A : Type) : Type := S → outcome A * S.

#[export] Instance M_ret S : MRet (M S) := λ A a s, (Ret a, s).
#[export] Instance M_bind S : MBind (M S) := λ A B k m s,
  match m s with
  | (Ret a, s') => k a s'
  | (Err e, s') => (Err e, s')
  | (Panic p, s') => (Panic p, s')
  | (Blocked, s') => (Blocked, s')
  end.

Section operations.
Context {S : Type}.

Definition gets {A} (f : S → A) : M S A := λ s, (Ret (f s), s).
Definition modify (f : S → S) : M S unit := λ s, (Ret tt, f s).
Definition throw {A} (e : error) : M S A := λ s, (Err e, s).
Definition panic {A} (p : panic_value) : M S A := λ s, (Panic p, s).
Definition liftO {A} (o : outcome A) : M S A := λ s, (o, s).

(** The error as a value, for calls whose [err] is not checked at once. *)
Definition try_ {A} (m : M S A) : M S (error + A) := λ s,
  match m s with
  | (Ret a, s') => (Ret (inr a), s')
  | (Err e, s') => (Ret (inl e), s')
  | (Panic p, s') => (Panic p, s')
  | (Blocked, s') => (Blocked, s')
  end.

(** [if err != nil { return fmt.Errorf(.., err) }]. *)
Definition wrap_err {A} (f : error → error) (m : M S A) : M S A := λ s,
  match m s with
  | (Err e, s') => (Err (f e), s')
  | r => r
  end.

(** [for i, x := range l]. *)
Fixpoint for_range_from {A} (i : nat) (f : nat → A → M S unit) (l : list A)
  : M S unit :=
  match l with
  | [] => mret tt
  | x :: l' => f i x ;; for_range_from (Datatypes.S i) f l'
  end.
Definition for_range {A} (f : nat → A → M S unit) (l : list A) : M S unit :=
  for_range_from 0 f l.

(** [for i, x := range l] that appends one result per iteration. *)
Fixpoint collect_from {A B} (i : nat) (f : nat → A → M S B) (l : list A)
  : M S (list B) :=
  match l with
  | [] => mret []
  | x :: l' =>
      y ← f i x;
      ys ← collect_from (Datatypes.S i) f l';
      mret (y :: ys)
  end.
Definition collect {A B} (f : nat → A → M S B) (l : list A) : M S (list B) :=
  collect_from 0 f l.
End operations.

(** The same loop in a function without state. *)
Fixpoint collectO_from {A B} (i : nat) (f : nat → A → outcome B) (l : list A)
  : outcome (list B) :=
  match l with
  | [] => Ret []
  | x :: l' =>
      y ← f i x;
      ys ← collectO_from (Datatypes.S i) f l';
      Ret (y :: ys)
  end.
Definition collectO {A B} (f : nat → A → outcome B) (l : list A) : outcome (list B) :=
  collectO_from 0 f l.

(** ** Inversion of successful runs *)

Lemma bind_assoc {S A B C} (m : M S A) (k : A → M S B) (l : B → M S C) s :
  ((m ≫= k) ≫= l) s = (m ≫= λ a, k a ≫= l) s.
Proof. unfold mbind, M_bind. by destruct (m s) as [[] ?]. Qed.
Lemma ret_bind {S A B} (a : A) (k : A → M S B) s : (mret a ≫= k) s = k a s.
Proof. done. Qed.
Lemma bind_ext {S A B} (m : M S A) (k k' : A → M S B) s :
  (∀ a s1, k a s1 = k' a s1) → (m ≫= k) s = (m ≫= k') s.
Proof. intros H. unfold mbind, M_bind. destruct (m s) as [[] ?]; auto. Qed.

Lemma bind_ret_inv {S A B} (m : M S A) (k : A → M S B) s b s' :
  (m ≫= k) s = (Ret b, s') → ∃ a s1, m s = (Ret a, s1) ∧ k a s1 = (Ret b, s').
Proof.
  unfold mbind, M_bind. destruct (m s) as [[a|e|p|] s1]; intros H; simplify_eq; eauto.
Qed.

Lemma wrap_err_ret_inv {S A} f (m : M S A) s a s' :
  wrap_err f m s = (Ret a, s') → m s = (Ret a, s').
Proof. unfold wrap_err. destruct (m s) as [[] ?]; intros; simplify_eq; done. Qed.

Lemma try_ret_inv {S A} (m : M S A) s r s' :
  try_ m s = (Ret r, s') →
  match r with inr a => m s = (Ret a, s') | inl e => m s = (Err e, s') end.
Proof. unfold try_. destruct (m s) as [[] ?]; intros; simplify_eq; done. Qed.

Lemma bind_ret {S A B} (m : M S A) (k : A → M S B) s a s1 :
  m s = (Ret a, s1) → (m ≫= k) s = k a s1.
Proof. unfold mbind, M_bind. by intros ->. Qed.

Lemma bind_err {S A B} (m : M S A) (k : A → M S B) s e s1 :
  m s = (Err e, s1) → (m ≫= k) s = (Err e, s1).
Proof. unfold mbind, M_bind. by intros ->. Qed.

Lemma bind_panic {S A B} (m : M S A) (k : A → M S B) s p s1 :
  m s = (Panic p, s1) → (m ≫= k) s = (Panic p, s1).
Proof. unfold mbind, M_bind. by intros ->. Qed.

Lemma bind_blocked {S A B} (m : M S A) (k : A → M S B) s s1 :
  m s = (Blocked, s1) → (m ≫= k) s = (Blocked, s1).
Proof. unfold mbind, M_bind. by intros ->. Qed.

(** Decompose the run of a sequence of calls that returned. *)
Ltac minv H :=
  lazymatch type of H with
  | (_ ≫= _) _ = (Ret _, _) =>
      let a := fresh "a" in let s := fresh "s" in let H1 := fresh "Hrun" in
      apply bind_ret_inv in H as (a & s & H1 & H)
  | wrap_err _ _ _ = (Ret _, _) => apply wrap_err_ret_inv in H
  | gets _ _ = (Ret _, _) => unfold gets in H; simplify_eq
  | modify _ _ = (Ret _, _) => unfold modify in H; simplify_eq
  | mret _ _ = (Ret _, _) => unfold mret, M_ret in H; simplify_eq
  end.

(** ** Relations every run respects

    [within R m]: however [m] ends, its final state is [R]-related to its
    initial one. With [R] a preorder this is compositional, so "the phases
    before this point leave that field alone" needs no case analysis. *)
Definition within {S A} (R : relation S) (m : M S A) : Prop :=
  ∀ s, R s (m s).2.

Create HintDb within.

Section within.
Context {S : Type} (R : relation S) `{!PreOrder R}.

Lemma within_same {A} (m : M S A) : (∀ s, (m s).2 = s) → within R m.
Proof. intros H s. rewrite H. done. Qed.

Lemma within_ret {A} (a : A) : within R (mret a).
Proof. by apply within_same. Qed.
Lemma within_gets {A} (f : S → A) : within R (gets f).
Proof. by apply within_same. Qed.
Lemma within_throw {A} e : within R (throw (A:=A) e).
Proof. by apply within_same. Qed.
Lemma within_panic {A} p : within R (panic (A:=A) p).
Proof. by apply within_same. Qed.
Lemma within_liftO {A} (o : outcome A) : within R (liftO o).
Proof. by apply within_same. Qed.

Lemma within_modify f : (∀ s, R s (f s)) → within R (modify f).
Proof. intros H s. apply H. Qed.

Lemma within_bind {A B} (m : M S A) (k : A → M S B) :
  within R m → (∀ a, within R (k a)) → within R (m ≫= k).
Proof.
  intros Hm Hk s. specialize (Hm s). unfold mbind, M_bind.
  destruct (m s) as [[a| | |] s1]; simpl in *; try done.
  transitivity s1; [done | apply Hk].
Qed.

Lemma within_try {A} (m : M S A) : within R m → within R (try_ m).
Proof. intros Hm s. specialize (Hm s). unfold try_. by destruct (m s) as [[] ?]. Qed.

Lemma within_wrap_err {A} f (m : M S A) : within R m → within R (wrap_err f m).
Proof. intros Hm s. specialize (Hm s). unfold wrap_err. by destruct (m s) as [[] ?]. Qed.

Lemma within_for_range_from {A} (f : nat → A → M S unit) l i :
  (∀ j x, within R (f j x)) → within R (for_range_from i f l).
Proof.
  intros Hf. revert i. induction l as [|x l IH]; intros i; simpl.
  - apply within_ret.
  - apply within_bind; auto.
Qed.

Lemma within_for_range {A} (f : nat → A → M S unit) l :
  (∀ j x, within R (f j x)) → within R (for_range f l).
Proof. apply within_for_range_from. Qed.

Lemma within_collect_from {A B} (f : nat → A → M S B) l i :
  (∀ j x, within R (f j x)) → within R (collect_from i f l).
Proof.
  intros Hf. revert i. induction l as [|x l IH]; intros i; simpl.
  - apply within_ret.
  - apply within_bind; [auto|]. intros y. apply within_bind; [auto|].
    intros ys. apply within_ret.
Qed.

Lemma within_collect {A B} (f : nat → A → M S B) l :
  (∀ j x, within R (f j x)) → within R (collect f l).
Proof. apply within_collect_from. Qed.

(** One run of a sequence, with what is known of the first part's result. *)
Lemma run_bind {A B} (m : M S A) (k : A → M S B) s :
  R s (m s).2 → (∀ a s1, m s = (Ret a, s1) → R s1 (k a s1).2) → R s ((m ≫= k) s).2.
Proof.
  intros Hm Hk. unfold mbind, M_bind. destruct (m s) as [[a|e|p|] s1]; simpl in *; try done.
  transitivity s1; [done | by apply Hk].
Qed.

Lemma within_run {A} (m : M S A) s o s' : within R m → m s = (o, s') → R s s'.
Proof. intros Hm Hs. specialize (Hm s). by rewrite Hs in Hm. Qed.
End within.

(** Walk a monadic term structurally; calls are looked up in the [within]
    database. *)
Ltac within_step :=
  lazymatch goal with
  | |- within _ (mret _) => apply within_ret; apply _
  | |- within _ (gets _) => apply within_gets; apply _
  | |- within _ (throw _) => apply within_throw; apply _
  | |- within _ (panic _) => apply within_panic; apply _
  | |- within _ (liftO _) => apply within_liftO; apply _
  | |- within _ (_ ≫= _) => apply within_bind; [apply _ | | intros ?]
  | |- within _ (wrap_err _ _) => apply within_wrap_err
  | |- within _ (try_ _) => apply within_try
  | |- within _ (for_range _ _) => apply within_for_range; [apply _ | intros ? ?]
  | |- within _ (collect _ _) => apply within_collect; [apply _ | intros ? ?]
  | |- within _ (match ?x with _ => _ end) => destruct x
  | |- within _ (let _ := _ in _) => cbv zeta
  | |- within _ _ => solve [eauto 2 with within nocore]
  end.
Ltac within_auto := repeat within_step.

(** What a loop that returned has collected. *)
Lemma collect_from_length {S A B} (f : nat → A → M S B) l i s ys s' :
  collect_from i f l s = (Ret ys, s') → length ys = length l.
Proof.
  revert i s ys. induction l as [|x l IH]; intros i s ys H; simpl in H.
  - by minv H.
  - minv H. minv H. minv H. simpl. f_equal. eauto.
Qed.

Lemma collect_length {S A B} (f : nat → A → M S B) l s ys s' :
  collect f l s = (Ret ys, s') → length ys = length l.
Proof. apply collect_from_length. Qed.

Lemma collect_from_spec {S A B} (P : nat → A → B → Prop) (f : nat → A → M S B) l i s ys s' :
  (∀ j x s1 y s2, f j x s1 = (Ret y, s2) → P j x y) →
  collect_from i f l s = (Ret ys, s') →
  ∀ j x, l !! j = Some x → ∃ y, ys !! j = Some y ∧ P (i + j) x y.
Proof.
  intros Hf. revert i s ys. induction l as [|x l IH]; intros i s ys H j x' Hj; simpl in H.
  - by rewrite lookup_nil in Hj.
  - minv H. minv H. minv H. destruct j as [|j]; simpl in *.
    + simplify_eq. rewrite Nat.add_0_r. eauto.
    + destruct (IH (Datatypes.S i) _ _ ltac:(eassumption) _ _ Hj) as (y & ? & ?).
      exists y. split; [done|]. by replace (i + Datatypes.S j) with (Datatypes.S i + j) by lia.
Qed.

Lemma collect_spec {S A B} (P : nat → A → B → Prop) (f : nat → A → M S B) l s ys s' :
  (∀ j x s1 y s2, f j x s1 = (Ret y, s2) → P j x y) →
  collect f l s = (Ret ys, s') →
  ∀ j x, l !! j = Some x → ∃ y, ys !! j = Some y ∧ P j x y.
Proof. intros Hf H. apply (collect_from_spec P f l 0 s ys s' Hf H). Qed.

(** The same with an invariant [I] of the state the loop runs in. *)
Lemma collect_from_inv {S A B} (I : S → Prop) (P : nat → A → B → Prop) (f : nat → A → M S B) l i s ys s' :
  (∀ j x s1 y s2, I s1 → f j x s1 = (Ret y, s2) → I s2 ∧ P j x y) →
  I s → collect_from i f l s = (Ret ys, s') →
  I s' ∧ length ys = length l ∧
  ∀ j x, l !! j = Some x → ∃ y, ys !! j = Some y ∧ P (i + j) x y.
Proof.
  intros Hf. revert i s ys. induction l as [|x l IH]; intros i s ys HI H; simpl in H.
  - minv H. split_and!; [done..|]. intros j x Hj. by rewrite lookup_nil in Hj.
  - minv H. minv H. minv H.
    match goal with Hx : f i x s = _, Hl : collect_from _ _ _ _ = _ |- _ =>
      destruct (Hf _ _ _ _ _ HI Hx) as [HI1 HP]; destruct (IH _ _ _ HI1 Hl) as (HI2 & Hlen & Hall) end.
    split_and!; [done | simpl; congruence |].
    intros [|j] x' Hj; simpl in *.
    + simplify_eq. rewrite Nat.add_0_r. eauto.
    + destruct (Hall _ _ Hj) as (y & ? & ?). exists y. split; [done|].
      by replace (i + Datatypes.S j) with (Datatypes.S i + j) by lia.
Qed.

Lemma collect_inv {S A B} (I : S → Prop) (P : nat → A → B → Prop) (f : nat → A → M S B) l s ys s' :
  (∀ j x s1 y s2, I s1 → f j x s1 = (Ret y, s2) → I s2 ∧ P j x y) →
  I s → collect f l s = (Ret ys, s') →
  I s' ∧ length ys = length l ∧
  ∀ j x, l !! j = Some x → ∃ y, ys !! j = Some y ∧ P j x y.
Proof. intros Hf HI H. apply (collect_from_inv I P f l 0 s ys s' Hf HI H). Qed.

(** A loop without results, with an invariant that follows the index. *)
Lemma for_range_from_inv {S A} (I : nat → S → Prop) (f : nat → A → M S unit) l i s u s' :
  (∀ j x s1 u s2, l !! j = Some x → I (i + j) s1 → f (i + j) x s1 = (Ret u, s2) →
     I (Datatypes.S (i + j)) s2) →
  I i s → for_range_from i f l s = (Ret u, s') → I (i + length l) s'.
Proof.
  revert i s. induction l as [|x l IH]; intros i s Hf HI H; simpl in H.
  - minv H. by rewrite Nat.add_0_r.
  - minv H. simpl. rewrite <-Nat.add_succ_comm. eapply IH; [| |exact H].
    + intros j y s1 u1 s2 Hj HI1 Hrun1. rewrite Nat.add_succ_comm in *.
      by eapply (Hf (Datatypes.S j)).
    + rewrite <-(Nat.add_0_r i) in Hrun. rewrite <-(Nat.add_0_r i).
      eapply (Hf 0); [done | by rewrite Nat.add_0_r | exact Hrun].
Qed.

Lemma for_range_inv {S A} (I : nat → S → Prop) (f : nat → A → M S unit) l s u s' :
  (∀ j x s1 u s2, l !! j = Some x → I j s1 → f j x s1 = (Ret u, s2) → I (Datatypes.S j) s2) →
  I 0 s → for_range f l s = (Ret u, s') → I (length l) s'.
Proof. intros Hf HI H. exact (for_range_from_inv I f l 0 s u s' Hf HI H). Qed.

(** A stateless loop returns iff each of its iterations does. *)
Lemma collectO_from_ret {A B} (f : nat → A → outcome B) l i ys :
  collectO_from i f l = Ret ys ↔
  length ys = length l ∧
  ∀ j x y, l !! j = Some x → ys !! j = Some y → f (i + j) x = Ret y.
Proof.
  revert i ys. induction l as [|x l IH]; intros i ys; simpl.
  - split; [intros [= <-]; done|]. intros [Hlen _]. by destruct ys.
  - split.
    + intros H. destruct (f i x) as [y| | |] eqn:Hy; try done. simpl in H.
      destruct (collectO_from (Datatypes.S i) f l) as [ys'| | |] eqn:Hys; try done.
      simpl in H. simplify_eq. apply IH in Hys as [Hlen Hall].
      split; [simpl; congruence|]. intros [|j] x' y' Hx Hy'; simplify_eq/=.
      * by rewrite Nat.add_0_r.
      * rewrite <-Nat.add_succ_comm. eauto.
    + intros [Hlen Hall]. destruct ys as [|y ys]; [done|].
      pose proof (Hall 0 x y eq_refl eq_refl) as Hy. rewrite Nat.add_0_r in Hy.
      rewrite Hy. simpl.
      assert (collectO_from (Datatypes.S i) f l = Ret ys) as ->; [|done].
      apply IH. split; [simpl in *; congruence|]. intros j x' y' Hx Hy'.
      rewrite Nat.add_succ_comm. by apply Hall.
Qed.

Lemma collectO_ret {A B} (f : nat → A → outcome B) l ys :
  collectO f l = Ret ys ↔
  length ys = length l ∧ ∀ j x y, l !! j = Some x → ys !! j = Some y → f j x = Ret y.
Proof. apply collectO_from_ret. Qed.

(** If every iteration returns, the loop returns. *)
Lemma collectO_from_total {A B} (f : nat → A → outcome B) l i :
  (∀ j x, l !! j = Some x → ∃ y, f (i + j) x = Ret y) →
  ∃ ys, collectO_from i f l = Ret ys.
Proof.
  revert i. induction l as [|x l IH]; intros i Hall; simpl; [eauto|].
  destruct (Hall 0 x eq_refl) as [y Hy]. rewrite Nat.add_0_r in Hy. rewrite Hy. simpl.
  destruct (IH (Datatypes.S i)) as [ys ->]; [|simpl; eauto].
  intros j x' Hx. rewrite Nat.add_succ_comm. by apply Hall.
Qed.

Lemma collectO_total {A B} (f : nat → A → outcome B) l :
  (∀ j x, l !! j = Some x → ∃ y, f j x = Ret y) → ∃ ys, collectO f l = Ret ys.
Proof. intros Hf. apply collectO_from_total. exact Hf. Qed.
