(* ===== verification/CometTypes.v ===== *)
(** * The CometBFT and ABCI interface CometMock is written against

    CometMock's own code moves values of CometBFT's public struct types around
    and calls CometBFT's methods on them.  The structs whose fields the code
    reads or builds are records here (fields the code never touches are kept in
    one opaque component where a struct has such fields); everything CometBFT,
    the applications, the clock and the random map iteration order contribute
    is a field of the classes [CometTypes], [CometOps] and [Env], so every
    definition and theorem of the development is generic in them.  What the
    proofs rely on is stated separately, law by law, in [CometLaws]. *)

From S2P Require Export Prelude.
#[local] Open Scope Z_scope.

(** ** Opaque types *)

Class CometTypes := {
  PubKey : Type;                 (** [crypto.PubKey] *)
  PubKeyProto : Type;            (** [cmtcrypto.PublicKey] *)
  ConsensusParams : Type;        (** [types.ConsensusParams] *)
  ConsensusParamsProto : Type;   (** [cmtproto.ConsensusParams] *)
  ValidatorParams : Type;
  ABCIParams : Type;
  PartSetHeader : Type;
  HeaderRest : Type;             (** the header fields CometMock never touches *)
  AbciEvent : Type;              (** [abcitypes.Event] *)
  ExecTxResult : Type;
  CheckTxRest : Type;            (** the fields of [ResponseCheckTx] CometMock only compares:
                                     [Info], [GasWanted], [GasUsed], [Events] *)
  Misbehavior : Type;            (** [abcitypes.Misbehavior] *)
  VoteSet : Type;
  PrivValidator : Type;
  ABCIHandle : Type;             (** [abciclient.Client], a connection *)
  AbciValidator : Type;          (** [abcitypes.Validator] *)
  ResponseInfo : Type;
  ResponseCommit : Type;
  ResponseQuery : Type;
  ResponseProcessProposal : Type;
  ResponseVerifyVoteExtension : Type;
  TxProof : Type;
  Query : Type;                  (** a parsed event query *)

  PubKeyProto_eq :: EqDecision PubKeyProto;
  ConsensusParamsProto_eq :: EqDecision ConsensusParamsProto;
  AbciEvent_eq :: EqDecision AbciEvent;
  ExecTxResult_eq :: EqDecision ExecTxResult;
  CheckTxRest_eq :: EqDecision CheckTxRest;
  ResponseInfo_eq :: EqDecision ResponseInfo;
  ResponseCommit_eq :: EqDecision ResponseCommit;
  ResponseQuery_eq :: EqDecision ResponseQuery;
}.

(** ** Struct types *)

Section structs.
Context `{CometTypes}.

(** [types.BlockID] *)
Record BlockID := mkBlockID {
  bid_Hash : bytes;
  bid_PartSetHeader : PartSetHeader }.

(** [types.Validator] *)
Record Validator := mkValidator {
  val_Address : bytes;
  val_PubKey : PubKey;
  val_VotingPower : Z;
  val_ProposerPriority : Z }.

(** [types.ValidatorSet]; [Proposer] may be nil. *)
Record ValidatorSet := mkValidatorSet {
  vs_Validators : list Validator;
  vs_Proposer : option Validator }.

(** [types.Header]; times are nanoseconds since the Unix epoch. *)
Record Header := mkHeader {
  hdr_Height : Z;
  hdr_Time : Z;
  hdr_NextValidatorsHash : bytes;
  hdr_AppHash : bytes;
  hdr_ProposerAddress : bytes;
  hdr_rest : HeaderRest }.

(** [types.CommitSig], [types.Commit] *)
Record CommitSig := mkCommitSig {
  cs_BlockIDFlag : Z;
  cs_ValidatorAddress : bytes;
  cs_Timestamp : Z;
  cs_Signature : bytes }.
Record Commit := mkCommit {
  cm_Height : Z;
  cm_Round : Z;
  cm_BlockID : BlockID;
  cm_Signatures : list CommitSig }.

(** [types.ExtendedCommitSig], [types.ExtendedCommit] *)
Record ExtendedCommitSig := mkExtendedCommitSig {
  ecs_CommitSig : CommitSig;
  ecs_Extension : bytes;
  ecs_ExtensionSignature : bytes }.
Record ExtendedCommit := mkExtendedCommit {
  ec_Height : Z;
  ec_Round : Z;
  ec_BlockID : BlockID;
  ec_ExtendedSignatures : list ExtendedCommitSig }.

(** [types.Vote], and the protobuf message [cmtproto.Vote] of the same shape. *)
Record Vote := mkVote {
  vote_Type : Z;
  vote_Height : Z;
  vote_Round : Z;
  vote_BlockID : BlockID;
  vote_Timestamp : Z;
  vote_ValidatorAddress : bytes;
  vote_ValidatorIndex : Z;
  vote_Signature : bytes;
  vote_Extension : bytes;
  vote_ExtensionSignature : bytes }.
Record VoteProto := mkVoteProto {
  vp_Type : Z;
  vp_Height : Z;
  vp_Round : Z;
  vp_BlockID : BlockID;
  vp_Timestamp : Z;
  vp_ValidatorAddress : bytes;
  vp_ValidatorIndex : Z;
  vp_Signature : bytes;
  vp_Extension : bytes;
  vp_ExtensionSignature : bytes }.

(** [types.Proposal] *)
Record Proposal := mkProposal {
  prop_Height : Z;
  prop_Round : Z;
  prop_POLRound : Z;
  prop_BlockID : BlockID;
  prop_Timestamp : Z;
  prop_Signature : bytes }.

(** [types.SignedHeader], [types.LightBlock] *)
Record SignedHeader := mkSignedHeader {
  sh_Header : Header;
  sh_Commit : Commit }.
Record LightBlock := mkLightBlock {
  lb_SignedHeader : SignedHeader;
  lb_ValidatorSet : ValidatorSet }.

(** [types.DuplicateVoteEvidence], [types.LightClientAttackEvidence], and the
    interface [types.Evidence] both implement. *)
Record DuplicateVoteEvidence := mkDuplicateVoteEvidence {
  dve_VoteA : Vote;
  dve_VoteB : Vote;
  dve_TotalVotingPower : Z;
  dve_ValidatorPower : Z;
  dve_Timestamp : Z }.
Record LightClientAttackEvidence := mkLightClientAttackEvidence {
  lca_ConflictingBlock : LightBlock;
  lca_CommonHeight : Z;
  lca_ByzantineValidators : list Validator;
  lca_TotalVotingPower : Z;
  lca_Timestamp : Z }.
Inductive Evidence :=
  | EvDuplicateVote (e : DuplicateVoteEvidence)
  | EvLightClientAttack (e : LightClientAttackEvidence).

(** [types.Block]; [LastCommit] is a pointer, nil in [&types.Block{}]. *)
Record Block := mkBlock {
  blk_Header : Header;
  blk_Txs : list bytes;
  blk_Evidence : list Evidence;
  blk_LastCommit : option Commit }.

(** [state.Version] and [state.State] *)
Record Version := mkVersion {
  ver_Block : Z;
  ver_App : Z;
  ver_Software : string }.
Record State := mkState {
  st_Version : Version;
  st_ChainID : string;
  st_InitialHeight : Z;
  st_LastBlockHeight : Z;
  st_LastBlockID : BlockID;
  st_LastBlockTime : Z;
  st_NextValidators : ValidatorSet;
  st_Validators : ValidatorSet;
  st_LastValidators : ValidatorSet;
  st_LastHeightValidatorsChanged : Z;
  st_ConsensusParams : ConsensusParams;
  st_LastHeightConsensusParamsChanged : Z;
  st_LastResultsHash : bytes;
  st_AppHash : bytes }.

(** [types.GenesisValidator], [types.GenesisDoc] *)
Record GenesisValidator := mkGenesisValidator {
  gv_PubKey : PubKey;
  gv_Power : Z }.
Record GenesisDoc := mkGenesisDoc {
  gd_GenesisTime : Z;
  gd_Validators : list GenesisValidator;
  gd_AppState : bytes }.

(** *** ABCI messages *)

Record ValidatorUpdate := mkValidatorUpdate {
  vu_PubKey : PubKeyProto;
  vu_Power : Z }.
Record VoteInfo := mkVoteInfo {
  vi_Validator : AbciValidator;
  vi_BlockIdFlag : Z }.
Record CommitInfo := mkCommitInfo {
  ci_Round : Z;
  ci_Votes : list VoteInfo }.
Record ExtendedVoteInfo := mkExtendedVoteInfo {
  evi_Validator : AbciValidator;
  evi_BlockIdFlag : Z;
  evi_VoteExtension : bytes;
  evi_ExtensionSignature : bytes }.
Record ExtendedCommitInfo := mkExtendedCommitInfo {
  eci_Round : Z;
  eci_Votes : list ExtendedVoteInfo }.

Record RequestInitChain := mkRequestInitChain {
  ric_Time : Z;
  ric_ChainId : string;
  ric_ConsensusParams : ConsensusParamsProto;
  ric_Validators : list ValidatorUpdate;
  ric_AppStateBytes : bytes;
  ric_InitialHeight : Z }.
Inductive CheckTxType := CheckTxType_New | CheckTxType_Recheck.
Record RequestCheckTx := mkRequestCheckTx {
  rct_Tx : bytes;
  rct_Type : CheckTxType }.
Record RequestQuery := mkRequestQuery {
  rq_Data : bytes;
  rq_Path : string;
  rq_Height : Z;
  rq_Prove : bool }.
Record RequestPrepareProposal := mkRequestPrepareProposal {
  rpp_MaxTxBytes : Z;
  rpp_Txs : list bytes;
  rpp_LocalLastCommit : ExtendedCommitInfo;
  rpp_Misbehavior : list Misbehavior;
  rpp_Height : Z;
  rpp_Time : Z;
  rpp_NextValidatorsHash : bytes;
  rpp_ProposerAddress : bytes }.
Record RequestProcessProposal := mkRequestProcessProposal {
  rpr_Txs : list bytes;
  rpr_ProposedLastCommit : CommitInfo;
  rpr_Misbehavior : list Misbehavior;
  rpr_Hash : bytes;
  rpr_Height : Z;
  rpr_Time : Z;
  rpr_NextValidatorsHash : bytes;
  rpr_ProposerAddress : bytes }.
Record RequestExtendVote := mkRequestExtendVote {
  rev_Hash : bytes;
  rev_Height : Z;
  rev_Time : Z;
  rev_Txs : list bytes;
  rev_ProposedLastCommit : CommitInfo;
  rev_Misbehavior : list Misbehavior;
  rev_NextValidatorsHash : bytes;
  rev_ProposerAddress : bytes }.
Record RequestVerifyVoteExtension := mkRequestVerifyVoteExtension {
  rvv_Hash : bytes;
  rvv_ValidatorAddress : bytes;
  rvv_Height : Z;
  rvv_VoteExtension : bytes }.
Record RequestFinalizeBlock := mkRequestFinalizeBlock {
  rfb_Txs : list bytes;
  rfb_DecidedLastCommit : CommitInfo;
  rfb_Misbehavior : list Misbehavior;
  rfb_Hash : bytes;
  rfb_Height : Z;
  rfb_Time : Z;
  rfb_NextValidatorsHash : bytes;
  rfb_ProposerAddress : bytes }.

Record ResponseInitChain := mkResponseInitChain {
  rsi_ConsensusParams : option ConsensusParamsProto;
  rsi_Validators : list ValidatorUpdate;
  rsi_AppHash : bytes }.
Record ResponseCheckTx := mkResponseCheckTx {
  rsc_Code : Z;
  rsc_Data : bytes;
  rsc_Log : string;
  rsc_Codespace : string;
  rsc_rest : CheckTxRest }.
Record ResponseFinalizeBlock := mkResponseFinalizeBlock {
  rsf_Events : list AbciEvent;
  rsf_TxResults : list ExecTxResult;
  rsf_ValidatorUpdates : list ValidatorUpdate;
  rsf_ConsensusParamUpdates : option ConsensusParamsProto;
  rsf_AppHash : bytes }.
(** [abcitypes.TxResult], what the transaction index stores. *)
Record TxResult := mkTxResult {
  tr_Height : Z;
  tr_Index : Z;
  tr_Tx : bytes;
  tr_Result : ExecTxResult }.

(** [reflect.DeepEqual] on the responses CometMock compares. *)
#[export] Instance ValidatorUpdate_eq : EqDecision ValidatorUpdate.
Proof. solve_decision. Defined.
#[export] Instance ResponseInitChain_eq : EqDecision ResponseInitChain.
Proof. solve_decision. Defined.
#[export] Instance ResponseCheckTx_eq : EqDecision ResponseCheckTx.
Proof. solve_decision. Defined.
#[export] Instance ResponseFinalizeBlock_eq : EqDecision ResponseFinalizeBlock.
Proof. solve_decision. Defined.
#[export] Instance CheckTxType_eq : EqDecision CheckTxType.
Proof. solve_decision. Defined.

(** ** What a run leaves behind for others to see

    The calls to the applications, the clock readings, the random map
    iterations and the published events, in order.  The environment answers
    each call as a function of this history. *)
Inductive abci_request :=
  | ReqInfo
  | ReqInitChain (r : RequestInitChain)
  | ReqCommit
  | ReqCheckTx (r : RequestCheckTx)
  | ReqQuery (r : RequestQuery)
  | ReqPrepareProposal (r : RequestPrepareProposal)
  | ReqProcessProposal (r : RequestProcessProposal)
  | ReqExtendVote (r : RequestExtendVote)
  | ReqVerifyVoteExtension (r : RequestVerifyVoteExtension)
  | ReqFinalizeBlock (r : RequestFinalizeBlock).

(** The [PublishEvent*] methods of [types.EventBus]. *)
Inductive bus_event :=
  | EventNewBlock (b : Block) (id : BlockID) (r : ResponseFinalizeBlock)
  | EventNewBlockHeader (h : Header)
  | EventNewBlockEvents (height : Z) (events : list AbciEvent) (numTxs : Z)
  | EventNewEvidence (ev : Evidence) (height : Z)
  | EventTx (r : TxResult)
  | EventValidatorSetUpdates (vals : list Validator).

Inductive io_event :=
  | IoAbci (c : ABCIHandle) (r : abci_request)
  | IoNow
  | IoRange (keys : list string)
  | IoPublish (e : bus_event)
  | IoIndex                      (** a look at the indexes *)
  | IoGoRunBlock.                (** [go client.RunBlock()] *)

(** [abci_client.AbciCounterpartyClient] (counterparty.go). *)
Record AbciCounterpartyClient := mkAbciCounterpartyClient {
  Client : ABCIHandle;
  NetworkAddress : string;
  ValidatorAddress : string;
  PrivVal : PrivValidator }.
End structs.

(** [NewAbciCounterpartyClient] *)
Definition NewAbciCounterpartyClient `{CometTypes} (client : ABCIHandle)
    (networkAddress validatorAddress : string) (privValidator : PrivValidator)
  : AbciCounterpartyClient :=
  {| Client := client;
     NetworkAddress := networkAddress;
     ValidatorAddress := validatorAddress;
     PrivVal := privValidator |}.

(** ** Methods and functions of CometBFT that CometMock calls

    A method that can fail or panic returns an [outcome]. [Copy] methods and
    pointers to freshly made copies are values here. *)
Class CometOps `{CometTypes} := {
  Address_String : bytes → string;
  Header_Hash : Header → bytes;
  Block_Hash : Block → bytes;
  Tx_Hash : bytes → bytes;
  (** [block.MakePartSet(size)], then [.Header()] *)
  Block_MakePartSet : Block → Z → outcome PartSetHeader;
  State_MakeBlock : State → Z → list bytes → Commit → list Evidence → bytes → Block;
  Txs_Validate : list bytes → Z → outcome unit;
  Txs_Proof : list bytes → Z → outcome TxProof;
  Commit_Size : option Commit → Z;  (** the receiver may be nil *)
  ExtendedCommit_Size : ExtendedCommit → Z;
  ExtendedCommit_ToCommit : ExtendedCommit → Commit;
  ExtendedCommitSig_EnsureExtension : ExtendedCommitSig → bool → outcome unit;
  VoteExtensionsEnabled : ABCIParams → Z → bool;
  BlockIDFlagAbsent : Z;
  PrecommitType : Z;
  BlockPartSizeBytes : Z;
  MaxBlockSizeBytes : Z;
  CodeTypeOK : Z;
  (** validators *)
  NewValidator : PubKey → Z → Validator;
  NewValidatorSet : list Validator → outcome ValidatorSet;
  CopyIncrementProposerPriority : ValidatorSet → Z → outcome ValidatorSet;
  IncrementProposerPriority : ValidatorSet → Z → outcome ValidatorSet;
  UpdateWithChangeSet : ValidatorSet → list Validator → outcome ValidatorSet;
  GetByAddress : ValidatorSet → bytes → Z * option Validator;
  TotalVotingPower : ValidatorSet → Z;
  VerifyCommitLightTrusting : ValidatorSet → string → Commit → Z * Z → outcome unit;
  LightBlock_ValidateBasic : LightBlock → string → outcome unit;
  TM2PB_Validator : Validator → AbciValidator;
  TM2PB_ValidatorUpdates : ValidatorSet → list ValidatorUpdate;
  PB2TM_ValidatorUpdates : list ValidatorUpdate → outcome (list Validator);
  PubKeyFromProto : PubKeyProto → outcome PubKey;
  PubKey_Type : PubKey → string;
  PubKey_Address : PubKey → bytes;
  IsValidPubkeyType : ValidatorParams → string → bool;
  (** consensus parameters *)
  cp_Validator : ConsensusParams → ValidatorParams;
  cp_ABCI : ConsensusParams → ABCIParams;
  cp_Version_App : ConsensusParams → Z;
  cp_Update : ConsensusParams → ConsensusParamsProto → ConsensusParams;
  cp_ValidateBasic : ConsensusParams → outcome unit;
  cp_ToProto : ConsensusParams → ConsensusParamsProto;
  (** hashes *)
  TxResultsHash : list ExecTxResult → bytes;
  HashFromByteSlices : list bytes → bytes;
  EvidenceList_ToABCI : list Evidence → list Misbehavior;
  (** votes *)
  NewVoteSet : string → Z → Z → Z → ValidatorSet → VoteSet;
  NewExtendedVoteSet : string → Z → Z → Z → ValidatorSet → VoteSet;
  VoteSet_AddVote : VoteSet → Vote → outcome (bool * VoteSet);
  VoteSet_MakeExtendedCommit : VoteSet → ABCIParams → outcome ExtendedCommit;
  Vote_ToProto : Vote → VoteProto;
  VoteFromProto : VoteProto → outcome Vote;
  Vote_ValidateBasic : Vote → outcome unit;
  (** [privVal.SignVote(chainID, v)]: the message as it is left, and the error *)
  SignVote : PrivValidator → string → VoteProto → VoteProto * outcome unit;
  (** the signature [SignProposal] leaves in the message *)
  SignProposal : PrivValidator → string → Proposal → outcome bytes;
  GetPubKey : PrivValidator → outcome PubKey;
  NewProposal : Z → Z → Z → BlockID → Proposal;
  (** [deepcopy.Anything] on a block *)
  deepcopy_Block : Block → outcome Block;
  rpp_IsStatusUnknown : ResponseProcessProposal → bool;
  rpp_IsAccepted : ResponseProcessProposal → bool;
  rvv_IsStatusUnknown : ResponseVerifyVoteExtension → bool;
  rvv_IsAccepted : ResponseVerifyVoteExtension → bool;
}.

(** ** The environment

    Applications, system clock and map iteration order, as functions of the
    history: any behaviour that depends on what happened so far (hence on time
    and on chance, since no two calls share a history) is such a function. *)
Class Env `{CometTypes} := {
  env_Info : list io_event → ABCIHandle → outcome ResponseInfo;
  env_InitChain : list io_event → ABCIHandle → RequestInitChain → outcome ResponseInitChain;
  env_Commit : list io_event → ABCIHandle → outcome ResponseCommit;
  env_CheckTx : list io_event → ABCIHandle → RequestCheckTx → outcome ResponseCheckTx;
  env_Query : list io_event → ABCIHandle → RequestQuery → outcome ResponseQuery;
  env_PrepareProposal : list io_event → ABCIHandle → RequestPrepareProposal → outcome (list bytes);
  env_ProcessProposal : list io_event → ABCIHandle → RequestProcessProposal → outcome ResponseProcessProposal;
  env_ExtendVote : list io_event → ABCIHandle → RequestExtendVote → outcome bytes;
  env_VerifyVoteExtension : list io_event → ABCIHandle → RequestVerifyVoteExtension → outcome ResponseVerifyVoteExtension;
  env_FinalizeBlock : list io_event → ABCIHandle → RequestFinalizeBlock → outcome ResponseFinalizeBlock;
  (** the system clock, in nanoseconds since the epoch *)
  env_Now : list io_event → Z;
  (** the order in which [for k, v := range m] visits a map *)
  env_Range : list io_event → list (string * AbciCounterpartyClient) →
    list (string * AbciCounterpartyClient);
}.

(** ** What the proofs rely on

    Documented behaviour of CometBFT's constructors and accessors, of the hex
    encoding of addresses and of Go's [range] over a map.  [vset_Size],
    [vset_Height], [vset_Round] and [vset_GetByIndex] are the accessors
    [VoteSet.Size], [Height], [GetRound] and [GetByIndex]. *)
Class CometLaws `{CometOps} := {
  Address_String_inj :: Inj (=) (=) Address_String;
  Commit_Size_law : ∀ c, Commit_Size (Some c) = Z.of_nat (length (cm_Signatures c));
  ExtendedCommit_Size_law : ∀ ec,
    ExtendedCommit_Size ec = Z.of_nat (length (ec_ExtendedSignatures ec));
  (** "removes all the vote extension-related fields" *)
  ToCommit_law : ∀ ec, ExtendedCommit_ToCommit ec =
    mkCommit (ec_Height ec) (ec_Round ec) (ec_BlockID ec)
      (ecs_CommitSig <$> ec_ExtendedSignatures ec);
  MakeBlock_law : ∀ st h txs c ev addr,
    let b := State_MakeBlock st h txs c ev addr in
    hdr_Height (blk_Header b) = h ∧ blk_Txs b = txs ∧ blk_LastCommit b = Some c ∧
    blk_Evidence b = ev ∧ hdr_ProposerAddress (blk_Header b) = addr;
  vset_Size : VoteSet → nat;
  vset_Height : VoteSet → Z;
  vset_Round : VoteSet → Z;
  vset_GetByIndex : VoteSet → Z → option Vote;
  NewVoteSet_law : ∀ chain h r t vals,
    let vs := NewVoteSet chain h r t vals in
    vset_Size vs = length (vs_Validators vals) ∧ vset_Height vs = h ∧ vset_Round vs = r ∧
    ∀ i, vset_GetByIndex vs i = None;
  NewExtendedVoteSet_law : ∀ chain h r t vals,
    let vs := NewExtendedVoteSet chain h r t vals in
    vset_Size vs = length (vs_Validators vals) ∧ vset_Height vs = h ∧ vset_Round vs = r ∧
    ∀ i, vset_GetByIndex vs i = None;
  AddVote_law : ∀ vs v b vs', VoteSet_AddVote vs v = Ret (b, vs') →
    vset_Size vs' = vset_Size vs ∧ vset_Height vs' = vset_Height vs ∧
    vset_Round vs' = vset_Round vs ∧
    ∀ i, vset_GetByIndex vs' i =
      if decide (b = true ∧ i = vote_ValidatorIndex v) then Some v else vset_GetByIndex vs i;
  (** one signature per validator, absent where there is no vote; the vote's
      address otherwise; extensions as the parameters demand *)
  MakeExtendedCommit_law : ∀ vs ap ec, VoteSet_MakeExtendedCommit vs ap = Ret ec →
    ec_Height ec = vset_Height vs ∧ ec_Round ec = vset_Round vs ∧
    length (ec_ExtendedSignatures ec) = vset_Size vs ∧
    ∀ i sig, ec_ExtendedSignatures ec !! i = Some sig →
      ExtendedCommitSig_EnsureExtension sig (VoteExtensionsEnabled ap (ec_Height ec)) = Ret tt ∧
      (cs_BlockIDFlag (ecs_CommitSig sig) ≠ BlockIDFlagAbsent →
       ∃ v, vset_GetByIndex vs (Z.of_nat i) = Some v ∧
         cs_ValidatorAddress (ecs_CommitSig sig) = vote_ValidatorAddress v);
}.

Class EnvLaws `{Env} := {
  env_Range_perm : ∀ io l, env_Range io l ≡ₚ l;
}.
