(* ===== verification/Toy.v ===== *)
(** * A concrete CometBFT and environment

    An executable instance of [CometTypes], [CometOps] and [Env] that satisfies
    [CometLaws] and [EnvLaws]: names for keys, short strings for hashes, vote
    sets that count power, an application steered by the transactions it is
    given.  The examples that show the hypotheses of the theorems can hold run
    on it; no theorem about CometMock depends on it. *)

From S2P Require Import Prelude.
From S2P Require Import CometTypes.
#[local] Open Scope Z_scope.

Module ToyInstances.

#[export] Instance toy_types : CometTypes := {
  PubKey := string;                (* the key is the validator's name *)
  PubKeyProto := string;
  ConsensusParams := Z * Z;        (* app version, vote extension enable height *)
  ConsensusParamsProto := Z * Z;
  ValidatorParams := unit;
  ABCIParams := Z;
  PartSetHeader := Z;
  HeaderRest := unit;
  AbciEvent := string;
  ExecTxResult := Z;
  CheckTxRest := unit;
  Misbehavior := Z;
  (* height, round, (name, power) of the validators, votes by index *)
  VoteSet := Z * Z * list (string * Z) *
    list (Z * (Z * Z * Z * (string * Z) * Z * string * (string * string * string)));
  PrivValidator := string;
  ABCIHandle := string;
  AbciValidator := string * Z;
  ResponseInfo := Z;
  ResponseCommit := Z;
  ResponseQuery := string;
  ResponseProcessProposal := bool;
  ResponseVerifyVoteExtension := bool;
  TxProof := Z;
  Query := string;
}.

Definition toy_encode_vote (v : Vote)
  : Z * (Z * Z * Z * (string * Z) * Z * string * (string * string * string)) :=
  (vote_ValidatorIndex v,
   (vote_Type v, vote_Height v, vote_Round v,
    (bid_Hash (vote_BlockID v), bid_PartSetHeader (vote_BlockID v)),
    vote_Timestamp v, vote_ValidatorAddress v,
    (vote_Signature v, vote_Extension v, vote_ExtensionSignature v))).
Definition toy_decode_vote
  (e : Z * (Z * Z * Z * (string * Z) * Z * string * (string * string * string))) : Vote :=
  let '(i, (t, h, r, (bh, ph), ts, addr, (s, x, xs))) := e in
  mkVote t h r (mkBlockID bh ph) ts addr i s x xs.

Lemma toy_decode_encode v : toy_decode_vote (toy_encode_vote v) = v.
Proof. by destruct v as [? ? ? [] ? ? ? ? ? ?]. Qed.

Definition toy_new_vote_set (h r : Z) (vals : ValidatorSet) : VoteSet :=
  (h, r, (λ v, (val_Address v, val_VotingPower v)) <$> vs_Validators vals, []).

Definition toy_votes (vs : VoteSet) : list _ := vs.2.
Definition toy_lookup_vote (vs : VoteSet) (i : Z) : option Vote :=
  match list_find (λ e, e.1 = i) (toy_votes vs) with
  | Some (_, e) => Some (toy_decode_vote e)
  | None => None
  end.

Definition toy_add_vote (vs : VoteSet) (v : Vote) : outcome (bool * VoteSet) :=
  let '(h, r, vals, votes) := vs in
  if decide (vote_Height v = h ∧ vote_Round v = r) then
    if decide (0 ≤ vote_ValidatorIndex v < Z.of_nat (length vals)) then
      Ret (true, (h, r, vals, toy_encode_vote v :: votes))
    else Err (ExtErr "invalid validator index")
  else Err (ExtErr "unexpected step").

Definition toy_sum (l : list Z) : Z := foldr Z.add 0 l.

Definition toy_sig (vs : VoteSet) (i : nat) : ExtendedCommitSig :=
  match toy_lookup_vote vs (Z.of_nat i) with
  | Some v => mkExtendedCommitSig
      (mkCommitSig 2 (vote_ValidatorAddress v) (vote_Timestamp v) (vote_Signature v))
      (vote_Extension v) (vote_ExtensionSignature v)
  | None => mkExtendedCommitSig (mkCommitSig 1 "" 0 "") "" ""
  end.

Definition toy_make_extended_commit (vs : VoteSet) (ap : Z) : outcome ExtendedCommit :=
  let '(h, r, vals, votes) := vs in
  let total := toy_sum (vals.*2) in
  let voted := toy_sum (imap (λ i v, match toy_lookup_vote vs (Z.of_nat i) with Some _ => v.2 | None => 0 end) vals) in
  if decide (2 * total < 3 * voted) then
    Ret (mkExtendedCommit h r (mkBlockID "" 0)
           (imap (λ i _, toy_sig vs i) vals))
  else Panic (PanicMsg "Cannot MakeExtendedCommit() unless a blockhash has +2/3").

Definition toy_proposer (vals : list Validator) (p : option Validator) : ValidatorSet :=
  mkValidatorSet vals (match p with Some v => Some v | None => head vals end).

Definition toy_validator (name : string) (power : Z) : Validator :=
  mkValidator name name power 0.

(** Remove the updated names, then append those with a positive power. *)
Definition toy_change (vs : ValidatorSet) (ups : list Validator) : outcome ValidatorSet :=
  let kept := filter (λ v, val_Address v ∉ val_Address <$> ups) (vs_Validators vs) in
  let added := filter (λ v, 0 < val_VotingPower v) ups in
  match kept ++ added with
  | [] => Err (ExtErr "applying the validator changes would result in empty set")
  | l => Ret (toy_proposer l (head l))
  end.

#[export] Instance toy_ops : CometOps := {
  Address_String := λ a, a;
  Header_Hash := λ h, hdr_AppHash h;
  Block_Hash := λ b, String.concat "," (hdr_AppHash (blk_Header b) :: blk_Txs b);
  Tx_Hash := λ tx, "#" +:+ tx;
  Block_MakePartSet := λ b _, Ret (Z.of_nat (length (blk_Txs b)));
  State_MakeBlock := λ st h txs c ev addr,
    mkBlock (mkHeader h (st_LastBlockTime st) "next" (st_AppHash st) addr tt) txs ev (Some c);
  Txs_Validate := λ txs _,
    if decide ("toobig" ∈ txs) then Err (ExtErr "transaction data size exceeds maximum") else Ret tt;
  Txs_Proof := λ txs i,
    if decide (0 ≤ i < Z.of_nat (length txs)) then Ret i else Panic IndexOutOfRange;
  Commit_Size := λ c, match c with Some c => Z.of_nat (length (cm_Signatures c)) | None => 0 end;
  ExtendedCommit_Size := λ ec, Z.of_nat (length (ec_ExtendedSignatures ec));
  ExtendedCommit_ToCommit := λ ec,
    mkCommit (ec_Height ec) (ec_Round ec) (ec_BlockID ec)
      (ecs_CommitSig <$> ec_ExtendedSignatures ec);
  ExtendedCommitSig_EnsureExtension := λ _ _, Ret tt;
  VoteExtensionsEnabled := λ ap h, bool_decide (ap ≠ 0 ∧ ap ≤ h);
  BlockIDFlagAbsent := 1;
  PrecommitType := 2;
  BlockPartSizeBytes := 65536;
  MaxBlockSizeBytes := 104857600;
  CodeTypeOK := 0;
  NewValidator := toy_validator;
  NewValidatorSet := λ vals, Ret (toy_proposer vals None);
  CopyIncrementProposerPriority := λ vs _, Ret vs;
  IncrementProposerPriority := λ vs _,
    match vs_Validators vs with [] => Panic (PanicMsg "empty validator set") | _ => Ret vs end;
  UpdateWithChangeSet := toy_change;
  GetByAddress := λ vs a,
    match list_find (λ v, val_Address v = a) (vs_Validators vs) with
    | Some (i, v) => (Z.of_nat i, Some v)
    | None => (-1, None)
    end;
  TotalVotingPower := λ vs, toy_sum (val_VotingPower <$> vs_Validators vs);
  VerifyCommitLightTrusting := λ _ _ _ _, Ret tt;
  LightBlock_ValidateBasic := λ _ _, Ret tt;
  TM2PB_Validator := λ v, (val_Address v, val_VotingPower v);
  TM2PB_ValidatorUpdates := λ vs,
    (λ v, mkValidatorUpdate (val_Address v : PubKeyProto) (val_VotingPower v)) <$> vs_Validators vs;
  PB2TM_ValidatorUpdates := λ ups,
    Ret ((λ u, toy_validator (vu_PubKey u) (vu_Power u)) <$> ups);
  PubKeyFromProto := λ k, Ret k;
  PubKey_Type := λ k, if decide (k = "eve") then "secp256k1" else "ed25519";
  PubKey_Address := λ k, k;
  IsValidPubkeyType := λ _ t, bool_decide (t = "ed25519");
  cp_Validator := λ _, tt;
  cp_ABCI := λ cp, cp.2;
  cp_Version_App := λ cp, cp.1;
  cp_Update := λ _ u, u;
  cp_ValidateBasic := λ cp, if decide (0 ≤ cp.2) then Ret tt else Err (ExtErr "negative height");
  cp_ToProto := λ cp, cp;
  TxResultsHash := λ rs, String.concat "" ((λ r, if decide (r = 0) then "o" else "x") <$> rs);
  HashFromByteSlices := λ l, "root" +:+ String.concat "" l;
  EvidenceList_ToABCI := λ ev, imap (λ i _, Z.of_nat i) ev;
  NewVoteSet := λ _ h r _ vals, toy_new_vote_set h r vals;
  NewExtendedVoteSet := λ _ h r _ vals, toy_new_vote_set h r vals;
  VoteSet_AddVote := toy_add_vote;
  VoteSet_MakeExtendedCommit := toy_make_extended_commit;
  Vote_ToProto := λ v,
    mkVoteProto (vote_Type v) (vote_Height v) (vote_Round v) (vote_BlockID v) (vote_Timestamp v)
      (vote_ValidatorAddress v) (vote_ValidatorIndex v) (vote_Signature v) (vote_Extension v)
      (vote_ExtensionSignature v);
  VoteFromProto := λ v,
    Ret (mkVote (vp_Type v) (vp_Height v) (vp_Round v) (vp_BlockID v) (vp_Timestamp v)
      (vp_ValidatorAddress v) (vp_ValidatorIndex v) (vp_Signature v) (vp_Extension v)
      (vp_ExtensionSignature v));
  Vote_ValidateBasic := λ v, Ret tt;
  SignVote := λ k chain v,
    (mkVoteProto (vp_Type v) (vp_Height v) (vp_Round v) (vp_BlockID v) (vp_Timestamp v)
      (vp_ValidatorAddress v) (vp_ValidatorIndex v) ("sig-" +:+ k) (vp_Extension v)
      ("xsig-" +:+ k), Ret tt);
  SignProposal := λ k _ _, Ret ("sig-" +:+ k);
  GetPubKey := λ k, Ret k;
  NewProposal := λ h r pol id, mkProposal h r pol id 0 "";
  deepcopy_Block := λ b, Ret b;
  rpp_IsStatusUnknown := λ _, false;
  rpp_IsAccepted := λ r, r;
  rvv_IsStatusUnknown := λ _, false;
  rvv_IsAccepted := λ r, r;
}.

(** The application: transaction "bad" fails CheckTx, "late" is left out of
    proposals, "veto" makes the others refuse the proposal; in FinalizeBlock
    "neg" returns a negative power, "join" adds validator "carol", "crash" is an
    error. *)
Definition toy_updates (txs : list bytes) : list ValidatorUpdate :=
  (if decide ("neg" ∈ txs) then [mkValidatorUpdate ("alice" : PubKeyProto) (-1)] else []) ++
  (if decide ("join" ∈ txs) then [mkValidatorUpdate ("carol" : PubKeyProto) 1] else []).

#[export] Instance toy_env : Env := {
  env_Info := λ io _, Ret (Z.of_nat (length io) * 0);
  env_InitChain := λ _ _ r, Ret (mkResponseInitChain None (ric_Validators r) "genesis-app");
  env_Commit := λ _ _, Ret 0;
  env_CheckTx := λ _ _ r,
    Ret (mkResponseCheckTx (if decide (rct_Tx r = "bad") then 1 else 0) "" "" "" tt);
  env_Query := λ _ _ r, Ret (rq_Path r);
  env_PrepareProposal := λ _ _ r, Ret (filter (λ tx, tx ≠ "late") (rpp_Txs r));
  env_ProcessProposal := λ _ _ r, Ret (bool_decide ("veto" ∉ rpr_Txs r));
  env_ExtendVote := λ _ c r, Ret ("ext-" +:+ c);
  env_VerifyVoteExtension := λ _ _ _, Ret true;
  env_FinalizeBlock := λ _ _ r,
    if decide ("crash" ∈ rfb_Txs r) then Err (ExtErr "connection lost")
    else Ret (mkResponseFinalizeBlock [] ((λ _, 0) <$> rfb_Txs r)
                (toy_updates (rfb_Txs r)) None "app");
  env_Now := λ io, 1000000 + Z.of_nat (length io);
  env_Range := λ _ l, l;
}.

Lemma toy_lookup_cons e vs votes i :
  toy_lookup_vote (vs, e :: votes) i =
    if decide (e.1 = i) then Some (toy_decode_vote e) else toy_lookup_vote (vs, votes) i.
Proof.
  unfold toy_lookup_vote, toy_votes. simpl. case_decide; [done|].
  by destruct (list_find _ votes) as [[]|].
Qed.

#[export] Instance toy_laws : CometLaws.
Proof.
  refine {| vset_Size := λ vs, length vs.1.2;
            vset_Height := λ vs, vs.1.1.1;
            vset_Round := λ vs, vs.1.1.2;
            vset_GetByIndex := toy_lookup_vote |}.
  - done.
  - done.
  - done.
  - done.
  - intros chain h r t vals. simpl. by rewrite length_fmap.
  - intros chain h r t vals. simpl. by rewrite length_fmap.
  - intros [[[h r] vals] votes] v b vs'. simpl. case_decide; [|done]. case_decide; [|done].
    intros [= <- <-]. split_and!; [done..|]. intros i.
    change (h, r, vals, toy_encode_vote v :: votes) with ((h, r, vals), toy_encode_vote v :: votes).
    rewrite toy_lookup_cons, toy_decode_encode.
    change (toy_encode_vote v).1 with (vote_ValidatorIndex v).
    destruct (decide (vote_ValidatorIndex v = i)).
    + by rewrite decide_True.
    + rewrite decide_False; [done|]. intros [_ ?]. congruence.
  - intros [[[h r] vals] votes] ap ec. unfold VoteSet_MakeExtendedCommit, toy_ops,
      toy_make_extended_commit. case_decide; [|done]. intros [= <-]. simpl.
    split_and!; [done | done | by rewrite length_imap |].
    intros i sig Hi. split; [done|]. rewrite list_lookup_imap in Hi.
    apply fmap_Some in Hi as (x & _ & ->). unfold toy_sig.
    destruct (toy_lookup_vote _ _) as [v|] eqn:E; simpl; [eauto | done].
Defined.

#[export] Instance toy_env_laws : EnvLaws.
Proof. constructor. done. Qed.

End ToyInstances.
