(* ===== verification/Storage.v ===== *)
(** * storage/storage.go: blocks, commits, states and responses by height

    [StorageOps] is the [Storage] interface; [StorageLaws] is the contract its
    comments give: one map from heights to (block, commit, state, responses),
    a lock around updates, reads that wait while the lock is held.  The rest of
    the development uses only that contract.  [MapStorage] is the in-memory
    implementation and [MapStorage_laws] shows it meets the contract. *)

From S2P Require Import Prelude.
From S2P Require Import CometTypes.
#[local] Open Scope Z_scope.

(** ** [sync.RWMutex] *)

Record RWMutex := mkRWMutex { rw_writer : bool; rw_readers : nat }.

Definition RLock : M RWMutex unit := λ m,
  if rw_writer m then (Blocked, m)
  else (Ret tt, mkRWMutex false (S (rw_readers m))).
Definition RUnlock : M RWMutex unit := λ m,
  match rw_readers m with
  | O => (Panic FatalUnlock, m)
  | S n => (Ret tt, mkRWMutex (rw_writer m) n)
  end.
Definition Lock : M RWMutex unit := λ m,
  if rw_writer m || negb (rw_readers m =? 0)%nat then (Blocked, m)
  else (Ret tt, mkRWMutex true 0).
Definition Unlock : M RWMutex unit := λ m,
  if rw_writer m then (Ret tt, mkRWMutex false (rw_readers m))
  else (Panic FatalUnlock, m).

(** [defer cleanup()]: run on return, on error and on panic. *)
Definition defer_ {S A} (cleanup : M S unit) (m : M S A) : M S A := λ s,
  match m s with
  | (Blocked, s') => (Blocked, s')
  | (o, s') => match cleanup s' with
               | (Ret _, s'') => (o, s'')
               | (Err e, s'') => (Err e, s'')
               | (Panic p, s'') => (Panic p, s'')
               | (Blocked, s'') => (Blocked, s'')
               end
  end.

(** ** The interface *)

Section interface.
Context `{CometTypes}.

(** What is stored for one height. *)
Record entry := mkEntry {
  e_block : Block;
  e_commit : Commit;
  e_state : State;
  e_responses : ResponseFinalizeBlock }.

Class StorageOps (ST : Type) := {
  GetBlock : Z → M ST Block;
  GetCommit : Z → M ST Commit;
  GetState : Z → M ST State;
  GetResponses : Z → M ST ResponseFinalizeBlock;
  LockBeforeStateUpdate : M ST unit;
  UnlockAfterStateUpdate : M ST unit;
  UpdateStores : Z → Block → Commit → State → ResponseFinalizeBlock → M ST unit;
}.

Definition not_found (what : string) (height : Z) : error :=
  Errorf (what +:+ " for height %v not found") [AInt height].

(** A read returns the stored component or the "not found" error, and waits
    exactly while the update lock is held; it changes nothing that can be
    observed. *)
Definition get_contract {ST A} (wf : ST → Prop) (locked : ST → bool)
    (view : ST → gmap Z entry) (get : Z → M ST A) (proj : entry → A)
    (what : string) : Prop :=
  ∀ height s, wf s → ∃ s',
    get height s =
      (if locked s then Blocked
       else from_option (λ e, Ret (proj e)) (Err (not_found what height)) (view s !! height), s') ∧
    wf s' ∧ locked s' = locked s ∧ view s' = view s.

Class StorageLaws (ST : Type) `{!StorageOps ST} := {
  st_wf : ST → Prop;
  st_locked : ST → bool;
  st_view : ST → gmap Z entry;
  GetBlock_law : get_contract st_wf st_locked st_view GetBlock e_block "block";
  GetCommit_law : get_contract st_wf st_locked st_view GetCommit e_commit "commit";
  GetState_law : get_contract st_wf st_locked st_view GetState e_state "state";
  GetResponses_law : get_contract st_wf st_locked st_view GetResponses e_responses "responses";
  Lock_law : ∀ s, st_wf s → ∃ s',
    LockBeforeStateUpdate s = (if st_locked s then Blocked else Ret tt, s') ∧
    st_wf s' ∧ st_locked s' = true ∧ st_view s' = st_view s;
  Unlock_law : ∀ s, st_wf s → st_locked s = true → ∃ s',
    UnlockAfterStateUpdate s = (Ret tt, s') ∧
    st_wf s' ∧ st_locked s' = false ∧ st_view s' = st_view s;
  UpdateStores_law : ∀ height b c st r s, st_wf s → ∃ s',
    UpdateStores height b c st r s = (Ret tt, s') ∧
    st_wf s' ∧ st_locked s' = st_locked s ∧
    st_view s' = <[height := mkEntry b c st r]> (st_view s);
}.

(** Storages no reader can tell apart. *)
Definition st_same `{StorageLaws ST} (s s' : ST) : Prop :=
  st_wf s → st_wf s' ∧ st_locked s' = st_locked s ∧ st_view s' = st_view s.

#[export] Instance st_same_preorder `{StorageLaws ST} : PreOrder (st_same (ST:=ST)).
Proof.
  split.
  - intros s ?. done.
  - intros s1 s2 s3 H12 H23 Hwf.
    destruct (H12 Hwf) as (Hwf2 & Hl & Hv). destruct (H23 Hwf2) as (? & Hl' & Hv').
    split_and!; congruence.
Qed.
End interface.

(** ** [MapStorage] *)

Section MapStorage.
Context `{CometTypes}.

(** A nil Go map is [None]. *)
Record MapStorage := mkMapStorage {
  stateUpdateMutex : RWMutex;
  blocks : option (gmap Z Block);
  commits : option (gmap Z Commit);
  states : option (gmap Z State);
  responses : option (gmap Z ResponseFinalizeBlock) }.

(** [&storage.MapStorage{}] *)
Definition empty_MapStorage : MapStorage :=
  mkMapStorage (mkRWMutex false 0) None None None None.

Definition on_mutex {A} (m : M RWMutex A) : M MapStorage A := λ s,
  let '(o, x) := m (stateUpdateMutex s) in
  (o, mkMapStorage x (blocks s) (commits s) (states s) (responses s)).
Definition set_blocks (x : gmap Z Block) (s : MapStorage) : MapStorage :=
  mkMapStorage (stateUpdateMutex s) (Some x) (commits s) (states s) (responses s).
Definition set_commits (x : gmap Z Commit) (s : MapStorage) : MapStorage :=
  mkMapStorage (stateUpdateMutex s) (blocks s) (Some x) (states s) (responses s).
Definition set_states (x : gmap Z State) (s : MapStorage) : MapStorage :=
  mkMapStorage (stateUpdateMutex s) (blocks s) (commits s) (Some x) (responses s).
Definition set_responses (x : gmap Z ResponseFinalizeBlock) (s : MapStorage) : MapStorage :=
  mkMapStorage (stateUpdateMutex s) (blocks s) (commits s) (states s) (Some x).

(** [if m.xs == nil { m.xs = make(...) }], then the map. *)
Definition ensure {A} (get : MapStorage → option (gmap Z A))
    (set : gmap Z A → MapStorage → MapStorage) : M MapStorage (gmap Z A) :=
  x ← gets get;
  match x with
  | Some m => mret m
  | None => modify (set ∅) ;; mret ∅
  end.

Definition insertBlock (height : Z) (block : Block) : M MapStorage unit :=
  m ← ensure blocks set_blocks; modify (set_blocks (<[height := block]> m)).
Definition insertCommit (height : Z) (commit : Commit) : M MapStorage unit :=
  m ← ensure commits set_commits; modify (set_commits (<[height := commit]> m)).
Definition insertState (height : Z) (state : State) : M MapStorage unit :=
  m ← ensure states set_states; modify (set_states (<[height := state]> m)).
Definition insertResponses (height : Z) (r : ResponseFinalizeBlock) : M MapStorage unit :=
  m ← ensure responses set_responses; modify (set_responses (<[height := r]> m)).

(** The body the four getters share:
    [RLock; defer RUnlock; lookup or error]. *)
Definition get_from {A} (what : string) (get : MapStorage → option (gmap Z A))
    (set : gmap Z A → MapStorage → MapStorage) (height : Z) : M MapStorage A :=
  on_mutex RLock ;;
  defer_ (on_mutex RUnlock)
    (m ← ensure get set;
     match m !! height with
     | Some x => mret x
     | None => throw (not_found what height)
     end).

Definition MapStorage_GetBlock : Z → M MapStorage Block :=
  get_from "block" blocks set_blocks.
Definition MapStorage_GetCommit : Z → M MapStorage Commit :=
  get_from "commit" commits set_commits.
Definition MapStorage_GetState : Z → M MapStorage State :=
  get_from "state" states set_states.
Definition MapStorage_GetResponses : Z → M MapStorage ResponseFinalizeBlock :=
  get_from "responses" responses set_responses.

Definition MapStorage_LockBeforeStateUpdate : M MapStorage unit := on_mutex Lock.
Definition MapStorage_UnlockAfterStateUpdate : M MapStorage unit := on_mutex Unlock.

Definition MapStorage_UpdateStores (height : Z) (block : Block) (commit : Commit)
    (state : State) (r : ResponseFinalizeBlock) : M MapStorage unit :=
  insertBlock height block ;;
  insertCommit height commit ;;
  insertState height state ;;
  insertResponses height r ;;
  mret tt.

#[export] Instance MapStorage_ops : StorageOps MapStorage := {
  GetBlock := MapStorage_GetBlock;
  GetCommit := MapStorage_GetCommit;
  GetState := MapStorage_GetState;
  GetResponses := MapStorage_GetResponses;
  LockBeforeStateUpdate := MapStorage_LockBeforeStateUpdate;
  UnlockAfterStateUpdate := MapStorage_UnlockAfterStateUpdate;
  UpdateStores := MapStorage_UpdateStores;
}.

(** *** The contract holds *)

Definition the_map {A} (m : option (gmap Z A)) : gmap Z A := default ∅ m.

Definition map_view (s : MapStorage) : gmap Z entry :=
  map_zip_with (λ bc sr, mkEntry bc.1 bc.2 sr.1 sr.2)
    (map_zip_with pair (the_map (blocks s)) (the_map (commits s)))
    (map_zip_with pair (the_map (states s)) (the_map (responses s))).

(** No reader is inside, and the four maps have the same heights. *)
Definition map_wf (s : MapStorage) : Prop :=
  rw_readers (stateUpdateMutex s) = 0%nat ∧
  dom (the_map (commits s)) = dom (the_map (blocks s)) ∧
  dom (the_map (states s)) = dom (the_map (blocks s)) ∧
  dom (the_map (responses s)) = dom (the_map (blocks s)).

Definition map_locked (s : MapStorage) : bool := rw_writer (stateUpdateMutex s).

Lemma map_view_lookup s h :
  map_view s !! h =
    b ← the_map (blocks s) !! h; c ← the_map (commits s) !! h;
    st ← the_map (states s) !! h; r ← the_map (responses s) !! h;
    Some (mkEntry b c st r).
Proof.
  unfold map_view. rewrite !map_lookup_zip_with.
  destruct (the_map (blocks s) !! h), (the_map (commits s) !! h),
    (the_map (states s) !! h), (the_map (responses s) !! h); done.
Qed.

(** At one height, a well-formed storage has all four components or none. *)
Lemma map_wf_height s h : map_wf s →
  (∃ b c st r, the_map (blocks s) !! h = Some b ∧ the_map (commits s) !! h = Some c ∧
     the_map (states s) !! h = Some st ∧ the_map (responses s) !! h = Some r) ∨
  (the_map (blocks s) !! h = None ∧ the_map (commits s) !! h = None ∧
     the_map (states s) !! h = None ∧ the_map (responses s) !! h = None).
Proof.
  intros (_ & Hc & Hs & Hr). destruct (the_map (blocks s) !! h) as [b|] eqn:Hb.
  - assert (h ∈ dom (the_map (blocks s))) as Hin by (apply elem_of_dom; eauto).
    pose proof Hin as Hin1. rewrite <-Hc in Hin1. apply elem_of_dom in Hin1 as [c ?].
    pose proof Hin as Hin2. rewrite <-Hs in Hin2. apply elem_of_dom in Hin2 as [st ?].
    pose proof Hin as Hin3. rewrite <-Hr in Hin3. apply elem_of_dom in Hin3 as [r ?].
    left. eauto 10.
  - apply not_elem_of_dom in Hb. right.
    split_and!; first [done | apply not_elem_of_dom; congruence].
Qed.

(** Same lock, same contents: a nil map and an empty one are not told apart. *)
Definition obs_eq (s s' : MapStorage) : Prop :=
  stateUpdateMutex s' = stateUpdateMutex s ∧
  the_map (blocks s') = the_map (blocks s) ∧
  the_map (commits s') = the_map (commits s) ∧
  the_map (states s') = the_map (states s) ∧
  the_map (responses s') = the_map (responses s).

Lemma obs_eq_same s s' : obs_eq s s' → map_wf s →
  map_wf s' ∧ map_locked s' = map_locked s ∧ map_view s' = map_view s.
Proof.
  unfold obs_eq, map_wf, map_locked, map_view. by intros (-> & -> & -> & -> & ->).
Qed.

(** Getting is reading the map. *)
Definition reads_map {A} (m : M MapStorage A) (what : string)
    (get : MapStorage → option (gmap Z A)) (height : Z) : Prop :=
  ∀ s, ∃ s', m s =
    (if map_locked s then Blocked
     else from_option Ret (Err (not_found what height)) (the_map (get s) !! height), s') ∧
    obs_eq s s'.

Ltac solve_reads_map :=
  intros [[[] n] b c st r];
  unfold get_from, ensure, on_mutex, RLock, RUnlock, defer_, gets, modify, throw,
    mbind, M_bind, mret, M_ret, map_locked; simpl;
  [eexists; split; [reflexivity | done] |];
  match goal with |- context [match ?m with Some _ => _ | None => _ end] =>
    destruct m as [m'|]; simpl;
    [destruct (m' !! _); simpl | rewrite ?lookup_empty; simpl] end;
  eexists; split; reflexivity || done.

Lemma GetBlock_reads h : reads_map (MapStorage_GetBlock h) "block" blocks h.
Proof. unfold MapStorage_GetBlock. solve_reads_map. Qed.
Lemma GetCommit_reads h : reads_map (MapStorage_GetCommit h) "commit" commits h.
Proof. unfold MapStorage_GetCommit. solve_reads_map. Qed.
Lemma GetState_reads h : reads_map (MapStorage_GetState h) "state" states h.
Proof. unfold MapStorage_GetState. solve_reads_map. Qed.
Lemma GetResponses_reads h : reads_map (MapStorage_GetResponses h) "responses" responses h.
Proof. unfold MapStorage_GetResponses. solve_reads_map. Qed.

Lemma reads_map_contract {A} (m : Z → M MapStorage A) what get proj :
  (∀ h, reads_map (m h) what get h) →
  (∀ s h, map_wf s → proj <$> map_view s !! h = the_map (get s) !! h) →
  get_contract map_wf map_locked map_view m proj what.
Proof.
  intros Hm Hproj h s Hwf. destruct (Hm h s) as (s' & -> & Hobs).
  exists s'. split; [|by apply obs_eq_same]. f_equal.
  rewrite <-Hproj by done. by destruct (map_view s !! h).
Qed.

Lemma map_view_proj {A} (proj : entry → A) (get : MapStorage → option (gmap Z A)) s h :
  map_wf s →
  (∀ b c st r, the_map (blocks s) !! h = Some b → the_map (commits s) !! h = Some c →
     the_map (states s) !! h = Some st → the_map (responses s) !! h = Some r →
     the_map (get s) !! h = Some (proj (mkEntry b c st r))) →
  (the_map (blocks s) !! h = None → the_map (commits s) !! h = None →
     the_map (states s) !! h = None → the_map (responses s) !! h = None →
     the_map (get s) !! h = None) →
  proj <$> map_view s !! h = the_map (get s) !! h.
Proof.
  intros Hwf Hsome Hnone. rewrite map_view_lookup.
  destruct (map_wf_height s h Hwf) as
    [(b & c & st & r & Hb & Hc & Hs & Hr)|(Hb & Hc & Hs & Hr)].
  - rewrite (Hsome _ _ _ _ Hb Hc Hs Hr), Hb. simpl. rewrite Hc. simpl.
    rewrite Hs. simpl. by rewrite Hr.
  - by rewrite (Hnone Hb Hc Hs Hr), Hb.
Qed.

(** [UpdateStores] writes the same height into the four maps. *)
Lemma UpdateStores_spec h b c st r s :
  MapStorage_UpdateStores h b c st r s =
    (Ret tt, mkMapStorage (stateUpdateMutex s)
      (Some (<[h:=b]> (the_map (blocks s)))) (Some (<[h:=c]> (the_map (commits s))))
      (Some (<[h:=st]> (the_map (states s)))) (Some (<[h:=r]> (the_map (responses s))))).
Proof. by destruct s as [m [?|] [?|] [?|] [?|]]. Qed.

Lemma UpdateStores_contract h b c st r s : map_wf s → ∃ s',
  MapStorage_UpdateStores h b c st r s = (Ret tt, s') ∧
  map_wf s' ∧ map_locked s' = map_locked s ∧
  map_view s' = <[h := mkEntry b c st r]> (map_view s).
Proof.
  intros (Hn & Hc & Hs & Hr). rewrite UpdateStores_spec.
  eexists. split; [done|]. split_and!.
  - unfold map_wf. simpl. rewrite !dom_insert_L. split_and!; congruence.
  - done.
  - unfold map_view. simpl. 
    by rewrite <-(map_insert_zip_with pair _ _ h b c),
      <-(map_insert_zip_with pair _ _ h st r),
      <-(map_insert_zip_with _ _ _ h (b, c) (st, r)).
Qed.

Lemma Lock_contract s : map_wf s → ∃ s',
  MapStorage_LockBeforeStateUpdate s = (if map_locked s then Blocked else Ret tt, s') ∧
  map_wf s' ∧ map_locked s' = true ∧ map_view s' = map_view s.
Proof.
  destruct s as [[w n] b c st r]. intros (Hn & ?). simpl in Hn. subst n.
  destruct w; eexists; (split; [reflexivity | done]).
Qed.

Lemma Unlock_contract s : map_wf s → map_locked s = true → ∃ s',
  MapStorage_UnlockAfterStateUpdate s = (Ret tt, s') ∧
  map_wf s' ∧ map_locked s' = false ∧ map_view s' = map_view s.
Proof.
  destruct s as [[w n] b c st r]. intros (Hn & ?). simpl in Hn. subst n.
  unfold map_locked. simpl. intros ->. eexists. split; [reflexivity | done].
Qed.

#[export] Instance MapStorage_laws : StorageLaws MapStorage.
Proof.
  refine {| st_wf := map_wf; st_locked := map_locked; st_view := map_view |}.
  - apply (reads_map_contract _ _ blocks); [apply GetBlock_reads|].
    intros. apply map_view_proj; naive_solver.
  - apply (reads_map_contract _ _ commits); [apply GetCommit_reads|].
    intros. apply map_view_proj; naive_solver.
  - apply (reads_map_contract _ _ states); [apply GetState_reads|].
    intros. apply map_view_proj; naive_solver.
  - apply (reads_map_contract _ _ responses); [apply GetResponses_reads|].
    intros. apply map_view_proj; naive_solver.
  - apply Lock_contract.
  - apply Unlock_contract.
  - apply UpdateStores_contract.
Defined.

Lemma empty_MapStorage_wf : st_wf empty_MapStorage ∧ st_locked empty_MapStorage = false ∧
  st_view empty_MapStorage = ∅.
Proof. done. Qed.
End MapStorage.
