(* ===== verification/TimeHandler.v ===== *)
(** * abci_client/time_handler.go: deciding the timestamps of blocks

    [TimeHandlerOps] is the [TimeHandler] interface.  Instants are nanoseconds
    since the Unix epoch (Go's [time.Time] has a range of billions of years, so
    they are not bounded here); durations are [int64] nanoseconds, with the
    wrap-around of Go's [+] and [*] and the saturation of [time.Time.Sub].
    The clock reading an operation takes is its first argument. *)

From S2P Require Import Prelude.
#[local] Open Scope Z_scope.

(** ** The interface *)

Class TimeHandlerOps (TH : Type) := {
  GetBlockTime : Z → Z → TH → Z * TH;  (** now, lastBlockTimestamp *)
  AdvanceTime : Z → Z → TH → Z * TH;   (** now, duration *)
}.

(** The contract of the interface's comments: advancing shifts the next block
    by the duration, and successive advances add up.  [th_shift] is the duration
    the handler is about to add; a shift outside [int64] is excluded by the
    law's hypotheses, since there the code wraps around. *)
Class TimeHandlerLaws (TH : Type) `{!TimeHandlerOps TH} := {
  th_shift : TH → Z;
  AdvanceTime_shifts : ∀ now0 now last d h,
    in_int64 (th_shift h) → in_int64 (th_shift h + d) →
    (GetBlockTime now last (AdvanceTime now0 d h).2).1 = (GetBlockTime now last h).1 + d;
  AdvanceTime_adds : ∀ now now' now'' d d' h,
    (AdvanceTime now' d' (AdvanceTime now d h).2).2 =
    (AdvanceTime now'' (wrap64 (d + d')) h).2;
}.

(** ** [SystemClockTimeHandler] *)

Record SystemClockTimeHandler := mkSystemClockTimeHandler { curOffset : Z }.

(** [time.Since(t)] at clock reading [now]. *)
Definition time_Since (now t : Z) : Z := sat64 (now - t).

Definition NewSystemClockTimeHandler (now initialTimestamp : Z) : SystemClockTimeHandler :=
  {| curOffset := time_Since now initialTimestamp |}.

Definition SystemClock_GetBlockTime (now lastBlockTimestamp : Z)
    (s : SystemClockTimeHandler) : Z * SystemClockTimeHandler :=
  (now + curOffset s, s).

Definition SystemClock_AdvanceTime (now duration : Z)
    (s : SystemClockTimeHandler) : Z * SystemClockTimeHandler :=
  let s' := {| curOffset := wrap64 (curOffset s + duration) |} in
  (now + curOffset s', s').

#[export] Instance SystemClock_ops : TimeHandlerOps SystemClockTimeHandler := {
  GetBlockTime := SystemClock_GetBlockTime;
  AdvanceTime := SystemClock_AdvanceTime;
}.

#[export] Instance SystemClock_laws : TimeHandlerLaws SystemClockTimeHandler.
Proof.
  refine {| th_shift := curOffset |}.
  - intros now0 now last d [o] Ho Hd. simpl in *. rewrite wrap64_id by done. lia.
  - intros now now' now'' d d' [o]. simpl. f_equal.
    by rewrite wrap64_add_l, wrap64_add_r, Z.add_assoc.
Defined.

(** ** [FixedBlockTimeHandler] *)

Record FixedBlockTimeHandler := mkFixedBlockTimeHandler {
  blockTime : Z;
  curBlockOffset : Z;
  lastBlockTimestamp : Z }.

(** [time.Time{}], January 1 of year 1. *)
Definition zero_time : Z := -62135596800000000000.

Definition NewFixedBlockTimeHandler (bt : Z) : FixedBlockTimeHandler :=
  {| blockTime := bt; curBlockOffset := 0; lastBlockTimestamp := zero_time |}.

Definition FixedBlock_GetBlockTime (now lastBlockTs : Z)
    (f : FixedBlockTimeHandler) : Z * FixedBlockTimeHandler :=
  let res := lastBlockTs + wrap64 (blockTime f + curBlockOffset f) in
  (res, {| blockTime := blockTime f; curBlockOffset := 0; lastBlockTimestamp := res |}).

Definition FixedBlock_AdvanceTime (now duration : Z)
    (f : FixedBlockTimeHandler) : Z * FixedBlockTimeHandler :=
  let off := wrap64 (curBlockOffset f + duration) in
  (lastBlockTimestamp f + wrap64 (blockTime f + off),
   {| blockTime := blockTime f; curBlockOffset := off;
      lastBlockTimestamp := lastBlockTimestamp f |}).

#[export] Instance FixedBlock_ops : TimeHandlerOps FixedBlockTimeHandler := {
  GetBlockTime := FixedBlock_GetBlockTime;
  AdvanceTime := FixedBlock_AdvanceTime;
}.

#[export] Instance FixedBlock_laws : TimeHandlerLaws FixedBlockTimeHandler.
Proof.
  refine {| th_shift := λ f, blockTime f + curBlockOffset f |}.
  - intros now0 now last d [bt o l] Ho Hd. simpl in *.
    rewrite wrap64_add_r, Z.add_assoc, !wrap64_id by done. lia.
  - intros now now' now'' d d' [bt o l]. simpl. f_equal.
    by rewrite wrap64_add_l, wrap64_add_r, Z.add_assoc.
Defined.

(** ** The handler [main] picks: one of the two *)

Inductive AnyTimeHandler :=
  | UseSystemClock (s : SystemClockTimeHandler)
  | UseFixedBlock (f : FixedBlockTimeHandler).

#[export] Instance AnyTimeHandler_ops : TimeHandlerOps AnyTimeHandler := {
  GetBlockTime := λ now last h,
    match h with
    | UseSystemClock s => let '(t, s') := GetBlockTime now last s in (t, UseSystemClock s')
    | UseFixedBlock f => let '(t, f') := GetBlockTime now last f in (t, UseFixedBlock f')
    end;
  AdvanceTime := λ now d h,
    match h with
    | UseSystemClock s => let '(t, s') := AdvanceTime now d s in (t, UseSystemClock s')
    | UseFixedBlock f => let '(t, f') := AdvanceTime now d f in (t, UseFixedBlock f')
    end;
}.

#[export] Instance AnyTimeHandler_laws : TimeHandlerLaws AnyTimeHandler.
Proof.
  refine {| th_shift := λ h, match h with
    | UseSystemClock s => th_shift s | UseFixedBlock f => th_shift f end |}.
  - intros now0 now last d [s|f] Ho Hd.
    + pose proof (AdvanceTime_shifts now0 now last d s Ho Hd) as E. exact E.
    + pose proof (AdvanceTime_shifts now0 now last d f Ho Hd) as E. exact E.
  - intros now now' now'' d d' [s|f].
    + exact (f_equal UseSystemClock (AdvanceTime_adds now now' now'' d d' s)).
    + exact (f_equal UseFixedBlock (AdvanceTime_adds now now' now'' d d' f)).
Defined.

(** ** Block timestamps over a whole run

    The calls a handler receives while a chain runs: a block is made at a clock
    reading (its timestamp is the next block's [lastBlockTimestamp]), or time is
    advanced. *)
Inductive time_call :=
  | MakeBlockAt (now : Z)
  | AdvanceBy (now d : Z).

Fixpoint block_times {TH} `{!TimeHandlerOps TH} (calls : list time_call)
    (last : Z) (h : TH) : list Z * Z * TH :=
  match calls with
  | [] => ([], last, h)
  | MakeBlockAt now :: cs =>
      let '(t, h') := GetBlockTime now last h in
      let '(ts, last', h'') := block_times cs t h' in (t :: ts, last', h'')
  | AdvanceBy now d :: cs =>
      block_times cs last (AdvanceTime now d h).2
  end.

Fixpoint n_blocks (calls : list time_call) : Z :=
  match calls with
  | [] => 0
  | MakeBlockAt _ :: cs => 1 + n_blocks cs
  | AdvanceBy _ _ :: cs => n_blocks cs
  end.
Fixpoint advanced (calls : list time_call) : Z :=
  match calls with
  | [] => 0
  | MakeBlockAt _ :: cs => advanced cs
  | AdvanceBy _ d :: cs => d + advanced cs
  end.

(** The durations are non-negative, as the interface's comment demands. *)
Definition forward_calls (calls : list time_call) : Prop :=
  Forall (λ c, match c with MakeBlockAt _ => True | AdvanceBy _ d => 0 ≤ d end) calls.

(** Clock readings that never go back, from [now0] on. *)
Fixpoint clock_ordered (now0 : Z) (calls : list time_call) : Prop :=
  match calls with
  | [] => True
  | MakeBlockAt now :: cs | AdvanceBy now _ :: cs => now0 ≤ now ∧ clock_ordered now cs
  end.

Lemma advanced_nonneg calls : forward_calls calls → 0 ≤ advanced calls.
Proof. induction 1 as [|[|]]; simpl; lia. Qed.

(** ** Theorems *)

Section theorems.

(** C30 With the fixed handler and durations that stay inside [int64], after any
    mix of blocks and time advancements the last timestamp plus the offset not
    yet used is exactly: starting time + one block time per block + everything
    advanced; and the timestamps never decrease, whatever the system clock
    reads. *)
Theorem FixedBlock_times_exact (calls : list time_call) (last : Z) (f : FixedBlockTimeHandler)
    (Hbt : 0 ≤ blockTime f) (Hoff : 0 ≤ curBlockOffset f) (Hfwd : forward_calls calls)
    (Hmax : blockTime f + curBlockOffset f + advanced calls ≤ max_int64) :
  let '(ts, last', f') := block_times calls last f in
  last' + curBlockOffset f' =
    last + curBlockOffset f + n_blocks calls * blockTime f + advanced calls ∧
  Sorted Z.le (last :: ts).
Proof.
  revert last f Hbt Hoff Hmax. induction Hfwd as [|c cs Hc Hcs IH]; intros last f Hbt Hoff Hmax.
  - simpl. split; [lia | repeat constructor].
  - pose proof (advanced_nonneg cs Hcs) as Hadv.
    destruct c as [now|now d]; cbn [block_times GetBlockTime AdvanceTime FixedBlock_ops
      FixedBlock_GetBlockTime FixedBlock_AdvanceTime snd n_blocks advanced] in *.
    + rewrite wrap64_id by (unfold in_int64, min_int64, max_int64 in *; lia).
      specialize (IH (last + (blockTime f + curBlockOffset f)) {| blockTime := blockTime f;
        curBlockOffset := 0; lastBlockTimestamp := last + (blockTime f + curBlockOffset f) |}).
      destruct (block_times cs _ _) as [[ts last'] f']. simpl in IH.
      destruct IH as [IH1 IH2]; [lia | lia | lia |]. split; [lia|].
      constructor; [done|]. constructor. lia.
    + rewrite wrap64_id by (unfold in_int64, min_int64, max_int64 in *; lia).
      specialize (IH last {| blockTime := blockTime f; curBlockOffset := curBlockOffset f + d;
        lastBlockTimestamp := lastBlockTimestamp f |}).
      destruct (block_times cs _ _) as [[ts last'] f']. simpl in IH.
      destruct IH as [IH1 IH2]; [lia | lia | lia |]. split; [lia | done].
Qed.

Lemma FixedBlock_times_exact_witness :
  let calls := [MakeBlockAt 5; AdvanceBy 6 5000; MakeBlockAt 7; MakeBlockAt 3] in
  block_times calls 100 (NewFixedBlockTimeHandler 10) =
    ([110; 5120; 5130], 5130, mkFixedBlockTimeHandler 10 0 5130) ∧
  5130 + 0 = 100 + 0 + 3 * 10 + 5000.
Proof.
  pose proof (FixedBlock_times_exact
    [MakeBlockAt 5; AdvanceBy 6 5000; MakeBlockAt 7; MakeBlockAt 3] 100
    (NewFixedBlockTimeHandler 10)) as E.
  split; [reflexivity|]. apply E; [done | done | repeat constructor; done | done].
Defined.

(** C33 What [AdvanceTime] of the fixed handler returns is the timestamp the next
    block would get exactly when the handler's own record of the last block is
    the chain's last block; before the first [GetBlockTime] the two differ by
    the distance from year 1 to the last block. *)
Theorem FixedBlock_AdvanceTime_predicts (now last d : Z) (f : FixedBlockTimeHandler) :
  let '(t, f') := AdvanceTime now d f in
  (t = (GetBlockTime now last f').1 ↔ lastBlockTimestamp f = last) ∧
  (∀ bt, f = NewFixedBlockTimeHandler bt →
    (GetBlockTime now last f').1 - t = last - zero_time).
Proof.
  simpl. split; [lia|]. intros bt ->. simpl. lia.
Qed.

(** The clock readings of the blocks of a run, each shifted by the offset [o] and
    everything advanced before the block. *)
Fixpoint shifted_clock (calls : list time_call) (o : Z) : list Z :=
  match calls with
  | [] => []
  | MakeBlockAt now :: cs => now + o :: shifted_clock cs o
  | AdvanceBy _ d :: cs => shifted_clock cs (o + d)
  end.

(** C31 With the system clock handler, in a series of blocks and advances in which
    no advance is negative, the clock does not go back, the last block is not later
    than the first reading plus the offset, and the offset plus everything advanced
    stays inside [int64]: the timestamp of every block is exactly the clock reading
    it is made at, plus the starting offset, plus everything advanced before it, and
    timestamps never decrease. *)
Theorem SystemClock_times (calls : list time_call) (now0 last : Z) (s : SystemClockTimeHandler)
    (Hfwd : forward_calls calls) (Hclock : clock_ordered now0 calls)
    (Hlast : last ≤ now0 + curOffset s)
    (Hin : in_int64 (curOffset s)) (Hmax : curOffset s + advanced calls ≤ max_int64) :
  let '(ts, last', s') := block_times calls last s in
  ts = shifted_clock calls (curOffset s) ∧
  curOffset s' = curOffset s + advanced calls ∧ Sorted Z.le (last :: ts).
Proof.
  revert now0 last s Hclock Hlast Hin Hmax.
  induction Hfwd as [|c cs Hc Hcs IH]; intros now0 last s Hclock Hlast Hin Hmax.
  - simpl. split_and!; [done | lia | repeat constructor].
  - pose proof (advanced_nonneg cs Hcs) as Hadv. destruct s as [o].
    destruct c as [now|now d]; cbn [block_times GetBlockTime AdvanceTime SystemClock_ops
      SystemClock_GetBlockTime SystemClock_AdvanceTime snd n_blocks advanced curOffset
      clock_ordered shifted_clock] in *; destruct Hclock as [Hnow Hclock].
    + specialize (IH now (now + o) {| curOffset := o |} Hclock).
      destruct (block_times cs _ _) as [[ts last'] s']. simpl in IH.
      destruct IH as (-> & IH1 & IH2); [lia | done | lia |]. split_and!; [done | lia |].
      constructor; [done|]. constructor. lia.
    + rewrite wrap64_id by (unfold in_int64, min_int64, max_int64 in *; lia).
      specialize (IH now last {| curOffset := o + d |} Hclock).
      destruct (block_times cs _ _) as [[ts last'] s']. simpl in IH.
      destruct IH as (-> & IH1 & IH2);
        [lia | unfold in_int64, min_int64, max_int64 in *; lia | lia |].
      split_and!; [done | lia | done].
Qed.

Lemma SystemClock_times_witness :
  block_times [MakeBlockAt 50; AdvanceBy 60 1000; MakeBlockAt 70] 40
    (NewSystemClockTimeHandler 45 45) = ([50; 1070], 1070, mkSystemClockTimeHandler 1000) ∧
  [50; 1070] = shifted_clock [MakeBlockAt 50; AdvanceBy 60 1000; MakeBlockAt 70] 0 ∧
  Sorted Z.le [40; 50; 1070].
Proof.
  pose proof (SystemClock_times [MakeBlockAt 50; AdvanceBy 60 1000; MakeBlockAt 70] 45 40
    (NewSystemClockTimeHandler 45 45)) as E.
  split; [reflexivity|].
  destruct E as (Ht & _ & Hs); first [done | repeat constructor; done | split; [exact Ht | exact Hs]].
Defined.

(** C32 The offset [NewSystemClockTimeHandler] computes has the opposite sign of
    the one that would make the chain's clock start at the given timestamp: a
    handler made at clock reading [c] for starting time [t0] stamps a block made
    at reading [c'] with [c' + (c - t0)], which is the starting time plus the
    time passed only if the starting time was the current time. *)
Theorem SystemClock_start_mirrored (c c' t0 last : Z) (Hd : in_int64 (c - t0)) :
  let t := (GetBlockTime c' last (NewSystemClockTimeHandler c t0)).1 in
  t = c' + (c - t0) ∧ (t = t0 + (c' - c) ↔ t0 = c).
Proof.
  simpl. unfold time_Since. rewrite sat64_id by done. lia.
Qed.

Lemma SystemClock_start_mirrored_witness :
  (* created in 2023 to start in 1970; the block gets a date in 2076 *)
  (GetBlockTime 1690000000000000000 0 (NewSystemClockTimeHandler 1690000000000000000 0)).1
    = 3380000000000000000 ∧ 3380000000000000000 ≠ 0 + (1690000000000000000 - 1690000000000000000).
Proof.
  destruct (SystemClock_start_mirrored 1690000000000000000 1690000000000000000 0 0) as [E _];
    [vm_compute; split; congruence|].
  split; [exact E | done].
Defined.

End theorems.
