(* ===== verification/Utils.v ===== *)
(** * cometmock/utils: commit info, block ids, transactions, votes *)

From S2P Require Import Prelude.
From S2P Require Import CometTypes.
From S2P Require Import Toy.
#[local] Open Scope Z_scope.

Section utils.
Context `{CometOps}.

(** ** txs.go *)

Fixpoint Contains (txs : list bytes) (tx : bytes) : bool :=
  match txs with
  | [] => false
  | ttx :: txs' => if decide (ttx = tx) then true else Contains txs' tx
  end.

(** ** blocks.go *)

Definition GetBlockIdFromBlock (block : Block) : outcome BlockID :=
  partSetHeader ← Block_MakePartSet block 2;
  Ret {| bid_Hash := Block_Hash block; bid_PartSetHeader := partSetHeader |}.

(** ** state.go *)

(** [abci.ExtendedCommitInfo{}], [abci.CommitInfo{}] *)
Definition empty_ExtendedCommitInfo : ExtendedCommitInfo := mkExtendedCommitInfo 0 [].
Definition empty_CommitInfo : CommitInfo := mkCommitInfo 0 [].

(** One iteration of the loop of [BuildExtendedCommitInfo]. *)
Definition extended_vote_info (ec : ExtendedCommit) (ap : ABCIParams) (i : nat)
    (val : Validator) : outcome ExtendedVoteInfo :=
  match ec_ExtendedSignatures ec !! i with
  | None => Panic IndexOutOfRange
  | Some ecs =>
      if decide (cs_BlockIDFlag (ecs_CommitSig ecs) ≠ BlockIDFlagAbsent ∧
                 cs_ValidatorAddress (ecs_CommitSig ecs) ≠ val_Address val) then
        Panic (PanicErr (Errorf "validator address of extended commit signature in position %d (%s) does not match the corresponding validator's at height %d (%s)"
          [AInt (Z.of_nat i); AStr (cs_ValidatorAddress (ecs_CommitSig ecs));
           AInt (ec_Height ec); AStr (val_Address val)]))
      else
        match ExtendedCommitSig_EnsureExtension ecs (VoteExtensionsEnabled ap (ec_Height ec)) with
        | Err err => Panic (PanicErr (Errorf "commit at height %d has problems with vote extension data; err %w"
            [AInt (ec_Height ec); AErr err]))
        | Panic p => Panic p
        | Blocked => Blocked
        | Ret _ => Ret {| evi_Validator := TM2PB_Validator val;
                          evi_BlockIdFlag := cs_BlockIDFlag (ecs_CommitSig ecs);
                          evi_VoteExtension := ecs_Extension ecs;
                          evi_ExtensionSignature := ecs_ExtensionSignature ecs |}
        end
  end.

Definition BuildExtendedCommitInfo (ec : ExtendedCommit) (valSet : ValidatorSet)
    (initialHeight : Z) (ap : ABCIParams) : outcome ExtendedCommitInfo :=
  if decide (ec_Height ec < initialHeight) then Ret empty_ExtendedCommitInfo
  else
    let ecSize := ExtendedCommit_Size ec in
    let valSetLen := Z.of_nat (length (vs_Validators valSet)) in
    if decide (ecSize ≠ valSetLen) then
      Panic (PanicErr (Errorf "extended commit size (%d) does not match validator set length (%d) at height %d"
        [AInt ecSize; AInt valSetLen; AInt (ec_Height ec)]))
    else
      votes ← collectO (extended_vote_info ec ap) (vs_Validators valSet);
      Ret {| eci_Round := ec_Round ec; eci_Votes := votes |}.

(** One iteration of the loop of [BuildLastCommitInfo]; indexing a nil commit
    dereferences it. *)
Definition vote_info (lastCommit : option Commit) (i : nat) (val : Validator)
  : outcome VoteInfo :=
  match lastCommit with
  | None => Panic NilDereference
  | Some c =>
      match cm_Signatures c !! i with
      | None => Panic IndexOutOfRange
      | Some commitSig => Ret {| vi_Validator := TM2PB_Validator val;
                                 vi_BlockIdFlag := cs_BlockIDFlag commitSig |}
      end
  end.

Definition BuildLastCommitInfo (block : Block) (lastValSet : ValidatorSet)
    (initialHeight : Z) : outcome CommitInfo :=
  if decide (hdr_Height (blk_Header block) = initialHeight) then Ret empty_CommitInfo
  else
    let commitSize := Commit_Size (blk_LastCommit block) in
    let valSetLen := Z.of_nat (length (vs_Validators lastValSet)) in
    if decide (commitSize ≠ valSetLen) then
      Panic (PanicErr (Errorf "commit size (%d) doesn't match validator set length (%d) at height %d"
        [AInt commitSize; AInt valSetLen; AInt (hdr_Height (blk_Header block))]))
    else
      votes ← collectO (vote_info (blk_LastCommit block)) (vs_Validators lastValSet);
      match blk_LastCommit block with
      | None => Panic NilDereference
      | Some c => Ret {| ci_Round := cm_Round c; ci_Votes := votes |}
      end.

(** ** votes.go *)

Definition MakeVote (val : PrivValidator) (chainID : string) (valIndex height round step : Z)
    (blockID : BlockID) (time : Z) : outcome Vote :=
  pubKey ← GetPubKey val;
  let v := {| vote_Type := wrap32 step; vote_Height := height; vote_Round := round;
              vote_BlockID := blockID; vote_Timestamp := time;
              vote_ValidatorAddress := PubKey_Address pubKey;
              vote_ValidatorIndex := valIndex;
              vote_Signature := ""; vote_Extension := ""; vote_ExtensionSignature := "" |} in
  let '(vpb, err) := SignVote val chainID (Vote_ToProto v) in
  err ;;
  Ret {| vote_Type := vote_Type v; vote_Height := vote_Height v; vote_Round := vote_Round v;
         vote_BlockID := vote_BlockID v; vote_Timestamp := vote_Timestamp v;
         vote_ValidatorAddress := vote_ValidatorAddress v;
         vote_ValidatorIndex := vote_ValidatorIndex v;
         vote_Signature := vp_Signature vpb;
         vote_Extension := ""; vote_ExtensionSignature := "" |}.
End utils.

(** ** Lemmas *)

Section lemmas.
Context `{CometLaws}.

Lemma Contains_spec txs tx : Contains txs tx = true ↔ tx ∈ txs.
Proof.
  induction txs as [|t txs IH]; simpl.
  - by rewrite elem_of_nil.
  - rewrite elem_of_cons. case_decide as Ht; [subst; tauto|].
    rewrite IH. split; [by right | by intros [->|]].
Qed.

Lemma Contains_false txs tx : Contains txs tx = false ↔ tx ∉ txs.
Proof. rewrite <-Contains_spec. by destruct (Contains txs tx). Qed.

(** The commit info of a block whose commit fits the validator set pairs each
    validator with its signature's flag, in order. *)
Lemma vote_infos_ret c vals :
  length (cm_Signatures c) = length vals →
  collectO (vote_info (Some c)) vals =
    Ret (zip_with (λ val sig, {| vi_Validator := TM2PB_Validator val;
                                 vi_BlockIdFlag := cs_BlockIDFlag sig |})
           vals (cm_Signatures c)).
Proof.
  intros Hlen. apply collectO_ret. split.
  - rewrite length_zip_with. lia.
  - intros j val vi Hval Hvi. apply lookup_zip_with_Some in Hvi as (val' & sig & -> & Hv & Hs).
    unfold vote_info. rewrite Hs. by simplify_eq.
Qed.

Lemma extended_vote_info_ret ec ap i val sig :
  ec_ExtendedSignatures ec !! i = Some sig →
  ExtendedCommitSig_EnsureExtension sig (VoteExtensionsEnabled ap (ec_Height ec)) = Ret tt →
  (cs_BlockIDFlag (ecs_CommitSig sig) ≠ BlockIDFlagAbsent →
     cs_ValidatorAddress (ecs_CommitSig sig) = val_Address val) →
  extended_vote_info ec ap i val =
    Ret {| evi_Validator := TM2PB_Validator val;
           evi_BlockIdFlag := cs_BlockIDFlag (ecs_CommitSig sig);
           evi_VoteExtension := ecs_Extension sig;
           evi_ExtensionSignature := ecs_ExtensionSignature sig |}.
Proof.
  intros Hi Hext Haddr. unfold extended_vote_info. rewrite Hi.
  rewrite decide_False by (intros [Hflag Hne]; auto). by rewrite Hext.
Qed.
End lemmas.

(** ** Theorems *)

Section theorems.
Context `{CometLaws}.

(** C36 [BuildLastCommitInfo] on a block that carries a commit: empty at the
    initial height; otherwise each validator of the set is paired with the
    flag of the signature at its index, provided the commit has exactly as many
    signatures as the set has validators, and the call panics if it does not. *)
Theorem BuildLastCommitInfo_spec (block : Block) (c : Commit) (vals : ValidatorSet)
    (initialHeight : Z) (Hc : blk_LastCommit block = Some c) :
  BuildLastCommitInfo block vals initialHeight =
    if decide (hdr_Height (blk_Header block) = initialHeight) then Ret (mkCommitInfo 0 [])
    else if decide (length (cm_Signatures c) = length (vs_Validators vals)) then
      Ret (mkCommitInfo (cm_Round c)
        (zip_with (λ val sig, mkVoteInfo (TM2PB_Validator val) (cs_BlockIDFlag sig))
           (vs_Validators vals) (cm_Signatures c)))
    else Panic (PanicErr (Errorf "commit size (%d) doesn't match validator set length (%d) at height %d"
      [AInt (Z.of_nat (length (cm_Signatures c)));
       AInt (Z.of_nat (length (vs_Validators vals)));
       AInt (hdr_Height (blk_Header block))])).
Proof.
  unfold BuildLastCommitInfo. rewrite Hc, Commit_Size_law.
  case_decide; [done|]. destruct (decide (length _ = _)) as [Hlen|Hlen].
  - rewrite decide_False by lia. by rewrite vote_infos_ret.
  - by rewrite decide_True by lia.
Qed.

(** [BuildExtendedCommitInfo] returns (rather than panics) exactly when the
    commit is below the initial height, or it has one signature per validator,
    every present signature is by the validator at its index and carries the
    extension the parameters ask for; it then lists validator, flag, extension
    and extension signature in validator order. *)
Theorem BuildExtendedCommitInfo_ret (ec : ExtendedCommit) (vals : ValidatorSet)
    (initialHeight : Z) (ap : ABCIParams) (r : ExtendedCommitInfo) :
  BuildExtendedCommitInfo ec vals initialHeight ap = Ret r ↔
    (ec_Height ec < initialHeight ∧ r = mkExtendedCommitInfo 0 []) ∨
    (initialHeight ≤ ec_Height ec ∧
     length (ec_ExtendedSignatures ec) = length (vs_Validators vals) ∧
     (∀ i val sig, vs_Validators vals !! i = Some val → ec_ExtendedSignatures ec !! i = Some sig →
        (cs_BlockIDFlag (ecs_CommitSig sig) = BlockIDFlagAbsent ∨
         cs_ValidatorAddress (ecs_CommitSig sig) = val_Address val) ∧
        ∃ u, ExtendedCommitSig_EnsureExtension sig (VoteExtensionsEnabled ap (ec_Height ec)) = Ret u) ∧
     r = mkExtendedCommitInfo (ec_Round ec)
       (zip_with (λ val sig, mkExtendedVoteInfo (TM2PB_Validator val)
            (cs_BlockIDFlag (ecs_CommitSig sig)) (ecs_Extension sig) (ecs_ExtensionSignature sig))
          (vs_Validators vals) (ec_ExtendedSignatures ec))).
Proof.
  unfold BuildExtendedCommitInfo. rewrite ExtendedCommit_Size_law.
  destruct (decide (ec_Height ec < initialHeight)) as [Hh|Hh].
  { split; [intros [= <-]; auto|]. intros [[_ ->]|[? _]]; [done | lia]. }
  destruct (decide (Z.of_nat _ ≠ _)) as [Hl|Hl].
  { split; [done|]. intros [[? _]|(_ & ? & _)]; lia. }
  split.
  - intros Hr. destruct (collectO _ _) as [votes| | |] eqn:Hv; try done.
    simpl in Hr. simplify_eq. right. apply collectO_ret in Hv as [Hlen Hall].
    split_and!; [lia | lia | |].
    + intros i val sig Hval Hsig.
      destruct (lookup_lt_is_Some_2 votes i) as [v Hvi].
      { rewrite Hlen. by eapply lookup_lt_Some. }
      specialize (Hall _ _ _ Hval Hvi). unfold extended_vote_info in Hall. rewrite Hsig in Hall.
      case_decide as Hd; [done|].
      destruct (ExtendedCommitSig_EnsureExtension _ _) as [u| | |]; try done.
      split; [|eauto].
      destruct (decide (cs_BlockIDFlag (ecs_CommitSig sig) = BlockIDFlagAbsent)); [by left|].
      destruct (decide (cs_ValidatorAddress (ecs_CommitSig sig) = val_Address val)); [by right|].
      by destruct Hd.
    + f_equal. apply list_eq. intros i. rewrite lookup_zip_with.
      destruct (vs_Validators vals !! i) as [val|] eqn:Hval; simpl.
      * destruct (lookup_lt_is_Some_2 votes i) as [v Hvi].
        { rewrite Hlen. by eapply lookup_lt_Some. }
        rewrite Hvi. specialize (Hall _ _ _ Hval Hvi). unfold extended_vote_info in Hall.
        destruct (ec_ExtendedSignatures ec !! i) as [sig|]; [|done]. simpl.
        case_decide; [done|]. by destruct (ExtendedCommitSig_EnsureExtension _ _); simplify_eq.
      * apply lookup_ge_None in Hval. apply lookup_ge_None. lia.
  - intros [[? _]|(_ & Hlen & Hall & ->)]; [lia|].
    erewrite (proj2 (collectO_ret _ _ _)); [done|]. split.
    { rewrite length_zip_with. lia. }
    intros i val v Hval Hv. apply lookup_zip_with_Some in Hv as (val' & sig & -> & Hv & Hsig).
    simplify_eq. destruct (Hall _ _ _ Hval Hsig) as [Haddr [[] Hext]].
    apply extended_vote_info_ret; [done | done |]. by intros Hf; destruct Haddr.
Qed.
End theorems.

Import ToyInstances.

Lemma BuildLastCommitInfo_spec_witness :
  let commit n := mkCommit 4 0 (mkBlockID "h" 0) (replicate n (mkCommitSig 2 "alice" 7 "s")) in
  let block n := mkBlock (mkHeader 5 9 "" "" "alice" tt) [] [] (Some (commit n)) in
  let vals := mkValidatorSet [mkValidator "alice" "alice" 10 0; mkValidator "bob" "bob" 5 0] None in
  BuildLastCommitInfo (block 2%nat) vals 1 =
    Ret (mkCommitInfo 0 [mkVoteInfo ("alice", 10) 2; mkVoteInfo ("bob", 5) 2]) ∧
  is_Ret (BuildLastCommitInfo (block 1%nat) vals 1) = false.
Proof.
  intros commit block vals. split.
  - by rewrite (BuildLastCommitInfo_spec (block 2%nat) (commit 2%nat) vals 1 eq_refl).
  - by rewrite (BuildLastCommitInfo_spec (block 1%nat) (commit 1%nat) vals 1 eq_refl).
Defined.
