(* ===== verification/Client.v ===== *)
(** * abci_client/client.go, part 1: the client, its small operations and the
      calls it broadcasts to the applications

    [AbciClient] is the Go struct (its logger, event bus and indexers are outside
    code); [Sys] is what the process keeps: the client, whether [blockMutex] is
    held, and the history of interactions with the outside.  Each method is a
    computation over [Sys]. *)

From S2P Require Import Prelude.
From S2P Require Import CometTypes.
From S2P Require Import Toy.
From S2P Require Import Storage.
From S2P Require Import TimeHandler.
#[local] Open Scope Z_scope.

Inductive MisbehaviourType := DuplicateVote | Lunatic | Amnesia | Equivocation.

Section client.
Context {CT : CometTypes} {ST TH : Type}.

Record AbciClient := mkAbciClient {
  Clients : gmap string AbciCounterpartyClient;
  CurState : State;
  LastBlock : Block;
  LastCommit : ExtendedCommit;
  Storage : ST;
  ErrorOnUnequalResponses : bool;
  signingStatus : gmap string bool;
  Time_Handler : TH;
  AutoIncludeTx : bool;
  FreshTxQueue : list bytes;
  StaleTxQueue : list bytes }.

Record Sys := mkSys {
  client : AbciClient;
  blockMutex : bool;
  io : list io_event }.   (** most recent first *)

(** Assignments [a.Field = x]. *)
Definition set_CurState (x : State) (a : AbciClient) : AbciClient :=
  mkAbciClient (Clients a) x (LastBlock a) (LastCommit a) (Storage a)
    (ErrorOnUnequalResponses a) (signingStatus a) (Time_Handler a) (AutoIncludeTx a)
    (FreshTxQueue a) (StaleTxQueue a).
Definition set_LastBlock (x : Block) (a : AbciClient) : AbciClient :=
  mkAbciClient (Clients a) (CurState a) x (LastCommit a) (Storage a)
    (ErrorOnUnequalResponses a) (signingStatus a) (Time_Handler a) (AutoIncludeTx a)
    (FreshTxQueue a) (StaleTxQueue a).
Definition set_LastCommit (x : ExtendedCommit) (a : AbciClient) : AbciClient :=
  mkAbciClient (Clients a) (CurState a) (LastBlock a) x (Storage a)
    (ErrorOnUnequalResponses a) (signingStatus a) (Time_Handler a) (AutoIncludeTx a)
    (FreshTxQueue a) (StaleTxQueue a).
Definition set_Storage (x : ST) (a : AbciClient) : AbciClient :=
  mkAbciClient (Clients a) (CurState a) (LastBlock a) (LastCommit a) x
    (ErrorOnUnequalResponses a) (signingStatus a) (Time_Handler a) (AutoIncludeTx a)
    (FreshTxQueue a) (StaleTxQueue a).
Definition set_signingStatus (x : gmap string bool) (a : AbciClient) : AbciClient :=
  mkAbciClient (Clients a) (CurState a) (LastBlock a) (LastCommit a) (Storage a)
    (ErrorOnUnequalResponses a) x (Time_Handler a) (AutoIncludeTx a)
    (FreshTxQueue a) (StaleTxQueue a).
Definition set_Time_Handler (x : TH) (a : AbciClient) : AbciClient :=
  mkAbciClient (Clients a) (CurState a) (LastBlock a) (LastCommit a) (Storage a)
    (ErrorOnUnequalResponses a) (signingStatus a) x (AutoIncludeTx a)
    (FreshTxQueue a) (StaleTxQueue a).
Definition set_AutoIncludeTx (x : bool) (a : AbciClient) : AbciClient :=
  mkAbciClient (Clients a) (CurState a) (LastBlock a) (LastCommit a) (Storage a)
    (ErrorOnUnequalResponses a) (signingStatus a) (Time_Handler a) x
    (FreshTxQueue a) (StaleTxQueue a).
Definition set_FreshTxQueue (x : list bytes) (a : AbciClient) : AbciClient :=
  mkAbciClient (Clients a) (CurState a) (LastBlock a) (LastCommit a) (Storage a)
    (ErrorOnUnequalResponses a) (signingStatus a) (Time_Handler a) (AutoIncludeTx a)
    x (StaleTxQueue a).
Definition set_StaleTxQueue (x : list bytes) (a : AbciClient) : AbciClient :=
  mkAbciClient (Clients a) (CurState a) (LastBlock a) (LastCommit a) (Storage a)
    (ErrorOnUnequalResponses a) (signingStatus a) (Time_Handler a) (AutoIncludeTx a)
    (FreshTxQueue a) x.

(** Assignments [a.CurState.Field = x]. *)
Definition with_AppHash (x : bytes) (s : State) : State :=
  mkState (st_Version s) (st_ChainID s) (st_InitialHeight s) (st_LastBlockHeight s)
    (st_LastBlockID s) (st_LastBlockTime s) (st_NextValidators s) (st_Validators s)
    (st_LastValidators s) (st_LastHeightValidatorsChanged s) (st_ConsensusParams s)
    (st_LastHeightConsensusParamsChanged s) (st_LastResultsHash s) x.
Definition with_LastResultsHash (x : bytes) (s : State) : State :=
  mkState (st_Version s) (st_ChainID s) (st_InitialHeight s) (st_LastBlockHeight s)
    (st_LastBlockID s) (st_LastBlockTime s) (st_NextValidators s) (st_Validators s)
    (st_LastValidators s) (st_LastHeightValidatorsChanged s) (st_ConsensusParams s)
    (st_LastHeightConsensusParamsChanged s) x (st_AppHash s).
Definition with_LastValidators (x : ValidatorSet) (s : State) : State :=
  mkState (st_Version s) (st_ChainID s) (st_InitialHeight s) (st_LastBlockHeight s)
    (st_LastBlockID s) (st_LastBlockTime s) (st_NextValidators s) (st_Validators s)
    x (st_LastHeightValidatorsChanged s) (st_ConsensusParams s)
    (st_LastHeightConsensusParamsChanged s) (st_LastResultsHash s) (st_AppHash s).
Definition with_Validators (x : ValidatorSet) (s : State) : State :=
  mkState (st_Version s) (st_ChainID s) (st_InitialHeight s) (st_LastBlockHeight s)
    (st_LastBlockID s) (st_LastBlockTime s) (st_NextValidators s) x
    (st_LastValidators s) (st_LastHeightValidatorsChanged s) (st_ConsensusParams s)
    (st_LastHeightConsensusParamsChanged s) (st_LastResultsHash s) (st_AppHash s).
Definition with_NextValidators (x : ValidatorSet) (s : State) : State :=
  mkState (st_Version s) (st_ChainID s) (st_InitialHeight s) (st_LastBlockHeight s)
    (st_LastBlockID s) (st_LastBlockTime s) x (st_Validators s)
    (st_LastValidators s) (st_LastHeightValidatorsChanged s) (st_ConsensusParams s)
    (st_LastHeightConsensusParamsChanged s) (st_LastResultsHash s) (st_AppHash s).
Definition with_Version_App (x : Z) (s : State) : State :=
  mkState (mkVersion (ver_Block (st_Version s)) x (ver_Software (st_Version s)))
    (st_ChainID s) (st_InitialHeight s) (st_LastBlockHeight s)
    (st_LastBlockID s) (st_LastBlockTime s) (st_NextValidators s) (st_Validators s)
    (st_LastValidators s) (st_LastHeightValidatorsChanged s) (st_ConsensusParams s)
    (st_LastHeightConsensusParamsChanged s) (st_LastResultsHash s) (st_AppHash s).
Definition with_ConsensusParams (x : ConsensusParams) (s : State) : State :=
  mkState (st_Version s) (st_ChainID s) (st_InitialHeight s) (st_LastBlockHeight s)
    (st_LastBlockID s) (st_LastBlockTime s) (st_NextValidators s) (st_Validators s)
    (st_LastValidators s) (st_LastHeightValidatorsChanged s) x
    (st_LastHeightConsensusParamsChanged s) (st_LastResultsHash s) (st_AppHash s).

(** Reading and assigning the client's fields. *)
Definition cl {A} (f : AbciClient → A) : M Sys A := gets (λ s, f (client s)).
Definition upd (f : AbciClient → AbciClient) : M Sys unit :=
  modify (λ s, mkSys (f (client s)) (blockMutex s) (io s)).
Definition upd_state (f : State → State) : M Sys unit :=
  upd (λ a, set_CurState (f (CurState a)) a).
(** A call on [a.Storage]. *)
Definition on_storage {A} (m : M ST A) : M Sys A := λ s,
  let '(o, st) := m (Storage (client s)) in
  (o, mkSys (set_Storage st (client s)) (blockMutex s) (io s)).

(** [blockMutex.Lock()], [blockMutex.Unlock()] *)
Definition lock_blockMutex : M Sys unit := λ s,
  if blockMutex s then (Blocked, s) else (Ret tt, mkSys (client s) true (io s)).
Definition unlock_blockMutex : M Sys unit := λ s,
  if blockMutex s then (Ret tt, mkSys (client s) false (io s)) else (Panic FatalUnlock, s).

(** An interaction with the outside: it is recorded, and answered from the
    history before it. *)
Definition call_env {A} (ev : io_event) (f : list io_event → outcome A) : M Sys A := λ s,
  (f (io s), mkSys (client s) (blockMutex s) (ev :: io s)).

Section ops.
Context {CO : CometOps} {EN : Env} {TO : TimeHandlerOps TH}.

(** [for k, c := range a.Clients]: the entries in the order visited. *)
Definition range_clients : M Sys (list (string * AbciCounterpartyClient)) := λ s,
  let cs := env_Range (io s) (map_to_list (Clients (client s))) in
  (Ret cs, mkSys (client s) (blockMutex s) (IoRange cs.*1 :: io s)).

Definition time_now : M Sys Z := call_env IoNow (λ h, Ret (env_Now h)).

(** ** Transaction queues *)

Definition QueueTx (tx : bytes) : M Sys unit :=
  lock_blockMutex ;;
  upd (λ a, set_FreshTxQueue (FreshTxQueue a ++ [tx]) a) ;;
  unlock_blockMutex.

Definition ClearTxs : M Sys unit :=
  upd (set_FreshTxQueue []) ;;
  upd (set_StaleTxQueue []).

(** ** Lookups *)

Definition GetValidatorFromAddress (address : string) : M Sys Validator :=
  vals ← cl (λ a, vs_Validators (st_Validators (CurState a)));
  match list_find (λ v, Address_String (val_Address v) = address) vals with
  | Some (_, v) => mret v
  | None => throw (Errorf "validator with address %s not found" [AStr address])
  end.

Definition GetCounterpartyFromAddress (address : string) : M Sys AbciCounterpartyClient :=
  cs ← range_clients;
  match list_find (λ c, ValidatorAddress c.2 = address) cs with
  | Some (_, c) => mret c.2
  | None => throw (Errorf "client with address %s not found" [AStr address])
  end.

(** ** Signing status *)

(** The reader gets a copy, entry by entry. *)
Definition GetSigningStatusMap : M Sys (gmap string bool) :=
  m ← cl signingStatus;
  mret (foldr (λ kv acc, <[kv.1 := kv.2]> acc) ∅ (map_to_list m)).

Definition not_in_status_map (address : string) : error :=
  Errorf "address %s not found in signing status map, please double-check this is the key address of a validator key"
    [AStr address].

Definition GetSigningStatus (address : string) : M Sys bool :=
  m ← cl signingStatus;
  match m !! address with
  | None => throw (not_in_status_map address)
  | Some status => mret status
  end.

Definition SetSigningStatus (address : string) (status : bool) : M Sys unit :=
  m ← cl signingStatus;
  match m !! address with
  | None => throw (not_in_status_map address)
  | Some _ => upd (set_signingStatus (<[address := status]> m))
  end.

(** ** Construction

    The event bus and the indexers that the constructor starts are outside
    code. *)
Definition NewAbciClient (clients : gmap string AbciCounterpartyClient) (curState : State)
    (lastBlock : Block) (lastCommit : ExtendedCommit) (storage : ST) (timeHandler : TH)
    (errorOnUnequalResponses : bool) : AbciClient :=
  {| Clients := clients;
     CurState := curState;
     LastBlock := lastBlock;
     LastCommit := lastCommit;
     Storage := storage;
     ErrorOnUnequalResponses := errorOnUnequalResponses;
     signingStatus := foldr (λ addr acc, <[addr := true]> acc) ∅ (map_to_list clients).*1;
     Time_Handler := timeHandler;
     AutoIncludeTx := false;
     FreshTxQueue := [];
     StaleTxQueue := [] |}.

(** ** Broadcasts

    The six [Send*] methods share their body: call every client in map
    order, stop at the first error, compare all responses with the first if
    asked to, return the first. *)
Fixpoint first_unequal {R} `{EqDecision R} (r0 : R) (rs : list R) : bool :=
  match rs with
  | [] => false
  | r :: rs' => if decide (r = r0) then first_unequal r0 rs' else true
  end.

Definition responses_unequal : error :=
  Errorf "responses are not all equal: %v is not equal to %v" [].

Definition send_all {R} `{EqDecision R} (call : ABCIHandle → M Sys R) : M Sys R :=
  cs ← range_clients;
  responses ← collect (λ _ c, call (Client c.2)) cs;
  check ← cl ErrorOnUnequalResponses;
  match responses with
  | [] => panic IndexOutOfRange   (* responses[0] *)
  | r0 :: rs => if check && first_unequal r0 rs then throw responses_unequal else mret r0
  end.

Definition abci_call {R} (req : abci_request) (f : list io_event → ABCIHandle → outcome R)
    (c : ABCIHandle) : M Sys R :=
  call_env (IoAbci c req) (λ h, f h c).

Definition SendAbciInfo : M Sys ResponseInfo :=
  send_all (abci_call ReqInfo (λ h c, env_Info h c)).

Definition SendCommit : M Sys ResponseCommit :=
  send_all (abci_call ReqCommit (λ h c, env_Commit h c)).

Definition SendCheckTx (checkType : CheckTxType) (tx : bytes) : M Sys ResponseCheckTx :=
  let checkTxRequest := {| rct_Tx := tx; rct_Type := checkType |} in
  send_all (abci_call (ReqCheckTx checkTxRequest) (λ h c, env_CheckTx h c checkTxRequest)).

Definition SendAbciQuery (data : bytes) (path : string) (height : Z) (prove : bool)
  : M Sys ResponseQuery :=
  let request := {| rq_Data := data; rq_Path := path; rq_Height := height; rq_Prove := prove |} in
  send_all (abci_call (ReqQuery request) (λ h c, env_Query h c request)).

Definition SendFinalizeBlock (block : Block) (lastCommitInfo : CommitInfo)
  : M Sys ResponseFinalizeBlock :=
  let request := {|
    rfb_Txs := blk_Txs block;
    rfb_DecidedLastCommit := lastCommitInfo;
    rfb_Misbehavior := EvidenceList_ToABCI (blk_Evidence block);
    rfb_Hash := Block_Hash block;
    rfb_Height := hdr_Height (blk_Header block);
    rfb_Time := hdr_Time (blk_Header block);
    rfb_NextValidatorsHash := hdr_NextValidatorsHash (blk_Header block);
    rfb_ProposerAddress := hdr_ProposerAddress (blk_Header block) |} in
  send_all (abci_call (ReqFinalizeBlock request) (λ h c, env_FinalizeBlock h c request)).

(** ** InitChain *)

Definition CreateInitChainRequest (genesisState : State) (genesisDoc : GenesisDoc)
  : outcome RequestInitChain :=
  let consensusParams := cp_ToProto (st_ConsensusParams genesisState) in
  let validators := (λ val, NewValidator (gv_PubKey val) (gv_Power val)) <$> gd_Validators genesisDoc in
  validatorSet ← NewValidatorSet validators;
  let nextVals := TM2PB_ValidatorUpdates validatorSet in
  Ret {| ric_Validators := nextVals;
         ric_InitialHeight := st_InitialHeight genesisState;
         ric_Time := gd_GenesisTime genesisDoc;
         ric_ChainId := st_ChainID genesisState;
         ric_ConsensusParams := consensusParams;
         ric_AppStateBytes := gd_AppState genesisDoc |}.

Definition UpdateStateFromInit (res : ResponseInitChain) : M Sys unit :=
  (if decide (rsi_AppHash res ≠ "") then upd_state (with_AppHash (rsi_AppHash res)) else mret tt) ;;
  (if decide (rsi_Validators res ≠ []) then
     validators ← liftO (PB2TM_ValidatorUpdates (rsi_Validators res));
     lastVals ← liftO (NewValidatorSet validators);
     upd_state (with_LastValidators lastVals) ;;
     vals ← liftO (NewValidatorSet validators);
     upd_state (with_Validators vals) ;;
     vals' ← liftO (NewValidatorSet validators);
     nextVals ← liftO (CopyIncrementProposerPriority vals' 1);
     upd_state (with_NextValidators nextVals)
   else mret tt) ;;
  (match rsi_ConsensusParams res with
   | Some p =>
       upd_state (λ s, with_ConsensusParams (cp_Update (st_ConsensusParams s) p) s) ;;
       upd_state (λ s, with_Version_App (cp_Version_App (st_ConsensusParams s)) s)
   | None => mret tt
   end) ;;
  upd_state (with_LastResultsHash (HashFromByteSlices [])).

Definition SendInitChain (genesisState : State) (genesisDoc : GenesisDoc) : M Sys unit :=
  initChainRequest ← liftO (CreateInitChainRequest genesisState genesisDoc);
  response ← send_all (abci_call (ReqInitChain initChainRequest)
    (λ h c, env_InitChain h c initChainRequest));
  UpdateStateFromInit response.
End ops.
End client.
Arguments AbciClient {CT} ST TH.
Arguments Sys {CT} ST TH.
