(* ===== verification/UpdateState.v ===== *)
(** * abci_client/client.go, part 2: the state after a block, and its events

    [UpdateState], [validateValidatorUpdates], [fireEvents] and
    [UpdateStateFromBlock].  The theorems: which validator updates are accepted,
    when an accepted update takes effect, and which events a block publishes. *)

From S2P Require Import Prelude.
From S2P Require Import CometTypes.
From S2P Require Import Toy.
From S2P Require Import Storage.
From S2P Require Import TimeHandler.
From S2P Require Import Client.
#[local] Open Scope Z_scope.

Section update.
Context {CT : CometTypes} {CO : CometOps}.

Fixpoint validateValidatorUpdates (abciUpdates : list ValidatorUpdate)
    (params : ValidatorParams) : outcome unit :=
  match abciUpdates with
  | [] => Ret tt
  | valUpdate :: rest =>
      if decide (vu_Power valUpdate < 0) then
        Err (Errorf "voting power can't be negative %v" [AInt (vu_Power valUpdate)])
      else if decide (vu_Power valUpdate = 0) then
        (* deleting the validator: there is no pubkey to check *)
        validateValidatorUpdates rest params
      else
        pk ← PubKeyFromProto (vu_PubKey valUpdate);
        if IsValidPubkeyType params (PubKey_Type pk) then validateValidatorUpdates rest params
        else Err (Errorf "validator %v is using pubkey %s, which is unsupported for consensus"
               [AStr (PubKey_Type pk)])
  end.

(** On an error the code also returns the old state, which its caller drops. *)
Definition UpdateState (curState : State) (blockId : BlockID) (blockHeader : Header)
    (finalizeBlockRes : ResponseFinalizeBlock) (validatorUpdates : list Validator)
  : outcome State :=
  let nValSet := st_NextValidators curState in
  let lastHeightValsChanged := st_LastHeightValidatorsChanged curState in
  '(nValSet, lastHeightValsChanged) ←
    (if decide (validatorUpdates ≠ []) then
       nv ← wrapO "error changing validator set: %v" (UpdateWithChangeSet nValSet validatorUpdates);
       Ret (nv, hdr_Height blockHeader + 1 + 1)
     else Ret (nValSet, lastHeightValsChanged));
  nValSet ← IncrementProposerPriority nValSet 1;
  let nextParams := st_ConsensusParams curState in
  let lastHeightParamsChanged := st_LastHeightConsensusParamsChanged curState in
  '(curState, nextParams, lastHeightParamsChanged) ←
    (match rsf_ConsensusParamUpdates finalizeBlockRes with
     | Some updates =>
         let nextParams := cp_Update (st_ConsensusParams curState) updates in
         wrapO "error updating consensus params: %v" (cp_ValidateBasic nextParams) ;;
         Ret (with_Version_App (cp_Version_App nextParams) curState, nextParams,
              hdr_Height blockHeader + 1)
     | None => Ret (curState, nextParams, lastHeightParamsChanged)
     end);
  let nextVersion := st_Version curState in
  Ret {| st_Version := nextVersion;
         st_ChainID := st_ChainID curState;
         st_InitialHeight := st_InitialHeight curState;
         st_LastBlockHeight := hdr_Height blockHeader;
         st_LastBlockID := blockId;
         st_LastBlockTime := hdr_Time blockHeader;
         st_NextValidators := nValSet;
         st_Validators := st_NextValidators curState;
         st_LastValidators := st_Validators curState;
         st_LastHeightValidatorsChanged := lastHeightValsChanged;
         st_ConsensusParams := nextParams;
         st_LastHeightConsensusParamsChanged := lastHeightParamsChanged;
         st_LastResultsHash := TxResultsHash (rsf_TxResults finalizeBlockRes);
         (* app hash will be populated after commit *)
         st_AppHash := "" |}.

Section stateful.
Context {ST TH : Type}.

(** An error of the event bus is only logged. *)
Definition publish (e : bus_event) : M (Sys ST TH) unit :=
  call_env (IoPublish e) (λ _, Ret tt).

Definition fireEvents (block : Block) (blockID : BlockID)
    (abciResponse : ResponseFinalizeBlock) (validatorUpdates : list Validator)
  : M (Sys ST TH) unit :=
  publish (EventNewBlock block blockID abciResponse) ;;
  publish (EventNewBlockHeader (blk_Header block)) ;;
  publish (EventNewBlockEvents (hdr_Height (blk_Header block)) (rsf_Events abciResponse)
             (Z.of_nat (length (blk_Txs block)))) ;;
  for_range (λ _ ev, publish (EventNewEvidence ev (hdr_Height (blk_Header block))))
    (blk_Evidence block) ;;
  for_range (λ i tx,
      match rsf_TxResults abciResponse !! i with
      | None => panic IndexOutOfRange
      | Some result =>
          publish (EventTx {| tr_Height := hdr_Height (blk_Header block);
                              tr_Index := wrapu32 (Z.of_nat i);
                              tr_Tx := tx;
                              tr_Result := result |})
      end) (blk_Txs block) ;;
  (if decide (validatorUpdates ≠ []) then publish (EventValidatorSetUpdates validatorUpdates)
   else mret tt).

Definition UpdateStateFromBlock (blockId : BlockID) (block : Block)
    (finalizeBlockRes : ResponseFinalizeBlock) : M (Sys ST TH) unit :=
  curState ← cl CurState;
  let abciValidatorUpdates := rsf_ValidatorUpdates finalizeBlockRes in
  liftO (wrapO "error in validator updates: %v"
    (validateValidatorUpdates abciValidatorUpdates (cp_Validator (st_ConsensusParams curState)))) ;;
  validatorUpdates ← liftO (wrapO "error converting validator updates: %v"
    (PB2TM_ValidatorUpdates abciValidatorUpdates));
  newState ← liftO (wrapO "error updating state: %v"
    (UpdateState curState blockId (blk_Header block) finalizeBlockRes validatorUpdates));
  upd (set_CurState newState) ;;
  fireEvents block blockId finalizeBlockRes validatorUpdates.
End stateful.

(** ** Lemmas *)

(** The validator set two heights on, from the one before it. *)
Definition next_valset (vs : ValidatorSet) (ups : list Validator) : outcome ValidatorSet :=
  vs' ← (if decide (ups ≠ []) then UpdateWithChangeSet vs ups else Ret vs);
  IncrementProposerPriority vs' 1.

(** What a successful [UpdateState] changes. *)
Lemma UpdateState_ret s id h res ups s' :
  UpdateState s id h res ups = Ret s' →
  next_valset (st_NextValidators s) ups = Ret (st_NextValidators s') ∧
  st_Validators s' = st_NextValidators s ∧
  st_LastValidators s' = st_Validators s ∧
  st_LastBlockHeight s' = hdr_Height h ∧
  st_LastBlockTime s' = hdr_Time h ∧
  st_LastBlockID s' = id ∧
  st_ChainID s' = st_ChainID s ∧
  st_InitialHeight s' = st_InitialHeight s ∧
  st_LastHeightValidatorsChanged s' =
    (if decide (ups ≠ []) then hdr_Height h + 1 + 1 else st_LastHeightValidatorsChanged s) ∧
  st_ConsensusParams s' =
    (match rsf_ConsensusParamUpdates res with
     | Some u => cp_Update (st_ConsensusParams s) u | None => st_ConsensusParams s end) ∧
  st_AppHash s' = "".
Proof.
  unfold UpdateState, next_valset. intros H.
  apply outcome_bind_ret in H as ([nv lh] & Hnv & H).
  apply outcome_bind_ret in H as (nv' & Hinc & H).
  apply outcome_bind_ret in H as ([[cs np] lp] & Hcp & H).
  assert (cs = s ∨ ∃ x, cs = with_Version_App x s) as Hcs.
  { destruct (rsf_ConsensusParamUpdates res); [|simplify_eq/=; by left].
    apply outcome_bind_ret in Hcp as (? & _ & Hcp). simplify_eq/=. eauto. }
  assert (np = match rsf_ConsensusParamUpdates res with
     | Some u => cp_Update (st_ConsensusParams s) u | None => st_ConsensusParams s end) as ->.
  { destruct (rsf_ConsensusParamUpdates res); [|by simplify_eq/=].
    apply outcome_bind_ret in Hcp as (? & _ & Hcp). by simplify_eq/=. }
  clear Hcp. simplify_eq/=.
  assert (st_NextValidators cs = st_NextValidators s ∧ st_Validators cs = st_Validators s ∧
    st_ChainID cs = st_ChainID s ∧ st_InitialHeight cs = st_InitialHeight s) as (-> & -> & -> & ->).
  { by destruct Hcs as [->|[? ->]]. }
  destruct (decide (ups ≠ [])).
  - apply outcome_bind_ret in Hnv as (nv0 & Hnv & Heq). apply wrapO_ret in Hnv.
    simplify_eq/=. rewrite Hnv. simpl. rewrite Hinc. done.
  - simplify_eq/=. rewrite Hinc. done.
Qed.
End update.

(** ** Theorems *)

Section theorems.
Context {CT : CometTypes} {CO : CometOps}.

(** An update CometMock accepts: a deletion, or a positive power with a key of
    a supported type. *)
Definition update_ok (params : ValidatorParams) (u : ValidatorUpdate) : Prop :=
  vu_Power u = 0 ∨
  0 < vu_Power u ∧ ∃ pk, PubKeyFromProto (vu_PubKey u) = Ret pk ∧
    IsValidPubkeyType params (PubKey_Type pk) = true.

(** C34 [validateValidatorUpdates] accepts a list exactly when each update is a
    deletion or has positive power and a supported key, and the first negative
    power after acceptable updates is reported as such. *)
Theorem validateValidatorUpdates_accepts (ups : list ValidatorUpdate) (params : ValidatorParams) :
  (validateValidatorUpdates ups params = Ret tt ↔ Forall (update_ok params) ups) ∧
  (∀ ups1 u ups2, ups = ups1 ++ u :: ups2 → Forall (update_ok params) ups1 → vu_Power u < 0 →
     validateValidatorUpdates ups params =
       Err (Errorf "voting power can't be negative %v" [AInt (vu_Power u)])).
Proof.
  assert (∀ u, update_ok params u → ∀ rest,
    validateValidatorUpdates (u :: rest) params = validateValidatorUpdates rest params) as Hok.
  { intros u [H0|(Hpos & pk & Hpk & Hty)] rest; simpl; rewrite decide_False by lia.
    - by rewrite decide_True.
    - rewrite decide_False by lia. rewrite Hpk. simpl. by rewrite Hty. }
  split.
  - split.
    + induction ups as [|u ups IH]; [constructor|]. intros H.
      assert (update_ok params u) as Hu.
      { unfold update_ok. simpl in H. case_decide; [done|].
        case_decide; [by left|]. right. split; [lia|].
        apply outcome_bind_ret in H as (pk & Hpk & H). exists pk.
        by destruct (IsValidPubkeyType params (PubKey_Type pk)). }
      constructor; [done|]. apply IH. by rewrite Hok in H.
    + induction 1 as [|u ups Hu Hups IH]; [done|]. by rewrite Hok.
  - intros ups1 u ups2 -> H1 Hneg. induction H1 as [|u1 ups1 Hu1 H1 IH]; cbn [app].
    + simpl. by rewrite decide_True.
    + by rewrite Hok.
Qed.

(** Successive blocks: their identifiers, headers, responses and converted
    validator updates. *)
Fixpoint run_updates (s : State)
    (l : list (BlockID * Header * ResponseFinalizeBlock * list Validator)) : outcome State :=
  match l with
  | [] => Ret s
  | (id, h, r, ups) :: l' => s1 ← UpdateState s id h r ups; run_updates s1 l'
  end.

(** C12 Validator updates returned for a block take effect two heights later.
    Over any run of successful updates there is one sequence of validator sets
    such that before the [i]-th block the state's (last, current, next) sets are
    entries [i], [i+1], [i+2], and the updates of block [i] produce entry [i+3]
    from entry [i+2]: so they sign blocks from [i+2] on, and never before. *)
Theorem UpdateState_schedule (s s' : State)
    (l : list (BlockID * Header * ResponseFinalizeBlock * list Validator))
    (Hrun : run_updates s l = Ret s') :
  ∃ V : list ValidatorSet,
    length V = (3 + length l)%nat ∧
    (∀ i si, run_updates s (take i l) = Ret si → (i ≤ length l)%nat →
       V !! i = Some (st_LastValidators si) ∧
       V !! S i = Some (st_Validators si) ∧
       V !! S (S i) = Some (st_NextValidators si)) ∧
    (∀ i id h r ups, l !! i = Some (id, h, r, ups) → ∃ a b,
       V !! S (S i) = Some a ∧ V !! S (S (S i)) = Some b ∧ next_valset a ups = Ret b).
Proof.
  revert s Hrun. induction l as [|[[[id h] r] ups] l IH]; intros s Hrun.
  - exists [st_LastValidators s; st_Validators s; st_NextValidators s]. split_and!; [done | |done].
    intros i si Hsi Hi. simpl in Hi. assert (i = 0%nat) as -> by lia. by simplify_eq/=.
  - simpl in Hrun. apply outcome_bind_ret in Hrun as (s1 & Hs1 & Hrun).
    pose proof (UpdateState_ret _ _ _ _ _ _ Hs1) as (Hnext & Hval & Hlast & _).
    destruct (IH s1 Hrun) as (V & HlenV & HV & Hstep).
    destruct (HV 0%nat s1 eq_refl) as (H0 & H1 & H2); [lia|].
    exists (st_LastValidators s :: V). split_and!; [simpl; lia | |].
    + intros [|i] si Hsi Hi; simpl in *.
      * simplify_eq. rewrite H0, H1. split_and!; congruence.
      * rewrite Hs1 in Hsi. simpl in Hsi. apply HV; [done | lia].
    + intros [|i] id' h' r' ups' Hl; simpl in *.
      * simplify_eq. rewrite H1, H2. eexists _, _. split_and!; [done..|]. by rewrite Hval.
      * destruct (Hstep i _ _ _ _ Hl) as (a & b & Ha & Hb & Hnv). eauto.
Qed.

(** The events of a block, in order. *)
Definition tx_event (h : Header) (res : ResponseFinalizeBlock) (i : nat) (tx : bytes)
  : option bus_event :=
  r ← rsf_TxResults res !! i;
  Some (EventTx (mkTxResult (hdr_Height h) (wrapu32 (Z.of_nat i)) tx r)).
Definition block_events (b : Block) (id : BlockID) (res : ResponseFinalizeBlock)
    (ups : list Validator) : list bus_event :=
  [EventNewBlock b id res; EventNewBlockHeader (blk_Header b);
   EventNewBlockEvents (hdr_Height (blk_Header b)) (rsf_Events res) (Z.of_nat (length (blk_Txs b)))] ++
  ((λ ev, EventNewEvidence ev (hdr_Height (blk_Header b))) <$> blk_Evidence b) ++
  omap (λ o, o) (imap (tx_event (blk_Header b) res) (blk_Txs b)) ++
  (if decide (ups ≠ []) then [EventValidatorSetUpdates ups] else []).

Section stateful.
Context {ST TH : Type}.
Implicit Types s : Sys ST TH.

Definition published (evs : list bus_event) s : Sys ST TH :=
  mkSys (client s) (blockMutex s) (reverse (IoPublish <$> evs) ++ io s).

Lemma published_app evs1 evs2 s : published evs2 (published evs1 s) = published (evs1 ++ evs2) s.
Proof. unfold published. simpl. by rewrite fmap_app, reverse_app, app_assoc. Qed.

Lemma publish_run e s : publish e s = (Ret tt, published [e] s).
Proof. done. Qed.

Lemma publish_range {A} (body : nat → A → M (Sys ST TH) unit) (f : nat → A → option bus_event) l i s :
  (∀ j x s, l !! j = Some x → ∃ e, f (i + j)%nat x = Some e ∧ body (i + j)%nat x s = publish e s) →
  for_range_from i body l s = (Ret tt, published (omap (λ o, o) (imap (λ j, f (i + j)%nat) l)) s).
Proof.
  revert i s. induction l as [|x l IH]; intros i s Hb; [by destruct s|].
  cbn [for_range_from]. destruct (Hb 0%nat x s eq_refl) as (e & Hf & Hbody).
  rewrite Nat.add_0_r in Hf, Hbody.
  rewrite (bind_ret _ _ _ tt (published [e] s)) by (by rewrite Hbody).
  rewrite IH.
  - rewrite published_app. f_equal. f_equal.
    cbn [imap omap list_omap]. rewrite Nat.add_0_r, Hf. cbn. f_equal. f_equal.
    apply imap_ext. intros j y _. simpl. f_equal. lia.
  - intros j y s0 Hj. rewrite Nat.add_succ_comm. by apply (Hb (S j)).
Qed.

(** With fewer results than transactions the loop panics. *)
Lemma tx_events_missing (h : Header) (res : ResponseFinalizeBlock) txs i s :
  (i ≤ length (rsf_TxResults res) < i + length txs)%nat →
  ∃ s', for_range_from i (λ i tx,
      match rsf_TxResults res !! i with
      | None => panic IndexOutOfRange
      | Some result => publish (EventTx (mkTxResult (hdr_Height h) (wrapu32 (Z.of_nat i)) tx result))
      end) txs s = (Panic IndexOutOfRange, s').
Proof.
  revert i s. induction txs as [|tx txs IH]; intros i s Hi; simpl in Hi; [lia|].
  cbn [for_range_from]. destruct (rsf_TxResults res !! i) as [r|] eqn:Hr.
  - rewrite (bind_ret _ _ _ _ _ (publish_run _ _)). apply IH.
    apply lookup_lt_Some in Hr. lia.
  - exists s. by rewrite (bind_panic _ _ _ IndexOutOfRange s).
Qed.

Lemma evidence_events (h : Z) (evs : list Evidence) s :
  for_range (λ _ ev, publish (EventNewEvidence ev h)) evs s =
    (Ret tt, published ((λ ev, EventNewEvidence ev h) <$> evs) s).
Proof.
  unfold for_range.
  rewrite (publish_range _ (λ _ ev, Some (EventNewEvidence ev h))) by eauto.
  f_equal. f_equal. induction evs as [|x l IHl]; [done|]. cbn. f_equal. exact IHl.
Qed.

(** C35 A block whose response has a result for each transaction publishes
    exactly: the block, its header, its events, one event per piece of
    evidence, one event per transaction with its own index and result, and the
    validator updates if there are any, in this order; with too few results
    the call panics on the first missing one. *)
Theorem fireEvents_publishes (b : Block) (id : BlockID) (res : ResponseFinalizeBlock)
    (ups : list Validator) s :
  if decide (length (blk_Txs b) ≤ length (rsf_TxResults res))%nat
  then fireEvents b id res ups s = (Ret tt, published (block_events b id res ups) s)
  else (fireEvents b id res ups s).1 = Panic IndexOutOfRange.
Proof.
  unfold fireEvents. do 3 (rewrite (bind_ret _ _ _ _ _ (publish_run _ _)); rewrite ?published_app).
  rewrite (bind_ret _ _ _ _ _ (evidence_events _ _ _)), published_app.
  case_decide as Hlen.
  - erewrite bind_ret; [| unfold for_range; apply (publish_range _ (tx_event (blk_Header b) res))].
    + rewrite published_app. unfold block_events. rewrite !app_assoc.
      destruct (decide (ups ≠ [])) as [Hu|Hu].
      * rewrite publish_run, published_app. done.
      * unfold mret, M_ret. by rewrite app_nil_r.
    + intros j x s0 Hj. unfold tx_event. simpl.
      destruct (lookup_lt_is_Some_2 (rsf_TxResults res) j) as [r Hr].
      { apply lookup_lt_Some in Hj. lia. }
      rewrite Hr. simpl. eauto.
  - unfold for_range.
    edestruct (tx_events_missing (blk_Header b) res (blk_Txs b) 0) as [s2 Hs2]; [lia..|].
    by rewrite (bind_panic _ _ _ _ _ Hs2).
Qed.
End stateful.
End theorems.

Import ToyInstances.

Definition ex_alice : Validator := toy_validator "alice" 10.
Definition ex_vals : ValidatorSet := mkValidatorSet [ex_alice] (Some ex_alice).
Definition ex_state : State :=
  mkState (mkVersion 11 0 "") "chain" 1 0 (mkBlockID "" 0) 0 ex_vals ex_vals ex_vals 1 (0, 0) 1 "" "".
Definition ex_update (h : Z) (ups : list Validator)
  : BlockID * Header * ResponseFinalizeBlock * list Validator :=
  (mkBlockID "" 0, mkHeader h 5 "" "" "alice" tt, mkResponseFinalizeBlock [] [] [] None "", ups).

Definition ex_updates := [ex_update 1 [toy_validator "carol" 1]; ex_update 2 []].
Definition ex_state2 : State :=
  match run_updates ex_state ex_updates with Ret s => s | _ => ex_state end.

(** "carol" joins in block 1: she signs from block 3 on. *)
Lemma UpdateState_schedule_witness :
  (val_Address <$> vs_Validators (st_Validators ex_state2)) = ["alice"; "carol"] ∧
  (val_Address <$> vs_Validators (st_LastValidators ex_state2)) = ["alice"] ∧
  ∃ V : list ValidatorSet, length V = 5%nat ∧ V !! 3%nat = Some (st_Validators ex_state2).
Proof.
  assert (run_updates ex_state ex_updates = Ret ex_state2) as E by (vm_compute; reflexivity).
  split; [reflexivity|]. split; [reflexivity|].
  destruct (UpdateState_schedule ex_state ex_state2 ex_updates E) as (V & HV & Hi & _).
  exists V. split; [exact HV|]. exact (proj1 (proj2 (Hi 2%nat ex_state2 E (le_n _)))).
Defined.
