(* ===== verification/Evidence.v ===== *)
(** * abci_client/client.go, part 3: evidence of misbehaviour

    [ConstructDuplicateVoteEvidence] and [ConstructLightClientAttackEvidence]. *)

From S2P Require Import Prelude.
From S2P Require Import CometTypes.
From S2P Require Import Toy.
From S2P Require Import Storage.
From S2P Require Import TimeHandler.
From S2P Require Import Utils.
From S2P Require Import Client.
#[local] Open Scope Z_scope.

Section evidence.
Context {CT : CometTypes} {CO : CometOps}.

(** [block.AppHash = x], [block.Time = t] *)
Definition set_hdr_AppHash (x : bytes) (h : Header) : Header :=
  mkHeader (hdr_Height h) (hdr_Time h) (hdr_NextValidatorsHash h) x
    (hdr_ProposerAddress h) (hdr_rest h).
Definition set_hdr_Time (t : Z) (h : Header) : Header :=
  mkHeader (hdr_Height h) t (hdr_NextValidatorsHash h) (hdr_AppHash h)
    (hdr_ProposerAddress h) (hdr_rest h).
Definition set_blk_Header (f : Header → Header) (b : Block) : Block :=
  mkBlock (f (blk_Header b)) (blk_Txs b) (blk_Evidence b) (blk_LastCommit b).

(** A call whose error result is dropped. *)
Definition ignore_err (o : outcome unit) : outcome unit :=
  match o with Err _ => Ret tt | _ => o end.

(** The header of the conflicting block, by type of misbehaviour. *)
Definition conflicting_header (misbehaviourType : MisbehaviourType) (h : Header)
  : outcome Header :=
  match misbehaviourType with
  | Lunatic => Ret (set_hdr_AppHash "some other app hash" h)
  | Amnesia => Ret h
  | Equivocation => Ret (set_hdr_Time (hdr_Time h + 1000000000) h)
  | DuplicateVote => Err (Errorf "unknown misbehaviour type %v for light client misbehaviour" [AInt 0])
  end.

Section stateful.
Context {ST TH : Type} {SO : StorageOps ST}.

Definition evidence_vote (v : Validator) (index : Z) (lastBlock : Block) (blockId : BlockID)
    (round : Z) : VoteProto :=
  {| vp_ValidatorAddress := val_Address v;
     vp_ValidatorIndex := wrap32 index;
     vp_Height := hdr_Height (blk_Header lastBlock);
     vp_Round := round;
     vp_Timestamp := hdr_Time (blk_Header lastBlock);
     vp_Type := PrecommitType;
     vp_BlockID := blockId;
     vp_Signature := ""; vp_Extension := ""; vp_ExtensionSignature := "" |}.

Definition ConstructDuplicateVoteEvidence (v : Validator) : M (Sys ST TH) DuplicateVoteEvidence :=
  clients ← cl Clients;
  (* the zero value's PrivValidator is nil *)
  let privVal := PrivVal <$> clients !! Address_String (val_Address v) in
  lastBlock ← cl LastBlock;
  blockId ← liftO (GetBlockIdFromBlock lastBlock);
  lastState ← on_storage (GetState (hdr_Height (blk_Header lastBlock)));
  let '(index, valInLastState) := GetByAddress (st_Validators lastState) (val_Address v) in
  let voteA := evidence_vote v index lastBlock blockId 1 in
  let voteB := evidence_vote v index lastBlock blockId 2 in
  match privVal with
  | None => panic NilDereference
  | Some privVal =>
      chainID ← cl (λ a, st_ChainID (CurState a));
      let '(voteA, errA) := SignVote privVal chainID voteA in
      liftO (ignore_err errA) ;;
      let '(voteB, errB) := SignVote privVal chainID voteB in
      liftO (ignore_err errB) ;;
      convertedVoteA ← liftO (VoteFromProto voteA);
      liftO (Vote_ValidateBasic convertedVoteA) ;;
      convertedVoteB ← liftO (VoteFromProto voteB);
      liftO (Vote_ValidateBasic convertedVoteB) ;;
      match valInLastState with
      | None => panic NilDereference
      | Some valInLastState =>
          mret {| dve_VoteA := convertedVoteA;
                  dve_VoteB := convertedVoteB;
                  dve_TotalVotingPower := TotalVotingPower (st_Validators lastState);
                  dve_ValidatorPower := val_VotingPower valInLastState;
                  dve_Timestamp := hdr_Time (blk_Header lastBlock) |}
      end
  end.

Definition ConstructLightClientAttackEvidence (v : Validator)
    (misbehaviourType : MisbehaviourType) : M (Sys ST TH) LightClientAttackEvidence :=
  lastBlock ← cl LastBlock;
  lastState ← on_storage (GetState (hdr_Height (blk_Header lastBlock)));
  conflictingBlock ← liftO (deepcopy_Block lastBlock);
  conflictingHeader ← liftO (conflicting_header misbehaviourType (blk_Header conflictingBlock));
  lastCommit ← cl LastCommit;
  curValidators ← cl (λ a, st_Validators (CurState a));
  let signedHeader := {| sh_Header := conflictingHeader;
                         sh_Commit := ExtendedCommit_ToCommit lastCommit |} in
  let conflictingLightBlock := {| lb_SignedHeader := signedHeader;
                                  lb_ValidatorSet := curValidators |} in
  mret {| lca_TotalVotingPower := TotalVotingPower (st_Validators lastState);
          lca_Timestamp := hdr_Time (blk_Header lastBlock);
          lca_ByzantineValidators := [v];
          lca_CommonHeight := hdr_Height (blk_Header lastBlock) - 1;
          lca_ConflictingBlock := conflictingLightBlock |}.
End stateful.
End evidence.
