(* ===== verification/RunBlock.v ===== *)
(** * abci_client/client.go, part 4: running a block

    [decideProposal], [CreateProposalBlock], [ProcessProposal],
    [ExtendAndSignVote], [runBlock_helper] phase by phase, and the entry points
    [RunBlock], [RunBlockWithTime], [RunBlockWithEvidence], [RunEmptyBlocks],
    [CauseDoubleSign] and [CauseLightClientAttack]. *)

From S2P Require Import Prelude.
From S2P Require Import CometTypes.
From S2P Require Import Storage.
From S2P Require Import TimeHandler.
From S2P Require Import Utils.
From S2P Require Import Client.
From S2P Require Import UpdateState.
From S2P Require Import Evidence.
#[local] Open Scope Z_scope.

Section run_block.
Context {CT : CometTypes} {CO : CometOps} {EN : Env} {ST TH : Type}.
Context {SO : StorageOps ST} {TO : TimeHandlerOps TH}.
#[local] Abbreviation Sys := (Sys ST TH).

(** ** The proposal *)

(** [val.Address] of a pointer that may be nil. *)
Definition deref {A} (x : option A) : M Sys A :=
  match x with Some a => mret a | None => panic NilDereference end.

(** An error of [PrepareProposal] is a panic. *)
Definition must {A} (m : M Sys A) : M Sys A := λ s,
  match m s with (Err e, s') => (Panic (PanicErr e), s') | r => r end.

Definition CreateProposalBlock (proposerApp : AbciCounterpartyClient)
    (proposerVal : option Validator) (height : Z) (curState : State)
    (lastExtCommit : ExtendedCommit) (txs : list bytes) (misbehaviour : list Evidence)
  : M Sys Block :=
  let commit := ExtendedCommit_ToCommit lastExtCommit in
  proposerVal ← deref proposerVal;
  let block := State_MakeBlock curState height txs commit misbehaviour (val_Address proposerVal) in
  localLastCommit ← liftO (BuildExtendedCommitInfo lastExtCommit (st_LastValidators curState)
    (st_InitialHeight curState) (cp_ABCI (st_ConsensusParams curState)));
  let request := {|
    rpp_MaxTxBytes := MaxBlockSizeBytes;
    rpp_Txs := blk_Txs block;
    rpp_LocalLastCommit := localLastCommit;
    rpp_Misbehavior := EvidenceList_ToABCI (blk_Evidence block);
    rpp_Height := hdr_Height (blk_Header block);
    rpp_Time := hdr_Time (blk_Header block);
    rpp_NextValidatorsHash := hdr_NextValidatorsHash (blk_Header block);
    rpp_ProposerAddress := hdr_ProposerAddress (blk_Header block) |} in
  txl ← must (abci_call (ReqPrepareProposal request)
    (λ h c, env_PrepareProposal h c request) (Client proposerApp));
  liftO (Txs_Validate txl MaxBlockSizeBytes) ;;
  mret (State_MakeBlock curState height txl commit misbehaviour
          (hdr_ProposerAddress (blk_Header block))).

Definition decideProposal (proposerApp : AbciCounterpartyClient)
    (proposerVal : option Validator) (height round : Z) (txs : list bytes)
    (misbehaviour : list Evidence) : M Sys (Proposal * Block) :=
  curState ← cl CurState;
  lastCommit ← cl LastCommit;
  block ← CreateProposalBlock proposerApp proposerVal height curState lastCommit txs misbehaviour;
  header ← wrap_err (λ err, Errorf "unable to create proposal block part set: %v" [AErr err])
    (liftO (Block_MakePartSet block BlockPartSizeBytes));
  let propBlockID := {| bid_Hash := Block_Hash block; bid_PartSetHeader := header |} in
  let proposal := NewProposal height round 0 propBlockID in
  sig ← try_ (liftO (SignProposal (PrivVal proposerApp) (st_ChainID curState) proposal));
  match sig with
  | inr signature =>
      mret ({| prop_Height := prop_Height proposal; prop_Round := prop_Round proposal;
               prop_POLRound := prop_POLRound proposal; prop_BlockID := prop_BlockID proposal;
               prop_Timestamp := prop_Timestamp proposal; prop_Signature := signature |}, block)
  | inl _ => mret (proposal, block)   (* only logged *)
  end.

(** ** Calls to single applications *)

Definition ProcessProposal (app : AbciCounterpartyClient) (block : Block) : M Sys bool :=
  curState ← cl CurState;
  proposedLastCommit ← liftO (BuildLastCommitInfo block (st_Validators curState)
    (st_InitialHeight curState));
  let request := {|
    rpr_Hash := Header_Hash (blk_Header block);
    rpr_Height := hdr_Height (blk_Header block);
    rpr_Time := hdr_Time (blk_Header block);
    rpr_Txs := blk_Txs block;
    rpr_ProposedLastCommit := proposedLastCommit;
    rpr_Misbehavior := EvidenceList_ToABCI (blk_Evidence block);
    rpr_ProposerAddress := hdr_ProposerAddress (blk_Header block);
    rpr_NextValidatorsHash := hdr_NextValidatorsHash (blk_Header block) |} in
  response ← abci_call (ReqProcessProposal request)
    (λ h c, env_ProcessProposal h c request) (Client app);
  if rpp_IsStatusUnknown response then panic (PanicMsg "ProcessProposal responded with status %s")
  else mret (rpp_IsAccepted response).

Definition ExtendAndSignVote (app : AbciCounterpartyClient) (validator : Validator)
    (valIndex : Z) (block : Block) : M Sys Vote :=
  header ← (λ s, match liftO (Block_MakePartSet block BlockPartSizeBytes) s with
                 | (Err _, s') => (Panic (PanicMsg "error making block part set: %v"), s')
                 | r => r
                 end);
  round ← match blk_LastCommit block with
          | Some c => mret (cm_Round c)
          | None => panic NilDereference
          end;
  curState ← cl CurState;
  let height := hdr_Height (blk_Header block) in
  let blockID := {| bid_Hash := Block_Hash block; bid_PartSetHeader := header |} in
  let enabled := VoteExtensionsEnabled (cp_ABCI (st_ConsensusParams curState)) height in
  extension ←
    (if enabled then
       proposedLastCommit ← liftO (BuildLastCommitInfo block (st_Validators curState)
         (st_InitialHeight curState));
       let request := {|
         rev_Hash := bid_Hash blockID;
         rev_Height := height;
         rev_Time := hdr_Time (blk_Header block);
         rev_Txs := blk_Txs block;
         rev_ProposedLastCommit := proposedLastCommit;
         rev_Misbehavior := EvidenceList_ToABCI (blk_Evidence block);
         rev_NextValidatorsHash := hdr_NextValidatorsHash (blk_Header block);
         rev_ProposerAddress := hdr_ProposerAddress (blk_Header block) |} in
       wrap_err (λ err, Errorf "error extending vote %v: %v" [AErr err])
         (abci_call (ReqExtendVote request) (λ h c, env_ExtendVote h c request) (Client app))
     else mret "");
  let vote := {|
    vote_ValidatorAddress := val_Address validator;
    vote_ValidatorIndex := valIndex;
    vote_Height := height;
    vote_Round := round;
    vote_Timestamp := hdr_Time (blk_Header block);
    vote_Type := PrecommitType;
    vote_BlockID := blockID;
    vote_Signature := "";
    vote_Extension := extension;
    vote_ExtensionSignature := "" |} in
  let '(protoVote, err) := SignVote (PrivVal app) (st_ChainID curState) (Vote_ToProto vote) in
  wrap_err (λ err, Errorf "error signing vote %v: %v" [AErr err]) (liftO err) ;;
  mret {| vote_ValidatorAddress := vote_ValidatorAddress vote;
          vote_ValidatorIndex := vote_ValidatorIndex vote;
          vote_Height := vote_Height vote;
          vote_Round := vote_Round vote;
          vote_Timestamp := vote_Timestamp vote;
          vote_Type := vote_Type vote;
          vote_BlockID := vote_BlockID vote;
          vote_Signature := vp_Signature protoVote;
          vote_Extension := vote_Extension vote;
          vote_ExtensionSignature := if enabled then vp_ExtensionSignature protoVote else "" |}.

(** ** [runBlock_helper], phase by phase *)

Definition check_tx_error (err : error) : error := Errorf "error from CheckTx: %v" [AErr err].

(** [a.FreshTxQueue[index] = cmttypes.Tx{}]: the index is in range. *)
Definition blank_fresh (index : nat) (a : AbciClient ST TH) : AbciClient ST TH :=
  set_FreshTxQueue (<[index := ""]> (FreshTxQueue a)) a.
Definition blank_stale (index : nat) (a : AbciClient ST TH) : AbciClient ST TH :=
  set_StaleTxQueue (<[index := ""]> (StaleTxQueue a)) a.

Definition check_fresh_txs : M Sys unit :=
  fresh ← cl FreshTxQueue;
  for_range (λ index tx,
    resCheckTx ← wrap_err check_tx_error (SendCheckTx CheckTxType_New tx);
    if decide (rsc_Code resCheckTx ≠ CodeTypeOK) then upd (blank_fresh index) else mret tt) fresh.

Definition recheck_stale_txs : M Sys unit :=
  stale ← cl StaleTxQueue;
  for_range (λ index tx,
    resCheckTx ← wrap_err check_tx_error (SendCheckTx CheckTxType_Recheck tx);
    if decide (rsc_Code resCheckTx ≠ CodeTypeOK) then upd (blank_stale index) else mret tt) stale.

(** The non-empty transactions of both queues. *)
Definition new_tx_queue : M Sys (list bytes) :=
  fresh ← cl FreshTxQueue;
  stale ← cl StaleTxQueue;
  mret (filter (λ tx, tx ≠ "") (fresh ++ stale)).

Definition collect_evidence (misbehavingValidators : list (Validator * MisbehaviourType))
  : M Sys (list Evidence) :=
  collect (λ _ vm,
    wrap_err (λ err, Errorf "error constructing evidence: %v" [AErr err])
      (match vm.2 with
       | DuplicateVote => e ← ConstructDuplicateVoteEvidence vm.1; mret (EvDuplicateVote e)
       | t => e ← ConstructLightClientAttackEvidence vm.1 t; mret (EvLightClientAttack e)
       end)) misbehavingValidators.

Definition find_proposer_app (proposerAddress : bytes) : M Sys AbciCounterpartyClient :=
  cs ← range_clients;
  match list_find (λ c, ValidatorAddress c.2 = Address_String proposerAddress) cs with
  | Some (_, c) => mret c.2
  | None => throw (Errorf "could not find proposer app for address %v"
                     [AStr (Address_String proposerAddress)])
  end.

(** Up to the update of the queues. The block is dereferenced
    ([block.Time = blockTime]) before [err] is looked at. *)
Definition propose_block (blockTime : Z) (proposer : option Validator)
    (proposerApp : AbciCounterpartyClient) (newTxQueue : list bytes) (evidences : list Evidence)
  : M Sys Block :=
  lastHeight ← cl (λ a, st_LastBlockHeight (CurState a));
  res ← try_ (decideProposal proposerApp proposer (lastHeight + 1) 0 newTxQueue evidences);
  match res with
  | inl _ => panic NilDereference
  | inr (_, block) =>
      let block := set_blk_Header (set_hdr_Time blockTime) block in
      ClearTxs ;;
      for_range (λ _ tx,
        if Contains (blk_Txs block) tx then mret tt
        else upd (λ a, set_StaleTxQueue (StaleTxQueue a ++ [tx]) a)) newTxQueue ;;
      mret block
  end.

Definition non_proposers (proposerAddress : bytes) (vals : list Validator)
  : M Sys (list AbciCounterpartyClient) :=
  cs ← collect (λ _ val,
    wrap_err (λ err, Errorf "error when getting counterparty client from address: address %v, error %v"
        [AStr (Address_String (val_Address val)); AErr err])
      (GetCounterpartyFromAddress (Address_String (val_Address val)))) vals;
  mret (filter (λ c, ValidatorAddress c ≠ Address_String proposerAddress) cs).

Definition process_proposals (nonProposers : list AbciCounterpartyClient) (block : Block)
  : M Sys unit :=
  for_range (λ _ client,
    accepted ← wrap_err (λ err, Errorf "error in ProcessProposal for block %v, error %v" [AErr err])
      (ProcessProposal client block);
    if (accepted : bool) then mret tt
    else throw (Errorf "non-proposer %v did not accept the proposal for block %v"
                  [AStr (ValidatorAddress client)])) nonProposers.

(** A nil vote is a validator that does not sign. *)
Definition collect_votes (vals : list Validator) (block : Block) : M Sys (list (option Vote)) :=
  collect (λ index val,
    let addr := Address_String (val_Address val) in
    shouldSign ← wrap_err (λ err, Errorf "error getting signing status for validator %v, error %v"
        [AStr addr; AErr err]) (GetSigningStatus addr);
    if (shouldSign : bool) then
      clients ← cl Clients;
      match clients !! addr with
      | None => throw (Errorf "did not find privval for address: address %v" [AStr addr])
      | Some client =>
          vote ← wrap_err (λ err, Errorf "error when signing vote for validator %v, error %v"
              [AStr addr; AErr err])
            (ExtendAndSignVote client val (wrap32 (Z.of_nat index)) block);
          mret (Some vote)
      end
    else mret None) vals.

Definition verify_extension (client : AbciCounterpartyClient) (block : Block) (vote : Vote)
  : M Sys unit :=
  let request := {|
    rvv_Hash := Block_Hash block;
    rvv_ValidatorAddress := vote_ValidatorAddress vote;
    rvv_Height := hdr_Height (blk_Header block);
    rvv_VoteExtension := vote_Extension vote |} in
  resp ← must (wrap_err (λ err, Errorf "verify vote extension failed with error %v" [AErr err])
    (abci_call (ReqVerifyVoteExtension request)
       (λ h c, env_VerifyVoteExtension h c request) (Client client)));
  if rvv_IsStatusUnknown resp then panic (PanicMsg "verify vote extension responded with status %s")
  else if rvv_IsAccepted resp then mret tt
  else panic (PanicMsg "Verify vote extension rejected an extension for vote %v").

Definition verify_extensions (vals : list Validator) (block : Block) (votes : list (option Vote))
  : M Sys unit :=
  for_range (λ _ val,
    client ← wrap_err (λ err, Errorf "error when getting counterparty client from address: address %v, error %v"
        [AStr (Address_String (val_Address val)); AErr err])
      (GetCounterpartyFromAddress (Address_String (val_Address val)));
    for_range (λ _ vote,
      match vote with
      | Some vote =>
          if decide (Address_String (vote_ValidatorAddress vote) ≠ ValidatorAddress client)
          then verify_extension client block vote else mret tt
      | None => mret tt
      end) votes) vals.

Fixpoint add_votes (voteSet : VoteSet) (votes : list (option Vote)) : outcome VoteSet :=
  match votes with
  | [] => Ret voteSet
  | None :: votes' => add_votes voteSet votes'
  | Some vote :: votes' =>
      '(added, voteSet') ← wrapO "error adding vote %v to vote set: %v" (VoteSet_AddVote voteSet vote);
      if (added : bool) then add_votes voteSet' votes'
      else Err (Errorf "could not add vote %v to vote set" [])
  end.

(** The vote set, the new last commit, and the two sanity checks. *)
Definition commit_votes (block : Block) (votes : list (option Vote)) : M Sys unit :=
  curState ← cl CurState;
  let ap := cp_ABCI (st_ConsensusParams curState) in
  let height := hdr_Height (blk_Header block) in
  let voteSet :=
    if VoteExtensionsEnabled ap height
    then NewExtendedVoteSet (st_ChainID curState) height 0 PrecommitType (st_Validators curState)
    else NewVoteSet (st_ChainID curState) height 0 PrecommitType (st_Validators curState) in
  voteSet ← liftO (add_votes voteSet votes);
  lastCommit ← liftO (VoteSet_MakeExtendedCommit voteSet ap);
  upd (set_LastCommit lastCommit) ;;
  let commit := ExtendedCommit_ToCommit lastCommit in
  wrap_err (λ err, Errorf "error verifying commit %v: %v" [AErr err])
    (liftO (VerifyCommitLightTrusting (st_Validators curState) (st_ChainID curState) commit (1, 3))) ;;
  let lightBlock := {| lb_SignedHeader := {| sh_Header := blk_Header block; sh_Commit := commit |};
                       lb_ValidatorSet := st_Validators curState |} in
  liftO (LightBlock_ValidateBasic lightBlock (st_ChainID curState)).

Definition finalize_block (block : Block) : M Sys ResponseFinalizeBlock :=
  curState ← cl CurState;
  lastCommitInfo ← liftO (BuildLastCommitInfo block (st_Validators curState)
    (st_InitialHeight curState));
  wrap_err (λ err, Errorf "error from FinalizeBlock for block %v: %v" [AErr err])
    (SendFinalizeBlock block lastCommitInfo).

(** From [LockBeforeStateUpdate] to [UnlockAfterStateUpdate]. *)
Definition update_stores_and_state (newHeight : Z) (block : Block)
    (resFinalizeBlock : ResponseFinalizeBlock) : M Sys unit :=
  on_storage LockBeforeStateUpdate ;;
  upd (set_LastBlock block) ;;
  state ← cl CurState;
  lastCommit ← cl LastCommit;
  wrap_err (λ err, Errorf "error updating stores: %v" [AErr err])
    (on_storage (UpdateStores newHeight block (ExtendedCommit_ToCommit lastCommit) state
       resFinalizeBlock)) ;;
  blockId ← wrap_err (λ err, Errorf "error getting block id from block %v: %v" [AErr err])
    (liftO (GetBlockIdFromBlock block));
  wrap_err (λ err, Errorf "error updating state for result %v, block %v: %v" [AErr err])
    (UpdateStateFromBlock blockId block resFinalizeBlock) ;;
  on_storage UnlockAfterStateUpdate.

Definition commit_block (resFinalizeBlock : ResponseFinalizeBlock) : M Sys unit :=
  wrap_err (λ err, Errorf "error from Commit for block %v: %v" [AErr err]) SendCommit ;;
  upd_state (with_AppHash (rsf_AppHash resFinalizeBlock)).

(** The phases up to the response of [FinalizeBlock]... *)
Definition execute_block (blockTime : Z) (proposer : option Validator)
    (misbehavingValidators : list (Validator * MisbehaviourType))
  : M Sys (Block * ResponseFinalizeBlock) :=
  check_fresh_txs ;;
  recheck_stale_txs ;;
  newTxQueue ← new_tx_queue;
  let proposerAddress := from_option val_Address "" proposer in
  evidences ← collect_evidence misbehavingValidators;
  proposerApp ← find_proposer_app proposerAddress;
  block ← propose_block blockTime proposer proposerApp newTxQueue evidences;
  vals ← cl (λ a, vs_Validators (st_Validators (CurState a)));
  nonProposers ← non_proposers proposerAddress vals;
  process_proposals nonProposers block ;;
  votes ← collect_votes vals block;
  enabled ← cl (λ a, VoteExtensionsEnabled (cp_ABCI (st_ConsensusParams (CurState a)))
                       (hdr_Height (blk_Header block)));
  (if (enabled : bool) then verify_extensions vals block votes else mret tt) ;;
  commit_votes block votes ;;
  resFinalizeBlock ← finalize_block block;
  mret (block, resFinalizeBlock).

(** ... and the whole of it. *)
Definition runBlock_helper (blockTime : Z) (proposer : option Validator)
    (misbehavingValidators : list (Validator * MisbehaviourType)) : M Sys unit :=
  newHeight ← cl (λ a, st_LastBlockHeight (CurState a) + 1);
  '(block, resFinalizeBlock) ← execute_block blockTime proposer misbehavingValidators;
  update_stores_and_state newHeight block resFinalizeBlock ;;
  commit_block resFinalizeBlock.

(** ** Entry points *)

(** The unlock is not deferred: a panic leaves the mutex locked. *)
Definition RunBlockWithTimeAndProposer (blockTime : Z) (proposer : option Validator)
    (misbehavingValidators : list (Validator * MisbehaviourType)) : M Sys unit :=
  lock_blockMutex ;;
  err ← try_ (runBlock_helper blockTime proposer misbehavingValidators);
  unlock_blockMutex ;;
  match err with inl e => throw e | inr _ => mret tt end.

(** [a.TimeHandler.GetBlockTime(a.LastBlock.Time)] *)
Definition next_block_time : M Sys Z :=
  lastTime ← cl (λ a, hdr_Time (blk_Header (LastBlock a)));
  now ← time_now;
  h ← cl Time_Handler;
  let '(t, h') := GetBlockTime now lastTime h in
  upd (set_Time_Handler h') ;;
  mret t.

Definition default_proposer : M Sys (option Validator) :=
  cl (λ a, vs_Proposer (st_LastValidators (CurState a))).

Definition RunBlock : M Sys unit :=
  blockTime ← next_block_time;
  proposer ← default_proposer;
  RunBlockWithTimeAndProposer blockTime proposer [].

Definition RunBlockWithTime (t : Z) : M Sys unit :=
  proposer ← default_proposer;
  RunBlockWithTimeAndProposer t proposer [].

Definition RunBlockWithEvidence (misbehavingValidators : list (Validator * MisbehaviourType))
  : M Sys unit :=
  blockTime ← next_block_time;
  proposer ← default_proposer;
  RunBlockWithTimeAndProposer blockTime proposer misbehavingValidators.

(** [for i := 0; i < numBlocks; i++] *)
Fixpoint run_n (n : nat) : M Sys unit :=
  match n with
  | O => mret tt
  | S n' => RunBlock ;; run_n n'
  end.
Definition RunEmptyBlocks (numBlocks : Z) : M Sys unit := run_n (Z.to_nat numBlocks).

Definition CauseLightClientAttack (address misbehaviourType : string) : M Sys unit :=
  validator ← GetValidatorFromAddress address;
  misbehaviour ←
    (if decide (misbehaviourType = "Lunatic") then mret Lunatic
     else if decide (misbehaviourType = "Amnesia") then mret Amnesia
     else if decide (misbehaviourType = "Equivocation") then mret Equivocation
     else throw (Errorf "unknown misbehaviour type %s, possible types are: Equivocation, Lunatic, Amnesia"
                   [AStr misbehaviourType]));
  RunBlockWithEvidence [(validator, misbehaviour)].

Definition CauseDoubleSign (address : string) : M Sys unit :=
  validator ← GetValidatorFromAddress address;
  RunBlockWithEvidence [(validator, DuplicateVote)].
End run_block.
