(* ===== verification/Example.v ===== *)
(** * A small running system

    Two validators, "alice" (power 10) and "bob" (power 3), on the toy CometBFT
    with the in-memory storage and a fixed block time: the states the examples
    run on. *)

From S2P Require Import Prelude.
From S2P Require Import CometTypes.
From S2P Require Import Toy.
From S2P Require Import Storage.
From S2P Require Import TimeHandler.
From S2P Require Import Utils.
From S2P Require Import Client.
From S2P Require Import UpdateState.
From S2P Require Import Evidence.
From S2P Require Import RunBlock.
Import ToyInstances.
#[local] Open Scope Z_scope.

Abbreviation ToySys := (Sys MapStorage AnyTimeHandler).

Definition toy_client (name : string) : AbciCounterpartyClient :=
  NewAbciCounterpartyClient (name : ABCIHandle) "tcp://0.0.0.0:26658" name (name : PrivValidator).

Definition toy_clients : gmap string AbciCounterpartyClient :=
  list_to_map [("alice", toy_client "alice"); ("bob", toy_client "bob");
               ("carol", toy_client "carol")].

Definition toy_valset : ValidatorSet :=
  toy_proposer [toy_validator "alice" 10; toy_validator "bob" 3] None.

(** [&types.Block{}] and [&types.ExtendedCommit{}] *)
Definition toy_no_block : Block := mkBlock (mkHeader 0 zero_time "" "" "" tt) [] [] None.
Definition toy_no_commit : ExtendedCommit := mkExtendedCommit 0 0 (mkBlockID "" 0) [].

Definition toy_genesis_state (initialHeight ve : Z) : State :=
  mkState (mkVersion 11 0 "") "chain" initialHeight 0 (mkBlockID "" 0) 0
    toy_valset toy_valset toy_valset 1 (0, ve) 1 "" "".

Definition toy_sys (initialHeight ve : Z) (fresh : list bytes) : ToySys :=
  mkSys (set_FreshTxQueue fresh
    (NewAbciClient toy_clients (toy_genesis_state initialHeight ve) toy_no_block toy_no_commit
      empty_MapStorage (UseFixedBlock (NewFixedBlockTimeHandler 1000)) true)) false [].

(** The process after [n] blocks. *)
Definition toy_run (n : nat) (s : ToySys) : ToySys := (run_n n s).2.

Definition toy_alice : Validator := toy_validator "alice" 10.

(** A run, from the outcome of it. *)
Lemma run_pair {S A} (m : M S A) s o : (m s).1 = o → m s = (o, (m s).2).
Proof. intros <-. by destruct (m s). Qed.

Ltac run_toy := apply run_pair; vm_compute; reflexivity.

(** A block at time [t] proposed by alice. *)
Definition toy_block (t : Z) : M ToySys unit := RunBlockWithTimeAndProposer t (Some toy_alice) [].
