(* ===== verification/Frames.v ===== *)
(** * What the client's calls leave alone

    [frame q lc] relates two process states that differ at most in the history
    (which grows), in unobservable parts of the storage, in the transaction
    queues if [q], and in the last commit if [lc].  Every call of the phases
    before the state update stays within such a frame, however it ends. *)

From S2P Require Import Prelude.
From S2P Require Import CometTypes.
From S2P Require Import Storage.
From S2P Require Import TimeHandler.
From S2P Require Import Utils.
From S2P Require Import Client.
From S2P Require Import UpdateState.
From S2P Require Import Evidence.
From S2P Require Import RunBlock.
#[local] Open Scope Z_scope.

Section frames.
Context {CT : CometTypes} {CO : CometOps} {EN : Env} {ST TH : Type}.
Context {SO : StorageOps ST} {SL : StorageLaws ST} {TO : TimeHandlerOps TH}.
#[local] Abbreviation Sys := (Sys ST TH).
Implicit Types s : Sys.

Record frame (q lc : bool) (s s' : Sys) : Prop := mk_frame {
  fr_Clients : Clients (client s') = Clients (client s);
  fr_CurState : CurState (client s') = CurState (client s);
  fr_LastBlock : LastBlock (client s') = LastBlock (client s);
  fr_Storage : st_same (Storage (client s)) (Storage (client s'));
  fr_Error : ErrorOnUnequalResponses (client s') = ErrorOnUnequalResponses (client s);
  fr_signing : signingStatus (client s') = signingStatus (client s);
  fr_time : Time_Handler (client s') = Time_Handler (client s);
  fr_auto : AutoIncludeTx (client s') = AutoIncludeTx (client s);
  fr_mutex : blockMutex s' = blockMutex s;
  fr_io : ∃ l, io s' = l ++ io s;
  fr_LastCommit : lc = false → LastCommit (client s') = LastCommit (client s);
  fr_queues : q = false →
    FreshTxQueue (client s') = FreshTxQueue (client s) ∧
    StaleTxQueue (client s') = StaleTxQueue (client s);
}.

#[export] Instance frame_preorder q lc : PreOrder (frame q lc).
Proof.
  split.
  - intros s. split; try done. by exists [].
  - intros s1 s2 s3 [] []. split; try congruence.
    + by etrans.
    + destruct fr_io0 as [l1 H1], fr_io1 as [l2 H2]. exists (l2 ++ l1).
      by rewrite H2, H1, app_assoc.
    + intros Hlc. rewrite fr_LastCommit1 by done. auto.
    + intros Hq. destruct fr_queues0, fr_queues1; [done..|]. split; congruence.
Qed.

Lemma frame_weaken q lc q' lc' s s' :
  (q = true → q' = true) → (lc = true → lc' = true) → frame q lc s s' → frame q' lc' s s'.
Proof.
  intros Hq Hlc []. split; try done.
  - intros ->. apply fr_LastCommit0. by destruct lc; [discriminate Hlc|].
  - intros ->. apply fr_queues0. by destruct q; [discriminate Hq|].
Qed.

Lemma within_frame_weaken {A} q lc q' lc' (m : M Sys A) :
  (q = true → q' = true) → (lc = true → lc' = true) →
  within (frame q lc) m → within (frame q' lc') m.
Proof. intros Hq Hlc Hm s. by eapply frame_weaken. Qed.

(** Leaves. *)
Lemma within_cl {A} q lc (f : AbciClient ST TH → A) : within (frame q lc) (cl f).
Proof. apply within_gets, _. Qed.

Lemma within_call_env {A} q lc ev (f : list io_event → outcome A) :
  within (frame q lc) (call_env (ST:=ST) (TH:=TH) ev f).
Proof. intros s. split; try done. by exists [ev]. Qed.

Lemma within_abci_call {A} q lc req (f : list io_event → ABCIHandle → outcome A) c :
  within (frame q lc) (abci_call (ST:=ST) (TH:=TH) req f c).
Proof. apply within_call_env. Qed.

Lemma within_range_clients q lc : within (frame q lc) (range_clients (ST:=ST) (TH:=TH)).
Proof. intros s. split; try done. by eexists [_]. Qed.

Lemma within_on_storage_get {A} q lc (get : Z → M ST A) proj what h :
  get_contract st_wf st_locked st_view get proj what →
  within (frame q lc) (on_storage (TH:=TH) (get h)).
Proof.
  intros Hget s. unfold on_storage.
  destruct (get h (Storage (client s))) as [o st] eqn:E. split; try done; [|by exists []].
  intros Hwf. destruct (Hget h (Storage (client s)) Hwf) as (st' & Hrun & ? & ? & ?).
  rewrite Hrun in E. by simplify_eq.
Qed.

Lemma within_must {A} q lc (m : M Sys A) : within (frame q lc) m → within (frame q lc) (must m).
Proof. intros Hm s. specialize (Hm s). unfold must. by destruct (m s) as [[] ?]. Qed.

Lemma within_deref {A} q lc (x : option A) : within (frame q lc) (deref x : M Sys A).
Proof. destruct x; [apply within_ret, _ | apply within_panic, _]. Qed.

Lemma within_upd_queues lc f :
  (∀ a, f a = set_FreshTxQueue (FreshTxQueue (f a)) (set_StaleTxQueue (StaleTxQueue (f a)) a)) →
  within (frame true lc) (upd (ST:=ST) (TH:=TH) f).
Proof.
  intros Hf. apply within_modify. intros s. split; simpl; try (rewrite Hf; done); try done. by exists [].
Qed.

Lemma within_upd_LastCommit q x : within (frame q true) (upd (ST:=ST) (TH:=TH) (set_LastCommit x)).
Proof. apply within_modify. intros s. split; simpl; try done. by exists []. Qed.
End frames.

#[export] Hint Resolve within_cl within_call_env within_abci_call within_range_clients
  within_must within_deref within_upd_queues within_upd_LastCommit : within.

Section calls.
Context {CT : CometTypes} {CO : CometOps} {EN : Env} {ST TH : Type}.
Context {SO : StorageOps ST} {SL : StorageLaws ST} {TO : TimeHandlerOps TH}.
#[local] Abbreviation Sys := (Sys ST TH).

Lemma within_send_all {R} `{EqDecision R} q lc (call : ABCIHandle → M Sys R) :
  (∀ c, within (frame q lc) (call c)) → within (frame q lc) (send_all call).
Proof. intros Hc. unfold send_all. within_auto; auto. Qed.

Lemma within_SendCheckTx q lc t tx : within (frame q lc) (SendCheckTx t tx : M Sys _).
Proof. apply within_send_all. intros. apply within_abci_call. Qed.
Lemma within_SendCommit q lc : within (frame q lc) (SendCommit : M Sys _).
Proof. apply within_send_all. intros. apply within_abci_call. Qed.
Lemma within_SendFinalizeBlock q lc b c : within (frame q lc) (SendFinalizeBlock b c : M Sys _).
Proof. apply within_send_all. intros. apply within_abci_call. Qed.
End calls.

#[export] Hint Resolve within_SendCheckTx within_SendCommit within_SendFinalizeBlock : within.

(** ** The phases of [runBlock_helper] *)

Section phases.
Context {CT : CometTypes} {CO : CometOps} {EN : Env} {ST TH : Type}.
Context {SO : StorageOps ST} {SL : StorageLaws ST} {TO : TimeHandlerOps TH}.
#[local] Abbreviation Sys := (Sys ST TH).

Lemma within_GetState q lc h : within (frame q lc) (on_storage (GetState h) : M Sys _).
Proof. apply (within_on_storage_get _ _ _ e_state "state"), GetState_law. Qed.

Lemma within_GetSigningStatus q lc a : within (frame q lc) (GetSigningStatus a : M Sys _).
Proof. unfold GetSigningStatus. within_auto. Qed.
Lemma within_GetCounterparty q lc a :
  within (frame q lc) (GetCounterpartyFromAddress a : M Sys _).
Proof. unfold GetCounterpartyFromAddress. within_auto. Qed.

#[local] Hint Resolve within_GetState within_GetSigningStatus within_GetCounterparty : within.

Lemma within_blank_fresh lc i : within (frame true lc) (upd (blank_fresh i) : M Sys _).
Proof. by apply within_upd_queues. Qed.
Lemma within_blank_stale lc i : within (frame true lc) (upd (blank_stale i) : M Sys _).
Proof. by apply within_upd_queues. Qed.
Lemma within_append_stale lc tx :
  within (frame true lc) (upd (λ a, set_StaleTxQueue (StaleTxQueue a ++ [tx]) a) : M Sys _).
Proof. by apply within_upd_queues. Qed.
Lemma within_ClearTxs lc : within (frame true lc) (ClearTxs : M Sys _).
Proof. unfold ClearTxs. within_auto; by apply within_upd_queues. Qed.

#[local] Hint Resolve within_blank_fresh within_blank_stale within_append_stale
  within_ClearTxs : within.

Lemma within_check_fresh_txs lc : within (frame true lc) (check_fresh_txs : M Sys _).
Proof. unfold check_fresh_txs. within_auto. Qed.
Lemma within_recheck_stale_txs lc : within (frame true lc) (recheck_stale_txs : M Sys _).
Proof. unfold recheck_stale_txs. within_auto. Qed.
Lemma within_new_tx_queue q lc : within (frame q lc) (new_tx_queue : M Sys _).
Proof. unfold new_tx_queue. within_auto. Qed.

Lemma within_ConstructDuplicateVoteEvidence q lc v :
  within (frame q lc) (ConstructDuplicateVoteEvidence v : M Sys _).
Proof. unfold ConstructDuplicateVoteEvidence. within_auto. Qed.
Lemma within_ConstructLightClientAttackEvidence q lc v t :
  within (frame q lc) (ConstructLightClientAttackEvidence v t : M Sys _).
Proof. unfold ConstructLightClientAttackEvidence. within_auto. Qed.
#[local] Hint Resolve within_ConstructDuplicateVoteEvidence
  within_ConstructLightClientAttackEvidence : within.
Lemma within_collect_evidence q lc l : within (frame q lc) (collect_evidence l : M Sys _).
Proof. unfold collect_evidence. within_auto. Qed.

Lemma within_find_proposer_app q lc a : within (frame q lc) (find_proposer_app a : M Sys _).
Proof. unfold find_proposer_app. within_auto. Qed.

Lemma within_CreateProposalBlock q lc app v h st ec txs ev :
  within (frame q lc) (CreateProposalBlock app v h st ec txs ev : M Sys _).
Proof. unfold CreateProposalBlock. within_auto. Qed.
#[local] Hint Resolve within_CreateProposalBlock : within.
Lemma within_decideProposal q lc app v h r txs ev :
  within (frame q lc) (decideProposal app v h r txs ev : M Sys _).
Proof. unfold decideProposal. within_auto. Qed.
#[local] Hint Resolve within_decideProposal : within.
Lemma within_propose_block lc t p app txs ev :
  within (frame true lc) (propose_block t p app txs ev : M Sys _).
Proof. unfold propose_block. within_auto. Qed.

Lemma within_non_proposers q lc a vals : within (frame q lc) (non_proposers a vals : M Sys _).
Proof. unfold non_proposers. within_auto. Qed.

Lemma within_ProcessProposal q lc app b : within (frame q lc) (ProcessProposal app b : M Sys _).
Proof. unfold ProcessProposal. within_auto. Qed.
#[local] Hint Resolve within_ProcessProposal : within.
Lemma within_process_proposals q lc l b : within (frame q lc) (process_proposals l b : M Sys _).
Proof. unfold process_proposals. within_auto. Qed.

Lemma within_part_set q lc b n :
  within (frame q lc) (λ s : Sys, match liftO (Block_MakePartSet b n) s with
    | (Err _, s') => (Panic (PanicMsg "error making block part set: %v"), s')
    | r => r end).
Proof. intros s. unfold liftO. by destruct (Block_MakePartSet b n). Qed.
#[local] Hint Resolve within_part_set : within.
Lemma within_ExtendAndSignVote q lc app v i b :
  within (frame q lc) (ExtendAndSignVote app v i b : M Sys _).
Proof. unfold ExtendAndSignVote. within_auto. Qed.
#[local] Hint Resolve within_ExtendAndSignVote : within.
Lemma within_collect_votes q lc vals b : within (frame q lc) (collect_votes vals b : M Sys _).
Proof. unfold collect_votes. within_auto. Qed.

Lemma within_verify_extension q lc c b v : within (frame q lc) (verify_extension c b v : M Sys _).
Proof.
  unfold verify_extension. cbv zeta. within_step.
  - apply within_must, within_wrap_err, within_abci_call.
  - within_auto.
Qed.
#[local] Hint Resolve within_verify_extension : within.
Lemma within_verify_extensions q lc vals b vs :
  within (frame q lc) (verify_extensions vals b vs : M Sys _).
Proof. unfold verify_extensions. within_auto. Qed.

Lemma within_commit_votes q b vs : within (frame q true) (commit_votes b vs : M Sys _).
Proof. unfold commit_votes. within_auto. Qed.

Lemma within_finalize_block q lc b : within (frame q lc) (finalize_block b : M Sys _).
Proof. unfold finalize_block. within_auto. Qed.
End phases.

#[export] Hint Resolve within_GetState within_GetSigningStatus within_GetCounterparty
  within_check_fresh_txs within_recheck_stale_txs within_new_tx_queue within_collect_evidence
  within_find_proposer_app within_decideProposal within_propose_block within_non_proposers
  within_process_proposals within_collect_votes within_verify_extensions within_commit_votes
  within_finalize_block within_ExtendAndSignVote within_ProcessProposal within_CreateProposalBlock
  within_verify_extension within_ConstructDuplicateVoteEvidence
  within_ConstructLightClientAttackEvidence within_ClearTxs : within.

Section execute.
Context {CT : CometTypes} {CO : CometOps} {EN : Env} {ST TH : Type}.
Context {SO : StorageOps ST} {SL : StorageLaws ST} {TO : TimeHandlerOps TH}.

(** However it ends, executing a block changes nothing but the queues, the last
    commit and the history. *)
Lemma within_execute_block t p mis :
  within (frame true true) (execute_block t p mis : M (Sys ST TH) _).
Proof. unfold execute_block. within_auto. Qed.
End execute.

#[export] Hint Resolve within_execute_block : within.
