(* ===== verification/RunBlockSpec.v ===== *)
(** * What each phase of a block run produces

    Inversion lemmas: if a phase returned, its result and the client fields it
    changed are these. *)

From S2P Require Import Prelude.
From S2P Require Import CometTypes.
From S2P Require Import Storage.
From S2P Require Import TimeHandler.
From S2P Require Import Utils.
From S2P Require Import Client.
From S2P Require Import UpdateState.
From S2P Require Import Evidence.
From S2P Require Import RunBlock.
From S2P Require Import Frames.
#[local] Open Scope Z_scope.

Section spec.
Context {CT : CometTypes} {CO : CometOps} {CL : CometLaws} {EN : Env} {ST TH : Type}.
Context {SO : StorageOps ST} {SL : StorageLaws ST} {TO : TimeHandlerOps TH}.
#[local] Abbreviation Sys := (Sys ST TH).
Implicit Types s : Sys.

(** ** Small steps *)

Lemma cl_run {A} (f : AbciClient ST TH → A) s : cl f s = (Ret (f (client s)), s).
Proof. done. Qed.

Lemma cl_ret {A} (f : AbciClient ST TH → A) s a s' :
  cl f s = (Ret a, s') → a = f (client s) ∧ s' = s.
Proof. unfold cl, gets. by intros [= <- <-]. Qed.

Lemma liftO_ret {A} (o : outcome A) s a s' :
  liftO o s = (Ret a, s') → o = Ret a ∧ s' = s.
Proof. unfold liftO. by intros [= -> <-]. Qed.

Lemma upd_run f s : upd f s = (Ret tt, mkSys (f (client s)) (blockMutex s) (io s)).
Proof. done. Qed.

Lemma upd_ret f s (u : unit) s' :
  upd f s = (Ret u, s') → s' = mkSys (f (client s)) (blockMutex s) (io s).
Proof. unfold upd, modify. by intros [= _ <-]. Qed.

Lemma deref_ret {A} (x : option A) s a s' :
  deref x s = (Ret a, s') → x = Some a ∧ s' = s.
Proof. destruct x; simpl; [by intros [= <- <-] | done]. Qed.

Lemma must_ret {A} (m : M Sys A) s a s' : must m s = (Ret a, s') → m s = (Ret a, s').
Proof. unfold must. by destruct (m s) as [[] ?]. Qed.

(** ** The proposal *)

Lemma CreateProposalBlock_ret app pv h st ec txs ev s b s' :
  CreateProposalBlock app pv h st ec txs ev s = (Ret b, s') →
  ∃ v txl, pv = Some v ∧
    b = State_MakeBlock st h txl (ExtendedCommit_ToCommit ec) ev (val_Address v).
Proof.
  unfold CreateProposalBlock. cbv zeta. intros H.
  apply bind_ret_inv in H as (v & s1 & Hv & H). apply deref_ret in Hv as [-> ->].
  apply bind_ret_inv in H as (lc & s2 & _ & H).
  apply bind_ret_inv in H as (txl & s3 & _ & H).
  apply bind_ret_inv in H as (u & s4 & _ & H).
  destruct (MakeBlock_law st h txs (ExtendedCommit_ToCommit ec) ev (val_Address v))
    as (_ & _ & _ & _ & Haddr).
  rewrite Haddr in H. unfold mret, M_ret in H. simplify_eq. eauto.
Qed.

Lemma decideProposal_ret app pv h r txs ev s pr b s' :
  decideProposal app pv h r txs ev s = (Ret (pr, b), s') →
  ∃ v txl, pv = Some v ∧
    b = State_MakeBlock (CurState (client s)) h txl
          (ExtendedCommit_ToCommit (LastCommit (client s))) ev (val_Address v).
Proof.
  unfold decideProposal. intros H.
  apply bind_ret_inv in H as (st & s1 & H1 & H). apply cl_ret in H1 as [-> ->].
  apply bind_ret_inv in H as (ec & s1 & H1 & H). apply cl_ret in H1 as [-> ->].
  apply bind_ret_inv in H as (b' & s2 & Hb & H).
  apply CreateProposalBlock_ret in Hb as (v & txl & -> & ->).
  apply bind_ret_inv in H as (hd & s3 & _ & H).
  apply bind_ret_inv in H as (sig & s4 & _ & H).
  destruct sig; unfold mret, M_ret in H; simplify_eq; eauto.
Qed.

(** The transactions left out of the block go to the stale queue. *)
Lemma requeue_run inblock txs i s :
  for_range_from i (λ _ tx,
    if Contains inblock tx then mret tt
    else upd (λ a, set_StaleTxQueue (StaleTxQueue a ++ [tx]) a)) txs s =
  (Ret tt, mkSys (set_StaleTxQueue (StaleTxQueue (client s) ++ filter (λ tx, tx ∉ inblock) txs)
                    (client s)) (blockMutex s) (io s)).
Proof.
  revert i s. induction txs as [|tx txs IH]; intros i s; cbn [for_range_from].
  - rewrite filter_nil, app_nil_r. by destruct s as [[] ? ?].
  - rewrite filter_cons. destruct (Contains inblock tx) eqn:E.
    + apply Contains_spec in E. rewrite decide_False by auto.
      rewrite (bind_ret _ _ _ tt s) by done. apply IH.
    + apply Contains_false in E. rewrite decide_True by auto.
      rewrite (bind_ret _ _ _ _ _ (upd_run _ _)), IH. simpl.
      by rewrite <-app_assoc.
Qed.

Lemma propose_block_ret t pv app txs ev s b s' :
  propose_block t pv app txs ev s = (Ret b, s') →
  ∃ v txl, pv = Some v ∧
    b = set_blk_Header (set_hdr_Time t)
          (State_MakeBlock (CurState (client s)) (st_LastBlockHeight (CurState (client s)) + 1) txl
            (ExtendedCommit_ToCommit (LastCommit (client s))) ev (val_Address v)) ∧
    FreshTxQueue (client s') = [] ∧
    StaleTxQueue (client s') = filter (λ tx, tx ∉ blk_Txs b) txs.
Proof.
  unfold propose_block. intros H.
  apply bind_ret_inv in H as (h & s1 & H1 & H). apply cl_ret in H1 as [-> ->].
  apply bind_ret_inv in H as (r & s2 & Hr & H). apply try_ret_inv in Hr.
  destruct r as [e|[pr b0]]; [done|].
  apply decideProposal_ret in Hr as (v & txl & -> & ->).
  cbv zeta in H.
  apply bind_ret_inv in H as (u & s3 & Hc & H).
  unfold ClearTxs, upd, modify, mbind, M_bind in Hc. simplify_eq/=.
  apply bind_ret_inv in H as (u' & s4 & Hl & H).
  unfold for_range in Hl. rewrite requeue_run in Hl.
  unfold mret, M_ret in H. simplify_eq/=. exists v, txl. eauto.
Qed.

(** ** Votes *)

(** The vote of a validator that signs, for this block. *)
Definition vote_for (val : Validator) (index : nat) (block : Block) (v : Vote) : Prop :=
  vote_ValidatorAddress v = val_Address val ∧
  vote_ValidatorIndex v = wrap32 (Z.of_nat index) ∧
  vote_Height v = hdr_Height (blk_Header block) ∧
  vote_Timestamp v = hdr_Time (blk_Header block) ∧
  bid_Hash (vote_BlockID v) = Block_Hash block.

Lemma ExtendAndSignVote_ret app val i block s v s' :
  ExtendAndSignVote app val (wrap32 (Z.of_nat i)) block s = (Ret v, s') →
  vote_for val i block v.
Proof.
  unfold ExtendAndSignVote. cbv zeta. intros H.
  apply bind_ret_inv in H as (hd & s1 & _ & H).
  apply bind_ret_inv in H as (r & s2 & _ & H).
  apply bind_ret_inv in H as (st & s3 & _ & H).
  apply bind_ret_inv in H as (ext & s4 & _ & H).
  destruct (SignVote _ _ _) as [pv err].
  apply bind_ret_inv in H as (u & s5 & _ & H).
  unfold mret, M_ret in H. by simplify_eq.
Qed.

(** Nil where the signing status is down, a vote for the block otherwise. *)
Definition vote_matches (status : gmap string bool) (block : Block) (i : nat) (val : Validator)
    (ov : option Vote) : Prop :=
  match ov with
  | None => status !! Address_String (val_Address val) = Some false
  | Some v => status !! Address_String (val_Address val) = Some true ∧ vote_for val i block v
  end.

Lemma collect_votes_ret vals block s votes s' :
  collect_votes vals block s = (Ret votes, s') →
  length votes = length vals ∧
  ∀ i val, vals !! i = Some val → ∃ ov, votes !! i = Some ov ∧
    vote_matches (signingStatus (client s)) block i val ov.
Proof.
  unfold collect_votes. intros H.
  refine (proj2 (collect_inv (λ s1, signingStatus (client s1) = signingStatus (client s))
    (vote_matches (signingStatus (client s)) block) _ _ _ _ _ _ eq_refl H)).
  clear H. intros j val s1 ov s2 HI Hrun. split.
  { rewrite <-HI. refine (fr_signing false false _ _ _).
    eapply (within_run _ _ s1 _ s2); [|exact Hrun]. within_auto. }
  apply bind_ret_inv in Hrun as (b & s3 & Hb & Hrun). apply wrap_err_ret_inv in Hb.
  unfold GetSigningStatus in Hb. apply bind_ret_inv in Hb as (m & s4 & Hm & Hb).
  apply cl_ret in Hm as [-> ->]. rewrite HI in Hb.
  destruct (signingStatus (client s) !! _) as [status|] eqn:E; [|done].
  unfold mret, M_ret in Hb. simplify_eq. unfold vote_matches.
  destruct b; [|unfold mret, M_ret in Hrun; by simplify_eq].
  apply bind_ret_inv in Hrun as (cs & s5 & _ & Hrun).
  destruct (cs !! _) as [c|]; [|done].
  apply bind_ret_inv in Hrun as (v & s6 & Hv & Hrun). apply wrap_err_ret_inv in Hv.
  apply ExtendAndSignVote_ret in Hv. unfold mret, M_ret in Hrun. by simplify_eq.
Qed.

(** ** The vote set and the commit *)

Lemma add_votes_ret vs votes vs' :
  add_votes vs votes = Ret vs' →
  vset_Size vs' = vset_Size vs ∧ vset_Height vs' = vset_Height vs ∧
  vset_Round vs' = vset_Round vs ∧
  ∀ i v, vset_GetByIndex vs' i = Some v →
    vset_GetByIndex vs i = Some v ∨ Some v ∈ votes ∧ vote_ValidatorIndex v = i.
Proof.
  revert vs. induction votes as [|[v|] votes IH]; intros vs H; simpl in H.
  - simplify_eq. split_and!; auto.
  - apply outcome_bind_ret in H as ([b vs1] & Hadd & H). apply wrapO_ret in Hadd.
    destruct b; [|done]. apply AddVote_law in Hadd as (Hs & Hh & Hr & Hget).
    destruct (IH _ H) as (Hs' & Hh' & Hr' & Hget'). split_and!; [congruence..|].
    intros i w Hw. destruct (Hget' i w Hw) as [Hw1|[Hin Hi]].
    + rewrite Hget in Hw1. case_decide as Hd; [|by left].
      destruct Hd as [_ ->]. simplify_eq. right. split; [constructor | done].
    + right. split; [by constructor | done].
  - destruct (IH _ H) as (Hs' & Hh' & Hr' & Hget'). split_and!; [done..|].
    intros i w Hw. destruct (Hget' i w Hw) as [?|[? ?]]; [by left|].
    right. split; [by constructor | done].
Qed.

(** A commit made from these votes for this block by this validator set. *)
Definition commit_of (st : State) (block : Block) (votes : list (option Vote))
    (ec : ExtendedCommit) : Prop :=
  ec_Height ec = hdr_Height (blk_Header block) ∧ ec_Round ec = 0 ∧
  length (ec_ExtendedSignatures ec) = length (vs_Validators (st_Validators st)) ∧
  ∀ i sig, ec_ExtendedSignatures ec !! i = Some sig →
    ExtendedCommitSig_EnsureExtension sig
      (VoteExtensionsEnabled (cp_ABCI (st_ConsensusParams st)) (ec_Height ec)) = Ret tt ∧
    (cs_BlockIDFlag (ecs_CommitSig sig) ≠ BlockIDFlagAbsent →
     ∃ v, Some v ∈ votes ∧ vote_ValidatorIndex v = Z.of_nat i ∧
       cs_ValidatorAddress (ecs_CommitSig sig) = vote_ValidatorAddress v).

(** The vote set that [commit_votes] starts from. *)
Definition empty_vote_set (st : State) (block : Block) : VoteSet :=
  let height := hdr_Height (blk_Header block) in
  if VoteExtensionsEnabled (cp_ABCI (st_ConsensusParams st)) height
  then NewExtendedVoteSet (st_ChainID st) height 0 PrecommitType (st_Validators st)
  else NewVoteSet (st_ChainID st) height 0 PrecommitType (st_Validators st).

Lemma commit_made st block votes vs ec :
  add_votes (empty_vote_set st block) votes = Ret vs →
  VoteSet_MakeExtendedCommit vs (cp_ABCI (st_ConsensusParams st)) = Ret ec →
  commit_of st block votes ec.
Proof.
  intros Hadd Hec.
  apply add_votes_ret in Hadd as (Hs & Hh & Hr & Hget).
  apply MakeExtendedCommit_law in Hec as (Heh & Her & Hlen & Hsig).
  assert (vset_Size vs = length (vs_Validators (st_Validators st)) ∧
    vset_Height vs = hdr_Height (blk_Header block) ∧ vset_Round vs = 0 ∧
    ∀ i v, vset_GetByIndex vs i = Some v → Some v ∈ votes ∧ vote_ValidatorIndex v = i)
    as (Hs' & Hh' & Hr' & Hget').
  { assert (vset_Size (empty_vote_set st block) = length (vs_Validators (st_Validators st)) ∧
      vset_Height (empty_vote_set st block) = hdr_Height (blk_Header block) ∧
      vset_Round (empty_vote_set st block) = 0 ∧
      ∀ i, vset_GetByIndex (empty_vote_set st block) i = None) as (? & ? & ? & Hnone).
    { unfold empty_vote_set. cbv zeta.
      pose proof (NewExtendedVoteSet_law (st_ChainID st) (hdr_Height (blk_Header block)) 0 PrecommitType
        (st_Validators st)) as L1.
      pose proof (NewVoteSet_law (st_ChainID st) (hdr_Height (blk_Header block)) 0 PrecommitType
        (st_Validators st)) as L2.
      clear Hsig. destruct (VoteExtensionsEnabled _ _); [exact L1 | exact L2]. }
    split_and!; [congruence..|]. intros i v Hv. destruct (Hget i v Hv) as [Hv'|?]; [|done].
    by rewrite Hnone in Hv'. }
  split_and!; [congruence..|]. intros i sig Hi. destruct (Hsig i sig Hi) as [Hext Hflag].
  split; [done|]. intros Hf. destruct (Hflag Hf) as (v & Hv & Haddr).
  destruct (Hget' _ _ Hv). eauto.
Qed.

Lemma commit_votes_ret block votes s (u : unit) s' :
  commit_votes block votes s = (Ret u, s') →
  ∃ ec, commit_of (CurState (client s)) block votes ec ∧
    s' = mkSys (set_LastCommit ec (client s)) (blockMutex s) (io s).
Proof.
  unfold commit_votes. cbv zeta. intros H.
  apply bind_ret_inv in H as (st & s1 & H1 & H). apply cl_ret in H1 as [-> ->].
  apply bind_ret_inv in H as (vs & s1 & H1 & H). apply liftO_ret in H1 as [Hadd ->].
  apply bind_ret_inv in H as (ec & s1 & H1 & H). apply liftO_ret in H1 as [Hec ->].
  apply bind_ret_inv in H as (u1 & s1 & H1 & H). apply upd_ret in H1 as ->.
  apply bind_ret_inv in H as (u2 & s1 & H1 & H). apply wrap_err_ret_inv, liftO_ret in H1 as [_ ->].
  apply liftO_ret in H as [_ ->]. exists ec. split; [|done].
  exact (commit_made _ _ _ _ _ Hadd Hec).
Qed.

(** The last commit is the old one or one for height [h]. *)
Definition recommitted (h : Z) s s' : Prop :=
  LastCommit (client s') = LastCommit (client s) ∨ ec_Height (LastCommit (client s')) = h.

#[export] Instance recommitted_preorder h : PreOrder (recommitted h).
Proof.
  split; [by left|]. unfold recommitted. intros s1 s2 s3 H1 H2.
  destruct H1 as [H1|H1], H2 as [H2|H2]; auto; [left | right]; congruence.
Qed.

Lemma frame_recommitted q h s s' : frame q false s s' → recommitted h s s'.
Proof. intros F. left. by apply (fr_LastCommit _ _ _ _ F). Qed.

(** However [commit_votes] ends. *)
Lemma commit_votes_recommitted block votes s :
  recommitted (hdr_Height (blk_Header block)) s (commit_votes block votes s).2.
Proof.
  unfold commit_votes. cbv zeta.
  apply run_bind; [apply _ | by left | intros st s1 H1]. apply cl_ret in H1 as [-> ->].
  apply run_bind; [apply _ | by left | intros vs s1 H1]. apply liftO_ret in H1 as [Hadd ->].
  apply run_bind; [apply _ | by left | intros ec s1 H1]. apply liftO_ret in H1 as [Hec ->].
  apply run_bind; [apply _ | right; exact (proj1 (commit_made _ _ _ _ _ Hadd Hec)) | intros u s1 H1].
  apply run_bind; [apply _ | left; unfold wrap_err, liftO; by destruct (VerifyCommitLightTrusting _ _ _ _) |].
  intros u2 s2 H2. by left.
Qed.
End spec.
