(* ===== verification/UpdateSpec.v ===== *)
(** * The end of a block run: stores, state, Commit

    Case analysis of [update_stores_and_state] and [commit_block], which change
    the stored history, the current state and the last block, and of the whole
    [runBlock_helper]. *)

From S2P Require Import Prelude.
From S2P Require Import CometTypes.
From S2P Require Import Storage.
From S2P Require Import TimeHandler.
From S2P Require Import Utils.
From S2P Require Import Client.
From S2P Require Import UpdateState.
From S2P Require Import Evidence.
From S2P Require Import RunBlock.
From S2P Require Import Frames.
From S2P Require Import RunBlockSpec.
#[local] Open Scope Z_scope.

Section kept.
Context {CT : CometTypes} {CO : CometOps} {EN : Env} {ST TH : Type}.
Context {SO : StorageOps ST} {SL : StorageLaws ST} {TO : TimeHandlerOps TH}.
#[local] Abbreviation Sys := (Sys ST TH).
Implicit Types s : Sys.

(** What no part of a block run changes: everything but the chain data (state,
    last block, last commit, storage), the queues and the history. *)
Record kept (s s' : Sys) : Prop := mk_kept {
  kp_Clients : Clients (client s') = Clients (client s);
  kp_Error : ErrorOnUnequalResponses (client s') = ErrorOnUnequalResponses (client s);
  kp_signing : signingStatus (client s') = signingStatus (client s);
  kp_time : Time_Handler (client s') = Time_Handler (client s);
  kp_auto : AutoIncludeTx (client s') = AutoIncludeTx (client s);
  kp_mutex : blockMutex s' = blockMutex s;
  kp_io : ∃ l, io s' = l ++ io s }.

#[export] Instance kept_preorder : PreOrder kept.
Proof.
  split.
  - intros s. split; try done. by exists [].
  - intros s1 s2 s3 [] []. split; try congruence.
    destruct kp_io0 as [l1 H1], kp_io1 as [l2 H2]. exists (l2 ++ l1).
    by rewrite H2, H1, app_assoc.
Qed.

Lemma frame_kept q lc s s' : frame q lc s s' → kept s s'.
Proof. intros []. by split. Qed.

Lemma within_kept_frame {A} q lc (m : M Sys A) : within (frame q lc) m → within kept m.
Proof. intros Hm s. by eapply frame_kept. Qed.

Lemma within_kept_on_storage {A} (m : M ST A) : within kept (on_storage m : M Sys A).
Proof.
  intros s. unfold on_storage. destruct (m _). split; try done. by exists [].
Qed.
Lemma within_kept_cl {A} (f : AbciClient ST TH → A) : within kept (cl f).
Proof. apply within_gets, _. Qed.
Lemma within_kept_set_LastBlock b : within kept (upd (set_LastBlock b) : M Sys unit).
Proof. apply within_modify. intros s. split; try done. by exists []. Qed.
Lemma within_kept_upd_state f : within kept (upd_state f : M Sys unit).
Proof. apply within_modify. intros s. split; try done. by exists []. Qed.
Lemma within_kept_set_CurState st : within kept (upd (set_CurState st) : M Sys unit).
Proof. apply within_modify. intros s. split; try done. by exists []. Qed.

(** Publishing only extends the history. *)
Lemma within_fireEvents q lc b id res ups :
  within (frame q lc) (fireEvents b id res ups : M Sys unit).
Proof.
  unfold fireEvents. within_auto; try apply within_call_env.
Qed.
End kept.

#[export] Hint Resolve within_kept_on_storage within_kept_cl within_kept_set_LastBlock
  within_kept_upd_state within_kept_set_CurState : within.

Section update.
Context {CT : CometTypes} {CO : CometOps} {CL : CometLaws} {EN : Env} {ST TH : Type}.
Context {SO : StorageOps ST} {SL : StorageLaws ST} {TO : TimeHandlerOps TH}.
#[local] Abbreviation Sys := (Sys ST TH).
Implicit Types s : Sys.

(** [UpdateStateFromBlock] fails without a trace, or computes the new state and
    then publishes. *)
Lemma UpdateStateFromBlock_cases id b res s o s' :
  UpdateStateFromBlock id b res s = (o, s') →
  (is_Ret o = false ∧ s' = s) ∨
  (∃ ups st', validateValidatorUpdates (rsf_ValidatorUpdates res)
       (cp_Validator (st_ConsensusParams (CurState (client s)))) = Ret tt ∧
     PB2TM_ValidatorUpdates (rsf_ValidatorUpdates res) = Ret ups ∧
     UpdateState (CurState (client s)) id (blk_Header b) res ups = Ret st' ∧
     (∀ e, o ≠ Err e) ∧
     frame false false (mkSys (set_CurState st' (client s)) (blockMutex s) (io s)) s').
Proof.
  unfold UpdateStateFromBlock. rewrite (bind_ret _ _ _ _ _ (cl_run _ _)). cbv zeta.
  unfold liftO, mbind, M_bind.
  destruct (validateValidatorUpdates _ _) as [[]| | |] eqn:Hv; simpl;
    try (intros; simplify_eq; by left).
  destruct (PB2TM_ValidatorUpdates _) as [ups| | |] eqn:Hp; simpl;
    try (intros; simplify_eq; by left).
  destruct (UpdateState _ _ _ _ _) as [st'| | |] eqn:Hu; simpl;
    try (intros; simplify_eq; by left).
  intros H. right. exists ups, st'. split_and!; [done..| |].
  - intros e ->. pose proof (fireEvents_publishes b id res ups
      (mkSys (set_CurState st' (client s)) (blockMutex s) (io s))) as Hf.
    simpl in H, Hf. case_decide; [rewrite Hf in H; done|]. by rewrite H in Hf.
  - pose proof (within_fireEvents false false b id res ups
      (mkSys (set_CurState st' (client s)) (blockMutex s) (io s))) as Hf.
    simpl in H, Hf. by rewrite H in Hf.
Qed.

Lemma within_kept_UpdateStateFromBlock id b res : within kept (UpdateStateFromBlock id b res : M Sys unit).
Proof.
  unfold UpdateStateFromBlock. within_auto.
  eapply within_kept_frame, (within_fireEvents false false).
Qed.
#[local] Hint Resolve within_kept_UpdateStateFromBlock : within.

Lemma within_kept_update_stores h b res : within kept (update_stores_and_state h b res : M Sys unit).
Proof. unfold update_stores_and_state. within_auto. Qed.

Lemma within_kept_commit_block res : within kept (commit_block res : M Sys unit).
Proof.
  unfold commit_block. within_auto. eapply within_kept_frame, (within_SendCommit false false).
Qed.

Lemma within_kept_helper t p mis : within kept (runBlock_helper t p mis : M Sys unit).
Proof.
  unfold runBlock_helper. within_step; [apply within_kept_cl|].
  within_step; [eapply within_kept_frame, within_execute_block|].
  destruct a0. within_step; [apply within_kept_update_stores | apply within_kept_commit_block].
Qed.

(** The chain data after the stores took a block. *)
Definition stored (h : Z) (b : Block) (res : ResponseFinalizeBlock) s s' : Prop :=
  LastBlock (client s') = b ∧ LastCommit (client s') = LastCommit (client s) ∧
  FreshTxQueue (client s') = FreshTxQueue (client s) ∧
  StaleTxQueue (client s') = StaleTxQueue (client s) ∧
  st_wf (Storage (client s')) ∧
  st_view (Storage (client s')) =
    <[h := mkEntry b (ExtendedCommit_ToCommit (LastCommit (client s))) (CurState (client s)) res]>
      (st_view (Storage (client s))).

(** With the storage free: the stores always take the block. Then either the
    state moves on and the storage is free again, or the call fails with the
    storage still locked; after an error the state is the old one, after a panic
    it may also be the new one. *)
Lemma update_stores_and_state_cases h b res s o s' :
  st_wf (Storage (client s)) → st_locked (Storage (client s)) = false →
  update_stores_and_state h b res s = (o, s') →
  stored h b res s s' ∧
  ((o = Ret tt ∧ st_locked (Storage (client s')) = false ∧
    ∃ id ups, GetBlockIdFromBlock b = Ret id ∧
      validateValidatorUpdates (rsf_ValidatorUpdates res)
        (cp_Validator (st_ConsensusParams (CurState (client s)))) = Ret tt ∧
      PB2TM_ValidatorUpdates (rsf_ValidatorUpdates res) = Ret ups ∧
      UpdateState (CurState (client s)) id (blk_Header b) res ups = Ret (CurState (client s'))) ∨
   (is_Ret o = false ∧ st_locked (Storage (client s')) = true ∧
    (∀ e, o = Err e → CurState (client s') = CurState (client s)) ∧
    (CurState (client s') = CurState (client s) ∨
     st_LastBlockHeight (CurState (client s')) = hdr_Height (blk_Header b)))).
Proof.
  intros Hwf Hfree H. unfold update_stores_and_state in H.
  destruct (Lock_law _ Hwf) as (st1 & Hl & Hwf1 & Hlk1 & Hv1). rewrite Hfree in Hl.
  rewrite (bind_ret _ _ _ tt (mkSys (set_Storage st1 (client s)) (blockMutex s) (io s))) in H
    by (unfold on_storage; by rewrite Hl).
  rewrite (bind_ret _ _ _ _ _ (upd_run _ _)) in H.
  rewrite (bind_ret _ _ _ _ _ (cl_run _ _)) in H.
  rewrite (bind_ret _ _ _ _ _ (cl_run _ _)) in H. simpl in H.
  destruct (UpdateStores_law h b (ExtendedCommit_ToCommit (LastCommit (client s)))
    (CurState (client s)) res st1 Hwf1) as (st2 & Hu & Hwf2 & Hlk2 & Hv2).
  rewrite (bind_ret _ _ _ tt (mkSys (set_Storage st2 (set_LastBlock b (set_Storage st1 (client s))))
    (blockMutex s) (io s))) in H by (unfold wrap_err, on_storage; simpl; by rewrite Hu).
  set (s2 := mkSys (set_Storage st2 (set_LastBlock b (set_Storage st1 (client s))))
    (blockMutex s) (io s)) in H.
  assert (stored h b res s s2) as Hs2.
  { unfold stored, s2. simpl. split_and!; [done..|]. by rewrite Hv2, Hv1. }
  assert (st_locked (Storage (client s2)) = true) as Hlocked by (simpl; congruence).
  assert (CurState (client s2) = CurState (client s)) as Hcur by done.
  unfold mbind at 1, M_bind in H. unfold wrap_err at 1, liftO in H.
  destruct (GetBlockIdFromBlock b) as [id| | |] eqn:Hid; simpl in H;
    try (simplify_eq; split; [done|]; right; rewrite Hlocked; by auto).
  unfold mbind, M_bind in H. unfold wrap_err in H.
  destruct (UpdateStateFromBlock id b res s2) as [o3 s3] eqn:Hupd.
  apply UpdateStateFromBlock_cases in Hupd as [[Ho ->]|(ups & st' & Hval & Hpb & Hst & Hnoerr & Hfr)].
  - destruct o3; [done|..]; simplify_eq; (split; [done|]; right; rewrite Hlocked; by auto).
  - assert (stored h b res s s3 ∧ CurState (client s3) = st' ∧
      st_locked (Storage (client s3)) = true ∧ st_wf (Storage (client s3))) as (Hs3 & Hc3 & Hl3 & Hw3).
    { destruct Hs2 as (? & ? & ? & ? & ? & ?). destruct Hfr. simpl in *.
      destruct fr_queues; [done|]. destruct fr_Storage as (? & ? & ?); [done|].
      unfold stored. rewrite fr_LastCommit by done. split_and!; congruence. }
    destruct o3 as [[]| | |]; [|by destruct (Hnoerr e)|..];
      [|simplify_eq; split; [done|]; right; rewrite Hl3; apply UpdateState_ret in Hst; by intuition..].
    destruct (Unlock_law _ Hw3 Hl3) as (st4 & Hun & Hw4 & Hl4 & Hv4).
    unfold on_storage in H. rewrite Hun in H. simplify_eq. simpl.
    destruct Hs3 as (? & ? & ? & ? & ? & ?). split.
    + unfold stored. simpl. split_and!; congruence.
    + left. split_and!; [done..|]. exists id, ups. by rewrite Hcur in *.
Qed.
End update.

#[export] Hint Resolve within_kept_update_stores within_kept_commit_block within_kept_helper : within.
