(* ===== verification/Chain.v ===== *)
(** * The chain CometMock builds: specification and refinement

    [Chain] is what a run of blocks is about: the stored entries, the current
    state, the last block and its commit.  [chain_step] is the specification of
    one block; [RunBlock_refines] shows that a successful run of the code is such
    a step, and [RunBlock_error_outcomes] what remains of the chain, the block mutex and
    the storage lock when the run fails.  [chain_inv] is the invariant of chains
    built by steps.  (What remains of it after failed runs is in Sound.v.) *)

From S2P Require Import Prelude.
From S2P Require Import CometTypes.
From S2P Require Import Toy.
From S2P Require Import Storage.
From S2P Require Import TimeHandler.
From S2P Require Import Utils.
From S2P Require Import Client.
From S2P Require Import UpdateState.
From S2P Require Import Evidence.
From S2P Require Import RunBlock.
From S2P Require Import Frames.
From S2P Require Import RunBlockSpec.
From S2P Require Import UpdateSpec.
#[local] Open Scope Z_scope.

(** ** Specification *)

Section chain.
Context {CT : CometTypes} {CO : CometOps}.

Record Chain := mkChain {
  ch_entries : gmap Z entry;
  ch_state : State;
  ch_last : Block;
  ch_commit : Commit }.

(** One block at time [t] proposed by [v]: it extends the last block by one
    height and carries its commit; it is stored with a commit by the current
    validators, with the state before it and the response to it; the state is
    updated from the response. *)
Inductive chain_step (t : Z) (v : Validator) (c : Chain) : Chain → Prop :=
  | chain_append b commit res id ups st' :
      let h := st_LastBlockHeight (ch_state c) + 1 in
      hdr_Height (blk_Header b) = h →
      hdr_Time (blk_Header b) = t →
      hdr_ProposerAddress (blk_Header b) = val_Address v →
      blk_LastCommit b = Some (ch_commit c) →
      cm_Height commit = h →
      cm_Round commit = 0 →
      length (cm_Signatures commit) = length (vs_Validators (st_Validators (ch_state c))) →
      GetBlockIdFromBlock b = Ret id →
      validateValidatorUpdates (rsf_ValidatorUpdates res)
        (cp_Validator (st_ConsensusParams (ch_state c))) = Ret tt →
      PB2TM_ValidatorUpdates (rsf_ValidatorUpdates res) = Ret ups →
      UpdateState (ch_state c) id (blk_Header b) res ups = Ret st' →
      chain_step t v c
        (mkChain (<[h := mkEntry b commit (ch_state c) res]> (ch_entries c))
           (with_AppHash (rsf_AppHash res) st') b commit).

(** The chain of a process. *)
Definition abs {ST TH} {SO : StorageOps ST} {SL : StorageLaws ST} (s : Sys ST TH) : Chain :=
  mkChain (st_view (Storage (client s))) (CurState (client s)) (LastBlock (client s))
    (ExtendedCommit_ToCommit (LastCommit (client s))).

(** Nothing is being updated: mutex and storage lock are free. *)
Definition idle {ST TH} {SO : StorageOps ST} {SL : StorageLaws ST} (s : Sys ST TH) : Prop :=
  blockMutex s = false ∧ st_wf (Storage (client s)) ∧ st_locked (Storage (client s)) = false.

(** *** Invariant of chains *)

(** An entry fits its height; the block has a commit by the validators of the
    state it was run in. *)
Definition entry_ok (k : Z) (e : entry) : Prop :=
  hdr_Height (blk_Header (e_block e)) = k ∧ cm_Height (e_commit e) = k ∧
  st_LastBlockHeight (e_state e) = k - 1 ∧
  length (cm_Signatures (e_commit e)) = length (vs_Validators (st_Validators (e_state e))).

(** A state follows a block: it points to the block by identifier and time,
    its last validators are those that signed the block. *)
Definition follows (st : State) (e : entry) : Prop :=
  GetBlockIdFromBlock (e_block e) = Ret (st_LastBlockID st) ∧
  st_LastBlockTime st = hdr_Time (blk_Header (e_block e)) ∧
  st_LastValidators st = st_Validators (e_state e) ∧
  st_Validators st = st_NextValidators (e_state e) ∧
  st_AppHash st = rsf_AppHash (e_responses e) ∧
  st_ChainID st = st_ChainID (e_state e) ∧
  st_InitialHeight st = st_InitialHeight (e_state e).

Record chain_inv (c : Chain) : Prop := {
  ci_height : 0 ≤ st_LastBlockHeight (ch_state c);
  ci_dom : ∀ k, is_Some (ch_entries c !! k) ↔ 1 ≤ k ≤ st_LastBlockHeight (ch_state c);
  ci_entry : ∀ k e, ch_entries c !! k = Some e → entry_ok k e;
  (** consecutive entries are linked *)
  ci_link : ∀ k e e', ch_entries c !! k = Some e → ch_entries c !! (k + 1) = Some e' →
    blk_LastCommit (e_block e') = Some (e_commit e) ∧ follows (e_state e') e;
  (** the current state follows the last entry *)
  ci_last : ∀ e, ch_entries c !! st_LastBlockHeight (ch_state c) = Some e →
    e_block e = ch_last c ∧ e_commit e = ch_commit c ∧ follows (ch_state c) e }.

(** The new state follows the new entry. *)
Lemma UpdateState_follows st id b commit res ups st' :
  GetBlockIdFromBlock b = Ret id →
  UpdateState st id (blk_Header b) res ups = Ret st' →
  follows (with_AppHash (rsf_AppHash res) st') (mkEntry b commit st res).
Proof.
  intros Hid Hu. apply UpdateState_ret in Hu as (Hn & Hv & Hl & Hh & Ht & Hi & Hc & Hin & _).
  unfold follows. simpl. split_and!; congruence.
Qed.

Lemma chain_step_inv t v c c' : chain_inv c → chain_step t v c c' → chain_inv c'.
Proof.
  intros [Hpos Hdom Hentry Hlink Hlast] Hstep.
  destruct Hstep as [b commit res id ups st' h Hh Ht Hp Hlc Hch Hr Hlen Hid Hval Hpb Hu].
  pose proof (UpdateState_follows _ _ _ commit _ _ _ Hid Hu) as Hfol.
  pose proof (UpdateState_ret _ _ _ _ _ _ Hu) as (_ & _ & _ & Hh' & _).
  rewrite Hh in Hh'. fold h in Hh'.
  set (H := st_LastBlockHeight (ch_state c)) in *.
  split; cbn [ch_entries ch_state ch_last ch_commit st_LastBlockHeight with_AppHash]; rewrite ?Hh'.
  - lia.
  - intros k. rewrite lookup_insert_is_Some', Hdom. lia.
  - intros k e. destruct (decide (h = k)) as [<-|Hk].
    + rewrite lookup_insert_eq. intros [= <-]. unfold entry_ok. simpl. split_and!; [lia..|done].
    + rewrite lookup_insert_ne by done. apply Hentry.
  - intros k e e'. destruct (decide (h = k)) as [<-|Hk].
    + rewrite lookup_insert_eq, lookup_insert_ne by lia. intros _ He'.
      assert (1 ≤ h + 1 ≤ H) by (apply Hdom; eauto). lia.
    + rewrite lookup_insert_ne by done. intros He.
      destruct (decide (h = k + 1)) as [Hk1|Hk1].
      * rewrite <-Hk1, lookup_insert_eq. intros [= <-]. simpl.
        assert (k = H) as -> by lia. destruct (Hlast e He) as (_ & -> & Hf). done.
      * rewrite lookup_insert_ne by done. eauto.
  - intros e. fold h. rewrite lookup_insert_eq. intros [= <-]. done.
Qed.

Lemma chain_step_height t v c c' : chain_step t v c c' →
  st_LastBlockHeight (ch_state c') = st_LastBlockHeight (ch_state c) + 1.
Proof.
  intros [b commit res id ups st' h Hh ? ? ? ? ? ? ? ? ? Hu].
  apply UpdateState_ret in Hu as (_ & _ & _ & Hh' & _). cbn. subst h. lia.
Qed.

(** At genesis nothing is stored. *)
Lemma chain_inv_genesis st b commit :
  st_LastBlockHeight st = 0 → chain_inv (mkChain ∅ st b commit).
Proof.
  intros Hst. split; cbn; rewrite ?Hst.
  - lia.
  - intros k. rewrite lookup_empty. split; [by intros []|lia].
  - intros k e. by rewrite lookup_empty.
  - intros k e e'. by rewrite lookup_empty.
  - intros e. by rewrite lookup_empty.
Qed.
End chain.

(** ** A run of the code is a step *)

Section refinement.
Context {CT : CometTypes} {CO : CometOps} {CL : CometLaws} {EN : Env} {ST TH : Type}.
Context {SO : StorageOps ST} {SL : StorageLaws ST} {TO : TimeHandlerOps TH}.
#[local] Abbreviation Sys := (Sys ST TH).
Implicit Types s : Sys.

Lemma new_tx_queue_run s :
  new_tx_queue s =
    (Ret (filter (λ tx, tx ≠ "") (FreshTxQueue (client s) ++ StaleTxQueue (client s))), s).
Proof. done. Qed.

Lemma finalize_block_ret b s res s' :
  finalize_block b s = (Ret res, s') →
  ∃ info, BuildLastCommitInfo b (st_Validators (CurState (client s)))
    (st_InitialHeight (CurState (client s))) = Ret info.
Proof.
  unfold finalize_block. intros H. rewrite (bind_ret _ _ _ _ _ (cl_run _ _)) in H.
  apply bind_ret_inv in H as (info & s1 & Hinfo & _). apply liftO_ret in Hinfo as [Hinfo _].
  eauto.
Qed.

(** Queue checks, evidence and the proposer's application only touch the queues. *)
Lemma proposal_inputs_frame mis a s s2 ev s3 app s4 :
  (check_fresh_txs ;; recheck_stale_txs) s = (Ret tt, s2) →
  collect_evidence mis s2 = (Ret ev, s3) → find_proposer_app a s3 = (Ret app, s4) →
  frame true false s s4.
Proof.
  intros Hc He Hf. etrans; [eapply within_run; [|exact Hc]; within_auto|].
  apply (frame_weaken false false); [done..|].
  etrans; [eapply within_run; [apply within_collect_evidence | exact He]|].
  eapply within_run; [apply within_find_proposer_app | exact Hf].
Qed.

(** Between the proposal and the commit nothing changes but the history. *)
Lemma voting_frame a vals b nps votes (enabled : bool) s s1 s2 s3 s4 :
  non_proposers a vals s = (Ret nps, s1) → process_proposals nps b s1 = (Ret tt, s2) →
  collect_votes vals b s2 = (Ret votes, s3) →
  (if enabled then verify_extensions vals b votes else mret tt) s3 = (Ret tt, s4) →
  frame false false s s2 ∧ frame false false s s4.
Proof.
  intros Hn Hp Hv He.
  assert (frame false false s s2) as F.
  { etrans; [eapply within_run; [apply within_non_proposers | exact Hn]|].
    eapply within_run; [apply within_process_proposals | exact Hp]. }
  split; [exact F|]. etrans; [exact F|].
  etrans; [eapply within_run; [apply within_collect_votes | exact Hv]|].
  eapply within_run; [|exact He]. within_auto.
Qed.

(** What a block that was executed looks like. *)
Lemma execute_block_ret t p mis s b res s' :
  execute_block t p mis s = (Ret (b, res), s') →
  frame true true s s' ∧
  (∃ v txl ev, p = Some v ∧
    b = set_blk_Header (set_hdr_Time t)
          (State_MakeBlock (CurState (client s)) (st_LastBlockHeight (CurState (client s)) + 1) txl
            (ExtendedCommit_ToCommit (LastCommit (client s))) ev (val_Address v))) ∧
  (∃ votes, commit_of (CurState (client s)) b votes (LastCommit (client s')) ∧
    length votes = length (vs_Validators (st_Validators (CurState (client s)))) ∧
    ∀ i val, vs_Validators (st_Validators (CurState (client s))) !! i = Some val →
      ∃ ov, votes !! i = Some ov ∧ vote_matches (signingStatus (client s)) b i val ov) ∧
  (∃ s2, (check_fresh_txs ;; recheck_stale_txs) s = (Ret tt, s2) ∧ (∃ l, io s' = l ++ io s2) ∧
    FreshTxQueue (client s') = [] ∧
    StaleTxQueue (client s') = filter (λ tx, tx ∉ blk_Txs b)
      (filter (λ tx, tx ≠ "") (FreshTxQueue (client s2) ++ StaleTxQueue (client s2)))) ∧
  (∃ info, BuildLastCommitInfo b (st_Validators (CurState (client s)))
     (st_InitialHeight (CurState (client s))) = Ret info).
Proof.
  intros H. split; [eapply within_run; [apply within_execute_block | exact H]|].
  unfold execute_block in H. cbv zeta in H.
  apply bind_ret_inv in H as ([] & s1 & Hf & H).
  apply bind_ret_inv in H as ([] & s2 & Hs & H).
  assert ((check_fresh_txs ;; recheck_stale_txs) s = (Ret tt, s2)) as Hcheck.
  { by rewrite (bind_ret _ _ _ _ _ Hf). }
  rewrite (bind_ret _ _ _ _ _ (new_tx_queue_run _)) in H.
  assert (∃ l, io s' = l ++ io s2) as Htail.
  { eapply (fr_io true true), within_run; [|exact H]. within_auto. }
  apply bind_ret_inv in H as (ev & s4 & He & H).
  apply bind_ret_inv in H as (app & s5 & Hfind & H).
  apply bind_ret_inv in H as (b' & s6 & Hp & H).
  rewrite (bind_ret _ _ _ _ _ (cl_run _ _)) in H.
  apply bind_ret_inv in H as (nps & s8 & Hnp & H).
  apply bind_ret_inv in H as ([] & s9 & Hpp & H).
  apply bind_ret_inv in H as (votes & s10 & Hvotes & H).
  rewrite (bind_ret _ _ _ _ _ (cl_run _ _)) in H.
  apply bind_ret_inv in H as ([] & s12 & Hver & H).
  apply bind_ret_inv in H as ([] & s13 & Hcom & H).
  apply bind_ret_inv in H as (res' & s14 & Hfin & H).
  unfold mret, M_ret in H. simplify_eq.
  pose proof (proposal_inputs_frame _ _ _ _ _ _ _ _ Hcheck He Hfind) as F5.
  assert (frame true false s s6) as F6.
  { etrans; [exact F5|]. eapply within_run; [apply within_propose_block | exact Hp]. }
  destruct (voting_frame _ _ _ _ _ _ _ _ _ _ _ Hnp Hpp Hvotes Hver) as [F9 F12].
  assert (frame false false s13 s') as F14 by (eapply within_run; [apply within_finalize_block | exact Hfin]).
  apply propose_block_ret in Hp as (v & txl & -> & -> & Hfresh & Hstale).
  apply commit_votes_ret in Hcom as (ec & Hec & ->).
  apply collect_votes_ret in Hvotes as [Hlen Hvotes].
  apply finalize_block_ret in Hfin as [info Hinfo].
  destruct (fr_queues _ _ _ _ F14 eq_refl) as [HF14 HS14].
  destruct (fr_queues _ _ _ _ F12 eq_refl) as [HF12 HS12].
  pose proof (fr_LastCommit _ _ _ _ F14 eq_refl) as Hlc.
  cbn [client set_LastCommit CurState FreshTxQueue StaleTxQueue LastCommit] in *.
  rewrite (fr_CurState _ _ _ _ F12), (fr_CurState _ _ _ _ F6) in *.
  rewrite (fr_CurState _ _ _ _ F5), (fr_LastCommit _ _ _ _ F5) in * by done.
  rewrite (fr_signing _ _ _ _ F9), (fr_signing _ _ _ _ F6) in Hvotes.
  split_and!.
  - by eexists _, _, _.
  - exists votes. by rewrite Hlc.
  - exists s2. split_and!; [done | exact Htail | congruence..].
  - eauto.
Qed.

(** *** Cases of a whole run *)

(** However the execution of a block ends, the last commit is the old one or one
    for the next height. *)
Lemma execute_block_recommitted t p mis s :
  recommitted (st_LastBlockHeight (CurState (client s)) + 1) s (execute_block t p mis s).2.
Proof.
  set (h := st_LastBlockHeight (CurState (client s)) + 1). unfold execute_block. cbv zeta.
  apply run_bind; [apply _ | eapply frame_recommitted, within_check_fresh_txs | intros [] s1 H1].
  apply run_bind; [apply _ | eapply frame_recommitted, within_recheck_stale_txs | intros [] s2 H2].
  apply run_bind; [apply _ | by left | intros q s2' Hq]. rewrite new_tx_queue_run in Hq.
  injection Hq as <- <-.
  apply run_bind; [apply _ | eapply frame_recommitted, (within_collect_evidence false) | intros ev s3 H3].
  apply run_bind; [apply _ | eapply frame_recommitted, (within_find_proposer_app false) | intros app s4 H4].
  assert (CurState (client s4) = CurState (client s)) as Hcur.
  { apply (fr_CurState true false). eapply proposal_inputs_frame; [|exact H3 | exact H4].
    by rewrite (bind_ret _ _ _ _ _ H1). }
  apply run_bind; [apply _ | eapply frame_recommitted, within_propose_block | intros b s5 H5].
  assert (hdr_Height (blk_Header b) = h) as Hh.
  { apply propose_block_ret in H5 as (v & txl & _ & -> & _). cbn. rewrite Hcur.
    by destruct (MakeBlock_law (CurState (client s)) h txl (ExtendedCommit_ToCommit (LastCommit (client s4)))
      ev (val_Address v)) as (? & _). }
  clearbody h. clear H1 H2 H3 H4 H5 Hcur s s1 s2 s3 s4.
  apply run_bind; [apply _ | by left | intros vals s1 _].
  apply run_bind; [apply _ | eapply frame_recommitted, (within_non_proposers false) | intros nps s2 _].
  apply run_bind; [apply _ | eapply frame_recommitted, (within_process_proposals false) | intros [] s3 _].
  apply run_bind; [apply _ | eapply frame_recommitted, (within_collect_votes false) | intros votes s4 _].
  apply run_bind; [apply _ | by left | intros enabled s6 _].
  apply run_bind; [apply _ | destruct enabled; [eapply frame_recommitted, (within_verify_extensions false) | by left] | intros [] s7 _].
  apply run_bind; [apply _ | rewrite <-Hh; apply commit_votes_recommitted | intros [] s8 _].
  apply run_bind; [apply _ | eapply frame_recommitted, (within_finalize_block false) | intros r s9 _].
  by left.
Qed.

(** The block that an execution hands to the stores extends the chain. *)
Definition extends (t : Z) (v : Validator) (c : Chain) (b : Block) (commit : Commit) : Prop :=
  hdr_Height (blk_Header b) = st_LastBlockHeight (ch_state c) + 1 ∧
  hdr_Time (blk_Header b) = t ∧
  hdr_ProposerAddress (blk_Header b) = val_Address v ∧
  blk_LastCommit b = Some (ch_commit c) ∧
  cm_Height commit = st_LastBlockHeight (ch_state c) + 1 ∧
  cm_Round commit = 0 ∧
  length (cm_Signatures commit) = length (vs_Validators (st_Validators (ch_state c))).

Lemma execute_block_extends t p mis s b res s' :
  execute_block t p mis s = (Ret (b, res), s') →
  ∃ v, p = Some v ∧
    extends t v (abs s) b (ExtendedCommit_ToCommit (LastCommit (client s'))).
Proof.
  intros H. apply execute_block_ret in H as (_ & (v & txl & ev & -> & ->) & (votes & Hc & _) & _).
  exists v. split; [done|].
  destruct (MakeBlock_law (CurState (client s)) (st_LastBlockHeight (CurState (client s)) + 1) txl
    (ExtendedCommit_ToCommit (LastCommit (client s))) ev (val_Address v)) as (Hh & _ & Hl & _ & Ha).
  destruct Hc as (Hch & Hcr & Hclen & _). simpl in Hch.
  unfold extends. rewrite (ToCommit_law (LastCommit (client s'))).
  cbn [cm_Height cm_Round cm_Signatures set_blk_Header set_hdr_Time blk_Header hdr_Height
    hdr_Time hdr_ProposerAddress blk_LastCommit abs ch_state ch_commit] in *.
  rewrite length_fmap. split_and!; congruence.
Qed.

(** A run stops before the stores are touched; or with the storage locked; or
    goes through, up to the application hash that [Commit] brings. *)
Lemma runBlock_helper_cases t p mis s o s' :
  st_wf (Storage (client s)) → st_locked (Storage (client s)) = false →
  runBlock_helper t p mis s = (o, s') →
  (is_Ret o = false ∧ frame true true s s' ∧
   recommitted (st_LastBlockHeight (CurState (client s)) + 1) s s') ∨
  (is_Ret o = false ∧ st_wf (Storage (client s')) ∧ st_locked (Storage (client s')) = true ∧
   (∃ e, st_view (Storage (client s')) =
      <[st_LastBlockHeight (CurState (client s)) + 1 := e]> (st_view (Storage (client s)))) ∧
   (∀ e, o = Err e → CurState (client s') = CurState (client s)) ∧
   (CurState (client s') = CurState (client s) ∨
    st_LastBlockHeight (CurState (client s')) = st_LastBlockHeight (CurState (client s)) + 1)) ∨
  (st_wf (Storage (client s')) ∧ st_locked (Storage (client s')) = false ∧
   ∃ v c', p = Some v ∧ chain_step t v (abs s) c' ∧
     if is_Ret o then abs s' = c' else
     abs s' = mkChain (ch_entries c') (with_AppHash "" (ch_state c')) (ch_last c') (ch_commit c')).
Proof.
  intros Hwf Hfree H. unfold runBlock_helper in H. rewrite (bind_ret _ _ _ _ _ (cl_run _ _)) in H.
  pose proof (within_execute_block t p mis s) as Fr.
  pose proof (execute_block_recommitted t p mis s) as Rc.
  destruct (execute_block t p mis s) as [[[b res]|e|pv|] s1] eqn:He; simpl in Fr, Rc;
    [|left; unfold mbind, M_bind in H; rewrite He in H; by simplify_eq..].
  rewrite (bind_ret _ _ _ _ _ He) in H. right.
  destruct (fr_Storage _ _ _ _ Fr Hwf) as (Hwf1 & Hl1 & Hv1). rewrite Hfree in Hl1.
  apply execute_block_extends in He as (v & -> & Hext).
  pose proof (fr_CurState _ _ _ _ Fr) as Hcur.
  destruct (update_stores_and_state (st_LastBlockHeight (CurState (client s)) + 1) b res s1)
    as [o2 s2] eqn:Hu.
  destruct (update_stores_and_state_cases _ _ _ _ _ _ Hwf1 Hl1 Hu) as [Hst Hcases].
  destruct Hst as (Hlb & Hlc & _ & _ & Hwf2 & Hv2).
  destruct Hcases as [(-> & Hl2 & id & ups & Hid & Hval & Hpb & Hup)|(Ho2 & Hl2 & Hnoerr & Hheight)].
  - right. rewrite (bind_ret _ _ _ _ _ Hu) in H.
    assert (chain_step t v (abs s) (mkChain (st_view (Storage (client s2)))
      (with_AppHash (rsf_AppHash res) (CurState (client s2))) b
      (ExtendedCommit_ToCommit (LastCommit (client s1))))) as Hstep.
    { rewrite Hv2, Hv1, Hcur in *. destruct Hext as (? & ? & ? & ? & ? & ? & ?).
      by eapply (chain_append t v (abs s)). }
    unfold commit_block in H.
    pose proof (within_SendCommit false false s2) as Fc. unfold mbind at 1, M_bind in H.
    unfold wrap_err in H. destruct (SendCommit s2) as [oc s3]. simpl in Fc.
    destruct (fr_Storage _ _ _ _ Fc Hwf2) as (Hwf3 & Hl3 & Hv3).
    pose proof (fr_CurState _ _ _ _ Fc) as Hc3. pose proof (fr_LastBlock _ _ _ _ Fc) as Hb3.
    pose proof (fr_LastCommit _ _ _ _ Fc eq_refl) as Hlc3.
    pose proof (UpdateState_ret _ _ _ _ _ _ Hup) as (_ & _ & _ & _ & _ & _ & _ & _ & _ & _ & Happ).
    destruct oc as [rc|e|pv|]; unfold upd_state, upd, modify in H; simplify_eq; simpl;
      (split; [done | split; [congruence|]]; exists v; eexists; split; [done | split; [exact Hstep|]]);
      unfold abs; simpl; rewrite ?Hv3, ?Hc3, ?Hb3, ?Hlc3, ?Hlc; [done|..];
      f_equal; by rewrite <-Happ; destruct (CurState (client s2)).
  - left. unfold mbind, M_bind in H. rewrite Hu in H.
    assert (o = o2 ∧ s' = s2) as [-> ->] by (destruct o2; [done|..]; by simplify_eq).
    rewrite Hcur in Hnoerr, Hheight. rewrite Hv1 in Hv2. destruct Hext as (Hbh & _).
    cbn [abs ch_state] in Hbh. rewrite Hbh in Hheight. split_and!; eauto.
Qed.

(** [blockMutex] around it: released after a return or an error, kept by a panic. *)
Lemma run_locked t p mis s :
  blockMutex s = false →
  let '(oh, sh) := runBlock_helper t p mis (mkSys (client s) true (io s)) in
  blockMutex sh = true ∧
  RunBlockWithTimeAndProposer t p mis s =
    match oh with
    | Ret _ | Err _ => (oh, mkSys (client sh) false (io sh))
    | Panic _ | Blocked => (oh, sh)
    end.
Proof.
  intros Hm. unfold RunBlockWithTimeAndProposer, lock_blockMutex, mbind, M_bind, try_. rewrite Hm.
  pose proof (within_kept_helper t p mis (mkSys (client s) true (io s))) as K.
  destruct (runBlock_helper _ _ _ _) as [oh sh]. pose proof (kp_mutex _ _ K) as Hk. simpl in Hk.
  split; [done|]. unfold unlock_blockMutex.
  by destruct oh as [[]| | |]; rewrite ?Hk.
Qed.

Lemma run_blocked t p mis s :
  blockMutex s = true → RunBlockWithTimeAndProposer t p mis s = (Blocked, s).
Proof.
  intros Hm. unfold RunBlockWithTimeAndProposer, lock_blockMutex, mbind, M_bind. by rewrite Hm.
Qed.
End refinement.
