(* ===== verification/Sound.v ===== *)
(** * What no failure breaks

    [chain_inv] describes the chain of a process whose block runs succeed.  A run
    that fails can leave traces in it: the last commit may be replaced by one for
    the next height before the run stops, and a failing [Commit] leaves the
    application hash empty.  [chain_sound] is what remains in any case; it holds
    whenever the storage is not locked ([sound]), whatever calls failed before. *)

From S2P Require Import Prelude.
From S2P Require Import CometTypes.
From S2P Require Import Storage.
From S2P Require Import TimeHandler.
From S2P Require Import Utils.
From S2P Require Import Client.
From S2P Require Import UpdateState.
From S2P Require Import Evidence.
From S2P Require Import RunBlock.
From S2P Require Import Frames.
From S2P Require Import RunBlockSpec.
From S2P Require Import UpdateSpec.
From S2P Require Import Chain.
#[local] Open Scope Z_scope.

(** ** Sound chains *)

Section sound_chains.
Context {CT : CometTypes} {CO : CometOps}.
Implicit Types c : Chain.

(** A state follows a block, except that the application hash may be empty. *)
Definition linked (st : State) (e : entry) : Prop :=
  follows (with_AppHash (rsf_AppHash (e_responses e)) st) e ∧
  (st_AppHash st = rsf_AppHash (e_responses e) ∨ st_AppHash st = "").

(** The last commit after a run that may have failed: the one of the last block
    or one for the next height. *)
Definition commit_after (h : Z) (commit commit' : Commit) : Prop :=
  commit' = commit ∨ cm_Height commit' = h + 1.

Record chain_sound c : Prop := {
  so_height : 0 ≤ st_LastBlockHeight (ch_state c);
  so_dom : ∀ k, is_Some (ch_entries c !! k) ↔ 1 ≤ k ≤ st_LastBlockHeight (ch_state c);
  so_entry : ∀ k e, ch_entries c !! k = Some e → entry_ok k e;
  so_link : ∀ k e e', ch_entries c !! k = Some e → ch_entries c !! (k + 1) = Some e' →
    linked (e_state e') e ∧
    ∃ commit, blk_LastCommit (e_block e') = Some commit ∧ commit_after k (e_commit e) commit;
  so_last : ∀ e, ch_entries c !! st_LastBlockHeight (ch_state c) = Some e →
    e_block e = ch_last c ∧ linked (ch_state c) e ∧
    commit_after (st_LastBlockHeight (ch_state c)) (e_commit e) (ch_commit c) }.

Lemma follows_linked st e : follows st e → linked st e.
Proof.
  intros (H1 & H2 & H3 & H4 & Ha & H5 & H6). split; [|by left].
  unfold follows. simpl. by split_and!.
Qed.

Lemma chain_inv_sound c : chain_inv c → chain_sound c.
Proof.
  intros [Hpos Hdom Hentry Hlink Hlast]. split; [done..| |].
  - intros k e e' He He'. destruct (Hlink k e e' He He') as [Hc Hf].
    split; [by apply follows_linked|]. exists (e_commit e). split; [done | by left].
  - intros e He. destruct (Hlast e He) as (Hb & Hc & Hf).
    split_and!; [done | by apply follows_linked | by left].
Qed.

(** The chain with another last commit, or another application hash. *)
Definition with_commit (commit : Commit) c : Chain :=
  mkChain (ch_entries c) (ch_state c) (ch_last c) commit.
Definition with_hash (h : bytes) c : Chain :=
  mkChain (ch_entries c) (with_AppHash h (ch_state c)) (ch_last c) (ch_commit c).

Lemma sound_recommit c commit :
  chain_sound c → commit_after (st_LastBlockHeight (ch_state c)) (ch_commit c) commit →
  chain_sound (with_commit commit c).
Proof.
  intros [Hpos Hdom Hentry Hlink Hlast] Hc. split; cbn; [done..|].
  intros e He. destruct (Hlast e He) as (Hb & Hf & Hcm). split_and!; [done | done |].
  destruct Hc as [-> | Hc]; [done | by right].
Qed.

(** One more block, whether or not [Commit] has brought the application hash. *)
Lemma sound_append t v c c' hash : chain_sound c → chain_step t v c c' →
  hash = st_AppHash (ch_state c') ∨ hash = "" → chain_sound (with_hash hash c').
Proof.
  intros [Hpos Hdom Hentry Hlink Hlast] Hstep Hhash.
  destruct Hstep as [b commit res id ups st' h Hh Ht Hp Hlc Hch Hr Hlen Hid Hval Hpb Hu].
  pose proof (UpdateState_follows _ _ _ commit _ _ _ Hid Hu) as Hfol.
  pose proof (UpdateState_ret _ _ _ _ _ _ Hu) as (_ & _ & _ & Hh' & _).
  rewrite Hh in Hh'. fold h in Hh'. cbn [ch_state st_AppHash with_AppHash] in Hhash.
  set (H := st_LastBlockHeight (ch_state c)) in *.
  split; cbn [with_hash ch_entries ch_state ch_last ch_commit st_LastBlockHeight with_AppHash];
    rewrite ?Hh'.
  - lia.
  - intros k. rewrite lookup_insert_is_Some', Hdom. lia.
  - intros k e. destruct (decide (h = k)) as [<-|Hk].
    + rewrite lookup_insert_eq. intros [= <-]. unfold entry_ok. simpl. split_and!; [lia..|done].
    + rewrite lookup_insert_ne by done. apply Hentry.
  - intros k e e'. destruct (decide (h = k)) as [<-|Hk].
    + rewrite lookup_insert_eq, lookup_insert_ne by lia. intros _ He'.
      assert (1 ≤ h + 1 ≤ H) by (apply Hdom; eauto). lia.
    + rewrite lookup_insert_ne by done. intros He.
      destruct (decide (h = k + 1)) as [Hk1|Hk1].
      * rewrite <-Hk1, lookup_insert_eq. intros [= <-]. cbn [e_state e_block].
        assert (k = H) as -> by lia. destruct (Hlast e He) as (_ & Hf & Hc). eauto.
      * rewrite lookup_insert_ne by done. eauto.
  - intros e. fold h. rewrite lookup_insert_eq. intros [= <-]. cbn [e_block e_commit e_responses].
    split_and!; [done | | by left]. split; [exact Hfol|]. exact Hhash.
Qed.

Lemma with_hash_same c : with_hash (st_AppHash (ch_state c)) c = c.
Proof. destruct c as [E [] b cm]. done. Qed.

Lemma sound_step t v c c' : chain_sound c → chain_step t v c c' → chain_sound c'.
Proof.
  intros Hc Hstep. rewrite <-(with_hash_same c'). eapply sound_append; [exact Hc | exact Hstep | by left].
Qed.
End sound_chains.

(** ** Sound processes *)

Section sound.
Context {CT : CometTypes} {CO : CometOps} {CL : CometLaws} {EN : Env} {ST TH : Type}.
Context {SO : StorageOps ST} {SL : StorageLaws ST} {TO : TimeHandlerOps TH}.
#[local] Abbreviation Sys := (Sys ST TH).
Implicit Types s : Sys.

Definition sound s : Prop :=
  st_wf (Storage (client s)) ∧ (st_locked (Storage (client s)) = false → chain_sound (abs s)).

(** A call that keeps a process sound. *)
Definition safe s s' : Prop := sound s → sound s'.
#[export] Instance safe_preorder : PreOrder safe.
Proof. split; [by intros s H|]. intros s1 s2 s3 H1 H2 H. by apply H2, H1. Qed.

(** Up to the last commit, a frame preserves the chain. *)
Lemma frame_chain q s s' : frame q true s s' → st_wf (Storage (client s)) →
  st_wf (Storage (client s')) ∧ st_locked (Storage (client s')) = st_locked (Storage (client s)) ∧
  abs s' = with_commit (ch_commit (abs s')) (abs s).
Proof.
  intros F Hwf. destruct (fr_Storage _ _ _ _ F Hwf) as (Hwf' & Hl' & Hv').
  split_and!; [done..|]. unfold abs, with_commit. cbn.
  by rewrite Hv', (fr_CurState _ _ _ _ F), (fr_LastBlock _ _ _ _ F).
Qed.

Lemma frame_chain_same q s s' : frame q false s s' → st_wf (Storage (client s)) →
  st_wf (Storage (client s')) ∧ st_locked (Storage (client s')) = st_locked (Storage (client s)) ∧
  abs s' = abs s.
Proof.
  intros F Hwf. pose proof (fr_LastCommit _ _ _ _ F eq_refl) as Hlc.
  destruct (frame_chain q s s') as (Hwf' & Hl' & Habs); [eapply frame_weaken; [| |exact F]; done | done |].
  split_and!; [done..|]. rewrite Habs. unfold abs, with_commit. cbn. by rewrite Hlc.
Qed.

Lemma frame_safe q s s' : frame q false s s' → safe s s'.
Proof.
  intros F [Hwf Hc]. destruct (frame_chain_same q s s' F Hwf) as (Hwf' & Hl & Habs).
  split; [done|]. by rewrite Hl, Habs.
Qed.

Lemma recommitted_after s s' :
  recommitted (st_LastBlockHeight (CurState (client s)) + 1) s s' →
  commit_after (st_LastBlockHeight (ch_state (abs s))) (ch_commit (abs s)) (ch_commit (abs s')).
Proof.
  intros [Hlc|Hlc]; unfold commit_after, abs; cbn; [left; by rewrite Hlc|].
  right. by rewrite ToCommit_law.
Qed.

Lemma execution_safe q s s' : frame q true s s' →
  recommitted (st_LastBlockHeight (CurState (client s)) + 1) s s' → safe s s'.
Proof.
  intros F Hr [Hwf Hc]. destruct (frame_chain q s s' F Hwf) as (Hwf' & Hl & Habs).
  split; [done|]. rewrite Hl, Habs. intros Hfree. apply sound_recommit; [by apply Hc|].
  by apply recommitted_after.
Qed.

(** While the storage is locked the stores cannot be updated. *)
Lemma update_stores_blocked h b res s : st_wf (Storage (client s)) →
  st_locked (Storage (client s)) = true →
  ∃ s', update_stores_and_state h b res s = (Blocked, s') ∧ frame false false s s'.
Proof.
  intros Hwf Hl. destruct (Lock_law _ Hwf) as (st' & Hrun & Hwf' & Hl' & Hv'). rewrite Hl in Hrun.
  unfold update_stores_and_state, on_storage, mbind, M_bind. rewrite Hrun.
  eexists. split; [reflexivity|]. split; try done; [|by exists []].
  intros _. simpl. split_and!; congruence || done.
Qed.

Lemma helper_blocked t p mis s o s' : st_wf (Storage (client s)) →
  st_locked (Storage (client s)) = true → runBlock_helper t p mis s = (o, s') →
  is_Ret o = false ∧ frame true true s s'.
Proof.
  intros Hwf Hl H. unfold runBlock_helper in H. rewrite (bind_ret _ _ _ _ _ (cl_run _ _)) in H.
  pose proof (within_execute_block t p mis s) as Fr.
  destruct (execute_block t p mis s) as [[[b res]|e|pv|] s1] eqn:He; simpl in Fr;
    [|unfold mbind, M_bind in H; rewrite He in H; by simplify_eq..].
  rewrite (bind_ret _ _ _ _ _ He) in H. destruct (fr_Storage _ _ _ _ Fr Hwf) as (Hwf1 & Hl1 & _).
  destruct (update_stores_blocked (st_LastBlockHeight (CurState (client s)) + 1) b res s1 Hwf1)
    as (s2 & Hu & F2); [congruence|].
  unfold mbind, M_bind in H. rewrite Hu in H. injection H as <- <-. split; [done|].
  etrans; [exact Fr|]. eapply frame_weaken; [| |exact F2]; done.
Qed.

Lemma helper_safe t p mis : within safe (runBlock_helper t p mis : M Sys unit).
Proof.
  intros s [Hwf Hc]. destruct (runBlock_helper t p mis s) as [o s'] eqn:Hrun. cbn [snd].
  destruct (st_locked (Storage (client s))) eqn:Hl.
  - destruct (helper_blocked _ _ _ _ _ _ Hwf Hl Hrun) as [_ F].
    destruct (frame_chain _ _ _ F Hwf) as (Hwf' & Hl' & _). split; [done | congruence].
  - specialize (Hc eq_refl).
    destruct (runBlock_helper_cases t p mis s o s' Hwf Hl Hrun)
      as [(_ & F & Rc)|[(_ & Hwf' & Hl' & _)|(Hwf' & Hl' & v & c' & _ & Hstep & Habs)]].
    + eapply execution_safe; [exact F | exact Rc |]. done.
    + split; [done | congruence].
    + split; [done|]. intros _. destruct (is_Ret o); rewrite Habs.
      * by eapply sound_step.
      * eapply (sound_append _ _ _ _ ""); [exact Hc | exact Hstep | by right].
Qed.

Lemma lock_safe : within safe (lock_blockMutex : M Sys unit).
Proof. intros s H. unfold lock_blockMutex. by destruct (blockMutex s). Qed.
Lemma unlock_safe : within safe (unlock_blockMutex : M Sys unit).
Proof. intros s H. unfold unlock_blockMutex. by destruct (blockMutex s). Qed.

Lemma run_safe t p mis : within safe (RunBlockWithTimeAndProposer t p mis : M Sys unit).
Proof.
  unfold RunBlockWithTimeAndProposer. within_step; [apply lock_safe|].
  within_step; [apply within_try, helper_safe|]. within_step; [apply unlock_safe|]. within_auto.
Qed.
End sound.

#[export] Hint Resolve lock_safe unlock_safe run_safe : within.
