(* ===== verification/RunBlockProps.v ===== *)
(** * Theorems about running a block *)

From S2P Require Import Prelude.
From S2P Require Import CometTypes.
From S2P Require Import Toy.
From S2P Require Import Storage.
From S2P Require Import TimeHandler.
From S2P Require Import Utils.
From S2P Require Import Client.
From S2P Require Import UpdateState.
From S2P Require Import Evidence.
From S2P Require Import RunBlock.
From S2P Require Import Example.
From S2P Require Import Frames.
From S2P Require Import RunBlockSpec.
From S2P Require Import UpdateSpec.
From S2P Require Import Chain.
#[local] Open Scope Z_scope.

Section props.
Context {CT : CometTypes} {CO : CometOps} {CL : CometLaws} {EN : Env} {ST TH : Type}.
Context {SO : StorageOps ST} {SL : StorageLaws ST} {TO : TimeHandlerOps TH}.
#[local] Abbreviation Sys := (Sys ST TH).
Implicit Types s : Sys.

(** ** Correctness of one block *)

Lemma run_step t p mis s s' : idle s → RunBlockWithTimeAndProposer t p mis s = (Ret tt, s') →
  idle s' ∧ (∃ v, p = Some v ∧ chain_step t v (abs s) (abs s')) ∧
  Time_Handler (client s') = Time_Handler (client s).
Proof.
  intros (Hm & Hwf & Hl) Hrun. pose proof (run_locked t p mis s Hm) as HR.
  pose proof (within_kept_helper t p mis (mkSys (client s) true (io s))) as K.
  destruct (runBlock_helper _ _ _ _) as [oh sh] eqn:Hh. destruct HR as [Hmx HR].
  rewrite HR in Hrun.
  destruct oh as [[]| | |]; simplify_eq.
  destruct (runBlock_helper_cases t p mis (mkSys (client s) true (io s)) _ _ Hwf Hl Hh)
    as [[? _]|[[? _]|(Hwf' & Hl' & v & c' & -> & Hstep & Habs)]]; [done..|].
  split; [done|]. split; [|apply K]. exists v. split; [done|]. rewrite <-Habs in Hstep. exact Hstep.
Qed.

(** C1 A block run that returns without error is one step of the chain
    specification: from an idle process it appends a block at the next height,
    with the given time, by the given proposer, carrying the previous commit;
    stores it with its commit, the state before it and the response; moves the
    state on; and leaves the process idle again. *)
Theorem RunBlock_refines (t : Z) (p : option Validator)
    (mis : list (Validator * MisbehaviourType)) s s'
    (Hidle : idle s) (Hrun : RunBlockWithTimeAndProposer t p mis s = (Ret tt, s')) :
  idle s' ∧ ∃ v, p = Some v ∧ chain_step t v (abs s) (abs s').
Proof.
  by destruct (run_step t p mis s s' Hidle Hrun) as (? & ? & _).
Qed.

(** C4 A block run that returns an error has released the block mutex, and left
    one of three situations: nothing happened to state, last block and stored
    entries; or the state update failed, the old state is still current and the
    storage is left locked; or the block went through and only [Commit] failed,
    so that everything is as after a successful block except for an empty
    application hash. *)
Theorem RunBlock_error_outcomes (t : Z) (p : option Validator)
    (mis : list (Validator * MisbehaviourType)) s s' (err : error)
    (Hidle : idle s) (Hrun : RunBlockWithTimeAndProposer t p mis s = (Err err, s')) :
  blockMutex s' = false ∧
  ((idle s' ∧ ch_entries (abs s') = ch_entries (abs s) ∧ ch_state (abs s') = ch_state (abs s) ∧
    ch_last (abs s') = ch_last (abs s)) ∨
   (st_locked (Storage (client s')) = true ∧ ch_state (abs s') = ch_state (abs s)) ∨
   (idle s' ∧ ∃ v c', p = Some v ∧ chain_step t v (abs s) c' ∧
    abs s' = mkChain (ch_entries c') (with_AppHash "" (ch_state c')) (ch_last c') (ch_commit c'))).
Proof.
  destruct Hidle as (Hm & Hwf & Hl). pose proof (run_locked t p mis s Hm) as HR.
  destruct (runBlock_helper _ _ _ _) as [oh sh] eqn:Hh. destruct HR as [Hmx HR].
  rewrite HR in Hrun. destruct oh as [[]| | |]; simplify_eq. split; [done|].
  destruct (runBlock_helper_cases t p mis (mkSys (client s) true (io s)) _ _ Hwf Hl Hh)
    as [(_ & F & _)|[(_ & Hwf' & Hl' & _ & Hcur & _)|(Hwf' & Hl' & v & c' & -> & Hstep & Habs)]].
  - left. destruct (fr_Storage _ _ _ _ F Hwf) as (Hwf' & Hl' & Hv').
    pose proof (fr_CurState _ _ _ _ F) as Hc. pose proof (fr_LastBlock _ _ _ _ F) as Hb.
    cbn [client] in *. split; [split_and!; [done..|]; simpl; congruence|]. simpl. done.
  - right. left. split; [done|]. by apply (Hcur err).
  - right. right. split; [done|]. exists v, c'. done.
Qed.

(** What two processes that differ at most in the time handler and the history
    have in common. *)
Definition same_but_time s s' : Prop :=
  client s' = set_Time_Handler (Time_Handler (client s')) (client s) ∧
  blockMutex s' = blockMutex s ∧ io s `suffix_of` io s'.

(** C19 A panic while a block is run leaves the block mutex locked: after it,
    running a block and queueing a transaction wait forever and change nothing.
    Advancing blocks waits forever as well; it has asked the clock and the time
    handler for a time by then, which uses up a pending advance, and changes
    nothing else. *)
Theorem RunBlock_panic_wedges (t : Z) (p : option Validator)
    (mis : list (Validator * MisbehaviourType)) s s' (pv : panic_value)
    (Hidle : blockMutex s = false)
    (Hrun : RunBlockWithTimeAndProposer t p mis s = (Panic pv, s')) :
  blockMutex s' = true ∧
  (∀ t' p' mis', RunBlockWithTimeAndProposer t' p' mis' s' = (Blocked, s')) ∧
  (∀ tx, QueueTx tx s' = (Blocked, s')) ∧
  (∀ n, 0 < n → (RunEmptyBlocks n s').1 = Blocked ∧
     same_but_time s' (RunEmptyBlocks n s').2 ∧
     Time_Handler (client (RunEmptyBlocks n s').2) =
       (GetBlockTime (env_Now (io s')) (hdr_Time (blk_Header (LastBlock (client s'))))
          (Time_Handler (client s'))).2).
Proof.
  pose proof (run_locked t p mis s Hidle) as HR.
  destruct (runBlock_helper _ _ _ _) as [oh sh] eqn:Hh. destruct HR as [Hmx HR].
  rewrite HR in Hrun. destruct oh as [[]| | |]; simplify_eq.
  split_and!; [done | | |].
  - intros. by apply run_blocked.
  - intros tx. unfold QueueTx, lock_blockMutex, mbind, M_bind. by rewrite Hmx.
  - intros n Hn. unfold RunEmptyBlocks. destruct (Z.to_nat n) as [|n'] eqn:En; [lia|].
    cbn [run_n]. unfold RunBlock, next_block_time, default_proposer, time_now, call_env, cl, gets,
      mbind, M_bind. cbn. destruct (GetBlockTime _ _ _) as [tm th]. cbn.
    rewrite run_blocked by done. split_and!; [done | | done].
    split_and!; [done..|]. by eexists [_].
Qed.

(** C10 On an idle process with a well-formed chain, entries once stored are never
    changed or removed by a block run, whether it returns, fails or panics, and the
    height never goes back: it stays or grows by one. *)
Theorem history_is_append_only (t : Z) (p : option Validator)
    (mis : list (Validator * MisbehaviourType)) s (Hidle : idle s) (Hinv : chain_inv (abs s)) :
  let s' := (RunBlockWithTimeAndProposer t p mis s).2 in
  (∀ k e, ch_entries (abs s) !! k = Some e → ch_entries (abs s') !! k = Some e) ∧
  (st_LastBlockHeight (ch_state (abs s')) = st_LastBlockHeight (ch_state (abs s)) ∨
   st_LastBlockHeight (ch_state (abs s')) = st_LastBlockHeight (ch_state (abs s)) + 1).
Proof.
  cbv zeta. destruct Hidle as (Hm & Hwf & Hl). pose proof (run_locked t p mis s Hm) as HR.
  destruct (runBlock_helper _ _ _ _) as [oh sh] eqn:Hh. destruct HR as [Hmx ->].
  assert (abs (match oh with Ret _ | Err _ => (oh, mkSys (client sh) false (io sh)) | _ => (oh, sh) end).2 = abs sh)
    as -> by (by destruct oh).
  assert (∀ k e, ch_entries (abs s) !! k = Some e → k ≠ st_LastBlockHeight (ch_state (abs s)) + 1) as Hne.
  { intros k e Hk. assert (1 ≤ k ≤ st_LastBlockHeight (ch_state (abs s))); [|lia].
    apply (ci_dom _ Hinv). eauto. }
  destruct (runBlock_helper_cases t p mis (mkSys (client s) true (io s)) _ _ Hwf Hl Hh)
    as [(_ & F & _)|[(_ & _ & _ & (e' & Hv) & _ & Hcur)|(_ & _ & v & c' & -> & Hstep & Habs)]].
  - destruct (fr_Storage _ _ _ _ F Hwf) as (_ & _ & Hv). pose proof (fr_CurState _ _ _ _ F) as Hc.
    simpl in *. rewrite Hv, Hc. auto.
  - simpl in *. rewrite Hv. split; [|destruct Hcur as [-> | ->]; auto].
    intros k e Hk. rewrite lookup_insert_ne; [done|]. intros <-. by apply (Hne _ _ Hk).
  - assert (ch_entries (abs sh) = ch_entries c' ∧
      st_LastBlockHeight (ch_state (abs sh)) = st_LastBlockHeight (ch_state c')) as [-> ->]
      by (destruct (is_Ret oh); by rewrite Habs).
    split; [|right; exact (chain_step_height _ _ _ _ Hstep)].
    destruct Hstep. cbn [ch_entries]. intros k e Hk. rewrite lookup_insert_ne; [done|].
    intros <-. by apply (Hne _ _ Hk).
Qed.
End props.

(** ** Operations that keep a chain in order *)

Section reach.
Context {CT : CometTypes} {CO : CometOps} {CL : CometLaws} {EN : Env} {ST TH : Type}.
Context {SO : StorageOps ST} {SL : StorageLaws ST} {TO : TimeHandlerOps TH}.
#[local] Abbreviation Sys := (Sys ST TH).
Implicit Types s : Sys.

(** A block run that succeeds, a block run refused before the commit is made, and
    the operations that do not concern the chain.  (Reach.v adds all others.) *)
Inductive clean_step : Sys → Sys → Prop :=
  | op_block t p mis s s' :
      RunBlockWithTimeAndProposer t p mis s = (Ret tt, s') → clean_step s s'
  | op_refused t p mis s err s' :
      RunBlockWithTimeAndProposer t p mis s = (Err err, s') →
      CurState (client s') = CurState (client s) →
      LastCommit (client s') = LastCommit (client s) →
      st_locked (Storage (client s')) = false → clean_step s s'
  | op_queue tx s s' : QueueTx tx s = (Ret tt, s') → clean_step s s'
  | op_signing addr status s o s' : SetSigningStatus addr status s = (o, s') → clean_step s s'
  | op_time th s : clean_step s (mkSys (set_Time_Handler th (client s)) (blockMutex s) (io s))
  | op_auto b s : clean_step s (mkSys (set_AutoIncludeTx b (client s)) (blockMutex s) (io s))
  | op_read {A} (m : M Sys A) s o s' : within (frame false false) m → m s = (o, s') → clean_step s s'.

(** A process before its first block: nothing is stored yet. *)
Definition genesis s : Prop :=
  idle s ∧ st_LastBlockHeight (CurState (client s)) = 0 ∧
  st_view (Storage (client s)) = ∅.

Lemma QueueTx_abs tx s s' : QueueTx tx s = (Ret tt, s') → idle s → idle s' ∧ abs s' = abs s.
Proof.
  unfold QueueTx, lock_blockMutex, unlock_blockMutex, upd, modify, mbind, M_bind, idle.
  intros H (Hm & Hwf & Hl). rewrite Hm in H. simpl in H. by simplify_eq.
Qed.

Lemma SetSigningStatus_abs addr status s o s' :
  SetSigningStatus addr status s = (o, s') → idle s → idle s' ∧ abs s' = abs s.
Proof.
  unfold SetSigningStatus, cl, gets, mbind, M_bind, upd, modify, throw, idle.
  intros H (Hm & Hwf & Hl). destruct (signingStatus (client s) !! addr); by simplify_eq/=.
Qed.

Lemma frame_abs s s' : frame false false s s' → idle s → idle s' ∧ abs s' = abs s.
Proof.
  intros F (Hm & Hwf & Hl). destruct (fr_Storage _ _ _ _ F Hwf) as (Hwf' & Hl' & Hv').
  split; [split_and!; [by rewrite (fr_mutex _ _ _ _ F) | done | congruence]|].
  unfold abs. rewrite Hv', (fr_CurState _ _ _ _ F), (fr_LastBlock _ _ _ _ F).
  by rewrite (fr_LastCommit _ _ _ _ F).
Qed.

(** A block refused before its commit is made changes nothing of the chain. *)
Lemma refused_abs t p mis s err s' :
  idle s → RunBlockWithTimeAndProposer t p mis s = (Err err, s') →
  CurState (client s') = CurState (client s) → LastCommit (client s') = LastCommit (client s) →
  st_locked (Storage (client s')) = false → idle s' ∧ abs s' = abs s.
Proof.
  intros (Hm & Hwf & Hl) Hrun Hcs Hlc Hlk. pose proof (run_locked t p mis s Hm) as HR.
  destruct (runBlock_helper _ _ _ _) as [oh sh] eqn:Hh. destruct HR as [_ HR].
  rewrite HR in Hrun. destruct oh as [[]| | |]; simplify_eq. cbn [client] in Hcs, Hlc, Hlk.
  destruct (runBlock_helper_cases t p mis (mkSys (client s) true (io s)) _ _ Hwf Hl Hh)
    as [(_ & F & _)|[(_ & _ & Hl' & _)|(_ & _ & v & c' & _ & Hst & Habs)]].
  - destruct (fr_Storage _ _ _ _ F Hwf) as (Hwf' & Hl' & Hv').
    pose proof (fr_LastBlock _ _ _ _ F) as Hb. split; [done|]. unfold abs. simpl in *. congruence.
  - congruence.
  - exfalso. assert (st_LastBlockHeight (ch_state c') = st_LastBlockHeight (CurState (client s))) as Hc'.
    { apply (f_equal (λ c, st_LastBlockHeight (ch_state c))) in Habs. simpl in Habs. congruence. }
    destruct Hst as [b commit res id ups st' h Hbh ? ? ? ? ? ? ? ? ? Hup].
    apply UpdateState_ret in Hup as (_ & _ & _ & Hh' & _). simpl in *. subst h. lia.
Qed.

Lemma clean_step_inv s s' : clean_step s s' →
  idle s ∧ chain_inv (abs s) → idle s' ∧ chain_inv (abs s').
Proof.
  intros Hstep [Hidle Hinv].
  destruct Hstep as [t p mis s s' Hrun|t p mis s err s' Hrun Hcs Hlc Hlk|tx s s' Hrun|addr st s o s' Hrun|th s|b s|A m s o s' Hw Hrun].
  - destruct (run_step _ _ _ _ _ Hidle Hrun) as (Hidle' & (v & _ & Hst) & _).
    split; [done | exact (chain_step_inv _ _ _ _ Hinv Hst)].
  - destruct (refused_abs _ _ _ _ _ _ Hidle Hrun Hcs Hlc Hlk) as [? ->]. done.
  - destruct (QueueTx_abs _ _ _ Hrun Hidle) as [? ->]. done.
  - destruct (SetSigningStatus_abs _ _ _ _ _ Hrun Hidle) as [? ->]. done.
  - done.
  - done.
  - destruct (frame_abs s s') as [? ->]; [|done..]. by eapply within_run.
Qed.
End reach.

(** ** Instances *)

Import ToyInstances.

Lemma toy_idle ih ve fresh : idle (toy_sys ih ve fresh).
Proof. done. Defined.

Lemma toy_chain_inv ih ve fresh : chain_inv (abs (toy_sys ih ve fresh)).
Proof. by apply (chain_inv_genesis (toy_genesis_state ih ve)). Defined.

(** The toy process after two blocks. *)
Definition toy_two : ToySys := (toy_block 6 (toy_block 5 (toy_sys 1 0 ["a"; "b"])).2).2.

Lemma toy_two_ready : idle toy_two ∧ chain_inv (abs toy_two).
Proof.
  eapply clean_step_inv; [eapply (op_block 6 (Some toy_alice) []); run_toy|].
  eapply (clean_step_inv (toy_sys 1 0 ["a"; "b"])); [eapply (op_block 5 (Some toy_alice) []); run_toy|].
  split; [apply toy_idle | apply toy_chain_inv].
Defined.

Lemma RunBlock_refines_witness :
  let s := toy_sys 1 0 ["a"; "late"] in let s' := (toy_block 5 s).2 in
  idle s' ∧ ∃ v, Some toy_alice = Some v ∧ chain_step 5 v (abs s) (abs s').
Proof.
  cbv zeta. eapply (RunBlock_refines 5 (Some toy_alice) [] (toy_sys 1 0 ["a"; "late"])); [apply toy_idle|]. run_toy.
Defined.

(** The toy application returns a negative power: the state update fails. *)
Lemma RunBlock_error_outcomes_witness :
  let s := toy_sys 1 0 ["neg"] in let s' := (toy_block 5 s).2 in
  blockMutex s' = false ∧
  ((idle s' ∧ ch_entries (abs s') = ch_entries (abs s) ∧ ch_state (abs s') = ch_state (abs s) ∧
    ch_last (abs s') = ch_last (abs s)) ∨
   (st_locked (Storage (client s')) = true ∧ ch_state (abs s') = ch_state (abs s)) ∨
   (idle s' ∧ ∃ v c', Some toy_alice = Some v ∧ chain_step 5 v (abs s) c' ∧
    abs s' = mkChain (ch_entries c') (with_AppHash "" (ch_state c')) (ch_last c') (ch_commit c'))).
Proof.
  cbv zeta. eapply (RunBlock_error_outcomes 5 (Some toy_alice) [] (toy_sys 1 0 ["neg"])); [apply toy_idle|]. run_toy.
Defined.

(** The transactions of the proposal are too big: the nil block is dereferenced. *)
Lemma RunBlock_panic_wedges_witness :
  let s' := (toy_block 5 (toy_sys 1 0 ["toobig"])).2 in
  blockMutex s' = true ∧ (∀ tx, QueueTx tx s' = (Blocked, s')) ∧
  (RunEmptyBlocks 3 s').1 = Blocked ∧ same_but_time s' (RunEmptyBlocks 3 s').2.
Proof.
  cbv zeta.
  pose proof (RunBlock_panic_wedges 5 (Some toy_alice) [] (toy_sys 1 0 ["toobig"])
    (toy_block 5 (toy_sys 1 0 ["toobig"])).2 NilDereference eq_refl) as H.
  destruct H as (Hm & _ & Hq & Hn); [run_toy|].
  destruct (Hn 3 ltac:(lia)) as (Hb & Hs & _).
  split; [exact Hm|]. split; [exact Hq|]. split; [exact Hb | exact Hs].
Defined.

(** The entry of block 1 survives the failure of block 3. *)
Definition toy_crashed : ToySys := (toy_block 7 (QueueTx "crash" toy_two).2).2.

Lemma toy_queued_ready : idle (QueueTx "crash" toy_two).2 ∧ chain_inv (abs (QueueTx "crash" toy_two).2).
Proof. eapply clean_step_inv; [eapply (op_queue "crash"); run_toy | exact toy_two_ready]. Defined.

Lemma history_is_append_only_witness :
  ∃ e, ch_entries (abs (QueueTx "crash" toy_two).2) !! 1 = Some e ∧
    ch_entries (abs toy_crashed) !! 1 = Some e.
Proof.
  pose proof (history_is_append_only 7 (Some toy_alice) [] (QueueTx "crash" toy_two).2
    (proj1 toy_queued_ready) (proj2 toy_queued_ready)) as [H _]. cbv zeta in H.
  destruct (ch_entries (abs (QueueTx "crash" toy_two).2) !! 1) as [e|] eqn:E.
  - exists e. split; [reflexivity | exact (H 1 e E)].
  - vm_compute in E. discriminate.
Defined.

