(* ===== verification/BlockFacts.v ===== *)
(** * What a successful block says about validators, votes and transactions *)

From S2P Require Import Prelude.
From S2P Require Import CometTypes.
From S2P Require Import Toy.
From S2P Require Import Storage.
From S2P Require Import TimeHandler.
From S2P Require Import Utils.
From S2P Require Import Client.
From S2P Require Import UpdateState.
From S2P Require Import Evidence.
From S2P Require Import RunBlock.
From S2P Require Import Example.
From S2P Require Import Frames.
From S2P Require Import RunBlockSpec.
From S2P Require Import UpdateSpec.
From S2P Require Import Chain.
From S2P Require Import RunBlockProps.
#[local] Open Scope Z_scope.

Section facts.
Context {CT : CometTypes} {CO : CometOps} {CL : CometLaws} {EN : Env} {ST TH : Type}.
Context {SO : StorageOps ST} {SL : StorageLaws ST} {TO : TimeHandlerOps TH}.
#[local] Abbreviation Sys := (Sys ST TH).
Implicit Types s : Sys.

(** The process while [blockMutex] is held. *)
Definition locked s : Sys := mkSys (client s) true (io s).

(** After the execution nothing it left in the commit and the queues changes. *)
Lemma helper_ret t p mis s u s' :
  st_wf (Storage (client s)) → st_locked (Storage (client s)) = false →
  runBlock_helper t p mis s = (Ret u, s') →
  ∃ b res s1, execute_block t p mis s = (Ret (b, res), s1) ∧
    LastBlock (client s') = b ∧ LastCommit (client s') = LastCommit (client s1) ∧
    FreshTxQueue (client s') = FreshTxQueue (client s1) ∧
    StaleTxQueue (client s') = StaleTxQueue (client s1) ∧ ∃ l, io s' = l ++ io s1.
Proof.
  intros Hwf Hl H. unfold runBlock_helper in H. rewrite (bind_ret _ _ _ _ _ (cl_run _ _)) in H.
  apply bind_ret_inv in H as ([b res] & s1 & He & H).
  pose proof (within_run _ _ _ _ _ (within_execute_block t p mis) He) as Fr.
  destruct (fr_Storage _ _ _ _ Fr Hwf) as (Hwf1 & Hl1 & _). rewrite Hl in Hl1.
  apply bind_ret_inv in H as ([] & s2 & Hu & H).
  destruct (update_stores_and_state_cases _ _ _ _ _ _ Hwf1 Hl1 Hu) as [(Hb & Hc & Hf & Hs & _) _].
  pose proof (within_run _ _ _ _ _ (within_kept_update_stores _ b res) Hu) as [_ _ _ _ _ _ [l1 Hio1]].
  pose proof (within_run _ _ _ _ _ (within_kept_commit_block res) H) as [_ _ _ _ _ _ [l2 Hio2]].
  unfold commit_block in H. apply bind_ret_inv in H as (rc & s3 & Hsend & H).
  apply wrap_err_ret_inv in Hsend.
  pose proof (within_run _ _ _ _ _ (within_SendCommit false false) Hsend) as Fc.
  unfold upd_state in H. apply upd_ret in H as ->. cbn [client] in *.
  destruct (fr_queues _ _ _ _ Fc eq_refl) as [Hf3 Hs3].
  exists b, res, s1. simpl. rewrite (fr_LastBlock _ _ _ _ Fc), (fr_LastCommit _ _ _ _ Fc) by done.
  split_and!; try congruence. simpl in *. exists (l2 ++ l1). by rewrite Hio2, Hio1, app_assoc.
Qed.

Lemma RunBlock_ret t p mis s s' : idle s →
  RunBlockWithTimeAndProposer t p mis s = (Ret tt, s') →
  ∃ b res s1, execute_block t p mis (locked s) = (Ret (b, res), s1) ∧
    LastBlock (client s') = b ∧ LastCommit (client s') = LastCommit (client s1) ∧
    FreshTxQueue (client s') = FreshTxQueue (client s1) ∧
    StaleTxQueue (client s') = StaleTxQueue (client s1) ∧ ∃ l, io s' = l ++ io s1.
Proof.
  intros (Hm & Hwf & Hl) Hrun. pose proof (run_locked t p mis s Hm) as HR.
  destruct (runBlock_helper _ _ _ _) as [oh sh] eqn:Hh. destruct HR as [_ HR].
  rewrite HR in Hrun. destruct oh as [[]| | |]; simplify_eq.
  apply helper_ret in Hh as (b & res & s1 & He & Hrest); [|done..]. eauto 10.
Qed.

(** An execution that does not return ends the run before anything is stored. *)
Lemma run_stopped t p mis s : blockMutex s = false →
  (∀ r s1, execute_block t p mis (locked s) ≠ (Ret r, s1)) →
  (RunBlockWithTimeAndProposer t p mis s).1 ≠ Ret tt ∧
  frame true true (locked s) (locked (RunBlockWithTimeAndProposer t p mis s).2).
Proof.
  intros Hm Hno. pose proof (run_locked t p mis s Hm) as HR. fold (locked s) in HR.
  unfold runBlock_helper in HR. rewrite (bind_ret _ _ _ _ _ (cl_run _ _)) in HR.
  pose proof (within_execute_block t p mis (locked s)) as Fr.
  unfold mbind, M_bind in HR. destruct (execute_block t p mis (locked s)) as [[r|e|pv|] s1] eqn:E.
  - by destruct (Hno r s1).
  - destruct HR as [Hx ->]. split; [done|]. destruct s1. simpl in *. by subst.
  - destruct HR as [Hx ->]. split; [done|]. destruct s1. simpl in *. by subst.
  - destruct HR as [Hx ->]. split; [done|]. destruct s1. simpl in *. by subst.
Qed.

(** ** The size of the validator set *)

(** The blocks are built with the size of the current validator set in mind,
    where the commit is by the previous one. *)
Lemma commit_size_needed t p mis s r s1 :
  execute_block t p mis s = (Ret r, s1) →
  st_LastBlockHeight (CurState (client s)) + 1 ≠ st_InitialHeight (CurState (client s)) →
  length (ec_ExtendedSignatures (LastCommit (client s))) =
    length (vs_Validators (st_Validators (CurState (client s)))).
Proof.
  destruct r as [b res]. intros H Hne.
  apply execute_block_ret in H as (_ & (v & txl & ev & -> & ->) & _ & _ & info & Hinfo).
  destruct (MakeBlock_law (CurState (client s)) (st_LastBlockHeight (CurState (client s)) + 1) txl
    (ExtendedCommit_ToCommit (LastCommit (client s))) ev (val_Address v)) as (Hh & _ & Hl & _).
  unfold BuildLastCommitInfo in Hinfo.
  cbn [set_blk_Header set_hdr_Time blk_Header hdr_Height blk_LastCommit] in Hinfo.
  rewrite Hh, Hl, decide_False in Hinfo by done.
  rewrite Commit_Size_law, ToCommit_law in Hinfo. cbn [cm_Signatures] in Hinfo.
  rewrite length_fmap in Hinfo. case_decide as Hd; [done|]. lia.
Qed.

Lemma stuck_on_commit_size t p mis s :
  idle s → st_LastBlockHeight (CurState (client s)) + 1 ≠ st_InitialHeight (CurState (client s)) →
  length (ec_ExtendedSignatures (LastCommit (client s))) ≠
    length (vs_Validators (st_Validators (CurState (client s)))) →
  let r := RunBlockWithTimeAndProposer t p mis s in
  r.1 ≠ Ret tt ∧ ch_state (abs r.2) = ch_state (abs s) ∧ ch_entries (abs r.2) = ch_entries (abs s) ∧
  ch_last (abs r.2) = ch_last (abs s).
Proof.
  intros (Hm & Hwf & _) Hne Hlen.
  destruct (run_stopped t p mis s Hm) as [Ho F].
  { intros r s1 He. by apply Hlen, (commit_size_needed t p mis (locked s) r s1). }
  destruct (fr_Storage _ _ _ _ F Hwf) as (_ & _ & Hv).
  split_and!; [done | apply F | exact Hv | apply F].
Qed.

(** C17 A change of the number of validators stops the chain: on a well-formed
    chain whose last block was signed by a set of another size than the current
    one, no block run succeeds, whatever time, proposer and misbehaviour it is
    given and however the applications answer; state and stored entries stay. *)
Theorem valset_size_change_halts (t : Z) (p : option Validator)
    (mis : list (Validator * MisbehaviourType)) s (Hidle : idle s) (Hinv : chain_inv (abs s))
    (Hpos : 1 ≤ st_LastBlockHeight (CurState (client s)))
    (Hinit : st_InitialHeight (CurState (client s)) ≤ st_LastBlockHeight (CurState (client s)))
    (Hsize : length (vs_Validators (st_LastValidators (CurState (client s)))) ≠
             length (vs_Validators (st_Validators (CurState (client s))))) :
  let r := RunBlockWithTimeAndProposer t p mis s in
  r.1 ≠ Ret tt ∧ ch_state (abs r.2) = ch_state (abs s) ∧ ch_entries (abs r.2) = ch_entries (abs s) ∧
  ch_last (abs r.2) = ch_last (abs s).
Proof.
  apply stuck_on_commit_size; [done | lia |].
  destruct (proj2 (ci_dom _ Hinv (st_LastBlockHeight (ch_state (abs s))))) as [e He]; [simpl; lia|].
  destruct (ci_last _ Hinv e He) as (_ & Hc & _ & _ & Hlv & _).
  destruct (ci_entry _ Hinv _ _ He) as (_ & _ & _ & Hlen).
  rewrite Hc in Hlen. cbn [abs ch_commit ch_state] in Hlen, Hlv.
  rewrite ToCommit_law in Hlen. cbn [cm_Signatures] in Hlen. rewrite length_fmap in Hlen.
  rewrite Hlen, <-Hlv. exact Hsize.
Qed.

(** C18 The height of the next block ignores the initial height: a process before
    its first block, with validators and an initial height other than 1, never
    runs a block. *)
Theorem initial_height_must_be_1 (t : Z) (p : option Validator)
    (mis : list (Validator * MisbehaviourType)) s (Hidle : idle s)
    (Hgen : st_LastBlockHeight (CurState (client s)) = 0)
    (Hcommit : ec_ExtendedSignatures (LastCommit (client s)) = [])
    (Hvals : vs_Validators (st_Validators (CurState (client s))) ≠ [])
    (Hinit : st_InitialHeight (CurState (client s)) ≠ 1) :
  let r := RunBlockWithTimeAndProposer t p mis s in
  r.1 ≠ Ret tt ∧ ch_state (abs r.2) = ch_state (abs s) ∧ ch_entries (abs r.2) = ch_entries (abs s) ∧
  ch_last (abs r.2) = ch_last (abs s).
Proof.
  apply stuck_on_commit_size; [done | lia |]. rewrite Hcommit.
  destruct (vs_Validators _); [done|]. simpl. lia.
Qed.

(** ** Who signs *)

(** C6 After a successful block the new last commit has one signature per
    validator of the state it ran in, in order: the one at the index of a
    validator that was set to "down" is absent, and one that is not absent
    carries the address of the validator at its index, which was "up". *)
Theorem commit_respects_signing_status (t : Z) (p : option Validator)
    (mis : list (Validator * MisbehaviourType)) s s' (Hidle : idle s)
    (Hrun : RunBlockWithTimeAndProposer t p mis s = (Ret tt, s'))
    (Hsmall : Z.of_nat (length (vs_Validators (st_Validators (CurState (client s))))) ≤ 2 ^ 31) :
  let vals := vs_Validators (st_Validators (CurState (client s))) in
  let sigs := ec_ExtendedSignatures (LastCommit (client s')) in
  length sigs = length vals ∧
  ∀ i val sig, vals !! i = Some val → sigs !! i = Some sig →
    (signingStatus (client s) !! Address_String (val_Address val) = Some false →
       cs_BlockIDFlag (ecs_CommitSig sig) = BlockIDFlagAbsent) ∧
    (cs_BlockIDFlag (ecs_CommitSig sig) ≠ BlockIDFlagAbsent →
       cs_ValidatorAddress (ecs_CommitSig sig) = val_Address val ∧
       signingStatus (client s) !! Address_String (val_Address val) = Some true).
Proof.
  destruct (RunBlock_ret _ _ _ _ _ Hidle Hrun) as (b & res & s1 & He & _ & Hlc & _).
  apply execute_block_ret in He as (_ & _ & (votes & (_ & _ & Hlen & Hsigs) & Hvl & Hvotes) & _).
  cbn [locked client] in *. rewrite Hlc. cbv zeta. split; [done|]. intros i val sig Hval Hsig.
  assert (cs_BlockIDFlag (ecs_CommitSig sig) ≠ BlockIDFlagAbsent →
    cs_ValidatorAddress (ecs_CommitSig sig) = val_Address val ∧
    signingStatus (client s) !! Address_String (val_Address val) = Some true) as Hpresent.
  { intros Hflag. destruct (Hsigs i sig Hsig) as [_ Hv].
    destruct (Hv Hflag) as (v & Hin & Hidx & ->).
    apply list_elem_of_lookup in Hin as [j Hj].
    assert (j < length votes)%nat as Hjlt by (by eapply lookup_lt_Some).
    destruct (lookup_lt_is_Some_2 (vs_Validators (st_Validators (CurState (client s)))) j) as [vj Hvj]; [lia|].
    destruct (Hvotes j vj Hvj) as (ov & Hov & Hm). rewrite Hj in Hov. simplify_eq.
    destruct Hm as [Hst (Haddr & Hi & _)].
    rewrite wrap32_id in Hi by lia.
    assert (j = i) as -> by lia. simplify_eq. done. }
  split; [|exact Hpresent]. intros Hdown.
  destruct (decide (cs_BlockIDFlag (ecs_CommitSig sig) = BlockIDFlagAbsent)) as [?|Hf]; [done|].
  destruct (Hpresent Hf) as [_ Hup]. congruence.
Qed.
End facts.

(** ** Instances *)

Import ToyInstances.

(** "carol" joins in block 1 and is in the validator set after block 2. *)
Definition toy_joined : ToySys := (toy_block 6 (toy_block 5 (toy_sys 1 0 ["join"])).2).2.

Lemma toy_joined_ready : idle toy_joined ∧ chain_inv (abs toy_joined).
Proof.
  eapply clean_step_inv; [eapply (op_block 6 (Some toy_alice) []); run_toy|].
  eapply (clean_step_inv (toy_sys 1 0 ["join"])); [eapply (op_block 5 (Some toy_alice) []); run_toy|].
  split; [apply toy_idle | apply toy_chain_inv].
Defined.

Lemma valset_size_change_halts_witness :
  (val_Address <$> vs_Validators (st_Validators (CurState (client toy_joined)))) = ["alice"; "bob"; "carol"] ∧
  let r := RunBlockWithTimeAndProposer 7 (Some toy_alice) [] toy_joined in
  r.1 ≠ Ret tt ∧ ch_state (abs r.2) = ch_state (abs toy_joined) ∧
  ch_entries (abs r.2) = ch_entries (abs toy_joined) ∧ ch_last (abs r.2) = ch_last (abs toy_joined).
Proof.
  split; [vm_compute; reflexivity|].
  assert (1 ≤ st_LastBlockHeight (CurState (client toy_joined))) as H1 by (vm_compute; discriminate).
  assert (st_InitialHeight (CurState (client toy_joined)) ≤
    st_LastBlockHeight (CurState (client toy_joined))) as H2 by (vm_compute; discriminate).
  assert (length (vs_Validators (st_LastValidators (CurState (client toy_joined)))) ≠
    length (vs_Validators (st_Validators (CurState (client toy_joined))))) as H3
    by (vm_compute; discriminate).
  exact (valset_size_change_halts 7 (Some toy_alice) [] toy_joined (proj1 toy_joined_ready)
    (proj2 toy_joined_ready) H1 H2 H3).
Defined.

Lemma initial_height_must_be_1_witness :
  let r := RunBlockWithTimeAndProposer 7 (Some toy_alice) [] (toy_sys 5 0 []) in
  r.1 ≠ Ret tt ∧ ch_state (abs r.2) = ch_state (abs (toy_sys 5 0 [])) ∧
  ch_entries (abs r.2) = ch_entries (abs (toy_sys 5 0 [])) ∧
  ch_last (abs r.2) = ch_last (abs (toy_sys 5 0 [])).
Proof.
  exact (initial_height_must_be_1 7 (Some toy_alice) [] (toy_sys 5 0 []) (toy_idle _ _ _)
    eq_refl eq_refl ltac:(done) ltac:(done)).
Defined.

(** Bob is down. *)
Definition toy_bob_down : ToySys := (SetSigningStatus "bob" false (toy_sys 1 0 [])).2.
Definition toy_bob_down' : ToySys := (toy_block 7 toy_bob_down).2.
Lemma toy_bob_down_run :
  RunBlockWithTimeAndProposer 7 (Some toy_alice) [] toy_bob_down = (Ret tt, toy_bob_down').
Proof. unfold toy_bob_down', toy_block. run_toy. Defined.
Lemma toy_bob_down_idle : idle toy_bob_down.
Proof. split_and!; vm_compute; done. Defined.

Lemma commit_respects_signing_status_witness :
  (cs_BlockIDFlag ∘ ecs_CommitSig <$> ec_ExtendedSignatures (LastCommit (client toy_bob_down'))) = [2; 1] ∧
  length (ec_ExtendedSignatures (LastCommit (client toy_bob_down'))) =
    length (vs_Validators (st_Validators (CurState (client toy_bob_down)))).
Proof.
  split; [vm_compute; reflexivity|].
  assert (Z.of_nat (length (vs_Validators (st_Validators (CurState (client toy_bob_down))))) ≤ 2 ^ 31)
    as Hsmall by (vm_compute; discriminate).
  exact (proj1 (commit_respects_signing_status 7 (Some toy_alice) [] toy_bob_down toy_bob_down'
    toy_bob_down_idle toy_bob_down_run Hsmall)).
Defined.
