(* ===== verification/Txs.v ===== *)
(** * Transactions and whole runs of blocks

    What becomes of the queued transactions when a block is made, and what
    [RunEmptyBlocks] amounts to. *)

From S2P Require Import Prelude.
From S2P Require Import CometTypes.
From S2P Require Import Toy.
From S2P Require Import Storage.
From S2P Require Import TimeHandler.
From S2P Require Import Utils.
From S2P Require Import Client.
From S2P Require Import UpdateState.
From S2P Require Import Evidence.
From S2P Require Import RunBlock.
From S2P Require Import Example.
From S2P Require Import Frames.
From S2P Require Import RunBlockSpec.
From S2P Require Import UpdateSpec.
From S2P Require Import Chain.
From S2P Require Import RunBlockProps.
From S2P Require Import BlockFacts.
#[local] Open Scope Z_scope.

Section txs.
Context {CT : CometTypes} {CO : CometOps} {CL : CometLaws} {EN : Env} {ST TH : Type}.
Context {SO : StorageOps ST} {SL : StorageLaws ST} {TO : TimeHandlerOps TH}.
#[local] Abbreviation Sys := (Sys ST TH).
Implicit Types s : Sys.

(** Between two states, the applications were asked to check the transaction and
    answered with a code other than OK. *)
Definition rejected s s' (tx : bytes) : Prop :=
  ∃ ty s1 r s2, SendCheckTx ty tx s1 = (Ret r, s2) ∧ rsc_Code r ≠ CodeTypeOK ∧
    io s `suffix_of` io s1 ∧ io s2 `suffix_of` io s'.

Lemma rejected_mono s0 s s' s1 tx : io s0 `suffix_of` io s → io s' `suffix_of` io s1 →
  rejected s s' tx → rejected s0 s1 tx.
Proof.
  intros H0 H1 (ty & sa & r & sb & Hrun & Hr & Ha & Hb). exists ty, sa, r, sb.
  split_and!; [done..| |]; by etrans.
Qed.

Lemma frame_suffix q lc s s' : frame q lc s s' → io s `suffix_of` io s'.
Proof. intros F. destruct (fr_io _ _ _ _ F) as [l ->]. by exists l. Qed.

(** A queue after the check of its first [n] transactions; the other is untouched. *)
Definition checked (queue other : AbciClient ST TH → list bytes) s0 (n : nat) s1 : Prop :=
  io s0 `suffix_of` io s1 ∧ other (client s1) = other (client s0) ∧
  length (queue (client s1)) = length (queue (client s0)) ∧
  ∀ i tx, queue (client s0) !! i = Some tx →
    queue (client s1) !! i = Some tx ∨ queue (client s1) !! i = Some "" ∧ rejected s0 s1 tx.

Lemma checked_refl queue other s : checked queue other s 0 s.
Proof. split_and!; [done..|]. auto. Qed.

Lemma check_step (queue other : AbciClient ST TH → list bytes) (blank : nat → AbciClient ST TH → AbciClient ST TH)
    ty s0 j tx s1 (u : unit) s2 :
  (∀ s s', frame false false s s' → queue (client s') = queue (client s) ∧ other (client s') = other (client s)) →
  (∀ i a, queue (blank i a) = <[i := ""]> (queue a) ∧ other (blank i a) = other a) →
  queue (client s0) !! j = Some tx → checked queue other s0 j s1 →
  (r ← wrap_err check_tx_error (SendCheckTx ty tx);
   if decide (rsc_Code r ≠ CodeTypeOK) then upd (blank j) else mret tt) s1 = (Ret u, s2) →
  checked queue other s0 (S j) s2.
Proof.
  intros Hframe Hblank Hj (Hio & Hoth & Hlen & Hall) H.
  apply bind_ret_inv in H as (r & s3 & Hsend & H). apply wrap_err_ret_inv in Hsend.
  pose proof (within_run _ _ _ _ _ (within_SendCheckTx false false ty tx) Hsend) as F.
  pose proof (frame_suffix _ _ _ _ F) as Hio3. destruct (Hframe _ _ F) as [Hq Ho].
  destruct (Hblank j (client s3)) as [Hbq Hbo].
  case_decide as Hcode.
  - apply upd_ret in H as ->. split_and!; cbn [io client].
    + by etrans.
    + congruence.
    + by rewrite Hbq, length_insert, Hq.
    + intros i tx' Hi. rewrite Hbq, Hq. destruct (decide (i = j)) as [->|Hne].
      * right. rewrite Hj in Hi. injection Hi as <-. split.
        { apply list_lookup_insert_eq. rewrite Hlen. by eapply lookup_lt_Some. }
        exists ty, s1, r, s3. split_and!; [done..|]. by exists [].
      * rewrite list_lookup_insert_ne by done. destruct (Hall i tx' Hi) as [?|[? Hr]]; [by left|].
        right. split; [done|]. revert Hr. apply rejected_mono; [by exists []|done].
  - unfold mret, M_ret in H. injection H as _ <-. split_and!.
    + by etrans.
    + congruence.
    + by rewrite Hq.
    + intros i tx' Hi. rewrite Hq. destruct (Hall i tx' Hi) as [?|[? Hr]]; [by left|].
      right. split; [done|]. revert Hr. apply rejected_mono; [by exists []|done].
Qed.

Lemma check_fresh_txs_ret s u s' : check_fresh_txs s = (Ret u, s') →
  checked FreshTxQueue StaleTxQueue s (length (FreshTxQueue (client s))) s'.
Proof.
  unfold check_fresh_txs. intros H. rewrite (bind_ret _ _ _ _ _ (cl_run _ _)) in H.
  apply (for_range_inv (checked FreshTxQueue StaleTxQueue s)) in H; [done | clear H | apply checked_refl].
  intros j tx s1 u1 s2 Hj Hc H. eapply (check_step FreshTxQueue StaleTxQueue blank_fresh); try done.
  intros ? ? F. apply (fr_queues _ _ _ _ F eq_refl).
Qed.

Lemma recheck_stale_txs_ret s u s' : recheck_stale_txs s = (Ret u, s') →
  checked StaleTxQueue FreshTxQueue s (length (StaleTxQueue (client s))) s'.
Proof.
  unfold recheck_stale_txs. intros H. rewrite (bind_ret _ _ _ _ _ (cl_run _ _)) in H.
  apply (for_range_inv (checked StaleTxQueue FreshTxQueue s)) in H; [done | clear H | apply checked_refl].
  intros j tx s1 u1 s2 Hj Hc H. eapply (check_step StaleTxQueue FreshTxQueue blank_stale); try done.
  intros ? ? F. apply and_comm, (fr_queues _ _ _ _ F eq_refl).
Qed.
(** After both checks. *)
Lemma queues_checked s u s2 : (check_fresh_txs ;; recheck_stale_txs) s = (Ret u, s2) →
  io s `suffix_of` io s2 ∧
  ∀ tx, tx ∈ FreshTxQueue (client s) ++ StaleTxQueue (client s) →
    tx ∈ FreshTxQueue (client s2) ++ StaleTxQueue (client s2) ∨ rejected s s2 tx.
Proof.
  intros H. apply bind_ret_inv in H as (u1 & s1 & H1 & H2).
  apply check_fresh_txs_ret in H1 as (Hio1 & Hst & _ & Hf).
  apply recheck_stale_txs_ret in H2 as (Hio2 & Hfr & _ & Hs).
  split; [by etrans|]. intros tx Hin. rewrite elem_of_app in Hin |- *. rewrite Hfr.
  destruct Hin as [Hin|Hin]; apply list_elem_of_lookup in Hin as [i Hi].
  - destruct (Hf i tx Hi) as [Hi'|[_ Hr]].
    + left. left. by eapply list_elem_of_lookup_2.
    + right. revert Hr. by apply rejected_mono.
  - rewrite <-Hst in Hi. destruct (Hs i tx Hi) as [Hi'|[_ Hr]].
    + left. right. by eapply list_elem_of_lookup_2.
    + right. revert Hr. by apply rejected_mono.
Qed.

(** The checks only blank: what is queued afterwards was queued before. *)
Lemma queues_checked_sub s u s2 tx : (check_fresh_txs ;; recheck_stale_txs) s = (Ret u, s2) →
  tx ≠ "" → tx ∈ FreshTxQueue (client s2) ++ StaleTxQueue (client s2) →
  tx ∈ FreshTxQueue (client s) ++ StaleTxQueue (client s).
Proof.
  intros H Hne Hin. apply bind_ret_inv in H as (u1 & s1 & H1 & H2).
  apply check_fresh_txs_ret in H1 as (_ & Hst & Hl1 & Hf).
  apply recheck_stale_txs_ret in H2 as (_ & Hfr & Hl2 & Hs).
  rewrite Hfr in Hin. rewrite elem_of_app in Hin |- *.
  destruct Hin as [Hin|Hin]; apply list_elem_of_lookup in Hin as [i Hi]; [left|right].
  - assert (i < length (FreshTxQueue (client s)))%nat as Hlt.
    { rewrite <-Hl1. by eapply lookup_lt_Some. }
    destruct (lookup_lt_is_Some_2 _ _ Hlt) as [tx' Htx'].
    destruct (Hf i tx' Htx') as [E|[E _]]; rewrite Hi in E; simplify_eq.
    by eapply list_elem_of_lookup_2.
  - assert (i < length (StaleTxQueue (client s1)))%nat as Hlt.
    { rewrite <-Hl2. by eapply lookup_lt_Some. }
    destruct (lookup_lt_is_Some_2 _ _ Hlt) as [tx' Htx'].
    destruct (Hs i tx' Htx') as [E|[E _]]; rewrite Hi in E; simplify_eq.
    rewrite Hst in Htx'. by eapply list_elem_of_lookup_2.
Qed.

(** C5 No queued non-empty transaction is lost by a successful block of an idle
    process: each one queued before is in the block, waits in the stale queue, or was refused by the
    applications' CheckTx during this run.  An empty transaction is the code's mark
    for a refused one, so it never waits, even if CheckTx accepted it.  What waits
    was queued before and is not in the block, and the fresh queue is empty. *)
Theorem tx_conservation (t : Z) (p : option Validator)
    (mis : list (Validator * MisbehaviourType)) s s' (Hidle : idle s)
    (Hrun : RunBlockWithTimeAndProposer t p mis s = (Ret tt, s')) :
  FreshTxQueue (client s') = [] ∧
  (∀ tx, tx ≠ "" → tx ∈ FreshTxQueue (client s) ++ StaleTxQueue (client s) →
     tx ∈ blk_Txs (LastBlock (client s')) ∨ tx ∈ StaleTxQueue (client s') ∨ rejected s s' tx) ∧
  ("" ∉ StaleTxQueue (client s')) ∧
  (∀ tx, tx ∈ StaleTxQueue (client s') →
     tx ∈ FreshTxQueue (client s) ++ StaleTxQueue (client s) ∧ tx ≠ "" ∧
     tx ∉ blk_Txs (LastBlock (client s'))).
Proof.
  destruct (RunBlock_ret _ _ _ _ _ Hidle Hrun) as (b & res & s1 & He & Hb & _ & Hf & Hs & l & Hio).
  apply execute_block_ret in He as (_ & _ & _ & (s2 & Hchk & [l2 Hio1] & Hf1 & Hs1) & _).
  rewrite Hb, Hf, Hs, Hs1. split; [done|]. split; [|split].
  - intros tx Hne Hin. destruct (queues_checked _ _ _ Hchk) as [Hio2 Hq].
    destruct (decide (tx ∈ blk_Txs b)) as [?|Hnb]; [by left|].
    destruct (Hq tx Hin) as [Hin2|Hr].
    + right. left. rewrite !list_elem_of_filter. done.
    + right. right. revert Hr. apply rejected_mono; [done|].
      exists (l ++ l2). by rewrite Hio, Hio1, app_assoc.
  - rewrite !list_elem_of_filter. by intros (_ & ? & _).
  - intros tx. rewrite !list_elem_of_filter. intros (Hnb & Hne & Hin).
    split; [|done]. by apply (queues_checked_sub (locked s) tt s2).
Qed.
End txs.

(** ** Runs of blocks *)

Section runs.
Context {CT : CometTypes} {CO : CometOps} {CL : CometLaws} {EN : Env} {ST TH : Type}.
Context {SO : StorageOps ST} {SL : StorageLaws ST} {TO : TimeHandlerOps TH}.
#[local] Abbreviation Sys := (Sys ST TH).
Implicit Types s : Sys.

Definition last_time s : Z := hdr_Time (blk_Header (LastBlock (client s))).

(** Asking for the next block's time changes nothing but the handler. *)
Lemma next_block_time_ret t s s' : next_block_time s = (Ret t, s') →
  (∃ now, GetBlockTime now (last_time s) (Time_Handler (client s)) = (t, Time_Handler (client s'))) ∧
  s' = mkSys (set_Time_Handler (Time_Handler (client s')) (client s)) (blockMutex s) (IoNow :: io s).
Proof.
  unfold next_block_time, time_now, call_env, cl, gets, upd, modify, mbind, M_bind, mret, M_ret.
  cbn. unfold last_time. destruct (GetBlockTime _ _ _) as [t0 h'] eqn:E. intros [= <- <-].
  split; [|done]. eauto.
Qed.

(** [RunBlock]: the time comes from the handler, the proposer from the last
    validators. *)
Lemma RunBlock_step s s' : idle s → RunBlock s = (Ret tt, s') →
  idle s' ∧ ∃ now v t h', GetBlockTime now (last_time s) (Time_Handler (client s)) = (t, h') ∧
    vs_Proposer (st_LastValidators (ch_state (abs s))) = Some v ∧
    chain_step t v (abs s) (abs s') ∧ last_time s' = t ∧ Time_Handler (client s') = h'.
Proof.
  intros Hidle H. unfold RunBlock, default_proposer in H.
  apply bind_ret_inv in H as (t & s1 & Ht & H). apply next_block_time_ret in Ht as ((now & Ht) & Hs1).
  rewrite (bind_ret _ _ _ _ _ (cl_run _ _)) in H.
  assert (idle s1 ∧ abs s1 = abs s) as [Hidle1 Habs1] by (by rewrite Hs1).
  apply run_step in H as (Hidle' & (v & Hv & Hstep) & Hth); [|exact Hidle1].
  rewrite Habs1 in Hstep. change (CurState (client s1)) with (ch_state (abs s1)) in Hv. rewrite Habs1 in Hv.
  split; [done|]. exists now, v, t, (Time_Handler (client s1)).
  split_and!; [exact Ht | exact Hv | exact Hstep | | exact Hth].
  unfold last_time. change (LastBlock (client s')) with (ch_last (abs s')).
  by destruct Hstep.
Qed.

(** A chain only adds heights above its own. *)
Lemma nsteps_entries n c c' k :
  nsteps (λ c c', ∃ t v, chain_step t v c c') n c c' → k ≤ st_LastBlockHeight (ch_state c) →
  ch_entries c' !! k = ch_entries c !! k.
Proof.
  induction 1 as [c|n c c1 c' (t & v & Hstep) _ IH]; intros Hk; [done|].
  rewrite IH by (rewrite (chain_step_height _ _ _ _ Hstep); lia).
  destruct Hstep. cbn [ch_entries]. rewrite lookup_insert_ne; [done | lia].
Qed.

Lemma nsteps_height n c c' :
  nsteps (λ c c', ∃ t v, chain_step t v c c') n c c' →
  st_LastBlockHeight (ch_state c') = st_LastBlockHeight (ch_state c) + Z.of_nat n.
Proof.
  induction 1 as [c|n c c1 c' (t & v & Hstep) _ IH]; [lia|].
  rewrite IH, (chain_step_height _ _ _ _ Hstep). lia.
Qed.

(** The blocks stored from height [h] on have these timestamps. *)
Definition times_from (h : Z) (ts : list Z) (c : Chain) : Prop :=
  ∀ i t, ts !! i = Some t → ∃ e, ch_entries c !! (h + Z.of_nat i) = Some e ∧
    hdr_Time (blk_Header (e_block e)) = t.

Lemma run_n_steps n s s' : idle s → run_n n s = (Ret tt, s') →
  idle s' ∧ nsteps (λ c c', ∃ t v, chain_step t v c c') n (abs s) (abs s') ∧
  ∃ nows ts, length nows = n ∧ length ts = n ∧
    block_times (MakeBlockAt <$> nows) (last_time s) (Time_Handler (client s)) =
      (ts, last_time s', Time_Handler (client s')) ∧
    times_from (st_LastBlockHeight (ch_state (abs s)) + 1) ts (abs s').
Proof.
  revert s. induction n as [|n IH]; intros s Hidle H; cbn [run_n] in H.
  - unfold mret, M_ret in H. injection H as <-. split_and!; [done | constructor | by exists [], []].
  - apply bind_ret_inv in H as ([] & s1 & H1 & H).
    destruct (RunBlock_step s s1 Hidle H1) as (Hidle1 & now & v & t & h' & Hgt & _ & Hstep & Hlt & Hth).
    destruct (IH s1 Hidle1 H) as (Hidle' & Hn & nows & ts & Hlen & Hlent & Hbt & Htimes).
    pose proof (chain_step_height _ _ _ _ Hstep) as Hh.
    split_and!; [done | econstructor; eauto |].
    exists (now :: nows), (t :: ts). split_and!; [simpl; congruence | simpl; congruence | |].
    + cbn [fmap list_fmap block_times]. rewrite Hgt. rewrite Hlt, Hth in Hbt.
      change (list_fmap _ _ MakeBlockAt nows) with (MakeBlockAt <$> nows). by rewrite Hbt.
    + intros [|i] t0 Ht0; simplify_eq/=.
      * rewrite Z.add_0_r. rewrite <-Hh, (nsteps_entries _ _ _ _ Hn) by done.
        destruct Hstep as [b commit res id ups st' h Hbh Hbt0 ? ? ? ? ? ? ? ? Hu].
        cbn [ch_entries ch_state] in *. rewrite Hh, lookup_insert_eq. by eexists.
      * destruct (Htimes i t0 Ht0) as (e & He & Ht). exists e. split; [|done].
        rewrite <-He. f_equal. cbn [abs ch_state] in *. lia.
Qed.

(** C13 Advancing an idle process by [n] blocks, when it succeeds, is exactly [n] steps of the
    chain: the height grows by [n], and the blocks stored at the new heights have,
    one after another, the timestamps the time handler gives for [n] blocks in a
    row, each starting from the block before. *)
Theorem RunEmptyBlocks_steps (n : Z) s s' (Hidle : idle s) (Hn : 0 ≤ n)
    (Hrun : RunEmptyBlocks n s = (Ret tt, s')) :
  idle s' ∧ nsteps (λ c c', ∃ t v, chain_step t v c c') (Z.to_nat n) (abs s) (abs s') ∧
  st_LastBlockHeight (CurState (client s')) = st_LastBlockHeight (CurState (client s)) + n ∧
  ∃ nows ts, Z.of_nat (length nows) = n ∧ Z.of_nat (length ts) = n ∧
    block_times (MakeBlockAt <$> nows) (last_time s) (Time_Handler (client s)) =
      (ts, last_time s', Time_Handler (client s')) ∧
    times_from (st_LastBlockHeight (CurState (client s)) + 1) ts (abs s').
Proof.
  apply run_n_steps in Hrun as (Hidle' & Hsteps & nows & ts & Hlen & Hlent & Hbt & Htimes); [|done].
  split_and!; [done..| |].
  - apply nsteps_height in Hsteps. cbn [abs ch_state] in Hsteps. lia.
  - exists nows, ts. split_and!; [lia | lia | exact Hbt | exact Htimes].
Qed.
End runs.

(** ** Instances *)

Import ToyInstances.

Definition toy_mixed : ToySys := toy_sys 1 0 ["a"; "late"; "bad"].
Definition toy_mixed' : ToySys := (toy_block 5 toy_mixed).2.
Lemma toy_mixed_run : RunBlockWithTimeAndProposer 5 (Some toy_alice) [] toy_mixed = (Ret tt, toy_mixed').
Proof. unfold toy_mixed', toy_block. run_toy. Defined.

(** "a" goes in, "late" is left out by the proposer, "bad" fails the check. *)
Lemma tx_conservation_witness :
  blk_Txs (LastBlock (client toy_mixed')) = ["a"] ∧ StaleTxQueue (client toy_mixed') = ["late"] ∧
  FreshTxQueue (client toy_mixed') = [] ∧ rejected toy_mixed toy_mixed' "bad".
Proof.
  pose proof (tx_conservation 5 (Some toy_alice) [] toy_mixed toy_mixed' (toy_idle _ _ _) toy_mixed_run)
    as (Hf & Hall & _ & _).
  assert (blk_Txs (LastBlock (client toy_mixed')) = ["a"]) as Hb by (vm_compute; reflexivity).
  assert (StaleTxQueue (client toy_mixed') = ["late"]) as Hs by (vm_compute; reflexivity).
  assert ("bad" ∈ FreshTxQueue (client toy_mixed) ++ StaleTxQueue (client toy_mixed)) as Hin.
  { apply list_elem_of_In. vm_compute. auto. }
  split; [exact Hb|]. split; [exact Hs|]. split; [exact Hf|].
  destruct (Hall "bad" ltac:(done) Hin) as [H|[H|H]]; [| |exact H].
  - rewrite Hb in H. by apply list_elem_of_singleton in H.
  - rewrite Hs in H. by apply list_elem_of_singleton in H.
Defined.

Definition toy_five : ToySys := (RunEmptyBlocks 3 toy_two).2.
Lemma toy_five_run : RunEmptyBlocks 3 toy_two = (Ret tt, toy_five).
Proof. unfold toy_five. run_toy. Defined.

(** Three blocks with a fixed block time of 1000. *)
Lemma RunEmptyBlocks_steps_witness :
  st_LastBlockHeight (CurState (client toy_five)) = 5 ∧ last_time toy_five = last_time toy_two + 3000 ∧
  nsteps (λ c c', ∃ t v, chain_step t v c c') 3 (abs toy_two) (abs toy_five).
Proof.
  pose proof (RunEmptyBlocks_steps 3 toy_two toy_five (proj1 toy_two_ready) ltac:(lia) toy_five_run)
    as (_ & Hn & Hh & _).
  split; [rewrite Hh; vm_compute; reflexivity|]. split; [vm_compute; reflexivity | exact Hn].
Defined.
