(* ===== verification/Protocol.v ===== *)
(** * The order of the calls to the applications

    ABCI prescribes the order in which a consensus engine calls an application
    for one block.  [phase_of] numbers the calls; [phase k] is the relation "only
    calls of phase [k] were made", a frame for [within]; sequencing phases gives
    the order of a whole run, however it ends. *)

From S2P Require Import Prelude.
From S2P Require Import CometTypes.
From S2P Require Import Toy.
From S2P Require Import Storage.
From S2P Require Import TimeHandler.
From S2P Require Import Utils.
From S2P Require Import Client.
From S2P Require Import UpdateState.
From S2P Require Import Evidence.
From S2P Require Import RunBlock.
From S2P Require Import Example.
#[local] Open Scope nat_scope.

Section protocol.
Context {CT : CometTypes} {CO : CometOps} {EN : Env} {ST TH : Type}.
Context {SO : StorageOps ST} {TO : TimeHandlerOps TH}.
#[local] Abbreviation Sys := (Sys ST TH).
Implicit Types s : Sys.

(** Calls that are no part of a block have no place in the order: 7. *)
Definition phase_of (e : io_event) : option nat :=
  match e with
  | IoAbci _ (ReqCheckTx _) => Some 0
  | IoAbci _ (ReqPrepareProposal _) => Some 1
  | IoAbci _ (ReqProcessProposal _) => Some 2
  | IoAbci _ (ReqExtendVote _) => Some 3
  | IoAbci _ (ReqVerifyVoteExtension _) => Some 4
  | IoAbci _ (ReqFinalizeBlock _) => Some 5
  | IoAbci _ ReqCommit => Some 6
  | IoAbci _ (ReqInfo | ReqInitChain _ | ReqQuery _) => Some 7
  | _ => None
  end.

(** The run from [s] to [s'] made the interactions [tr], in this order. *)
Definition trace s s' (tr : list io_event) : Prop := io s' = reverse tr ++ io s.

Definition phase (k : nat) s s' : Prop :=
  ∃ tr, trace s s' tr ∧ Forall (λ n, n = k) (omap phase_of tr).

#[export] Instance phase_preorder k : PreOrder (phase k).
Proof.
  split.
  - intros s. by exists [].
  - intros s1 s2 s3 (t1 & H1 & F1) (t2 & H2 & F2). exists (t1 ++ t2). unfold trace in *.
    rewrite reverse_app, omap_app, Forall_app. by rewrite H2, H1, app_assoc.
Qed.

Lemma phase_same k s s' : io s' = io s → phase k s s'.
Proof. intros E. by exists []. Qed.

Lemma within_phase_cl {A} k (f : AbciClient ST TH → A) : within (phase k) (cl f).
Proof. intros s. by apply phase_same. Qed.
Lemma within_phase_upd k f : within (phase k) (upd f : M Sys unit).
Proof. intros s. by apply phase_same. Qed.
Lemma within_phase_upd_state k f : within (phase k) (upd_state f : M Sys unit).
Proof. intros s. by apply phase_same. Qed.
Lemma within_phase_storage {A} k (m : M ST A) : within (phase k) (on_storage m : M Sys A).
Proof. intros s. unfold on_storage. destruct (m _). by apply phase_same. Qed.
Lemma within_phase_range k : within (phase k) (range_clients : M Sys _).
Proof. intros s. eexists [_]. done. Qed.
Lemma within_phase_publish k e : within (phase k) (publish e : M Sys _).
Proof. intros s. eexists [_]. done. Qed.
Lemma within_phase_call {R} k req (f : list io_event → ABCIHandle → outcome R) c :
  phase_of (IoAbci c req) = Some k → within (phase k) (abci_call req f c : M Sys R).
Proof.
  intros Hk s. eexists [_]. split; [done|].
  change (Forall (λ n, n = k) match phase_of (IoAbci c req) with Some n => [n] | None => [] end).
  rewrite Hk. by constructor.
Qed.
Lemma within_phase_must {A} k (m : M Sys A) : within (phase k) m → within (phase k) (must m).
Proof. intros Hm s. specialize (Hm s). unfold must. by destruct (m s) as [[] ?]. Qed.
Lemma within_phase_deref {A} k (x : option A) : within (phase k) (deref x : M Sys A).
Proof. destruct x; intros s; by apply phase_same. Qed.
Lemma within_phase_part_set k b n :
  within (phase k) (λ s : Sys, match liftO (Block_MakePartSet b n) s with
    | (Err _, s') => (Panic (PanicMsg "error making block part set: %v"), s')
    | r => r end).
Proof. intros s. unfold liftO. by destruct (Block_MakePartSet b n); apply phase_same. Qed.

#[local] Hint Resolve within_phase_cl within_phase_upd within_phase_upd_state within_phase_storage
  within_phase_range within_phase_publish within_phase_must within_phase_deref
  within_phase_part_set : within.

Lemma within_phase_send_all {R} `{EqDecision R} k (call : ABCIHandle → M Sys R) :
  (∀ c, within (phase k) (call c)) → within (phase k) (send_all call).
Proof. intros Hc. unfold send_all. within_auto. Qed.

(** *** The phases *)

Lemma phase_CheckTx ty tx : within (phase 0) (SendCheckTx ty tx : M Sys _).
Proof. apply within_phase_send_all. intros c. by apply within_phase_call. Qed.
#[local] Hint Resolve phase_CheckTx : within.

Lemma phase_check_fresh : within (phase 0) (check_fresh_txs : M Sys unit).
Proof. unfold check_fresh_txs. within_auto. Qed.
Lemma phase_recheck_stale : within (phase 0) (recheck_stale_txs : M Sys unit).
Proof. unfold recheck_stale_txs. within_auto. Qed.
Lemma phase_new_tx_queue k : within (phase k) (new_tx_queue : M Sys _).
Proof. unfold new_tx_queue. within_auto. Qed.
Lemma phase_evidence k mis : within (phase k) (collect_evidence mis : M Sys _).
Proof.
  unfold collect_evidence, ConstructDuplicateVoteEvidence, ConstructLightClientAttackEvidence.
  within_auto.
Qed.
Lemma phase_find_proposer k a : within (phase k) (find_proposer_app a : M Sys _).
Proof. unfold find_proposer_app. within_auto. Qed.

Lemma phase_propose_block t p app txs ev : within (phase 1) (propose_block t p app txs ev : M Sys _).
Proof.
  unfold propose_block, decideProposal, CreateProposalBlock, ClearTxs. cbv zeta. within_auto.
  apply within_phase_must. by apply within_phase_call.
Qed.
Lemma phase_get_counterparty k a : within (phase k) (GetCounterpartyFromAddress a : M Sys _).
Proof. unfold GetCounterpartyFromAddress. within_auto. Qed.
#[local] Hint Resolve phase_get_counterparty : within.
Lemma phase_non_proposers k a vals : within (phase k) (non_proposers a vals : M Sys _).
Proof. unfold non_proposers. within_auto. Qed.
Lemma phase_process l b : within (phase 2) (process_proposals l b : M Sys unit).
Proof.
  unfold process_proposals, ProcessProposal. within_auto. by apply within_phase_call.
Qed.
Lemma phase_votes vals b : within (phase 3) (collect_votes vals b : M Sys _).
Proof.
  unfold collect_votes, GetSigningStatus, ExtendAndSignVote. cbv zeta. within_auto.
  by apply within_phase_call.
Qed.
Lemma phase_verify vals b votes : within (phase 4) (verify_extensions vals b votes : M Sys unit).
Proof.
  unfold verify_extensions, verify_extension. cbv zeta. within_auto.
  apply within_phase_must, within_wrap_err. by apply within_phase_call.
Qed.
Lemma phase_commit_votes k b votes : within (phase k) (commit_votes b votes : M Sys unit).
Proof. unfold commit_votes. cbv zeta. within_auto. Qed.
Lemma phase_finalize b : within (phase 5) (finalize_block b : M Sys _).
Proof.
  unfold finalize_block. within_auto. apply within_phase_send_all. intros c. by apply within_phase_call.
Qed.
Lemma phase_update k h b res : within (phase k) (update_stores_and_state h b res : M Sys unit).
Proof.
  unfold update_stores_and_state, UpdateStateFromBlock, fireEvents. cbv zeta. within_auto.
Qed.
Lemma phase_commit res : within (phase 6) (commit_block res : M Sys unit).
Proof.
  unfold commit_block. within_auto. apply within_phase_send_all. intros c. by apply within_phase_call.
Qed.

(** *** Sequencing *)

(** Calls between the phases [a] and [b] only, in order. *)
Definition ordered {A} (a b : nat) (m : M Sys A) : Prop :=
  ∀ s, ∃ tr, trace s (m s).2 tr ∧ Forall (λ n, a ≤ n ≤ b) (omap phase_of tr) ∧
    StronglySorted le (omap phase_of tr).

Lemma ordered_phase {A} k (m : M Sys A) : within (phase k) m → ordered k k m.
Proof.
  intros Hm s. destruct (Hm s) as (tr & Htr & Hall). exists tr. split_and!; [done | |].
  - eapply Forall_impl; [exact Hall|]. simpl. lia.
  - clear Htr. induction Hall as [|n l -> Hl IH]; constructor; [done|].
    eapply Forall_impl; [exact Hl|]. simpl. lia.
Qed.

Lemma ordered_bind {A B} a b c d (m : M Sys A) (k : A → M Sys B) :
  a ≤ b ≤ c → c ≤ d → ordered a b m → (∀ x, ordered c d (k x)) → ordered a d (m ≫= k).
Proof.
  intros Hab Hcd Hm Hk s. destruct (Hm s) as (t1 & H1 & F1 & S1). unfold mbind, M_bind, trace in *.
  assert (Forall (λ n, a ≤ n ≤ d) (omap phase_of t1)) as F1'.
  { eapply Forall_impl; [exact F1|]. simpl. lia. }
  destruct (m s) as [[x| | |] s1]; simpl in *; [|by exists t1..].
  destruct (Hk x s1) as (t2 & H2 & F2 & S2). unfold trace in H2. exists (t1 ++ t2).
  rewrite reverse_app, omap_app. split_and!.
  - by rewrite H2, H1, app_assoc.
  - rewrite Forall_app. split; [done|]. eapply Forall_impl; [exact F2|]. simpl. lia.
  - apply StronglySorted_app_2; [|done..]. intros x1 x2 Hx1 Hx2.
    rewrite Forall_forall in F1, F2. specialize (F1 _ Hx1). specialize (F2 _ Hx2). simpl in *. lia.
Qed.

Lemma ordered_try {A} a b (m : M Sys A) : ordered a b m → ordered a b (try_ m).
Proof. intros Hm s. specialize (Hm s). unfold try_. by destruct (m s) as [[] ?]. Qed.
Lemma ordered_execute t p mis : ordered 0 5 (execute_block t p mis : M Sys _).
Proof.
  unfold execute_block. cbv zeta.
  apply (ordered_bind 0 0 0 5); [lia..| |intros _]; [apply ordered_phase, phase_check_fresh|].
  apply (ordered_bind 0 0 0 5); [lia..| |intros _]; [apply ordered_phase, phase_recheck_stale|].
  apply (ordered_bind 0 0 0 5); [lia..| |intros q]; [apply ordered_phase, phase_new_tx_queue|].
  apply (ordered_bind 0 0 0 5); [lia..| |intros ev]; [apply ordered_phase, phase_evidence|].
  apply (ordered_bind 0 0 1 5); [lia..| |intros app]; [apply ordered_phase, phase_find_proposer|].
  apply (ordered_bind 1 1 2 5); [lia..| |intros b]; [apply ordered_phase, phase_propose_block|].
  apply (ordered_bind 2 2 2 5); [lia..| |intros vals]; [apply ordered_phase, within_phase_cl|].
  apply (ordered_bind 2 2 2 5); [lia..| |intros nps]; [apply ordered_phase, phase_non_proposers|].
  apply (ordered_bind 2 2 3 5); [lia..| |intros _]; [apply ordered_phase, phase_process|].
  apply (ordered_bind 3 3 4 5); [lia..| |intros votes]; [apply ordered_phase, phase_votes|].
  apply (ordered_bind 4 4 4 5); [lia..| |intros en]; [apply ordered_phase, within_phase_cl|].
  apply (ordered_bind 4 4 5 5); [lia..| |intros _].
  { destruct en; apply ordered_phase; [apply phase_verify | apply within_ret, _]. }
  apply (ordered_bind 5 5 5 5); [lia..| |intros _]; [apply ordered_phase, phase_commit_votes|].
  apply (ordered_bind 5 5 5 5); [lia..| |intros r]; [apply ordered_phase, phase_finalize|].
  apply ordered_phase, within_ret, _.
Qed.

Lemma ordered_helper t p mis : ordered 0 6 (runBlock_helper t p mis : M Sys unit).
Proof.
  unfold runBlock_helper.
  apply (ordered_bind 0 0 0 6); [lia..| |intros h]; [apply ordered_phase, within_phase_cl|].
  apply (ordered_bind 0 5 6 6); [lia..| |intros [b res]]; [apply ordered_execute|].
  apply (ordered_bind 6 6 6 6); [lia..| |intros _]; [apply ordered_phase, phase_update|].
  apply ordered_phase, phase_commit.
Qed.

(** C3 Whatever happens in it and however it ends, a block run calls the
    applications in the order ABCI prescribes: all CheckTx, then
    PrepareProposal, ProcessProposal, ExtendVote, VerifyVoteExtension,
    FinalizeBlock and at last Commit, never going back to an earlier one, and
    with no other call in between. *)
Theorem abci_call_order (t : Z) (p : option Validator) (mis : list (Validator * MisbehaviourType)) s :
  ∃ tr, trace s (RunBlockWithTimeAndProposer t p mis s).2 tr ∧
    StronglySorted le (omap phase_of tr) ∧ Forall (λ n, n ≤ 6) (omap phase_of tr).
Proof.
  assert (ordered 0 6 (RunBlockWithTimeAndProposer t p mis : M Sys unit)) as Ho.
  { unfold RunBlockWithTimeAndProposer.
    apply (ordered_bind 0 0 0 6); [lia..| |intros _].
    { apply ordered_phase. intros s0. unfold lock_blockMutex. destruct (blockMutex s0); by apply phase_same. }
    apply (ordered_bind 0 6 6 6); [lia..| |intros err]; [apply ordered_try, ordered_helper|].
    apply (ordered_bind 6 6 6 6); [lia..| |intros _].
    { apply ordered_phase. intros s0. unfold unlock_blockMutex. destruct (blockMutex s0); by apply phase_same. }
    destruct err; apply ordered_phase; [apply within_throw, _ | apply within_ret, _]. }
  destruct (Ho s) as (tr & Htr & Hall & Hs). exists tr. split_and!; [done..|].
  eapply Forall_impl; [exact Hall|]. simpl. lia.
Qed.
End protocol.
