(* ===== verification/Broadcast.v ===== *)
(** * Calls to all applications

    The [Send*] methods ask every application and compare the answers. *)

From S2P Require Import Prelude.
From S2P Require Import CometTypes.
From S2P Require Import Toy.
From S2P Require Import Storage.
From S2P Require Import TimeHandler.
From S2P Require Import Utils.
From S2P Require Import Client.
From S2P Require Import UpdateState.
From S2P Require Import Evidence.
From S2P Require Import RunBlock.
From S2P Require Import Example.
#[local] Open Scope Z_scope.

Section broadcast.
Context {CT : CometTypes} {CO : CometOps} {EN : Env} {EL : EnvLaws} {ST TH : Type}.
Context {SO : StorageOps ST} {TO : TimeHandlerOps TH}.
#[local] Abbreviation Sys := (Sys ST TH).
Implicit Types s : Sys.

Context {R : Type} `{EqDecision R} (req : abci_request)
  (f : list io_event → ABCIHandle → outcome R).

(** The history when the clients [cs] have been called, after [h]. *)
Definition called (cs : list (string * AbciCounterpartyClient)) (h : list io_event) : list io_event :=
  reverse ((λ c, IoAbci (Client c.2) req) <$> cs) ++ h.

Lemma called_cons c cs h : called (c :: cs) h = called cs (IoAbci (Client c.2) req :: h).
Proof. unfold called. cbn [fmap list_fmap]. by rewrite reverse_cons, <-app_assoc. Qed.

Definition with_io s h : Sys := mkSys (client s) (blockMutex s) h.

(** The loop calls the clients one after another and stops at the first that
    does not answer. *)
Lemma calls_run cs i s :
  match collect_from i (λ _ c, abci_call req f (Client c.2)) cs s with
  | (Ret rs, s') => s' = with_io s (called cs (io s)) ∧ length rs = length cs ∧
      ∀ j c r, cs !! j = Some c → rs !! j = Some r →
        f (called (take j cs) (io s)) (Client c.2) = Ret r
  | (Err e, s') => ∃ j c, cs !! j = Some c ∧
      f (called (take j cs) (io s)) (Client c.2) = Err e ∧
      s' = with_io s (called (take (S j) cs) (io s))
  | _ => True
  end.
Proof.
  revert i s. induction cs as [|c cs IH]; intros i s; cbn [collect_from].
  - split_and!; [by destruct s | done | done].
  - unfold mbind at 1, M_bind at 1. unfold abci_call at 1, call_env.
    destruct (f (io s) (Client c.2)) as [r|e| |] eqn:Hf; try done.
    + specialize (IH (S i) (mkSys (client s) (blockMutex s) (IoAbci (Client c.2) req :: io s))).
      unfold mbind, M_bind. cbn [io client blockMutex] in IH.
      destruct (collect_from _ _ _ _) as [[rs|e| |] s']; try done.
      * destruct IH as (-> & Hlen & Hall). split_and!.
        -- by rewrite called_cons.
        -- simpl. by rewrite Hlen.
        -- intros [|j] c' r' Hc Hr; simplify_eq/=; [done|].
           rewrite called_cons. by apply Hall.
      * destruct IH as (j & c' & Hc & He & ->). exists (S j), c'. split; [done|].
        cbn [take]. rewrite !called_cons. done.
    + exists 0%nat, c. split_and!; done.
Qed.

Lemma first_unequal_false (r0 : R) rs : first_unequal r0 rs = false ↔ Forall (λ r, r = r0) rs.
Proof.
  induction rs as [|r rs IH]; simpl; [by split|].
  rewrite Forall_cons. case_decide; [tauto|]. split; [done|]. by intros [? _].
Qed.

Lemma first_unequal_true (r0 : R) rs : first_unequal r0 rs = true →
  ∃ j r, rs !! j = Some r ∧ r ≠ r0.
Proof.
  induction rs as [|r rs IH]; simpl; [done|]. case_decide as Hr.
  - intros H. destruct (IH H) as (j & r' & ? & ?). by exists (S j), r'.
  - intros _. by exists 0%nat, r.
Qed.

(** C11 A broadcast calls the applications one after another, each at most once,
    in the random order of the client map.  If it returns, every one was called
    exactly once and the answer is the first one's, which all the others agree
    with if CometMock is to compare them; if it fails, either the last one called
    failed, with that error, the others after it not having been called at all,
    or the answers were to be compared, all answered, and some answer differs from
    the first one's. *)
Theorem broadcast_spec s :
  let cs := env_Range (io s) (map_to_list (Clients (client s))) in
  let h := IoRange cs.*1 :: io s in
  cs ≡ₚ map_to_list (Clients (client s)) ∧
  match send_all (abci_call req f) s with
  | (Ret r, s') => s' = with_io s (called cs h) ∧
      (∃ c, cs !! 0%nat = Some c ∧ f h (Client c.2) = Ret r) ∧
      (∀ j c, cs !! j = Some c → ∃ r', f (called (take j cs) h) (Client c.2) = Ret r' ∧
         (ErrorOnUnequalResponses (client s) = true → r' = r))
  | (Err e, s') =>
      (∃ j c, cs !! j = Some c ∧ f (called (take j cs) h) (Client c.2) = Err e ∧
         s' = with_io s (called (take (S j) cs) h)) ∨
      (e = responses_unequal ∧ s' = with_io s (called cs h) ∧
         ErrorOnUnequalResponses (client s) = true ∧
         ∃ c0 r0 j c r, cs !! 0%nat = Some c0 ∧ f h (Client c0.2) = Ret r0 ∧
           cs !! j = Some c ∧ f (called (take j cs) h) (Client c.2) = Ret r ∧ r ≠ r0)
  | _ => True
  end.
Proof.
  cbv zeta. split; [apply env_Range_perm|]. unfold send_all, range_clients.
  set (cs := env_Range (io s) (map_to_list (Clients (client s)))).
  set (h := IoRange cs.*1 :: io s). unfold mbind, M_bind, collect.
  pose proof (calls_run cs 0 (with_io s h)) as Hrun.
  change (mkSys (client s) (blockMutex s) h) with (with_io s h).
  destruct (collect_from _ _ _ _) as [[rs|e| |] s1]; try done; cbn [io with_io client] in Hrun.
  - destruct Hrun as (-> & Hlen & Hall). unfold cl, gets. cbn [client with_io].
    destruct rs as [|r0 rs]; [done|].
    assert (∀ j c, cs !! j = Some c → ∃ r', (r0 :: rs) !! j = Some r' ∧
      f (called (take j cs) h) (Client c.2) = Ret r') as Hans.
    { intros j c Hc. destruct (lookup_lt_is_Some_2 (r0 :: rs) j) as [r' Hr'].
      { rewrite Hlen. by eapply lookup_lt_Some. }
      exists r'. split; [done|]. by apply Hall. }
    destruct (ErrorOnUnequalResponses (client s) && first_unequal r0 rs) eqn:Hc.
    + apply andb_prop in Hc as [Hc Hne]. right. split_and!; [done..|].
      apply first_unequal_true in Hne as (j & r & Hj & Hr).
      destruct cs as [|c0 cs'] eqn:Ecs; [done|].
      destruct (lookup_lt_is_Some_2 (c0 :: cs') (S j)) as [c Hcj].
      { rewrite <-Hlen. simpl. apply lookup_lt_Some in Hj. lia. }
      exists c0, r0, (S j), c, r. split_and!; [done | by apply (Hall 0%nat c0 r0) | done | | done].
      by apply (Hall (S j) c r).
    + split_and!; [done | |].
      * destruct cs as [|c cs'] eqn:Ecs; [done|]. exists c. split; [done|].
        by apply (Hall 0%nat c r0).
      * intros j c Hj. destruct (Hans j c Hj) as (r' & Hr' & Hf). exists r'. split; [done|].
        intros Hcheck. rewrite Hcheck in Hc. simpl in Hc. apply first_unequal_false in Hc.
        destruct j as [|j]; [by simplify_eq/=|]. simpl in Hr'.
        rewrite Forall_forall in Hc. apply Hc. by eapply list_elem_of_lookup_2.
  - left. exact Hrun.
Qed.
End broadcast.

Import ToyInstances.

(** The toy clients, asked to commit: three calls. *)
Definition toy_commit_call : M ToySys ResponseCommit :=
  send_all (abci_call ReqCommit (λ h c, env_Commit h c)).

Lemma broadcast_spec_witness :
  let s := toy_sys 1 0 [] in
  length (env_Range (io s) (map_to_list (Clients (client s)))) = 3%nat ∧
  env_Range (io s) (map_to_list (Clients (client s))) ≡ₚ map_to_list (Clients (client s)) ∧
  (toy_commit_call s).1 = Ret 0.
Proof.
  cbv zeta. split; [vm_compute; reflexivity|]. split; [|vm_compute; reflexivity].
  exact (proj1 (broadcast_spec (ST := MapStorage) ReqCommit (λ h c, env_Commit h c) (toy_sys 1 0 []))).
Defined.
