(* ===== verification/StorageProps.v ===== *)
(** * The in-memory storage against its abstract specification

    A storage is specified by a lock and one map from heights to entries.  Any
    sequence of calls to [MapStorage], in any order and with any arguments, gets
    the answers the specification gives. *)

From S2P Require Import Prelude.
From S2P Require Import CometTypes.
From S2P Require Import Toy.
From S2P Require Import Storage.
#[local] Open Scope Z_scope.

Section refinement.
Context {CT : CometTypes}.

(** The calls of the interface and their answers. *)
Inductive storage_op :=
  | OpGetBlock (height : Z)
  | OpGetCommit (height : Z)
  | OpGetState (height : Z)
  | OpGetResponses (height : Z)
  | OpLock
  | OpUnlock
  | OpUpdate (height : Z) (e : entry).

Inductive storage_answer :=
  | AnsDone
  | AnsTheBlock (b : Block)
  | AnsTheCommit (c : Commit)
  | AnsTheState (st : State)
  | AnsTheResponses (r : ResponseFinalizeBlock).

Definition call_op {ST} `{!StorageOps ST} (op : storage_op) : M ST storage_answer :=
  match op with
  | OpGetBlock h => b ← GetBlock h; mret (AnsTheBlock b)
  | OpGetCommit h => c ← GetCommit h; mret (AnsTheCommit c)
  | OpGetState h => st ← GetState h; mret (AnsTheState st)
  | OpGetResponses h => r ← GetResponses h; mret (AnsTheResponses r)
  | OpLock => LockBeforeStateUpdate ;; mret AnsDone
  | OpUnlock => UnlockAfterStateUpdate ;; mret AnsDone
  | OpUpdate h e =>
      UpdateStores h (e_block e) (e_commit e) (e_state e) (e_responses e) ;; mret AnsDone
  end.

(** The specification: a lock and a map. *)
Definition spec_state : Type := bool * gmap Z entry.

Definition spec_get (what : string) (f : entry → storage_answer) (h : Z) : M spec_state storage_answer :=
  λ s, ((if s.1 then Blocked
         else from_option (λ e, Ret (f e)) (Err (not_found what h)) (s.2 !! h)), s).

Definition spec_op (op : storage_op) : M spec_state storage_answer :=
  match op with
  | OpGetBlock h => spec_get "block" (AnsTheBlock ∘ e_block) h
  | OpGetCommit h => spec_get "commit" (AnsTheCommit ∘ e_commit) h
  | OpGetState h => spec_get "state" (AnsTheState ∘ e_state) h
  | OpGetResponses h => spec_get "responses" (AnsTheResponses ∘ e_responses) h
  | OpLock => λ s, if s.1 then (Blocked, s) else (Ret AnsDone, (true, s.2))
  | OpUnlock => λ s, if s.1 then (Ret AnsDone, (false, s.2)) else (Panic FatalUnlock, s)
  | OpUpdate h e => λ s, (Ret AnsDone, (s.1, <[h := e]> s.2))
  end.

(** The answers of a sequence of calls. *)
Fixpoint answers {S} (call : storage_op → M S storage_answer) (ops : list storage_op) (s : S)
  : list (outcome storage_answer) * S :=
  match ops with
  | [] => ([], s)
  | op :: ops' =>
      let '(o, s1) := call op s in
      let '(os, s2) := answers call ops' s1 in (o :: os, s2)
  end.

(** What the specification keeps of an implementation. *)
Definition implements (s : MapStorage) (a : spec_state) : Prop :=
  map_wf s ∧ map_locked s = a.1 ∧ map_view s = a.2.

Lemma get_implements {A} (get : Z → M MapStorage A) proj what (f : A → storage_answer) h s a :
  get_contract map_wf map_locked map_view get proj what → implements s a →
  let '(o, s') := (x ← get h; mret (f x)) s in
  let '(o', a') := spec_get what (f ∘ proj) h a in o = o' ∧ implements s' a'.
Proof.
  intros Hget (Hwf & Hl & Hv). destruct (Hget h s Hwf) as (s' & Hrun & Hwf' & Hl' & Hv').
  unfold mbind, M_bind. rewrite Hrun, Hl, Hv. unfold spec_get, implements. destruct a as [l m]. simpl in *.
  destruct l; simpl; [by split_and!; congruence|].
  destruct (m !! h); simpl; by split_and!; congruence.
Qed.

Lemma call_implements op s a : implements s a →
  let '(o, s') := call_op op s in let '(o', a') := spec_op op a in o = o' ∧ implements s' a'.
Proof.
  intros Hi. destruct op as [h|h|h|h| | |h e]; cbn [call_op spec_op].
  - apply (get_implements GetBlock e_block "block" AnsTheBlock); [exact (@GetBlock_law CT MapStorage MapStorage_ops MapStorage_laws) | done].
  - apply (get_implements GetCommit e_commit "commit" AnsTheCommit); [exact (@GetCommit_law CT MapStorage MapStorage_ops MapStorage_laws) | done].
  - apply (get_implements GetState e_state "state" AnsTheState); [exact (@GetState_law CT MapStorage MapStorage_ops MapStorage_laws) | done].
  - apply (get_implements GetResponses e_responses "responses" AnsTheResponses);
      [exact (@GetResponses_law CT MapStorage MapStorage_ops MapStorage_laws) | done].
  - destruct s as [[w n] b c st r], a as [l m]. destruct Hi as ((Hn & Hd) & Hl & Hv).
    unfold map_locked in Hl. simpl in *. subst.
    destruct l; (split; [reflexivity|]); (split; [split; [reflexivity | exact Hd] | done]).
  - destruct s as [[w n] b c st r], a as [l m]. destruct Hi as ((Hn & Hd) & Hl & Hv).
    unfold map_locked in Hl. simpl in *. subst.
    destruct l; (split; [reflexivity|]); (split; [split; [reflexivity | exact Hd] | done]).
  - destruct Hi as (Hwf & Hl & Hv), a as [l m], e as [b c st r]. cbn [e_block e_commit e_state e_responses fst snd] in *.
    destruct (UpdateStores_contract h b c st r s Hwf) as (s' & Hrun & Hwf' & Hl' & Hv').
    change (UpdateStores h b c st r) with (MapStorage_UpdateStores h b c st r).
    unfold mbind, M_bind. rewrite Hrun. unfold mret, M_ret, implements. cbn [fst snd]. split_and!; congruence.
Qed.

(** C8 [MapStorage], from its empty start, cannot be told apart from one lock and
    one map of whole entries: any sequence of calls gets the same answers as from
    the specification.  So a read returns what was last stored for the height, or
    the not-found error, or waits exactly while an update holds the lock; and
    unlocking what is not locked is fatal. *)
Theorem MapStorage_refines (ops : list storage_op) :
  (answers call_op ops empty_MapStorage).1 = (answers spec_op ops (false, ∅)).1 ∧
  map_view (answers call_op ops empty_MapStorage).2 = (answers spec_op ops (false, ∅)).2.2.
Proof.
  assert (implements empty_MapStorage (false, ∅)) as Hi by done.
  revert Hi. generalize empty_MapStorage. generalize ((false, ∅) : spec_state).
  induction ops as [|op ops IH]; intros a s Hi; [split; [done | apply Hi]|]. cbn [answers].
  pose proof (call_implements op s a Hi) as Hstep.
  destruct (call_op op s) as [o s'], (spec_op op a) as [o' a']. destruct Hstep as [-> Hi'].
  specialize (IH a' s' Hi').
  destruct (answers call_op ops s') as [os s2], (answers spec_op ops a') as [os' a2].
  simpl in *. destruct IH as [-> ?]. done.
Qed.
End refinement.
