(* ===== verification/StorageThreads.v ===== *)
(** * Concurrent use of the in-memory storage

    RPC handlers read while a block is being stored.  Each thread carries out
    calls one after another, and each call is split at its atomic steps: taking
    and releasing the read or write lock, one map access.  [tstep] interleaves
    the steps of any number of threads.  An update that fails after the stores have
    been written returns without releasing the lock ([update_stores_and_state] in
    RunBlock.v): its thread ends in [Failed]. *)

From S2P Require Import Prelude.
From S2P Require Import CometTypes.
From S2P Require Import Toy.
From S2P Require Import Storage.
#[local] Open Scope Z_scope.

Section threads.
Context {CT : CometTypes}.

(** ** Threads *)

Inductive component := CBlock | CCommit | CState | CResponses.

Inductive value :=
  | VBlock (b : Block)
  | VCommit (c : Commit)
  | VState (st : State)
  | VResponses (r : ResponseFinalizeBlock).

Definition proj (k : component) (e : entry) : value :=
  match k with
  | CBlock => VBlock (e_block e)
  | CCommit => VCommit (e_commit e)
  | CState => VState (e_state e)
  | CResponses => VResponses (e_responses e)
  end.

(** The access a getter makes inside its read lock. *)
Definition read_map (k : component) (h : Z) : M MapStorage (option value) :=
  match k with
  | CBlock => m ← ensure blocks set_blocks; mret (VBlock <$> m !! h)
  | CCommit => m ← ensure commits set_commits; mret (VCommit <$> m !! h)
  | CState => m ← ensure states set_states; mret (VState <$> m !! h)
  | CResponses => m ← ensure responses set_responses; mret (VResponses <$> m !! h)
  end.

(** The four insertions of [UpdateStores]. *)
Definition insert_part (k : component) (h : Z) (e : entry) : M MapStorage unit :=
  match k with
  | CBlock => insertBlock h (e_block e)
  | CCommit => insertCommit h (e_commit e)
  | CState => insertState h (e_state e)
  | CResponses => insertResponses h (e_responses e)
  end.
Definition insertions : list component := [CBlock; CCommit; CState; CResponses].

(** What a thread still has to do: reads of one component, and updates. *)
Inductive task :=
  | Read (k : component) (h : Z)
  | Update (h : Z) (e : entry).

Inductive pc :=
  | Ready
  | Reading (k : component) (h : Z)          (** holds the read lock *)
  | Leaving                                  (** has read, still holds it *)
  | Writing (h : Z) (e : entry) (rest : list component)   (** holds the write lock *)
  | Failed.                                  (** has returned an error, still holds it *)

(** A finished read: what was asked, what was found. *)
Record read_result := mkReadResult { res_k : component; res_h : Z; res_v : option value }.

Record thread := mkThread { th_pc : pc; th_todo : list task; th_done : list read_result }.

Inductive tstep : MapStorage → thread → MapStorage → thread → Prop :=
  | ts_rlock s s' k h todo done :
      on_mutex RLock s = (Ret tt, s') →
      tstep s (mkThread Ready (Read k h :: todo) done) s' (mkThread (Reading k h) todo done)
  | ts_read s s' k h v todo done :
      read_map k h s = (Ret v, s') →
      tstep s (mkThread (Reading k h) todo done)
        s' (mkThread Leaving todo (mkReadResult k h v :: done))
  | ts_runlock s s' todo done :
      on_mutex RUnlock s = (Ret tt, s') →
      tstep s (mkThread Leaving todo done) s' (mkThread Ready todo done)
  | ts_lock s s' h e todo done :
      MapStorage_LockBeforeStateUpdate s = (Ret tt, s') →
      tstep s (mkThread Ready (Update h e :: todo) done)
        s' (mkThread (Writing h e insertions) todo done)
  | ts_insert s s' h e k rest todo done :
      insert_part k h e s = (Ret tt, s') →
      tstep s (mkThread (Writing h e (k :: rest)) todo done)
        s' (mkThread (Writing h e rest) todo done)
  | ts_unlock s s' h e todo done :
      MapStorage_UnlockAfterStateUpdate s = (Ret tt, s') →
      tstep s (mkThread (Writing h e []) todo done) s' (mkThread Ready todo done)
  | ts_fail s h e todo done :
      tstep s (mkThread (Writing h e []) todo done) s (mkThread Failed todo done).

(** A configuration also remembers the maps of entries committed so far, newest
    first: the storage's contents whenever the write lock was released. *)
Record config := mkConfig { c_store : MapStorage; c_threads : list thread; c_commits : list (gmap Z entry) }.

Definition is_writing (t : thread) : bool := match th_pc t with Writing _ _ _ => true | _ => false end.

Definition is_ready (t : thread) : bool := match th_pc t with Ready => true | _ => false end.

Inductive cstep : config → config → Prop :=
  | cs_step s s' t t' l1 l2 hist :
      tstep s t s' t' →
      cstep (mkConfig s (l1 ++ t :: l2) hist)
        (mkConfig s' (l1 ++ t' :: l2)
           (if is_writing t && is_ready t' then map_view s' :: hist else hist)).

(** The start: an empty storage, threads with nothing but work to do. *)
Definition start (work : list (list task)) : config :=
  mkConfig empty_MapStorage ((λ todo, mkThread Ready todo []) <$> work) [∅].

(** ** Invariant *)

Definition inside_reader (t : thread) : nat :=
  match th_pc t with Reading _ _ | Leaving => 1 | _ => 0 end.
Definition inside_writer (t : thread) : nat :=
  match th_pc t with Writing _ _ _ | Failed => 1 | _ => 0 end.

Definition readers (l : list thread) : nat := sum_list_with inside_reader l.
Definition writers (l : list thread) : nat := sum_list_with inside_writer l.

Definition doms_ok (s : MapStorage) : Prop :=
  dom (the_map (commits s)) = dom (the_map (blocks s)) ∧
  dom (the_map (states s)) = dom (the_map (blocks s)) ∧
  dom (the_map (responses s)) = dom (the_map (blocks s)).

(** The storage after the insertions still to come. *)
Fixpoint inserted (rest : list component) (h : Z) (e : entry) (s : MapStorage) : MapStorage :=
  match rest with
  | [] => s
  | k :: rest' => inserted rest' h e (insert_part k h e s).2
  end.

Record cinv (c : config) : Prop := {
  ci_readers : rw_readers (stateUpdateMutex (c_store c)) = readers (c_threads c);
  ci_writer : writers (c_threads c) = (if rw_writer (stateUpdateMutex (c_store c)) then 1 else 0)%nat;
  ci_excl : rw_writer (stateUpdateMutex (c_store c)) = true → readers (c_threads c) = 0%nat;
  (** without a writer the storage is the last committed map *)
  ci_free : rw_writer (stateUpdateMutex (c_store c)) = false →
    doms_ok (c_store c) ∧ head (c_commits c) = Some (map_view (c_store c));
  (** a writer will leave the last committed map with its entry inserted whole *)
  ci_pending : ∀ t h e rest, t ∈ c_threads c → th_pc t = Writing h e rest →
    doms_ok (inserted rest h e (c_store c)) ∧
    ∃ m, head (c_commits c) = Some m ∧
      map_view (inserted rest h e (c_store c)) = <[h := e]> m;
  (** each committed map is the one before with one entry inserted *)
  ci_hist : ∀ i m m', c_commits c !! i = Some m' → c_commits c !! S i = Some m →
    ∃ h e, m' = <[h := e]> m;
  ci_base : last (c_commits c) = Some ∅;
  (** each finished read saw a committed map *)
  ci_done : ∀ t r, t ∈ c_threads c → r ∈ th_done t →
    ∃ m, m ∈ c_commits c ∧ res_v r = proj (res_k r) <$> m !! res_h r }.

(** *** Steps of the parts *)

Lemma counts_split l1 t l2 :
  readers (l1 ++ t :: l2) = (readers l1 + inside_reader t + readers l2)%nat ∧
  writers (l1 ++ t :: l2) = (writers l1 + inside_writer t + writers l2)%nat.
Proof. unfold readers, writers. rewrite !sum_list_with_app. simpl. lia. Qed.

Lemma read_map_run k h s : ∃ s' v, read_map k h s = (Ret v, s') ∧ obs_eq s s' ∧
  v = match k with
      | CBlock => VBlock <$> the_map (blocks s) !! h
      | CCommit => VCommit <$> the_map (commits s) !! h
      | CState => VState <$> the_map (states s) !! h
      | CResponses => VResponses <$> the_map (responses s) !! h
      end.
Proof.
  destruct s as [m [b|] [c|] [st|] [r|]], k; by repeat eexists.
Qed.

Lemma read_is_proj k h s s' v : doms_ok s → read_map k h s = (Ret v, s') →
  v = proj k <$> map_view s !! h.
Proof.
  intros Hd Hrun. destruct (read_map_run k h s) as (s1 & v1 & Hrun1 & _ & Hv).
  rewrite Hrun in Hrun1. simplify_eq. rewrite map_view_lookup.
  assert (map_wf (mkMapStorage (mkRWMutex false 0) (blocks s) (commits s) (states s) (responses s)))
    as Hwf by (split; [done | exact Hd]).
  destruct (map_wf_height _ h Hwf) as [(b & c & st & r & Hb & Hc & Hs & Hr)|(Hb & Hc & Hs & Hr)];
    simpl in *; rewrite Hb, Hc, Hs, Hr; by destruct k.
Qed.

(** Insertions do not touch the lock, and always return. *)
Lemma insert_part_run k h e s : ∃ s', insert_part k h e s = (Ret tt, s') ∧
  stateUpdateMutex s' = stateUpdateMutex s.
Proof. destruct s as [m [b|] [c|] [st|] [r|]], k; by eexists. Qed.

Lemma all_inserted h e s :
  inserted insertions h e s = (MapStorage_UpdateStores h (e_block e) (e_commit e) (e_state e) (e_responses e) s).2.
Proof. by destruct s as [m [b|] [c|] [st|] [r|]]. Qed.

(** Same contents, whatever the lock says. *)
Definition maps_eq (s s' : MapStorage) : Prop :=
  the_map (blocks s') = the_map (blocks s) ∧ the_map (commits s') = the_map (commits s) ∧
  the_map (states s') = the_map (states s) ∧ the_map (responses s') = the_map (responses s).

Lemma maps_eq_view s s' : maps_eq s s' → map_view s' = map_view s ∧ (doms_ok s → doms_ok s').
Proof. unfold maps_eq, map_view, doms_ok. by intros (-> & -> & -> & ->). Qed.

Lemma elem_mid {A} (x t t' : A) l1 l2 : x ∈ l1 ++ t' :: l2 → x = t' ∨ x ∈ l1 ++ t :: l2.
Proof. rewrite !elem_of_app, !elem_of_cons. tauto. Qed.

Lemma mid_in {A} (t : A) l1 l2 : t ∈ l1 ++ t :: l2.
Proof. rewrite elem_of_app, elem_of_cons. auto. Qed.

Lemma no_writer l t h e rest : writers l = 0%nat → t ∈ l → th_pc t ≠ Writing h e rest.
Proof.
  intros Hw Hin Hpc. induction Hin as [t l|t t' l Hin IH]; unfold writers in *; simpl in Hw.
  - unfold inside_writer in Hw. rewrite Hpc in Hw. lia.
  - apply IH; [lia | done].
Qed.

(** With one writer, it is the only one. *)
Lemma other_writer l1 t l2 t0 h e rest : writers (l1 ++ t :: l2) = 1%nat → inside_writer t = 1%nat →
  t0 ∈ l1 ++ l2 → th_pc t0 ≠ Writing h e rest.
Proof.
  intros Hw Ht. destruct (counts_split l1 t l2) as [_ Hs].
  apply no_writer. unfold writers in *. rewrite sum_list_with_app. lia.
Qed.

(** A step that leaves the contents and the commits alone and is not a writer's:
    only the lock and the finished reads need to be looked at. *)
Lemma cinv_reader s s' l1 t t' l2 hist :
  cinv (mkConfig s (l1 ++ t :: l2) hist) → maps_eq s s' →
  inside_writer t = 0%nat → inside_writer t' = 0%nat →
  rw_writer (stateUpdateMutex s) = false → rw_writer (stateUpdateMutex s') = false →
  (rw_readers (stateUpdateMutex s') + inside_reader t = rw_readers (stateUpdateMutex s) + inside_reader t')%nat →
  (∀ r, r ∈ th_done t' → r ∈ th_done t ∨ ∃ m, m ∈ hist ∧ res_v r = proj (res_k r) <$> m !! res_h r) →
  cinv (mkConfig s' (l1 ++ t' :: l2) hist).
Proof.
  intros [Hr Hw He Hf Hp Hh Hb Hd] Hmaps Ht Ht' Hfree Hfree' Hcount Hdone. simpl in *.
  destruct (counts_split l1 t l2) as [Er Ew], (counts_split l1 t' l2) as [Er' Ew'].
  destruct (maps_eq_view s s' Hmaps) as [Hview Hdoms]. rewrite Hfree in Hw.
  split; simpl.
  - lia.
  - rewrite Hfree'. lia.
  - congruence.
  - intros _. destruct (Hf Hfree). rewrite Hview. auto.
  - intros t0 h e rest Hin Hpc. exfalso. revert Hin Hpc. apply no_writer. lia.
  - exact Hh.
  - exact Hb.
  - intros t0 r Hin Hres. destruct (elem_mid t0 t t' l1 l2 Hin) as [->|Hin'].
    + destruct (Hdone r Hres) as [Hr0|?]; [|done]. apply (Hd t); [apply mid_in | done].
    + by apply (Hd t0).
Qed.

(** A step of a thread that holds or takes the write lock and keeps it. *)
Lemma cinv_writer s s' l1 t t' l2 hist h e rest :
  cinv (mkConfig s (l1 ++ t :: l2) hist) →
  th_pc t' = Writing h e rest → th_done t' = th_done t → inside_reader t = 0%nat →
  (rw_writer (stateUpdateMutex s) = true → inside_writer t = 1%nat) →
  stateUpdateMutex s' = mkRWMutex true (rw_readers (stateUpdateMutex s)) →
  rw_readers (stateUpdateMutex s) = 0%nat →
  (doms_ok (inserted rest h e s') ∧
   ∃ m, head hist = Some m ∧ map_view (inserted rest h e s') = <[h := e]> m) →
  cinv (mkConfig s' (l1 ++ t' :: l2) hist).
Proof.
  intros [Hr Hw He Hf Hp Hh Hb Hd] Hpc Hdone Ht Hmine Hmx Hzero Hpend. simpl in *.
  destruct (counts_split l1 t l2) as [Er Ew], (counts_split l1 t' l2) as [Er' Ew'].
  assert (inside_writer t' = 1%nat ∧ inside_reader t' = 0%nat) as [Hw' Hr'].
  { unfold inside_writer, inside_reader. by rewrite Hpc. }
  assert (writers (l1 ++ t' :: l2) = 1%nat) as Hone.
  { destruct (rw_writer (stateUpdateMutex s)); [specialize (Hmine eq_refl)|]; lia. }
  split; simpl; rewrite ?Hmx; simpl.
  - lia.
  - done.
  - lia.
  - done.
  - intros t0 h0 e0 rest0 Hin Hpc0.
    rewrite elem_of_app, elem_of_cons in Hin.
    destruct Hin as [Hin|[->|Hin]]; [exfalso | rewrite Hpc in Hpc0; by simplify_eq | exfalso];
      (eapply (other_writer l1 t' l2 t0); [exact Hone | exact Hw' | | exact Hpc0]);
      rewrite elem_of_app; auto.
  - exact Hh.
  - exact Hb.
  - intros t0 r Hin Hres. destruct (elem_mid t0 t t' l1 l2 Hin) as [->|Hin'].
    + rewrite Hdone in Hres. apply (Hd t); [apply mid_in | done].
    + by apply (Hd t0).
Qed.

Lemma start_inv work : cinv (start work).
Proof.
  assert (∀ t, t ∈ c_threads (start work) → th_pc t = Ready ∧ th_done t = []) as Hready.
  { intros t Hin. simpl in Hin. apply list_elem_of_fmap in Hin as (todo & -> & _). done. }
  assert (readers (c_threads (start work)) = 0%nat ∧ writers (c_threads (start work)) = 0%nat) as [Hr Hw].
  { clear Hready. unfold readers, writers. simpl. induction work as [|todo work [IHr IHw]]; [done|].
    split; [exact IHr | exact IHw]. }
  split; rewrite ?Hr, ?Hw; try done.
  - intros t h e rest Hin Hpc. destruct (Hready t Hin). congruence.
  - intros t r Hin Hres. destruct (Hready t Hin) as [_ Hd]. rewrite Hd in Hres. by apply not_elem_of_nil in Hres.
Qed.

(** Taking the write lock: all four insertions are still to come. *)
Lemma cinv_lock s s' l1 l2 hist h e todo dn :
  cinv (mkConfig s (l1 ++ mkThread Ready (Update h e :: todo) dn :: l2) hist) →
  MapStorage_LockBeforeStateUpdate s = (Ret tt, s') →
  cinv (mkConfig s' (l1 ++ mkThread (Writing h e insertions) todo dn :: l2) hist).
Proof.
  intros Hinv Hrun. pose proof (ci_free _ Hinv) as Hf. simpl in Hf.
  destruct s as [[w n] b c st r]. unfold MapStorage_LockBeforeStateUpdate, on_mutex, Lock in Hrun.
  destruct w; [done|]. destruct n; [|done]. simpl in Hrun. simplify_eq.
  destruct (Hf eq_refl) as [Hdoms Hhead].
  eapply (cinv_writer _ _ _ _ _ _ _ h e insertions Hinv); try done.
  rewrite all_inserted.
  destruct (UpdateStores_contract h (e_block e) (e_commit e) (e_state e) (e_responses e)
    (mkMapStorage (mkRWMutex true 0) b c st r)) as (s' & Hu & Hwf' & _ & Hv'); [by split|].
  rewrite Hu. split; [apply Hwf'|]. exists (map_view (mkMapStorage (mkRWMutex false 0) b c st r)).
  split; [exact Hhead|]. simpl. rewrite Hv'. by destruct e.
Qed.

(** An update that fails keeps the lock and commits nothing. *)
Lemma cinv_fail s l1 l2 hist h e todo dn :
  cinv (mkConfig s (l1 ++ mkThread (Writing h e []) todo dn :: l2) hist) →
  cinv (mkConfig s (l1 ++ mkThread Failed todo dn :: l2) hist).
Proof.
  intros [Hr Hw He Hf Hp Hh Hb Hd]. simpl in *.
  destruct (counts_split l1 (mkThread (Writing h e []) todo dn) l2) as [Er Ew].
  destruct (counts_split l1 (mkThread Failed todo dn) l2) as [Er' Ew'].
  unfold inside_reader, inside_writer in Er, Ew, Er', Ew'. simpl in *.
  assert (writers (l1 ++ mkThread Failed todo dn :: l2) = 1%nat) as Hone
    by (destruct (rw_writer (stateUpdateMutex s)); lia).
  split; simpl; try done; try lia.
  - intros Hlocked. specialize (He Hlocked). lia.
  - intros t0 h0 e0 rest0 Hin Hpc. exfalso. rewrite elem_of_app, elem_of_cons in Hin.
    destruct Hin as [Hin|[->|Hin]]; [|done|];
      (eapply (other_writer l1 (mkThread Failed todo dn) l2 t0); [exact Hone | done | | exact Hpc]);
      rewrite elem_of_app; auto.
  - intros t0 r0 Hin Hres.
    destruct (elem_mid t0 (mkThread (Writing h e []) todo dn) (mkThread Failed todo dn) l1 l2 Hin) as [->|Hin'].
    + exact (Hd _ r0 (mid_in _ _ _) Hres).
    + exact (Hd t0 r0 Hin' Hres).
Qed.

(** Releasing it commits the map with the whole entry. *)
Lemma cinv_unlock s s' l1 l2 hist h e todo dn :
  cinv (mkConfig s (l1 ++ mkThread (Writing h e []) todo dn :: l2) hist) →
  MapStorage_UnlockAfterStateUpdate s = (Ret tt, s') →
  cinv (mkConfig s' (l1 ++ mkThread Ready todo dn :: l2) (map_view s' :: hist)).
Proof.
  intros [Hr Hw He Hf Hp Hh Hb Hd] Hrun. simpl in *.
  destruct (counts_split l1 (mkThread (Writing h e []) todo dn) l2) as [Er Ew].
  destruct (counts_split l1 (mkThread Ready todo dn) l2) as [Er' Ew'].
  destruct s as [[w n] b c st r]. unfold MapStorage_UnlockAfterStateUpdate, on_mutex, Unlock in Hrun.
  destruct w; [|done]. simpl in *. simplify_eq.
  destruct (Hp _ h e [] (mid_in _ _ _) eq_refl) as (Hdoms & m & Hhead & Hv). simpl in Hdoms, Hv.
  assert (writers (l1 ++ mkThread Ready todo dn :: l2) = 0%nat) as Hnone.
  { unfold inside_writer in *. simpl in *. lia. }
  split; simpl; try done.
  - unfold inside_reader in *. simpl in *. lia.
  - intros t0 h0 e0 rest0 Hin Hpc. exfalso. revert Hin Hpc. by apply no_writer.
  - intros [|i] m1 m2 H1 H2; simpl in *; [|by eapply Hh].
    destruct hist as [|m0 hist]; [done|]. simplify_eq/=. exists h, e. exact Hv.
  - destruct hist as [|m0 hist]; [done|]. exact Hb.
  - intros t0 r0 Hin Hres.
    destruct (elem_mid t0 (mkThread (Writing h e []) todo dn) (mkThread Ready todo dn) l1 l2 Hin) as [->|Hin'];
      [destruct (Hd _ r0 (mid_in _ _ _) Hres) as (m1 & ? & ?) | destruct (Hd t0 r0 Hin' Hres) as (m1 & ? & ?)];
      (exists m1; split; [by right | done]).
Qed.

(** ** Every step keeps the invariant *)

Lemma cstep_inv c c' : cstep c c' → cinv c → cinv c'.
Proof.
  intros Hstep Hinv. destruct Hstep as [s s' t t' l1 l2 hist Hstep].
  pose proof Hinv as [Hr Hw He Hf Hp Hh Hb Hd]. simpl in *.
  destruct (counts_split l1 t l2) as [Er Ew].
  destruct Hstep as [s s' k h todo dn Hrun|s s' k h v todo dn Hrun|s s' todo dn Hrun
    |s s' h e todo dn Hrun|s s' h e k rest todo dn Hrun|s s' h e todo dn Hrun|s h e todo dn]; simpl.
  - destruct s as [[w n] b c st r]. destruct w; [done|].
    unfold on_mutex, RLock in Hrun. simpl in Hrun. simplify_eq.
    eapply (cinv_reader _ _ _ _ _ _ _ Hinv); try done; unfold inside_reader; simpl; [lia | auto].
  - destruct (read_map_run k h s) as (s1 & v1 & Hrun1 & (Hmx & Hmaps) & _).
    rewrite Hrun in Hrun1. simplify_eq.
    assert (rw_writer (stateUpdateMutex s) = false) as Hfree.
    { destruct (rw_writer (stateUpdateMutex s)); [|done]. specialize (He eq_refl).
      unfold inside_reader in Er. simpl in Er. lia. }
    destruct (Hf Hfree) as [Hdoms Hhead].
    eapply (cinv_reader _ _ _ _ _ _ _ Hinv); try done; unfold inside_reader; simpl; rewrite ?Hmx; [done | lia|].
    intros r Hin. apply elem_of_cons in Hin as [->|Hin]; [right | by left]. simpl.
    exists (map_view s). split; [by apply head_Some_elem_of|]. by apply (read_is_proj k h s s1).
  - destruct s as [[w n] b c st r]. unfold on_mutex, RUnlock in Hrun.
    destruct n as [|n]; simpl in Hrun; [done|]. simplify_eq.
    assert (w = false) as ->.
    { destruct w; [|done]. specialize (He eq_refl). unfold inside_reader in Er. simpl in *. lia. }
    eapply (cinv_reader _ _ _ _ _ _ _ Hinv); try done; unfold inside_reader; simpl; [lia | auto].
  - by eapply cinv_lock.
  - destruct (insert_part_run k h e s) as (s1 & Hrun1 & Hmx). rewrite Hrun in Hrun1. simplify_eq.
    destruct (Hp _ h e (k :: rest) (mid_in _ _ _) eq_refl) as [Hdoms Hpend].
    simpl in Hdoms, Hpend. rewrite Hrun in Hdoms, Hpend. simpl in Hdoms, Hpend.
    assert (rw_writer (stateUpdateMutex s) = true) as Hlocked.
    { destruct (rw_writer (stateUpdateMutex s)); [done|]. unfold inside_writer in Ew. simpl in Ew. lia. }
    assert (rw_readers (stateUpdateMutex s) = 0%nat) as Hzero by (rewrite Hr; auto).
    eapply (cinv_writer _ _ _ _ _ _ _ h e rest Hinv); try done.
    rewrite Hmx. destruct (stateUpdateMutex s). simpl in *. by subst.
  - by eapply cinv_unlock.
  - by eapply cinv_fail.
Qed.

(** Only the holder of a lock, or a thread that waits for one, is left. *)
Lemma writer_excludes c t t' : cinv c → t ∈ c_threads c → inside_writer t = 1%nat →
  t' ∈ c_threads c → th_pc t' = Ready ∨ inside_writer t' = 1%nat.
Proof.
  intros [Hr Hw He _ _ _ _ _] Hin Hwr Hin'.
  assert (∀ x, x ∈ c_threads c → (inside_reader x ≤ readers (c_threads c))%nat ∧
    (inside_writer x ≤ writers (c_threads c))%nat) as Hle.
  { intros x Hx. apply list_elem_of_split in Hx as (l1 & l2 & ->). destruct (counts_split l1 x l2). lia. }
  destruct (Hle t Hin) as [_ H1], (Hle t' Hin') as [H2 _].
  destruct (rw_writer (stateUpdateMutex (c_store c))); [|lia].
  rewrite He in H2 by done. unfold inside_reader, inside_writer in *.
  destruct (th_pc t'); auto; lia.
Qed.

(** Some thread can go on as long as there is something to do. *)
Definition finished (t : thread) : Prop := th_pc t = Ready ∧ th_todo t = [].

Lemma tstep_in c t s' t' : t ∈ c_threads c → tstep (c_store c) t s' t' → ∃ c', cstep c c'.
Proof.
  intros Hin Hstep. destruct c as [s l hist]. simpl in *.
  apply list_elem_of_split in Hin as (l1 & l2 & ->). eexists. by constructor.
Qed.

Lemma inside_in l t : t ∈ l → (inside_reader t ≤ readers l)%nat ∧ (inside_writer t ≤ writers l)%nat.
Proof.
  intros Hin. apply list_elem_of_split in Hin as (l1 & l2 & ->).
  destruct (counts_split l1 t l2). lia.
Qed.

Lemma busy_steps c t : cinv c → t ∈ c_threads c → th_pc t ≠ Ready → th_pc t ≠ Failed →
  ∃ c', cstep c c'.
Proof.
  intros [Hr Hw He Hf Hp Hh Hb Hd] Hin Hbusy Hnf. destruct (inside_in _ _ Hin) as [Hir Hiw].
  destruct t as [p todo dn]. unfold inside_reader, inside_writer in Hir, Hiw. simpl in *.
  destruct p as [|k h| |h e [|k rest]|]; [done|..|done].
  - destruct (read_map_run k h (c_store c)) as (s' & v & Hrun & _).
    eapply tstep_in; [exact Hin|]. by eapply ts_read.
  - destruct (c_store c) as [[w [|n]] b cm st r] eqn:Es; simpl in *; [lia|].
    eapply tstep_in; [exact Hin|]. eapply ts_runlock. by rewrite Es.
  - destruct (c_store c) as [[w n] b cm st r] eqn:Es; simpl in *. destruct w; [|lia].
    eapply tstep_in; [exact Hin|]. eapply ts_unlock. by rewrite Es.
  - destruct (insert_part_run k h e (c_store c)) as (s' & Hrun & _).
    eapply tstep_in; [exact Hin|]. by eapply ts_insert.
Qed.

Lemma ready_counts l : Forall (λ t, th_pc t = Ready) l → readers l = 0%nat ∧ writers l = 0%nat.
Proof.
  unfold readers, writers. induction 1 as [|t l Ht _ [IH1 IH2]]; [done|]. simpl.
  assert (inside_reader t = 0%nat ∧ inside_writer t = 0%nat) as [-> ->]
    by (unfold inside_reader, inside_writer; by rewrite Ht).
  split; [exact IH1 | exact IH2].
Qed.

(** An update that failed keeps the write lock, alone. *)
Lemma failed_locked c t : cinv c → t ∈ c_threads c → th_pc t = Failed →
  rw_writer (stateUpdateMutex (c_store c)) = true.
Proof.
  intros Hinv Hin Hf. pose proof (ci_writer _ Hinv) as Hw.
  destruct (inside_in _ _ Hin) as [_ H]. unfold inside_writer at 1 in H. rewrite Hf in H.
  destruct (rw_writer _); [done | lia].
Qed.

Lemma failed_alone c t t' : cinv c → t ∈ c_threads c → th_pc t = Failed →
  t' ∈ c_threads c → th_pc t' = Ready ∨ th_pc t' = Failed.
Proof.
  intros Hinv Hin Hf Hin'.
  assert (inside_writer t = 1%nat) as Hwr by (unfold inside_writer; by rewrite Hf).
  destruct (writer_excludes c t t' Hinv Hin Hwr Hin') as [?|Hwr']; [by left|].
  pose proof (ci_writer _ Hinv) as Hw. rewrite (failed_locked c t Hinv Hin Hf) in Hw.
  apply list_elem_of_split in Hin as (l1 & l2 & E). rewrite E in Hw, Hin'.
  destruct (th_pc t') eqn:Hpc; auto; unfold inside_writer in Hwr'; rewrite Hpc in Hwr'; try done.
  exfalso. rewrite elem_of_app, elem_of_cons in Hin'.
  destruct Hin' as [Hin'|[->|Hin']]; [|congruence|];
    (eapply (other_writer l1 t l2 t'); [exact Hw | exact Hwr | | exact Hpc]); rewrite elem_of_app; auto.
Qed.

(** Nobody steps while the write lock is held and everyone waits or has failed. *)
Lemma all_waiting c : rw_writer (stateUpdateMutex (c_store c)) = true →
  (∀ t, t ∈ c_threads c → th_pc t = Ready ∨ th_pc t = Failed) → ∀ c', ¬ cstep c c'.
Proof.
  intros Hlocked Hall c' Hstep. destruct Hstep as [s s' t t' l1 l2 hist Hstep]. simpl in *.
  destruct (Hall t (mid_in t l1 l2)) as [Hp|Hp]; destruct Hstep as [s s' k h todo dn Hrun| | |s s' h e todo dn Hrun| | |];
    simpl in Hp; try done; destruct s as [[w n] b cm st r]; simpl in Hlocked; subst w; done.
Qed.

Lemma progress_or_failed c : cinv c →
  Forall finished (c_threads c) ∨ (∃ c', cstep c c') ∨ ∃ t, t ∈ c_threads c ∧ th_pc t = Failed.
Proof.
  intros Hinv. destruct (decide (Exists (λ t, is_ready t = false) (c_threads c))) as [Hex|Hall].
  - apply Exists_exists in Hex as (t & Hin & Hb). right.
    assert (th_pc t ≠ Ready) as Hnr by (intros E; unfold is_ready in Hb; by rewrite E in Hb).
    destruct (th_pc t) eqn:Hpc; try (right; exists t; done);
      left; apply (busy_steps c t Hinv Hin); by rewrite Hpc.
  - assert (Forall (λ t, th_pc t = Ready) (c_threads c)) as Hready.
    { apply not_Exists_Forall in Hall; [|apply _]. eapply Forall_impl; [exact Hall|].
      intros t Hb. unfold is_ready in Hb. simpl in Hb. by destruct (th_pc t). }
    destruct (decide (Exists (λ t, th_todo t ≠ []) (c_threads c))) as [Hex|Hnil].
    + right. left. apply Exists_exists in Hex as (t & Hin & Htodo).
      destruct (ready_counts _ Hready) as [Hr0 Hw0]. destruct Hinv as [Hr Hw _ _ _ _ _ _].
      rewrite Forall_forall in Hready. specialize (Hready t Hin).
      destruct (c_store c) as [[w n] b cm st r] eqn:Es. simpl in Hr, Hw.
      assert (w = false ∧ n = 0%nat) as [-> ->] by (destruct w; lia).
      destruct t as [p [|[k h|h e] todo] dn]; simpl in *; [done|..]; subst p;
        (eapply tstep_in; [exact Hin|]); rewrite Es; [by eapply ts_rlock | by eapply ts_lock].
    + left. apply not_Exists_Forall in Hnil; [|apply _].
      apply Forall_forall. intros t Hin. rewrite Forall_forall in Hready, Hnil.
      split; [by apply Hready|]. specialize (Hnil t Hin). simpl in Hnil. by apply dec_stable.
Qed.

(** ** Theorems *)

(** C9 Reads are atomic under any interleaving of any number of threads that read
    and store: every finished read has found the component of one whole entry, or
    nothing, in a map that had been committed, never a height of which only some
    of block, commit, state and responses were stored.  The committed maps start
    empty and grow by one whole entry at a time. *)
Theorem concurrent_reads_atomic (work : list (list task)) (c : config)
    (Hreach : rtc cstep (start work) c) :
  (∀ t r, t ∈ c_threads c → r ∈ th_done t →
     ∃ m, m ∈ c_commits c ∧ res_v r = proj (res_k r) <$> m !! res_h r) ∧
  last (c_commits c) = Some ∅ ∧
  (∀ i m m', c_commits c !! i = Some m' → c_commits c !! S i = Some m → ∃ h e, m' = <[h := e]> m) ∧
  (rw_writer (stateUpdateMutex (c_store c)) = false → head (c_commits c) = Some (map_view (c_store c))).
Proof.
  assert (cinv c) as [_ _ _ Hf _ Hh Hb Hd].
  { pose proof (start_inv work) as H0. induction Hreach as [c|c1 c2 c3 Hstep _ IH]; [done|].
    by apply IH, (cstep_inv c1 c2). }
  split_and!; [exact Hd | exact Hb | exact Hh |]. intros Hfree. by destruct (Hf Hfree).
Qed.

(** C39 The storage's read-write lock can only come to a standstill through an
    update that failed: in every reachable configuration either all threads are
    finished, or some thread can take a step, or an update has returned an error
    with the write lock held.  After such a failure no thread is inside a read or
    an update any more, and nothing ever moves again. *)
Theorem storage_stalls_only_after_failure (work : list (list task)) (c : config)
    (Hreach : rtc cstep (start work) c) :
  (Forall finished (c_threads c) ∨ (∃ c', cstep c c') ∨ ∃ t, t ∈ c_threads c ∧ th_pc t = Failed) ∧
  (∀ t, t ∈ c_threads c → th_pc t = Failed →
     rw_writer (stateUpdateMutex (c_store c)) = true ∧
     (∀ t', t' ∈ c_threads c → th_pc t' = Ready ∨ th_pc t' = Failed) ∧
     ∀ c', ¬ cstep c c').
Proof.
  assert (cinv c) as Hinv.
  { pose proof (start_inv work) as H0. induction Hreach as [c|c1 c2 c3 Hstep _ IH]; [done|].
    by apply IH, (cstep_inv c1 c2). }
  split; [by apply progress_or_failed|]. intros t Hin Hfail.
  assert (inside_writer t = 1%nat) as Hwr by (unfold inside_writer; by rewrite Hfail).
  pose proof (failed_locked c t Hinv Hin Hfail) as Hlocked.
  assert (∀ t', t' ∈ c_threads c → th_pc t' = Ready ∨ th_pc t' = Failed) as Hall.
  { intros t' Hin'. by apply (failed_alone c t). }
  split_and!; [done | exact Hall | by apply all_waiting].
Qed.
End threads.

(** ** Instances *)

Import ToyInstances.

Definition toy_thread_entry : entry :=
  let id := mkBlockID "" 0 in let vs := mkValidatorSet [] None in
  mkEntry (mkBlock (mkHeader 1 5 "" "" "alice" tt) [] [] None) (mkCommit 1 0 id [])
    (mkState (mkVersion 11 0 "") "chain" 1 0 id 0 vs vs vs 1 (0, 0) 1 "" "")
    (mkResponseFinalizeBlock [] [] [] None "").

(** One thread stores height 1, another reads its block and then its commit. *)
Definition toy_work : list (list task) := [[Update 1 toy_thread_entry]; [Read CBlock 1; Read CCommit 1]].

(** The storage after each step: the reader looks for the block before the update
    and for the commit after it. *)
Definition toy_accesses : list (M MapStorage unit) :=
  [on_mutex RLock; read_map CBlock 1 ;; mret tt; on_mutex RUnlock;
   MapStorage_LockBeforeStateUpdate] ++
  ((λ k, insert_part k 1 toy_thread_entry) <$> insertions) ++
  [MapStorage_UnlockAfterStateUpdate; on_mutex RLock; read_map CCommit 1 ;; mret tt].
Definition toy_store (n : nat) : MapStorage :=
  foldl (λ s m, (m s).2) empty_MapStorage (take n toy_accesses).

Definition toy_hit : read_result := mkReadResult CCommit 1 (Some (VCommit (e_commit toy_thread_entry))).
Definition toy_miss : read_result := mkReadResult CBlock 1 None.

(** The configuration after [n] steps, with the writer's and the reader's counters. *)
Definition toy_config (n : nat) (w r : pc) (w_todo r_todo : list task) (found : list read_result)
    (hist : list (gmap Z entry)) : config :=
  mkConfig (toy_store n) [mkThread w w_todo []; mkThread r r_todo found] hist.

Lemma toy_access_0 : on_mutex RLock (toy_store 0) = (Ret tt, toy_store 1).
Proof. vm_compute. reflexivity. Qed.
Lemma toy_access_1 : read_map CBlock 1 (toy_store 1) = (Ret None, toy_store 2).
Proof. vm_compute. reflexivity. Qed.
Lemma toy_access_2 : on_mutex RUnlock (toy_store 2) = (Ret tt, toy_store 3).
Proof. vm_compute. reflexivity. Qed.
Lemma toy_access_3 : MapStorage_LockBeforeStateUpdate (toy_store 3) = (Ret tt, toy_store 4).
Proof. vm_compute. reflexivity. Qed.
Lemma toy_access_4 : insert_part CBlock 1 toy_thread_entry (toy_store 4) = (Ret tt, toy_store 5).
Proof. vm_compute. reflexivity. Qed.
Lemma toy_access_5 : insert_part CCommit 1 toy_thread_entry (toy_store 5) = (Ret tt, toy_store 6).
Proof. vm_compute. reflexivity. Qed.
Lemma toy_access_6 : insert_part CState 1 toy_thread_entry (toy_store 6) = (Ret tt, toy_store 7).
Proof. vm_compute. reflexivity. Qed.
Lemma toy_access_7 : insert_part CResponses 1 toy_thread_entry (toy_store 7) = (Ret tt, toy_store 8).
Proof. vm_compute. reflexivity. Qed.
Lemma toy_access_8 : MapStorage_UnlockAfterStateUpdate (toy_store 8) = (Ret tt, toy_store 9).
Proof. vm_compute. reflexivity. Qed.
Lemma toy_access_9 : on_mutex RLock (toy_store 9) = (Ret tt, toy_store 10).
Proof. vm_compute. reflexivity. Qed.
Lemma toy_access_10 : read_map CCommit 1 (toy_store 10) = (Ret (Some (VCommit (e_commit toy_thread_entry))), toy_store 11).
Proof. vm_compute. reflexivity. Qed.

Lemma toy_first w w' r td td' rtd f hist hist' n n' :
  tstep (toy_store n) (mkThread w td []) (toy_store n') (mkThread w' td' []) →
  hist' = (if is_writing (mkThread w td []) && is_ready (mkThread w' td' [])
           then map_view (toy_store n') :: hist else hist) →
  cstep (toy_config n w r td rtd f hist) (toy_config n' w' r td' rtd f hist').
Proof. intros H ->. exact (cs_step _ _ _ _ [] [_] hist H). Qed.

Lemma toy_second w r r' td rtd rtd' f f' hist n n' :
  tstep (toy_store n) (mkThread r rtd f) (toy_store n') (mkThread r' rtd' f') →
  is_writing (mkThread r rtd f) = false →
  cstep (toy_config n w r td rtd f hist) (toy_config n' w r' td rtd' f' hist).
Proof.
  intros H Hw. pose proof (cs_step _ _ _ _ [mkThread w td []] [] hist H) as Hs. by rewrite Hw in Hs.
Qed.

Definition toy_end : config :=
  toy_config 11 Ready Leaving [] [] [toy_hit; toy_miss] [map_view (toy_store 9); ∅].

Lemma toy_interleaving : rtc cstep (start toy_work) toy_end.
Proof.
  change (start toy_work) with (toy_config 0 Ready Ready [Update 1 toy_thread_entry]
    [Read CBlock 1; Read CCommit 1] [] [∅]).
  eapply rtc_l; [eapply toy_second; [exact (ts_rlock _ _ _ _ _ _ toy_access_0) | reflexivity]|].
  eapply rtc_l; [eapply toy_second; [exact (ts_read _ _ _ _ _ _ _ toy_access_1) | reflexivity]|].
  eapply rtc_l; [eapply toy_second; [exact (ts_runlock _ _ _ _ toy_access_2) | reflexivity]|].
  eapply rtc_l; [eapply toy_first; [exact (ts_lock _ _ _ _ _ _ toy_access_3) | reflexivity]|].
  eapply rtc_l; [eapply toy_first; [exact (ts_insert _ _ _ _ _ _ _ _ toy_access_4) | reflexivity]|].
  eapply rtc_l; [eapply toy_first; [exact (ts_insert _ _ _ _ _ _ _ _ toy_access_5) | reflexivity]|].
  eapply rtc_l; [eapply toy_first; [exact (ts_insert _ _ _ _ _ _ _ _ toy_access_6) | reflexivity]|].
  eapply rtc_l; [eapply toy_first; [exact (ts_insert _ _ _ _ _ _ _ _ toy_access_7) | reflexivity]|].
  eapply rtc_l; [eapply toy_first; [exact (ts_unlock _ _ _ _ _ _ toy_access_8) | reflexivity]|].
  eapply rtc_l; [eapply toy_second; [exact (ts_rlock _ _ _ _ _ _ toy_access_9) | reflexivity]|].
  eapply rtc_l; [eapply toy_second; [exact (ts_read _ _ _ _ _ _ _ toy_access_10) | reflexivity]|].
  apply rtc_refl.
Qed.

Lemma concurrent_reads_atomic_witness :
  rtc cstep (start toy_work) toy_end ∧ th_done <$> c_threads toy_end = [[]; [toy_hit; toy_miss]] ∧
  ∃ m, m ∈ c_commits toy_end ∧ res_v toy_hit = proj CCommit <$> m !! 1.
Proof.
  split; [exact toy_interleaving|]. split; [reflexivity|].
  refine (proj1 (concurrent_reads_atomic toy_work toy_end toy_interleaving)
    (mkThread Leaving [] [toy_hit; toy_miss]) toy_hit _ _).
  - right. left.
  - left.
Defined.

(** The same work, but the update fails before the commit is looked for. *)
Definition toy_failed : config :=
  toy_config 8 Failed Ready [] [Read CCommit 1] [toy_miss] [∅].

Lemma toy_failing : rtc cstep (start toy_work) toy_failed.
Proof.
  change (start toy_work) with (toy_config 0 Ready Ready [Update 1 toy_thread_entry]
    [Read CBlock 1; Read CCommit 1] [] [∅]).
  eapply rtc_l; [eapply toy_second; [exact (ts_rlock _ _ _ _ _ _ toy_access_0) | reflexivity]|].
  eapply rtc_l; [eapply toy_second; [exact (ts_read _ _ _ _ _ _ _ toy_access_1) | reflexivity]|].
  eapply rtc_l; [eapply toy_second; [exact (ts_runlock _ _ _ _ toy_access_2) | reflexivity]|].
  eapply rtc_l; [eapply toy_first; [exact (ts_lock _ _ _ _ _ _ toy_access_3) | reflexivity]|].
  eapply rtc_l; [eapply toy_first; [exact (ts_insert _ _ _ _ _ _ _ _ toy_access_4) | reflexivity]|].
  eapply rtc_l; [eapply toy_first; [exact (ts_insert _ _ _ _ _ _ _ _ toy_access_5) | reflexivity]|].
  eapply rtc_l; [eapply toy_first; [exact (ts_insert _ _ _ _ _ _ _ _ toy_access_6) | reflexivity]|].
  eapply rtc_l; [eapply toy_first; [exact (ts_insert _ _ _ _ _ _ _ _ toy_access_7) | reflexivity]|].
  eapply rtc_l; [eapply toy_first; [exact (ts_fail _ _ _ _ _) | reflexivity]|].
  apply rtc_refl.
Qed.

Lemma storage_stalls_only_after_failure_witness :
  (Forall finished (c_threads toy_end) ∨ (∃ c', cstep toy_end c') ∨
    ∃ t, t ∈ c_threads toy_end ∧ th_pc t = Failed) ∧
  ∀ c', ¬ cstep toy_failed c'.
Proof.
  split; [exact (proj1 (storage_stalls_only_after_failure toy_work toy_end toy_interleaving))|].
  refine (proj2 (proj2 (proj2 (storage_stalls_only_after_failure toy_work toy_failed toy_failing)
    (mkThread Failed [] []) _ eq_refl))).
  left.
Defined.
