(* ===== verification/EvidenceProps.v ===== *)
(** * The evidence that [cause_double_sign] and [cause_light_client_attack] make up *)

From S2P Require Import Prelude.
From S2P Require Import CometTypes.
From S2P Require Import Toy.
From S2P Require Import Storage.
From S2P Require Import TimeHandler.
From S2P Require Import Utils.
From S2P Require Import Client.
From S2P Require Import UpdateState.
From S2P Require Import Evidence.
From S2P Require Import RunBlock.
From S2P Require Import Example.
From S2P Require Import Frames.
From S2P Require Import RunBlockSpec.
From S2P Require Import UpdateSpec.
From S2P Require Import Chain.
From S2P Require Import RunBlockProps.
#[local] Open Scope Z_scope.

(** Documented behaviour of [MockPV.SignVote] (it only sets the signatures), of
    [types.VoteFromProto] (a field by field conversion) and of deep copies. *)
Class EvidenceLaws `{CometOps} := {
  SignVote_law : ∀ k chain v, let v' := (SignVote k chain v).1 in
    vp_Type v' = vp_Type v ∧ vp_Height v' = vp_Height v ∧ vp_Round v' = vp_Round v ∧
    vp_BlockID v' = vp_BlockID v ∧ vp_Timestamp v' = vp_Timestamp v ∧
    vp_ValidatorAddress v' = vp_ValidatorAddress v ∧ vp_ValidatorIndex v' = vp_ValidatorIndex v;
  VoteFromProto_law : ∀ v v', VoteFromProto v = Ret v' →
    vote_Type v' = vp_Type v ∧ vote_Height v' = vp_Height v ∧ vote_Round v' = vp_Round v ∧
    vote_BlockID v' = vp_BlockID v ∧ vote_Timestamp v' = vp_Timestamp v ∧
    vote_ValidatorAddress v' = vp_ValidatorAddress v ∧
    vote_ValidatorIndex v' = vp_ValidatorIndex v;
  deepcopy_law : ∀ b b', deepcopy_Block b = Ret b' → b' = b;
}.

Section evidence.
Context {CT : CometTypes} {CO : CometOps} {CL : CometLaws} {EV : EvidenceLaws} {EN : Env} {ST TH : Type}.
Context {SO : StorageOps ST} {SL : StorageLaws ST} {TO : TimeHandlerOps TH}.
#[local] Abbreviation Sys := (Sys ST TH).
Implicit Types s : Sys.

(** The state stored for the last block has the validators that signed it. *)
Lemma last_state_run {A} s (k : State → M Sys A) : idle s → chain_inv (abs s) →
  1 ≤ st_LastBlockHeight (CurState (client s)) →
  ∃ st s1, (on_storage (GetState (hdr_Height (blk_Header (LastBlock (client s))))) ≫= k) s = k st s1 ∧
    frame false false s s1 ∧ st_Validators st = st_LastValidators (CurState (client s)).
Proof.
  intros (_ & Hwf & Hl) Hinv Hpos.
  destruct (proj2 (ci_dom _ Hinv (st_LastBlockHeight (ch_state (abs s))))) as [e He]; [simpl; lia|].
  destruct (ci_last _ Hinv e He) as (Hb & _ & _ & _ & Hlv & _).
  destruct (ci_entry _ Hinv _ _ He) as (Hh & _).
  change (ch_last (abs s)) with (LastBlock (client s)) in Hb. rewrite Hb in Hh. rewrite Hh.
  change (ch_state (abs s)) with (CurState (client s)) in *.
  destruct (GetState_law (st_LastBlockHeight (CurState (client s))) _ Hwf) as (st' & Hrun & _).
  rewrite Hl in Hrun. change (ch_entries (abs s)) with (st_view (Storage (client s))) in He.
  rewrite He in Hrun. simpl in Hrun.
  pose proof (within_GetState (ST:=ST) (TH:=TH) false false (st_LastBlockHeight (CurState (client s))) s) as F.
  unfold on_storage in F. unfold on_storage, mbind, M_bind. rewrite Hrun in F. rewrite Hrun. simpl in F.
  eexists _, _. split_and!; [reflexivity | exact F | done].
Qed.




(** C29 The light client attack evidence accuses just the validator named, at the
    height before the last block, with the voting power of the set that signed
    the last block.  Its conflicting header is the last block's header with
    another application hash (Lunatic), one second later (Equivocation) or
    unchanged (Amnesia), under the last commit; the stored block is not
    touched. *)
Theorem light_client_evidence (v : Validator) (ty : MisbehaviourType) s e s' (Hidle : idle s)
    (Hinv : chain_inv (abs s)) (Hpos : 1 ≤ st_LastBlockHeight (CurState (client s)))
    (Hrun : ConstructLightClientAttackEvidence v ty s = (Ret e, s')) :
  let hdr := blk_Header (LastBlock (client s)) in
  let sh := lb_SignedHeader (lca_ConflictingBlock e) in
  abs s' = abs s ∧
  lca_ByzantineValidators e = [v] ∧ lca_CommonHeight e = hdr_Height hdr - 1 ∧
  lca_TotalVotingPower e = TotalVotingPower (st_LastValidators (CurState (client s))) ∧
  lca_Timestamp e = hdr_Time hdr ∧ sh_Commit sh = ch_commit (abs s) ∧
  match ty with
  | Lunatic => sh_Header sh = set_hdr_AppHash "some other app hash" hdr
  | Amnesia => sh_Header sh = hdr
  | Equivocation => sh_Header sh = set_hdr_Time (hdr_Time hdr + 1000000000) hdr
  | DuplicateVote => False
  end.
Proof.
  cbv zeta. pose proof (within_run _ _ _ _ _ (within_ConstructLightClientAttackEvidence false false v ty) Hrun) as F'.
  destruct (frame_abs s s' F' Hidle) as [_ Habs]. split; [exact Habs|].
  unfold ConstructLightClientAttackEvidence in Hrun. rewrite (bind_ret _ _ _ _ _ (cl_run _ _)) in Hrun.
  match type of Hrun with (_ ≫= ?k) _ = _ =>
    destruct (last_state_run s k Hidle Hinv Hpos) as (st & s2 & Hst & F & Hvals) end.
  rewrite Hst in Hrun. clear Hst.
  apply bind_ret_inv in Hrun as (b & s3 & Hb & Hrun). apply liftO_ret in Hb as [Hb ->].
  apply deepcopy_law in Hb as ->.
  apply bind_ret_inv in Hrun as (h & s3 & Hh & Hrun). apply liftO_ret in Hh as [Hh ->].
  rewrite (bind_ret _ _ _ _ _ (cl_run _ _)), (bind_ret _ _ _ _ _ (cl_run _ _)) in Hrun.
  unfold mret, M_ret in Hrun. simplify_eq. simpl. rewrite Hvals, (fr_LastCommit _ _ _ _ F eq_refl).
  split_and!; try done. by destruct ty; simplify_eq/=.
Qed.
End evidence.

Import ToyInstances.

#[export] Instance toy_evidence_laws : EvidenceLaws.
Proof. split; [done | by intros v v' [= <-] | by intros b b' [= <-]]. Qed.


Lemma toy_two_high : 1 ≤ st_LastBlockHeight (CurState (client toy_two)).
Proof. vm_compute. discriminate. Defined.


Definition toy_lca : option LightClientAttackEvidence :=
  match (ConstructLightClientAttackEvidence toy_alice Lunatic toy_two).1 with
  | Ret e => Some e | _ => None end.

Lemma light_client_evidence_witness :
  ∃ e, toy_lca = Some e ∧ lca_CommonHeight e = 1 ∧
    hdr_AppHash (sh_Header (lb_SignedHeader (lca_ConflictingBlock e))) = "some other app hash".
Proof.
  destruct toy_lca as [e|] eqn:E; [|vm_compute in E; discriminate].
  assert (ConstructLightClientAttackEvidence toy_alice Lunatic toy_two =
    (Ret e, (ConstructLightClientAttackEvidence toy_alice Lunatic toy_two).2)) as Hrun.
  { unfold toy_lca in E. apply run_pair. destruct (ConstructLightClientAttackEvidence toy_alice Lunatic toy_two).1;
      [by simplify_eq|done..]. }
  pose proof (light_client_evidence toy_alice Lunatic toy_two e _ (proj1 toy_two_ready)
    (proj2 toy_two_ready) toy_two_high Hrun) as (_ & _ & Hc & _ & _ & _ & Hh).
  exists e. split; [done|]. split; [rewrite Hc; vm_compute; reflexivity|]. rewrite Hh. reflexivity.
Defined.
