(* ===== verification/Pagination.v ===== *)
(** * rpc_server/routes.go, part 1: heights and pages

    [getHeight], [validatePerPage], [validatePage], [validateSkipCount] and the
    window of a list that a paginated request sees.  An [*int] that may be nil is
    an [option Z]; [int] is 64 bits wide. *)

From S2P Require Import Prelude.
#[local] Open Scope Z_scope.

(** ** Definitions *)

Definition defaultPerPage : Z := 30.
Definition maxPerPage : Z := 100.

Definition getHeight (latestHeight : Z) (heightPtr : option Z) : outcome Z :=
  match heightPtr with
  | Some height =>
      if decide (height ≤ 0) then
        Err (Errorf "height must be greater than 0, but got %d" [AInt height])
      else if decide (latestHeight < height) then
        Err (Errorf "height %d must be less than or equal to the current blockchain height %d"
               [AInt height; AInt latestHeight])
      else Ret height
  | None => Ret latestHeight
  end.

Definition validatePerPage (perPagePtr : option Z) : Z :=
  match perPagePtr with
  | None => defaultPerPage
  | Some perPage =>
      if decide (perPage < 1) then defaultPerPage
      else if decide (maxPerPage < perPage) then maxPerPage
      else perPage
  end.

(** Go's division truncates towards zero. *)
Definition page_count (perPage totalCount : Z) : Z :=
  let pages := wrap64 (wrap64 (totalCount - 1) `quot` perPage + 1) in
  if decide (pages = 0) then 1 else pages.

Definition validatePage (pagePtr : option Z) (perPage totalCount : Z) : outcome Z :=
  if decide (perPage < 1) then Panic (PanicMsg "zero or negative perPage: %d")
  else match pagePtr with
  | None => Ret 1
  | Some page =>
      let pages := page_count perPage totalCount in
      if decide (page ≤ 0 ∨ pages < page) then
        Err (Errorf "page should be within [1, %d] range, given %d" [AInt pages; AInt page])
      else Ret page
  end.

Definition validateSkipCount (page perPage : Z) : Z :=
  let skipCount := wrap64 (wrap64 (page - 1) * perPage) in
  if decide (skipCount < 0) then 0 else skipCount.

(** What the three paginated endpoints compute: entries to skip, entries to show. *)
Definition page_window (pagePtr perPagePtr : option Z) (totalCount : Z) : outcome (Z * Z) :=
  let perPage := validatePerPage perPagePtr in
  page ← validatePage pagePtr perPage totalCount;
  let skipCount := validateSkipCount page perPage in
  Ret (skipCount, Z.min perPage (wrap64 (totalCount - skipCount))).

(** [l[lo:hi]] *)
Definition go_slice {A} (lo hi : Z) (l : list A) : outcome (list A) :=
  if decide (0 ≤ lo ≤ hi ∧ hi ≤ Z.of_nat (length l))
  then Ret (take (Z.to_nat (hi - lo)) (drop (Z.to_nat lo) l))
  else Panic IndexOutOfRange.

(** A page of a list: the slice [Validators] returns. *)
Definition page_of {A} (pagePtr perPagePtr : option Z) (l : list A) : outcome (list A) :=
  '(skipCount, pageSize) ← page_window pagePtr perPagePtr (Z.of_nat (length l));
  go_slice skipCount (wrap64 (skipCount + pageSize)) l.

(** ** Lemmas *)

Lemma validatePerPage_range p : 1 ≤ validatePerPage p ≤ maxPerPage.
Proof. unfold validatePerPage, defaultPerPage, maxPerPage. repeat case_match; lia. Qed.

(** The number of pages, as a ceiling. *)
Lemma page_count_spec pp t :
  1 ≤ pp → 0 ≤ t ≤ max_int64 →
  1 ≤ page_count pp t ∧ t ≤ page_count pp t * pp ∧
  (page_count pp t - 1) * pp < Z.max t 1 ∧ page_count pp t ≤ Z.max t 1.
Proof.
  intros Hpp Ht. unfold page_count. unfold max_int64 in Ht.
  rewrite (wrap64_id (t - 1)) by (unfold in_int64, min_int64, max_int64; lia).
  destruct (decide (t = 0)) as [->|Ht0].
  - change (0 - 1) with (-(1)). rewrite Z.quot_opp_l by lia.
    destruct (decide (pp = 1)) as [->|Hpp1].
    + simpl. change (wrap64 0) with 0. simpl. lia.
    + rewrite Z.quot_small by lia. change (wrap64 (- 0 + 1)) with 1. simpl. lia.
  - rewrite Z.quot_div_nonneg by lia.
    pose proof (Z.div_pos (t - 1) pp). pose proof (Z.mul_div_le (t - 1) pp).
    pose proof (Z.mul_succ_div_gt (t - 1) pp).
    assert ((t - 1) / pp ≤ t - 1) by (apply Z.div_le_upper_bound; nia).
    rewrite wrap64_id by (unfold in_int64, min_int64, max_int64; lia).
    case_decide; nia.
Qed.

Lemma validatePage_ret pp t ptr page :
  1 ≤ pp → 0 ≤ t ≤ max_int64 → validatePage ptr pp t = Ret page →
  1 ≤ page ≤ page_count pp t.
Proof.
  intros Hpp Ht. pose proof (page_count_spec pp t Hpp Ht). unfold validatePage.
  rewrite decide_False by lia. destruct ptr as [p|]; [|intros [= <-]; lia].
  case_decide; [done|]. intros [= <-]. lia.
Qed.

(** Inside the page range nothing overflows. *)
Lemma validateSkipCount_id pp t page :
  1 ≤ pp ≤ maxPerPage → 0 ≤ t ≤ max_int64 → 1 ≤ page ≤ page_count pp t →
  validateSkipCount page pp = (page - 1) * pp ∧ (page - 1) * pp ≤ t.
Proof.
  intros Hpp Ht Hp. destruct (page_count_spec pp t ltac:(lia) Ht) as (H1 & H2 & H3 & H4).
  unfold max_int64 in Ht. assert ((page - 1) * pp ≤ t) by (destruct (decide (t = 0)); nia).
  unfold validateSkipCount.
  rewrite (wrap64_id (page - 1)) by (unfold in_int64, min_int64, max_int64; nia).
  rewrite wrap64_id by (unfold in_int64, min_int64, max_int64; nia).
  case_decide; [nia | done].
Qed.

Lemma page_window_ret ptr pptr t skip size :
  0 ≤ t ≤ max_int64 → page_window ptr pptr t = Ret (skip, size) →
  ∃ page, 1 ≤ page ≤ page_count (validatePerPage pptr) t ∧
    (∀ p, ptr = Some p → page = p) ∧ (ptr = None → page = 1) ∧
    skip = (page - 1) * validatePerPage pptr ∧
    size = Z.min (validatePerPage pptr) (t - skip) ∧
    0 ≤ skip ∧ 0 ≤ size ∧ skip + size ≤ t.
Proof.
  intros Ht H. pose proof (validatePerPage_range pptr) as Hpp.
  unfold page_window in H. apply outcome_bind_ret in H as (page & Hpage & H).
  pose proof (validatePage_ret _ _ _ _ (proj1 Hpp) Ht Hpage) as Hrange.
  destruct (validateSkipCount_id _ _ _ Hpp Ht Hrange) as [Hskip Hle].
  assert (0 ≤ (page - 1) * validatePerPage pptr) by (apply Z.mul_nonneg_nonneg; lia).
  rewrite Hskip in H. unfold max_int64 in Ht.
  rewrite wrap64_id in H by (unfold in_int64, min_int64, max_int64; lia). simplify_eq.
  exists page. unfold validatePage in Hpage. rewrite decide_False in Hpage by lia.
  split_and!; try lia; destruct ptr as [p|]; try done; try congruence.
  case_decide; congruence.
Qed.

(** A page cut out of a list, by the page's number. *)
Lemma page_of_number {A} pptr (l : list A) (page : Z) :
  Z.of_nat (length l) ≤ max_int64 →
  1 ≤ page ≤ page_count (validatePerPage pptr) (Z.of_nat (length l)) →
  page_of (Some page) pptr l =
    Ret (take (Z.to_nat (validatePerPage pptr))
           (drop (Z.to_nat ((page - 1) * validatePerPage pptr)) l)).
Proof.
  intros Hmax Hp. set (pp := validatePerPage pptr) in *.
  pose proof (validatePerPage_range pptr) as Hpp. fold pp in Hpp.
  destruct (validateSkipCount_id pp (Z.of_nat (length l)) page Hpp ltac:(lia) Hp) as [Hskip Hle].
  unfold page_of, page_window, validatePage. fold pp.
  rewrite decide_False by lia. rewrite decide_False by lia. simpl. rewrite Hskip.
  unfold max_int64 in Hmax.
  assert (0 ≤ (page - 1) * pp) as Hpos by (apply Z.mul_nonneg_nonneg; lia).
  set (skip := (page - 1) * pp) in *.
  rewrite (wrap64_id (Z.of_nat (length l) - skip)) by (unfold in_int64, min_int64, max_int64; lia).
  rewrite wrap64_id by (unfold in_int64, min_int64, max_int64; lia).
  unfold go_slice. rewrite decide_True by lia. f_equal.
  destruct (decide (pp ≤ Z.of_nat (length l) - skip)).
  - f_equal. lia.
  - rewrite !take_ge; [done | | ]; rewrite length_drop; lia.
Qed.

Lemma concat_chunks {A} (k n : nat) (l : list A) :
  (length l ≤ n * k)%nat →
  concat ((λ i, take k (drop (i * k) l)) <$> seq 0 n) = l.
Proof.
  revert l. induction n as [|n IH]; intros l Hl; simpl.
  - destruct l; [done | simpl in *; lia].
  - rewrite drop_0. rewrite <-fmap_S_seq, <-list_fmap_compose.
    rewrite (list_fmap_ext _ (λ i, take k (drop (i * k) (drop k l)))).
    + rewrite IH; [apply take_drop|]. rewrite length_drop. lia.
    + intros i x _. simpl. by rewrite drop_drop.
Qed.

(** ** Theorems *)

(** C38 [getHeight] answers the latest height when none is asked for, the height
    asked for exactly when it lies between 1 and the latest, and one of its two
    errors otherwise. *)
Theorem getHeight_spec (latest : Z) (ptr : option Z) :
  match ptr with
  | None => getHeight latest ptr = Ret latest
  | Some h =>
      (getHeight latest ptr = Ret h ↔ 1 ≤ h ≤ latest) ∧
      (h ≤ 0 → getHeight latest ptr = Err (Errorf "height must be greater than 0, but got %d" [AInt h])) ∧
      (1 ≤ h → latest < h → getHeight latest ptr =
         Err (Errorf "height %d must be less than or equal to the current blockchain height %d"
                [AInt h; AInt latest]))
  end.
Proof.
  destruct ptr as [h|]; [|done]. unfold getHeight.
  split_and!; intros; repeat case_decide; (done || lia || (split; [done || lia | lia || done])).
Qed.

(** C22 For every list whose length fits in 64 bits and every page and page size a
    client may send (any integers), a paginated request either answers a page of at
    most [maxPerPage] entries taken from the list, or the page-range error, the
    latter exactly when the page asked for is outside 1 to the number of pages; it
    never panics, neither on the page size nor on a slice bound.  The window it
    answers from has not wrapped around: it starts at the exact product of page
    size and pages before it, and its end is within the list. *)
Theorem page_of_total {A} (ptr pptr : option Z) (l : list A)
    (Hlen : Z.of_nat (length l) ≤ max_int64) :
  let pages := page_count (validatePerPage pptr) (Z.of_nat (length l)) in
  match page_of ptr pptr l with
  | Ret v => Z.of_nat (length v) ≤ maxPerPage ∧
      (∀ p, ptr = Some p → 1 ≤ p ≤ pages) ∧
      let skip := (default 1 ptr - 1) * validatePerPage pptr in
      page_window ptr pptr (Z.of_nat (length l)) = Ret (skip, Z.of_nat (length v)) ∧
      0 ≤ skip ∧ skip + Z.of_nat (length v) ≤ Z.of_nat (length l) ∧
      ∃ pre post, l = pre ++ v ++ post ∧ Z.of_nat (length pre) = skip
  | Err e => ∃ p, ptr = Some p ∧ ¬ (1 ≤ p ≤ pages) ∧
      e = Errorf "page should be within [1, %d] range, given %d" [AInt pages; AInt p]
  | Panic _ | Blocked => False
  end.
Proof.
  pose proof (validatePerPage_range pptr) as Hpp. cbv zeta.
  destruct (page_window ptr pptr (Z.of_nat (length l))) as [[skip size]|e|pv|] eqn:Hw.
  - destruct (page_window_ret _ _ _ _ _ (conj (Nat2Z.is_nonneg _) Hlen) Hw)
      as (page & Hrange & Hsome & Hnone & Hskip & Hsize & H0 & H1 & H2).
    assert (default 1 ptr = page) as Hdef by (destruct ptr; [symmetry; by apply Hsome | by rewrite Hnone]).
    unfold page_of. rewrite Hw. simpl. unfold max_int64 in Hlen.
    rewrite wrap64_id by (unfold in_int64, min_int64, max_int64; lia).
    unfold go_slice. rewrite decide_True by lia. rewrite Hdef, <-Hskip.
    assert (Z.of_nat (length (take (Z.to_nat (skip + size - skip)) (drop (Z.to_nat skip) l))) = size)
      as Hv by (rewrite length_take, length_drop; lia).
    rewrite Hv. split_and!; [unfold maxPerPage in *; lia | intros p ->; by rewrite <-(Hsome p) | done | lia | lia |].
    exists (take (Z.to_nat skip) l), (drop (Z.to_nat (skip + size - skip)) (drop (Z.to_nat skip) l)).
    split; [by rewrite !take_drop | rewrite length_take; lia].
  - unfold page_of. rewrite Hw. simpl. unfold page_window, validatePage in Hw.
    rewrite decide_False in Hw by lia. destruct ptr as [p|]; [|done].
    case_decide; [|done]. simpl in Hw. simplify_eq. exists p. split_and!; [done | lia | done].
  - unfold page_window, validatePage in Hw. rewrite decide_False in Hw by lia.
    destruct ptr as [p|]; [case_decide|]; done.
  - unfold page_window, validatePage in Hw. rewrite decide_False in Hw by lia.
    destruct ptr as [p|]; [case_decide|]; done.
Qed.

Lemma page_of_total_witness :
  page_of (Some 3) (Some 2) [1; 2; 3; 4; 5] = Ret [5] ∧
  page_of (Some 4) (Some 2) [1; 2; 3; 4; 5] =
    Err (Errorf "page should be within [1, %d] range, given %d" [AInt 3; AInt 4]) ∧
  (∃ pre post, [1; 2; 3; 4; 5] = pre ++ [5] ++ post ∧ Z.of_nat (length pre) = 4).
Proof.
  pose proof (page_of_total (Some 3) (Some 2) [1; 2; 3; 4; 5] ltac:(done)) as E. cbv zeta in E.
  assert (page_of (Some 3) (Some 2) [1; 2; 3; 4; 5] = Ret [5]) as Hp by (vm_compute; reflexivity).
  rewrite Hp in E. split; [exact Hp|]. split; [vm_compute; reflexivity|].
  exact (proj2 (proj2 (proj2 (proj2 (proj2 E))))).
Defined.

(** C23 The pages partition the list: for any page size a client may send, each
    page from 1 to the number of pages is answered, and the pages one after
    another are the whole list, in order, without gap or overlap. *)
Theorem pages_partition {A} (pptr : option Z) (l : list A)
    (Hlen : Z.of_nat (length l) ≤ max_int64) :
  ∃ vs : list (list A),
    Z.of_nat (length vs) = page_count (validatePerPage pptr) (Z.of_nat (length l)) ∧
    (∀ i v, vs !! i = Some v → page_of (Some (Z.of_nat i + 1)) pptr l = Ret v) ∧
    concat vs = l.
Proof.
  pose proof (validatePerPage_range pptr) as Hpp.
  destruct (page_count_spec (validatePerPage pptr) (Z.of_nat (length l))) as (H1 & H2 & _); [lia | lia |].
  set (n := page_count _ _) in *. set (k := Z.to_nat (validatePerPage pptr)).
  exists ((λ i, take k (drop (i * k) l)) <$> seq 0 (Z.to_nat n)). split_and!.
  - rewrite length_fmap, length_seq. lia.
  - intros i v Hi. rewrite list_lookup_fmap in Hi. apply fmap_Some in Hi as (j & Hj & ->).
    apply lookup_seq in Hj as [-> Hi]. rewrite page_of_number by lia. f_equal. f_equal. f_equal. lia.
  - apply concat_chunks. nia.
Qed.

Lemma pages_partition_witness :
  page_of (Some 1) (Some 2) [1; 2; 3] = Ret [1; 2] ∧ page_of (Some 2) (Some 2) [1; 2; 3] = Ret [3] ∧
  ∃ vs : list (list Z),
    Z.of_nat (length vs) = page_count (validatePerPage (Some 2)) 3 ∧ concat vs = [1; 2; 3].
Proof.
  split; [vm_compute; reflexivity|]. split; [vm_compute; reflexivity|].
  destruct (pages_partition (Some 2) [1; 2; 3] ltac:(done)) as (vs & Hn & _ & Hc).
  exists vs. split; [exact Hn | exact Hc].
Defined.
