(* ===== verification/Routes.v ===== *)
(** * rpc_server/routes.go, part 2: the endpoints

    One definition per route function.  [abci_client.GlobalClient] is the
    process state; a handler that panics is answered with an error by the RPC
    library, which recovers, so the process goes on from the state the panic
    left.  A function that returns both a result and an error is answered with
    the error: the result is dropped here too.  Events indexed for queries, the
    query parser and node identifiers are outside code ([RpcOps]). *)

From S2P Require Import Prelude.
From S2P Require Import CometTypes.
From S2P Require Import Storage.
From S2P Require Import TimeHandler.
From S2P Require Import Utils.
From S2P Require Import Client.
From S2P Require Import UpdateState.
From S2P Require Import Evidence.
From S2P Require Import RunBlock.
From S2P Require Import Pagination.
#[local] Open Scope Z_scope.

(** ** Outside code *)

Class RpcOps `{CometTypes} := {
  (** [cmtquery.New] *)
  query_New : string → outcome Query;
  (** the indexes, written by the indexer service as events reach it *)
  env_BlockSearch : list io_event → Query → outcome (list Z);
  env_TxSearch : list io_event → Query → outcome (list TxResult);
  env_TxGet : list io_event → bytes → outcome (option TxResult);
  (** [types.TxProof{}] *)
  zero_TxProof : TxProof;
  (** [p2p.PubKeyToID], [version.P2PProtocol] *)
  PubKeyToID : PubKey → string;
  P2PProtocol : Z;
}.

(** ** Results *)

Section results.
Context {CT : CometTypes}.

Record ResultBlock := mkResultBlock { rb_BlockID : BlockID; rb_Block : Block }.
Record ResultBlockSearch := mkResultBlockSearch {
  rbs_Blocks : list ResultBlock;
  rbs_TotalCount : Z }.
Record ResultTx := mkResultTx {
  rt_Hash : bytes;
  rt_Height : Z;
  rt_Index : Z;
  rt_TxResult : ExecTxResult;
  rt_Tx : bytes;
  rt_Proof : TxProof }.
Record ResultTxSearch := mkResultTxSearch {
  rts_Txs : list ResultTx;
  rts_TotalCount : Z }.
Record ResultCommit := mkResultCommit {
  rc_SignedHeader : SignedHeader;
  rc_CanonicalCommit : bool }.
Record ResultConsensusParams := mkResultConsensusParams {
  rcp_BlockHeight : Z;
  rcp_ConsensusParams : ConsensusParams }.
Record ResultValidators := mkResultValidators {
  rv_BlockHeight : Z;
  rv_Validators : list Validator;
  rv_Count : Z;
  rv_Total : Z }.
Record ResultBlockResults := mkResultBlockResults {
  rbr_Height : Z;
  rbr_TxsResults : list ExecTxResult;
  rbr_FinalizeBlockEvents : list AbciEvent;
  rbr_ValidatorUpdates : list ValidatorUpdate;
  rbr_ConsensusParamUpdates : option ConsensusParamsProto }.
Record ResultBroadcastTx := mkResultBroadcastTx {
  rbt_Code : Z;
  rbt_Data : bytes;
  rbt_Log : string;
  rbt_Codespace : string;
  rbt_Hash : bytes }.
Record ResultBroadcastTxCommit := mkResultBroadcastTxCommit {
  rbc_CheckTx : ResponseCheckTx;
  rbc_Hash : bytes;
  rbc_Height : Z }.
Record ResultStatus := mkResultStatus {
  rs_DefaultNodeID : string;
  rs_Network : string;
  rs_ProtocolVersion : Z * Z * Z;
  rs_LatestBlockHash : bytes;
  rs_LatestAppHash : bytes;
  rs_LatestBlockHeight : Z;
  rs_LatestBlockTime : Z;
  rs_CatchingUp : bool;
  rs_Address : bytes;
  rs_PubKey : PubKey;
  rs_VotingPower : Z }.
End results.

(** ** Sorting

    [sort.Slice] permutes the slice so that it is sorted by the given order. *)
Definition desc_Z (a b : Z) : Prop := b ≤ a.
#[export] Instance desc_Z_dec : RelDecision desc_Z.
Proof. intros a b. unfold desc_Z. apply _. Defined.

Section tx_order.
Context {CT : CometTypes}.

(** by height, then by index *)
Definition tx_asc (a b : TxResult) : Prop :=
  tr_Height a < tr_Height b ∨ tr_Height a = tr_Height b ∧ tr_Index a ≤ tr_Index b.
Definition tx_desc (a b : TxResult) : Prop := tx_asc b a.
#[export] Instance tx_asc_dec : RelDecision tx_asc.
Proof. intros a b. unfold tx_asc. apply _. Defined.
#[export] Instance tx_desc_dec : RelDecision tx_desc.
Proof. intros a b. unfold tx_desc. apply _. Defined.
End tx_order.

Definition bad_order : error :=
  ExtErr "expected order_by to be either `asc` or `desc` or empty".

(** The two searches differ in their default. *)
Definition sort_heights (orderBy : string) (results : list Z) : outcome (list Z) :=
  if decide (orderBy = "desc" ∨ orderBy = "") then Ret (merge_sort desc_Z results)
  else if decide (orderBy = "asc") then Ret (merge_sort Z.le results)
  else Err bad_order.

Definition sort_txs {CT : CometTypes} (orderBy : string) (results : list TxResult)
  : outcome (list TxResult) :=
  if decide (orderBy = "desc") then Ret (merge_sort tx_desc results)
  else if decide (orderBy = "asc" ∨ orderBy = "") then Ret (merge_sort tx_asc results)
  else Err bad_order.

Definition maxQueryLength : Z := 512.

(** ** Endpoints *)

Section routes.
Context {CT : CometTypes} {CO : CometOps} {EN : Env} {RO : RpcOps} {ST TH : Type}.
Context {SO : StorageOps ST} {TO : TimeHandlerOps TH}.
#[local] Abbreviation Sys := (Sys ST TH).

(** *** CometMock's own *)

Definition Route_CauseLightClientAttack (privateKeyAddress misbehaviourType : string) : M Sys unit :=
  CauseLightClientAttack privateKeyAddress misbehaviourType.

Definition Route_CauseDoubleSign (privateKeyAddress : string) : M Sys unit :=
  CauseDoubleSign privateKeyAddress.

(** [duration_in_seconds * time.Second], in 64 bits *)
Definition Route_AdvanceTime (duration_in_seconds : Z) : M Sys Z :=
  if decide (duration_in_seconds < 0) then
    throw (ExtErr "duration to advance time by must be greater than 0")
  else
    now ← time_now;
    h ← cl Time_Handler;
    let '(t, h') := AdvanceTime now (wrap64 (duration_in_seconds * 1000000000)) h in
    upd (set_Time_Handler h') ;;
    mret t.

Definition Route_SetSigningStatus (privateKeyAddress status : string) : M Sys (gmap string bool) :=
  if decide (status ≠ "down" ∧ status ≠ "up") then
    throw (ExtErr "status must be either `up` to have the validator sign, or `down` to have the validator not sign")
  else
    err ← try_ (SetSigningStatus privateKeyAddress (bool_decide (status = "up")));
    newMap ← GetSigningStatusMap;
    match err with inl e => throw e | inr _ => mret newMap end.

Definition Route_AdvanceBlocks (numBlocks : Z) : M Sys unit :=
  if decide (numBlocks < 1) then throw (ExtErr "num_blocks must be greater than 0")
  else RunEmptyBlocks numBlocks.

(** *** Searches *)

Definition index_call {A} (f : list io_event → outcome A) : M Sys A := call_env IoIndex f.

Definition nth_result {A} (l : list A) (i : Z) : M Sys A :=
  match l !! Z.to_nat i with
  | Some x => if decide (0 ≤ i) then mret x else panic IndexOutOfRange
  | None => panic IndexOutOfRange
  end.

(** [for i := skipCount; i < skipCount+pageSize; i++] over the page, with the bound
    in 64 bits; a negative [pageSize] would make [make] panic. *)
Definition page_loop {A B} (f : A → M Sys B) (l : list A) (skipCount pageSize : Z) : M Sys (list B) :=
  if decide (pageSize < 0) then panic (PanicMsg "makeslice: cap out of range")
  else collect (λ _ i, x ← nth_result l i; f x)
         (seqZ skipCount (wrap64 (skipCount + pageSize) - skipCount)).

Definition block_result (height : Z) : M Sys ResultBlock :=
  block ← on_storage (GetBlock height);
  blockId ← liftO (GetBlockIdFromBlock block);
  mret {| rb_BlockID := blockId; rb_Block := block |}.

Definition BlockSearch (query : string) (pagePtr perPagePtr : option Z) (orderBy : string)
  : M Sys ResultBlockSearch :=
  q ← liftO (query_New query);
  results ← index_call (λ h, env_BlockSearch h q);
  results ← liftO (sort_heights orderBy results);
  let totalCount := Z.of_nat (length results) in
  '(skipCount, pageSize) ← liftO (page_window pagePtr perPagePtr totalCount);
  apiResults ← page_loop block_result results skipCount pageSize;
  mret {| rbs_Blocks := apiResults; rbs_TotalCount := totalCount |}.

(** The proof, if asked for, of the transaction in its block. *)
Definition tx_proof (prove : bool) (r : TxResult) : M Sys TxProof :=
  if prove then
    block ← on_storage (GetBlock (tr_Height r));
    liftO (Txs_Proof (blk_Txs block) (tr_Index r))
  else mret zero_TxProof.

Definition Tx (hash : bytes) (prove : bool) : M Sys ResultTx :=
  r ← index_call (λ h, env_TxGet h hash);
  match r with
  | None => throw (Errorf "tx (%X) not found" [AStr hash])
  | Some r =>
      proof ← tx_proof prove r;
      mret {| rt_Hash := hash; rt_Height := tr_Height r; rt_Index := tr_Index r;
              rt_TxResult := tr_Result r; rt_Tx := tr_Tx r; rt_Proof := proof |}
  end.

Definition TxSearch (query : string) (prove : bool) (pagePtr perPagePtr : option Z)
    (orderBy : string) : M Sys ResultTxSearch :=
  if decide (maxQueryLength < Z.of_nat (String.length query)) then
    throw (ExtErr "maximum query length exceeded")
  else
    q ← liftO (query_New query);
    results ← index_call (λ h, env_TxSearch h q);
    results ← liftO (sort_txs orderBy results);
    let totalCount := Z.of_nat (length results) in
    '(skipCount, pageSize) ← liftO (page_window pagePtr perPagePtr totalCount);
    apiResults ← page_loop (λ r,
      proof ← tx_proof prove r;
      mret {| rt_Hash := Tx_Hash (tr_Tx r); rt_Height := tr_Height r; rt_Index := tr_Index r;
              rt_TxResult := tr_Result r; rt_Tx := tr_Tx r; rt_Proof := proof |})
      results skipCount pageSize;
    mret {| rts_Txs := apiResults; rts_TotalCount := totalCount |}.

(** *** Reads by height *)

Definition height_arg (heightPtr : option Z) : M Sys Z :=
  latest ← cl (λ a, hdr_Height (blk_Header (LastBlock a)));
  liftO (getHeight latest heightPtr).

Definition Route_Commit (heightPtr : option Z) : M Sys ResultCommit :=
  height ← height_arg heightPtr;
  commit ← on_storage (GetCommit height);
  block ← on_storage (GetBlock height);
  mret {| rc_SignedHeader := {| sh_Header := blk_Header block; sh_Commit := commit |};
          rc_CanonicalCommit := true |}.

Definition Route_ConsensusParams (heightPtr : option Z) : M Sys ResultConsensusParams :=
  height ← height_arg heightPtr;
  stateForHeight ← on_storage (GetState height);
  mret {| rcp_BlockHeight := height;
          rcp_ConsensusParams := st_ConsensusParams stateForHeight |}.

Definition Validators (heightPtr pagePtr perPagePtr : option Z) : M Sys ResultValidators :=
  height ← height_arg heightPtr;
  pastState ← on_storage (GetState height);
  let validators := vs_Validators (st_Validators pastState) in
  let totalCount := Z.of_nat (length validators) in
  v ← liftO (page_of pagePtr perPagePtr validators);
  mret {| rv_BlockHeight := height; rv_Validators := v;
          rv_Count := Z.of_nat (length v); rv_Total := totalCount |}.

Definition Route_Block (heightPtr : option Z) : M Sys ResultBlock :=
  height ← height_arg heightPtr;
  block_result height.

Definition BlockResults (heightPtr : option Z) : M Sys ResultBlockResults :=
  height ← height_arg heightPtr;
  results ← on_storage (GetResponses height);
  mret {| rbr_Height := height;
          rbr_TxsResults := rsf_TxResults results;
          rbr_FinalizeBlockEvents := rsf_Events results;
          rbr_ValidatorUpdates := rsf_ValidatorUpdates results;
          rbr_ConsensusParamUpdates := rsf_ConsensusParamUpdates results |}.

(** *** Status *)

Definition Status : M Sys ResultStatus :=
  curState ← cl CurState;
  lastBlock ← cl LastBlock;
  match vs_Validators (st_Validators curState) with
  | [] => panic IndexOutOfRange
  | validator :: _ =>
      mret {| rs_DefaultNodeID := PubKeyToID (val_PubKey validator);
              rs_Network := st_ChainID curState;
              rs_ProtocolVersion := (P2PProtocol, ver_Block (st_Version curState),
                                     ver_App (st_Version curState));
              rs_LatestBlockHash := Block_Hash lastBlock;
              rs_LatestAppHash := hdr_AppHash (blk_Header lastBlock);
              rs_LatestBlockHeight := hdr_Height (blk_Header lastBlock);
              rs_LatestBlockTime := st_LastBlockTime curState;
              rs_CatchingUp := false;
              rs_Address := val_Address validator;
              rs_PubKey := val_PubKey validator;
              rs_VotingPower := val_VotingPower validator |}
  end.

Definition Health : M Sys unit := mret tt.

(** *** Transactions *)

Definition BroadcastTxCommit (tx : bytes) : M Sys ResultBroadcastTxCommit :=
  throw (ExtErr "BroadcastTxCommit is currently not supported. Try BroadcastTxSync or BroadcastTxAsync instead").

(** [go a.RunBlock()] is recorded; Goroutines.v has the goroutine that it starts. *)
Definition go_RunBlock : M Sys unit := call_env IoGoRunBlock (λ _, Ret tt).

Definition BroadcastTx (tx : bytes) : M Sys ResultBroadcastTxCommit :=
  checkTxResponse ← SendCheckTx CheckTxType_New tx;
  QueueTx tx ;;
  auto ← cl AutoIncludeTx;
  (if (auto : bool) then go_RunBlock else mret tt) ;;
  height ← cl (λ a, st_LastBlockHeight (CurState a));
  mret {| rbc_CheckTx := checkTxResponse; rbc_Hash := Tx_Hash tx; rbc_Height := height |}.

Definition BroadcastTxSync (tx : bytes) : M Sys ResultBroadcastTx :=
  r ← BroadcastTx tx;
  mret {| rbt_Code := rsc_Code (rbc_CheckTx r);
          rbt_Data := rsc_Data (rbc_CheckTx r);
          rbt_Log := rsc_Log (rbc_CheckTx r);
          rbt_Codespace := rsc_Codespace (rbc_CheckTx r);
          rbt_Hash := rbc_Hash r |}.

Definition BroadcastTxAsync (tx : bytes) : M Sys ResultBroadcastTx :=
  BroadcastTx tx ;;
  mret {| rbt_Code := 0; rbt_Data := ""; rbt_Log := ""; rbt_Codespace := ""; rbt_Hash := "" |}.

(** *** ABCI *)

(** The response is dereferenced whatever the error: nil if there is one. *)
Definition ABCIInfo : M Sys ResponseInfo :=
  r ← try_ SendAbciInfo;
  match r with
  | inl _ => panic NilDereference
  | inr response => mret response
  end.

Definition ABCIQuery (path : string) (data : bytes) (height : Z) (prove : bool) : M Sys ResponseQuery :=
  SendAbciQuery data path height prove.
End routes.

(** ** The table [Routes]

    A request names a route and carries its arguments; [serve] calls the route's
    function.  (The three websocket routes are in Websocket.v.) *)

Section table.
Context {CT : CometTypes}.

Inductive rpc_request :=
  | RpcHealth
  | RpcStatus
  | RpcValidators (height page per_page : option Z)
  | RpcBlock (height : option Z)
  | RpcConsensusParams (height : option Z)
  | RpcCommit (height : option Z)
  | RpcBlockResults (height : option Z)
  | RpcTx (hash : bytes) (prove : bool)
  | RpcTxSearch (query : string) (prove : bool) (page per_page : option Z) (order_by : string)
  | RpcBlockSearch (query : string) (page per_page : option Z) (order_by : string)
  | RpcBroadcastTxCommit (tx : bytes)
  | RpcBroadcastTxSync (tx : bytes)
  | RpcBroadcastTxAsync (tx : bytes)
  | RpcABCIQuery (path : string) (data : bytes) (height : Z) (prove : bool)
  | RpcABCIInfo
  | RpcAdvanceBlocks (num_blocks : Z)
  | RpcSetSigningStatus (private_key_address status : string)
  | RpcAdvanceTime (duration_in_seconds : Z)
  | RpcCauseDoubleSign (private_key_address : string)
  | RpcCauseLightClientAttack (private_key_address misbehaviour_type : string).

Inductive rpc_response :=
  | AnsEmpty
  | AnsStatus (r : ResultStatus)
  | AnsValidators (r : ResultValidators)
  | AnsBlock (r : ResultBlock)
  | AnsConsensusParams (r : ResultConsensusParams)
  | AnsCommit (r : ResultCommit)
  | AnsBlockResults (r : ResultBlockResults)
  | AnsTx (r : ResultTx)
  | AnsTxSearch (r : ResultTxSearch)
  | AnsBlockSearch (r : ResultBlockSearch)
  | AnsBroadcastTx (r : ResultBroadcastTx)
  | AnsBroadcastTxCommit (r : ResultBroadcastTxCommit)
  | AnsABCIQuery (r : ResponseQuery)
  | AnsABCIInfo (r : ResponseInfo)
  | AnsSigningStatus (r : gmap string bool)
  | AnsTime (t : Z).

(** The info, search and ABCI routes. *)
Definition is_query (r : rpc_request) : bool :=
  match r with
  | RpcBroadcastTxSync _ | RpcBroadcastTxAsync _ | RpcAdvanceBlocks _ | RpcSetSigningStatus _ _
  | RpcAdvanceTime _ | RpcCauseDoubleSign _ | RpcCauseLightClientAttack _ _ => false
  | _ => true
  end.

Context {CO : CometOps} {EN : Env} {RO : RpcOps} {ST TH : Type}.
Context {SO : StorageOps ST} {TO : TimeHandlerOps TH}.

Definition answer {A} (f : A → rpc_response) (m : M (Sys ST TH) A) : M (Sys ST TH) rpc_response :=
  r ← m; mret (f r).
Definition empty (_ : unit) : rpc_response := AnsEmpty.

Definition Routes (r : rpc_request) : M (Sys ST TH) rpc_response :=
  match r with
  | RpcHealth => answer empty Health
  | RpcStatus => answer AnsStatus Status
  | RpcValidators h p pp => answer AnsValidators (Validators h p pp)
  | RpcBlock h => answer AnsBlock (Route_Block h)
  | RpcConsensusParams h => answer AnsConsensusParams (Route_ConsensusParams h)
  | RpcCommit h => answer AnsCommit (Route_Commit h)
  | RpcBlockResults h => answer AnsBlockResults (BlockResults h)
  | RpcTx hash prove => answer AnsTx (Tx hash prove)
  | RpcTxSearch q prove p pp o => answer AnsTxSearch (TxSearch q prove p pp o)
  | RpcBlockSearch q p pp o => answer AnsBlockSearch (BlockSearch q p pp o)
  | RpcBroadcastTxCommit tx => answer AnsBroadcastTxCommit (BroadcastTxCommit tx)
  | RpcBroadcastTxSync tx => answer AnsBroadcastTx (BroadcastTxSync tx)
  | RpcBroadcastTxAsync tx => answer AnsBroadcastTx (BroadcastTxAsync tx)
  | RpcABCIQuery path data h prove => answer AnsABCIQuery (ABCIQuery path data h prove)
  | RpcABCIInfo => answer AnsABCIInfo ABCIInfo
  | RpcAdvanceBlocks n => answer empty (Route_AdvanceBlocks n)
  | RpcSetSigningStatus a st => answer AnsSigningStatus (Route_SetSigningStatus a st)
  | RpcAdvanceTime d => answer AnsTime (Route_AdvanceTime d)
  | RpcCauseDoubleSign a => answer empty (Route_CauseDoubleSign a)
  | RpcCauseLightClientAttack a t => answer empty (Route_CauseLightClientAttack a t)
  end.

(** The library's handler: a panic is recovered and answered as an error. *)
Definition serve (r : rpc_request) : M (Sys ST TH) rpc_response := λ s,
  match Routes r s with
  | (Panic _, s') => (Err (ExtErr "Internal error"), s')
  | x => x
  end.
End table.
