(* ===== verification/RoutesProps.v ===== *)
(** * Theorems about the RPC endpoints *)

From S2P Require Import Prelude.
From S2P Require Import CometTypes.
From S2P Require Import Toy.
From S2P Require Import Storage.
From S2P Require Import TimeHandler.
From S2P Require Import Utils.
From S2P Require Import Client.
From S2P Require Import UpdateState.
From S2P Require Import Evidence.
From S2P Require Import RunBlock.
From S2P Require Import Example.
From S2P Require Import Frames.
From S2P Require Import RunBlockSpec.
From S2P Require Import UpdateSpec.
From S2P Require Import Chain.
From S2P Require Import RunBlockProps.
From S2P Require Import Pagination.
From S2P Require Import Routes.
#[local] Open Scope Z_scope.

(** ** Queries change nothing *)

Section frames.
Context {CT : CometTypes} {CO : CometOps} {EN : Env} {RO : RpcOps} {ST TH : Type}.
Context {SO : StorageOps ST} {SL : StorageLaws ST} {TO : TimeHandlerOps TH}.
#[local] Abbreviation Sys := (Sys ST TH).
Implicit Types s : Sys.

Lemma within_read_block q lc h : within (frame q lc) (on_storage (GetBlock h) : M Sys _).
Proof. apply (within_on_storage_get _ _ _ e_block "block"), GetBlock_law. Qed.
Lemma within_read_commit q lc h : within (frame q lc) (on_storage (GetCommit h) : M Sys _).
Proof. apply (within_on_storage_get _ _ _ e_commit "commit"), GetCommit_law. Qed.
Lemma within_read_state q lc h : within (frame q lc) (on_storage (GetState h) : M Sys _).
Proof. apply (within_on_storage_get _ _ _ e_state "state"), GetState_law. Qed.
Lemma within_read_responses q lc h : within (frame q lc) (on_storage (GetResponses h) : M Sys _).
Proof. apply (within_on_storage_get _ _ _ e_responses "responses"), GetResponses_law. Qed.
#[local] Hint Resolve within_read_block within_read_commit within_read_state
  within_read_responses : within.

Lemma within_height_arg q lc h : within (frame q lc) (height_arg h : M Sys _).
Proof. unfold height_arg. within_auto. Qed.
Lemma within_tx_proof q lc b r : within (frame q lc) (tx_proof b r : M Sys _).
Proof. unfold tx_proof. within_auto. Qed.
Lemma within_block_result q lc h : within (frame q lc) (block_result h : M Sys _).
Proof. unfold block_result. within_auto. Qed.
Lemma within_index_call {A} q lc (f : list io_event → outcome A) :
  within (frame q lc) (index_call f : M Sys A).
Proof. apply within_call_env. Qed.
#[local] Hint Resolve within_height_arg within_tx_proof within_block_result within_index_call : within.

Lemma within_page_loop {A B} q lc (f : A → M Sys B) l i n :
  (∀ x, within (frame q lc) (f x)) → within (frame q lc) (page_loop f l i n).
Proof.
  intros Hf. unfold page_loop, nth_result. within_auto; auto.
Qed.

Lemma within_queries q lc (r : rpc_request) :
  is_query r = true → within (frame q lc) (Routes r : M Sys _).
Proof.
  destruct r; try done; intros _; unfold Routes, answer;
    (apply within_bind; [apply _ | | intros; apply within_ret, _]).
  - unfold Health. within_auto.
  - unfold Status. within_auto.
  - unfold Validators. within_auto.
  - unfold Route_Block. within_auto.
  - unfold Route_ConsensusParams. within_auto.
  - unfold Route_Commit. within_auto.
  - unfold BlockResults. within_auto.
  - unfold Tx. within_auto.
  - unfold TxSearch. within_auto. apply within_page_loop. intros. within_auto.
  - unfold BlockSearch. within_auto. apply within_page_loop. intros. within_auto.
  - unfold BroadcastTxCommit. within_auto.
  - unfold ABCIQuery, SendAbciQuery. apply within_send_all. intros. within_auto.
  - unfold ABCIInfo. within_auto. unfold SendAbciInfo. apply within_send_all. intros. within_auto.
Qed.

(** C21 The info, search and ABCI endpoints only read: whether they answer, fail,
    panic or have to wait, afterwards the chain, the queues, the signing status,
    the time handler, the clients and both locks are what they were, and the
    history has only grown. *)
Theorem queries_read_only (r : rpc_request) s (Hq : is_query r = true)
    (Hwf : st_wf (Storage (client s))) :
  let s' := (serve r s).2 in
  abs s' = abs s ∧ FreshTxQueue (client s') = FreshTxQueue (client s) ∧
  StaleTxQueue (client s') = StaleTxQueue (client s) ∧
  signingStatus (client s') = signingStatus (client s) ∧
  Time_Handler (client s') = Time_Handler (client s) ∧
  Clients (client s') = Clients (client s) ∧
  blockMutex s' = blockMutex s ∧
  st_locked (Storage (client s')) = st_locked (Storage (client s)) ∧
  (∃ l, io s' = l ++ io s).
Proof.
  cbv zeta. assert (frame false false s (serve r s).2) as F.
  { pose proof (within_queries false false r Hq s) as F. unfold serve.
    by destruct (Routes r s) as [[] ?]. }
  destruct (fr_Storage _ _ _ _ F Hwf) as (_ & Hl & Hv).
  destruct (fr_queues _ _ _ _ F eq_refl) as [Hf Hst].
  split_and!; try done; try apply F.
  unfold abs. rewrite Hv, (fr_CurState _ _ _ _ F), (fr_LastBlock _ _ _ _ F).
  by rewrite (fr_LastCommit _ _ _ _ F).
Qed.
End frames.

(** ** Reads by height *)

Section heights.
Context {CT : CometTypes} {CO : CometOps} {EN : Env} {RO : RpcOps} {ST TH : Type}.
Context {SO : StorageOps ST} {SL : StorageLaws ST} {TO : TimeHandlerOps TH}.
#[local] Abbreviation Sys := (Sys ST TH).
Implicit Types s : Sys.

(** A read while the storage is not locked. *)
Lemma read_run {A} (get : Z → M ST A) proj what h s :
  get_contract st_wf st_locked st_view get proj what →
  st_wf (Storage (client s)) → st_locked (Storage (client s)) = false →
  ∃ s', on_storage (get h) s = (from_option (λ e, Ret (proj e)) (Err (not_found what h))
      (st_view (Storage (client s)) !! h), s') ∧
    st_wf (Storage (client s')) ∧ st_locked (Storage (client s')) = false ∧
    st_view (Storage (client s')) = st_view (Storage (client s)).
Proof.
  intros Hget Hwf Hl. destruct (Hget h _ Hwf) as (st' & Hrun & Hwf' & Hl' & Hv').
  unfold on_storage. rewrite Hrun, Hl. eexists. split; [reflexivity|].
  split_and!; simpl; congruence || done.
Qed.

(** The part of the process that reads by height look at. *)
Definition readable (s : Sys) (view : gmap Z entry) : Prop :=
  st_wf (Storage (client s)) ∧ st_locked (Storage (client s)) = false ∧
  st_view (Storage (client s)) = view.

Lemma read_stored {A} (get : Z → M ST A) proj what h s view e :
  get_contract st_wf st_locked st_view get proj what → readable s view → view !! h = Some e →
  ∃ s', on_storage (get h) s = (Ret (proj e), s') ∧ readable s' view.
Proof.
  intros Hget (Hwf & Hl & <-) He.
  destruct (read_run get proj what h s Hget Hwf Hl) as (s' & Hrun & ? & ? & ?).
  exists s'. rewrite He in Hrun. done.
Qed.

Lemma height_arg_bind {B} ptr s (k : Z → M Sys B) :
  (height_arg ptr ≫= k) s =
    match getHeight (hdr_Height (blk_Header (LastBlock (client s)))) ptr with
    | Ret h => k h s
    | Err e => (Err e, s) | Panic p => (Panic p, s) | Blocked => (Blocked, s)
    end.
Proof.
  unfold height_arg, cl, gets, liftO, mbind, M_bind. by destruct (getHeight _ _).
Qed.

(** In a well-formed chain every stored block has an identifier, and the last
    block has the current height. *)
Lemma chain_entry_id c h : chain_inv c → 1 ≤ h ≤ st_LastBlockHeight (ch_state c) →
  ∃ e id, ch_entries c !! h = Some e ∧ entry_ok h e ∧ GetBlockIdFromBlock (e_block e) = Ret id.
Proof.
  intros [Hpos Hdom Hentry Hlink Hlast] Hh.
  destruct (proj2 (Hdom h) Hh) as [e He].
  destruct (decide (h = st_LastBlockHeight (ch_state c))) as [->|Hne].
  - destruct (Hlast e He) as (_ & _ & Hid & _). eauto 6.
  - destruct (proj2 (Hdom (h + 1)) ltac:(lia)) as [e' He'].
    destruct (Hlink h e e' He He') as (_ & Hid & _). eauto 6.
Qed.

Lemma last_height c : chain_inv c → 1 ≤ st_LastBlockHeight (ch_state c) →
  hdr_Height (blk_Header (ch_last c)) = st_LastBlockHeight (ch_state c).
Proof.
  intros Hinv Hpos. destruct (proj2 (ci_dom _ Hinv (st_LastBlockHeight (ch_state c)))) as [e He]; [lia|].
  destruct (ci_last _ Hinv e He) as (<- & _). by destruct (ci_entry _ Hinv _ _ He).
Qed.

Lemma getHeight_ret latest ptr h : 1 ≤ latest → getHeight latest ptr = Ret h → 1 ≤ h ≤ latest.
Proof.
  intros Hl. unfold getHeight. destruct ptr; repeat case_decide; intros; simplify_eq; lia.
Qed.

Definition results_at (h : Z) (r : ResponseFinalizeBlock) : ResultBlockResults :=
  mkResultBlockResults h (rsf_TxResults r) (rsf_Events r) (rsf_ValidatorUpdates r)
    (rsf_ConsensusParamUpdates r).

(** C20 On an idle process with a well-formed chain, the endpoints that take a
    height agree with each other and with the chain: for a height from 1 to the
    current one (the current one if none is given) they answer the stored block
    with its identifier, its header with the commit for it, its results and the
    parameters it was run with.  The validators endpoint shows the requested page
    of the validator set of the state the block was run in, whose size, the total
    it reports, is the number of signature slots of the commit, absent signatures
    included; the error of an impossible page is passed on.  For any other height
    all five answer the same height error. *)
Theorem height_queries (ptr page per_page : option Z) s (Hidle : idle s)
    (Hinv : chain_inv (abs s)) (Hpos : 1 ≤ st_LastBlockHeight (CurState (client s))) :
  match getHeight (st_LastBlockHeight (CurState (client s))) ptr with
  | Ret h => ∃ e id, ch_entries (abs s) !! h = Some e ∧ entry_ok h e ∧
      GetBlockIdFromBlock (e_block e) = Ret id ∧
      (serve (RpcBlock ptr) s).1 = Ret (AnsBlock (mkResultBlock id (e_block e))) ∧
      (serve (RpcCommit ptr) s).1 =
        Ret (AnsCommit (mkResultCommit (mkSignedHeader (blk_Header (e_block e)) (e_commit e)) true)) ∧
      (serve (RpcBlockResults ptr) s).1 = Ret (AnsBlockResults (results_at h (e_responses e))) ∧
      (serve (RpcConsensusParams ptr) s).1 =
        Ret (AnsConsensusParams (mkResultConsensusParams h (st_ConsensusParams (e_state e)))) ∧
      (serve (RpcValidators ptr page per_page) s).1 =
        match page_of page per_page (vs_Validators (st_Validators (e_state e))) with
        | Ret vs => Ret (AnsValidators (mkResultValidators h vs (Z.of_nat (length vs))
            (Z.of_nat (length (cm_Signatures (e_commit e))))))
        | Err err => Err err
        | Panic _ => Err (ExtErr "Internal error")
        | Blocked => Blocked
        end
  | Err err => ∀ r, r ∈ [RpcBlock ptr; RpcCommit ptr; RpcBlockResults ptr; RpcConsensusParams ptr;
      RpcValidators ptr page per_page] → (serve r s).1 = Err err
  | _ => False
  end.
Proof.
  pose proof (last_height _ Hinv Hpos) as Hlast. cbn [abs ch_last ch_state] in Hlast.
  assert (readable s (ch_entries (abs s))) as Hr by (split; [apply Hidle | split; [apply Hidle | done]]).
  destruct (getHeight _ ptr) as [h|err|pv|] eqn:Hh;
    [|intros r Hin; unfold serve, Routes, answer, Route_Block, Route_Commit, BlockResults,
        Route_ConsensusParams, Validators;
      repeat (apply elem_of_cons in Hin as [->|Hin];
        [unfold mbind at 1, M_bind at 1; rewrite height_arg_bind, Hlast, Hh; done|]);
      by apply elem_of_nil in Hin
     |unfold getHeight in Hh; repeat case_match; done..].
  destruct (chain_entry_id (abs s) h Hinv (getHeight_ret _ _ _ Hpos Hh)) as (e & id & He & Hok & Hid).
  exists e, id. split_and!; try done.
  - unfold serve, Routes, answer, Route_Block, block_result. unfold mbind at 1, M_bind at 1.
    rewrite height_arg_bind, Hlast, Hh.
    destruct (read_stored GetBlock e_block "block" h _ _ e GetBlock_law Hr He) as (s0 & R0 & H0).
    rewrite (bind_ret _ _ _ _ _ R0). unfold liftO, mbind, M_bind. by rewrite Hid.
  - unfold serve, Routes, answer, Route_Commit. unfold mbind at 1, M_bind at 1.
    rewrite height_arg_bind, Hlast, Hh.
    destruct (read_stored GetCommit e_commit "commit" h _ _ e GetCommit_law Hr He) as (s0 & R0 & H0).
    rewrite (bind_ret _ _ _ _ _ R0).
    destruct (read_stored GetBlock e_block "block" h _ _ e GetBlock_law H0 He) as (s1 & R1 & H1).
    rewrite (bind_ret _ _ _ _ _ R1). done.
  - unfold serve, Routes, answer, BlockResults. unfold mbind at 1, M_bind at 1.
    rewrite height_arg_bind, Hlast, Hh.
    destruct (read_stored GetResponses e_responses "responses" h _ _ e GetResponses_law Hr He) as (s0 & R0 & H0).
    rewrite (bind_ret _ _ _ _ _ R0). done.
  - unfold serve, Routes, answer, Route_ConsensusParams. unfold mbind at 1, M_bind at 1.
    rewrite height_arg_bind, Hlast, Hh.
    destruct (read_stored GetState e_state "state" h _ _ e GetState_law Hr He) as (s0 & R0 & H0).
    rewrite (bind_ret _ _ _ _ _ R0). done.
  - unfold serve, Routes, answer, Validators. unfold mbind at 1, M_bind at 1.
    rewrite height_arg_bind, Hlast, Hh.
    destruct (read_stored GetState e_state "state" h _ _ e GetState_law Hr He) as (s0 & R0 & H0).
    rewrite (bind_ret _ _ _ _ _ R0). unfold liftO, mbind, M_bind.
    destruct Hok as (_ & _ & _ & ->). by destruct (page_of _ _ _).
Qed.
End heights.

(** ** Searches *)

#[export] Instance desc_Z_total : Total desc_Z.
Proof. intros a b. unfold desc_Z. lia. Qed.

Section sorting.
Context {CT : CometTypes}.

#[export] Instance tx_asc_total : Total tx_asc.
Proof. intros a b. unfold tx_asc. lia. Qed.
#[export] Instance tx_desc_total : Total tx_desc.
Proof. intros a b. unfold tx_desc, tx_asc. lia. Qed.

(** The order asked for; the empty string stands for [default]. *)
Definition order_of {A} (default asc desc : relation A) (orderBy : string) : relation A :=
  if decide (orderBy = "asc") then asc else if decide (orderBy = "desc") then desc else default.

Lemma sort_heights_ret o l l' : sort_heights o l = Ret l' →
  l' ≡ₚ l ∧ Sorted (order_of desc_Z Z.le desc_Z o) l'.
Proof.
  unfold sort_heights, order_of. intros H. repeat case_decide; simplify_eq;
    (split; [apply merge_sort_Permutation | apply Sorted_merge_sort; apply _]) || (exfalso; intuition congruence).
Qed.

Lemma sort_txs_ret o l l' : sort_txs o l = Ret l' →
  l' ≡ₚ l ∧ Sorted (order_of tx_asc tx_asc tx_desc o) l'.
Proof.
  unfold sort_txs, order_of. intros H. repeat case_decide; simplify_eq;
    (split; [apply merge_sort_Permutation | apply Sorted_merge_sort; apply _]) || (exfalso; intuition congruence).
Qed.
End sorting.

Section searches.
Context {CT : CometTypes} {CO : CometOps} {EN : Env} {RO : RpcOps} {ST TH : Type}.
Context {SO : StorageOps ST} {SL : StorageLaws ST} {TO : TimeHandlerOps TH}.
#[local] Abbreviation Sys := (Sys ST TH).
Implicit Types s : Sys.

Lemma nth_result_ret {A} (l : list A) i s x s' :
  nth_result l i s = (Ret x, s') → l !! Z.to_nat i = Some x ∧ s' = s.
Proof.
  unfold nth_result. destruct (l !! Z.to_nat i); [|done].
  case_decide; [|done]. unfold mret, M_ret. intros. by simplify_eq.
Qed.

(** The entries of the page, one by one, where each iteration keeps [I]. *)
Lemma page_loop_ret {A B} (I : Sys → Prop) (P : A → B → Prop) (f : A → M Sys B) l skip size s ys s' :
  (∀ x s1 y s2, I s1 → f x s1 = (Ret y, s2) → I s2 ∧ P x y) →
  I s → 0 ≤ skip → 0 ≤ size → skip + size ≤ Z.of_nat (length l) →
  Z.of_nat (length l) ≤ max_int64 →
  page_loop f l skip size s = (Ret ys, s') →
  ∃ page, go_slice skip (skip + size) l = Ret page ∧ Forall2 P page ys.
Proof.
  intros Hf HI Hskip Hsize Hlen Hmax H. unfold page_loop in H. rewrite decide_False in H by lia.
  unfold max_int64 in Hmax. rewrite wrap64_id in H by (unfold in_int64, min_int64, max_int64; lia).
  replace (skip + size - skip) with size in H by lia.
  apply (collect_inv I (λ j i y, ∃ x, l !! Z.to_nat i = Some x ∧ P x y)) in H
    as (_ & Hys & Hall); [|clear H|done].
  - unfold go_slice. rewrite decide_True by lia. eexists. split; [done|].
    rewrite length_seqZ in Hys. apply Forall2_same_length_lookup_2.
    { rewrite length_take, length_drop. lia. }
    intros j x y Hx Hy. apply lookup_lt_Some in Hy as Hj.
    destruct (Hall j (skip + Z.of_nat j)) as (y' & Hy' & x' & Hx' & HP).
    { apply lookup_seqZ. lia. }
    rewrite lookup_take_lt, lookup_drop in Hx by lia.
    replace (Z.to_nat (skip + Z.of_nat j)) with (Z.to_nat skip + j)%nat in Hx' by lia. congruence.
  - intros j i s1 y s2 HI1 Hrun. apply bind_ret_inv in Hrun as (x & s3 & Hx & Hrun).
    apply nth_result_ret in Hx as [Hx ->]. destruct (Hf _ _ _ _ HI1 Hrun). eauto.
Qed.

(** A window and the loop over it are a page. *)
Lemma page_loop_page {A B} (I : Sys → Prop) (P : A → B → Prop) (f : A → M Sys B) l page per_page w s ys s' :
  (∀ x s1 y s2, I s1 → f x s1 = (Ret y, s2) → I s2 ∧ P x y) →
  I s → Z.of_nat (length l) ≤ max_int64 →
  page_window page per_page (Z.of_nat (length l)) = Ret w →
  page_loop f l w.1 w.2 s = (Ret ys, s') →
  ∃ xs, page_of page per_page l = Ret xs ∧ Forall2 P xs ys.
Proof.
  intros Hf HI Hmax Hw H. destruct w as [skip size].
  destruct (page_window_ret _ _ _ _ _ ltac:(split; [apply Nat2Z.is_nonneg | exact Hmax]) Hw)
    as (n & _ & _ & _ & _ & _ & H0 & H1 & H2).
  destruct (page_loop_ret I P f l skip size s ys s' Hf HI H0 H1 H2 Hmax H) as (xs & Hxs & HP).
  exists xs. split; [|done]. unfold page_of. rewrite Hw. simpl. unfold max_int64 in Hmax.
  rewrite wrap64_id by (unfold in_int64, min_int64, max_int64; lia). exact Hxs.
Qed.

Lemma index_call_ret {A} (f : list io_event → outcome A) s a s' :
  index_call f s = (Ret a, s') → f (io s) = Ret a ∧ client s' = client s.
Proof. unfold index_call, call_env. by intros [= -> <-]. Qed.

(** C24 A block search that answers shows, of all the heights the index found,
    the page asked for in the order asked for (descending unless told
    otherwise): the heights of its blocks are exactly that page, each block is
    the stored one with its identifier, and the total is the number found. *)
Theorem BlockSearch_page (query : string) (page per_page : option Z) (o : string) s r s'
    (Hidle : idle s) (Hinv : chain_inv (abs s))
    (Hrun : BlockSearch query page per_page o s = (Ret r, s'))
    (Hmax : rbs_TotalCount r ≤ max_int64) :
  ∃ q found sorted, query_New query = Ret q ∧ env_BlockSearch (io s) q = Ret found ∧
    sorted ≡ₚ found ∧ Sorted (order_of desc_Z Z.le desc_Z o) sorted ∧
    rbs_TotalCount r = Z.of_nat (length found) ∧
    page_of page per_page sorted = Ret ((λ b, hdr_Height (blk_Header (rb_Block b))) <$> rbs_Blocks r) ∧
    Forall (λ b, ∃ e, ch_entries (abs s) !! hdr_Height (blk_Header (rb_Block b)) = Some e ∧
      rb_Block b = e_block e ∧ GetBlockIdFromBlock (rb_Block b) = Ret (rb_BlockID b)) (rbs_Blocks r).
Proof.
  unfold BlockSearch in Hrun.
  apply bind_ret_inv in Hrun as (q & s1 & Hq & Hrun). apply liftO_ret in Hq as [Hq ->].
  apply bind_ret_inv in Hrun as (found & s2 & Hf & Hrun). apply index_call_ret in Hf as [Hf Hc].
  apply bind_ret_inv in Hrun as (sorted & s3 & Hs & Hrun). apply liftO_ret in Hs as [Hs ->].
  apply sort_heights_ret in Hs as [Hperm Hsort].
  apply bind_ret_inv in Hrun as (w & s3 & Hw & Hrun). apply liftO_ret in Hw as [Hw ->].
  destruct w as [skip size]. apply bind_ret_inv in Hrun as (blocks & s3 & Hl & Hrun).
  unfold mret, M_ret in Hrun. simplify_eq/=.
  apply (page_loop_page (λ s1, readable s1 (ch_entries (abs s))) (λ h b,
    hdr_Height (blk_Header (rb_Block b)) = h ∧ ∃ e, ch_entries (abs s) !! h = Some e ∧
      rb_Block b = e_block e ∧ GetBlockIdFromBlock (rb_Block b) = Ret (rb_BlockID b))
    block_result sorted page per_page (skip, size)) in Hl as (xs & Hxs & HP); [| | |done|done].
  - exists q, found, sorted. split_and!; try done.
    + by rewrite Hperm.
    + rewrite Hxs. f_equal. clear -HP. induction HP as [|h b l l' [<- _] _ IH]; [done|].
      simpl. by f_equal.
    + clear -HP. induction HP as [|h b l l' [<- Hb] _ IH]; constructor; done.
  - intros h s1 b s4 Hr Hb. unfold block_result in Hb.
    apply bind_ret_inv in Hb as (blk & s5 & Hget & Hb). destruct Hr as (Hwf & Hlk & Hv).
    destruct (read_run GetBlock e_block "block" h s1 GetBlock_law Hwf Hlk)
      as (s6 & Hrun & Hwf' & Hlk' & Hv').
    rewrite Hget, Hv in Hrun. destruct (ch_entries (abs s) !! h) as [e|] eqn:He; [|by simplify_eq/=].
    simplify_eq/=. apply bind_ret_inv in Hb as (id & s7 & Hid & Hb). apply liftO_ret in Hid as [Hid ->].
    unfold mret, M_ret in Hb. simplify_eq/=. split; [by split_and!; congruence|].
    split; [by destruct (ci_entry _ Hinv _ _ He)|]. eauto.
  - split_and!; [rewrite Hc; apply Hidle | rewrite Hc; apply Hidle | by rewrite Hc].
Qed.

(** C25 A transaction search that answers shows, of all the results the index
    found, the page asked for in the order asked for (by height and index,
    ascending unless told otherwise), each with its height, index, result, bytes
    and hash; the total is the number found. *)
Theorem TxSearch_page (query : string) (prove : bool) (page per_page : option Z) (o : string) s r s'
    (Hrun : TxSearch query prove page per_page o s = (Ret r, s'))
    (Hmax : rts_TotalCount r ≤ max_int64) :
  Z.of_nat (String.length query) ≤ 512 ∧
  ∃ q found sorted xs, query_New query = Ret q ∧ env_TxSearch (io s) q = Ret found ∧
    sorted ≡ₚ found ∧ Sorted (order_of tx_asc tx_asc tx_desc o) sorted ∧
    rts_TotalCount r = Z.of_nat (length found) ∧
    page_of page per_page sorted = Ret xs ∧
    Forall2 (λ x t, rt_Hash t = Tx_Hash (tr_Tx x) ∧ rt_Height t = tr_Height x ∧
      rt_Index t = tr_Index x ∧ rt_TxResult t = tr_Result x ∧ rt_Tx t = tr_Tx x) xs (rts_Txs r).
Proof.
  unfold TxSearch in Hrun. case_decide as Hq; [done|]. unfold maxQueryLength in Hq. split; [lia|].
  apply bind_ret_inv in Hrun as (q & s1 & Hqq & Hrun). apply liftO_ret in Hqq as [Hqq ->].
  apply bind_ret_inv in Hrun as (found & s2 & Hf & Hrun). apply index_call_ret in Hf as [Hf Hc].
  apply bind_ret_inv in Hrun as (sorted & s3 & Hs & Hrun). apply liftO_ret in Hs as [Hs ->].
  apply sort_txs_ret in Hs as [Hperm Hsort].
  apply bind_ret_inv in Hrun as (w & s3 & Hw & Hrun). apply liftO_ret in Hw as [Hw ->].
  destruct w as [skip size]. apply bind_ret_inv in Hrun as (txs & s3 & Hl & Hrun).
  unfold mret, M_ret in Hrun. simplify_eq/=.
  apply (page_loop_page (λ _, True) (λ x t, rt_Hash t = Tx_Hash (tr_Tx x) ∧
    rt_Height t = tr_Height x ∧ rt_Index t = tr_Index x ∧ rt_TxResult t = tr_Result x ∧
    rt_Tx t = tr_Tx x) _ sorted page per_page (skip, size)) in Hl as (xs & Hxs & HP); [| |done..].
  - exists q, found, sorted, xs. split_and!; try done. by rewrite Hperm.
  - intros x s1 t s4 _ Ht. apply bind_ret_inv in Ht as (pr & s5 & _ & Ht).
    unfold mret, M_ret in Ht. by simplify_eq/=.
Qed.
End searches.

(** ** CometMock's own endpoints *)

Section advance.
Context {CT : CometTypes} {CO : CometOps} {EN : Env} {RO : RpcOps} {ST : Type} {SO : StorageOps ST}.




End advance.

Section own.
Context {CT : CometTypes} {CO : CometOps} {EN : Env} {RO : RpcOps} {ST TH : Type}.
Context {SO : StorageOps ST} {SL : StorageLaws ST} {TO : TimeHandlerOps TH}.
#[local] Abbreviation Sys := (Sys ST TH).
Implicit Types s : Sys.

(** The reader's copy of the status map is the map. *)
Lemma GetSigningStatusMap_run s : GetSigningStatusMap s = (Ret (signingStatus (client s)), s).
Proof.
  unfold GetSigningStatusMap. rewrite (bind_ret _ _ _ _ _ (cl_run _ _)).
  unfold mret, M_ret. f_equal. f_equal. apply (list_to_map_to_list (M := gmap string)).
Qed.

(** C26 [set_signing_status] accepts exactly the words "up" and "down" and the
    addresses of the clients CometMock was started with: then it switches that
    one address, leaves every other one and the rest of the process alone, and
    answers the new map; otherwise it answers an error and changes nothing. *)
Theorem SetSigningStatus_spec (addr status : string) s :
  let '(o, s') := Routes (RpcSetSigningStatus addr status) s in
  let m := signingStatus (client s) in
  if decide ((status = "up" ∨ status = "down") ∧ is_Some (m !! addr))
  then o = Ret (AnsSigningStatus (<[addr := bool_decide (status = "up")]> m)) ∧
    s' = mkSys (set_signingStatus (<[addr := bool_decide (status = "up")]> m) (client s))
           (blockMutex s) (io s)
  else (∃ e, o = Err e) ∧ s' = s.
Proof.
  unfold Routes, answer, Route_SetSigningStatus.
  destruct (decide (status ≠ "down" ∧ status ≠ "up")) as [Hst|Hst].
  - unfold mbind, M_bind, throw. rewrite decide_False by intuition. eauto.
  - unfold SetSigningStatus, try_, mbind, M_bind, cl, gets, upd, modify, throw.
    destruct (signingStatus (client s) !! addr) as [b|] eqn:E; rewrite GetSigningStatusMap_run; cbv beta iota zeta delta [mret M_ret].
    + rewrite decide_True; [done|]. split; [|eauto].
      destruct (decide (status = "up")), (decide (status = "down")); auto. by destruct Hst.
    + rewrite decide_False by (intros [_ [? ?]]; congruence). eauto.
Qed.
End own.

(** ** Instances *)

Import ToyInstances.

(** The index finds heights 1 and 2, and two transactions. *)
#[export] Instance toy_rpc : RpcOps := {
  query_New := λ q, if decide (q = "") then Err (ExtErr "empty query") else Ret q;
  env_BlockSearch := λ _ _, Ret [1; 2];
  env_TxSearch := λ _ _, Ret [mkTxResult 1 1 "b" 0; mkTxResult 1 0 "a" 0];
  env_TxGet := λ _ hash, Ret (if decide (hash = "#a") then Some (mkTxResult 1 0 "a" 0) else None);
  zero_TxProof := 0;
  PubKeyToID := λ k, k;
  P2PProtocol := 8;
}.

Lemma queries_read_only_witness :
  let s' := (serve (RpcBlockSearch "q" None None "asc") toy_two).2 in
  abs s' = abs toy_two ∧ FreshTxQueue (client s') = FreshTxQueue (client toy_two) ∧
  StaleTxQueue (client s') = StaleTxQueue (client toy_two) ∧
  signingStatus (client s') = signingStatus (client toy_two) ∧
  Time_Handler (client s') = Time_Handler (client toy_two) ∧
  Clients (client s') = Clients (client toy_two) ∧
  blockMutex s' = blockMutex toy_two ∧
  st_locked (Storage (client s')) = st_locked (Storage (client toy_two)) ∧
  (∃ l, io s' = l ++ io toy_two).
Proof.
  exact (queries_read_only (RpcBlockSearch "q" None None "asc") toy_two eq_refl
    (proj1 (proj2 (proj1 toy_two_ready)))).
Defined.

Lemma height_queries_witness :
  ∃ e id, ch_entries (abs toy_two) !! 2 = Some e ∧
    GetBlockIdFromBlock (e_block e) = Ret id ∧
    (serve (RpcBlock (Some 2)) toy_two).1 = Ret (AnsBlock (mkResultBlock id (e_block e))).
Proof.
  assert (1 ≤ st_LastBlockHeight (CurState (client toy_two))) as Hpos by (vm_compute; discriminate).
  pose proof (height_queries (Some 2) None None toy_two (proj1 toy_two_ready) (proj2 toy_two_ready) Hpos) as H.
  assert (getHeight (st_LastBlockHeight (CurState (client toy_two))) (Some 2) = Ret 2) as E
    by (vm_compute; reflexivity).
  rewrite E in H. destruct H as (e & id & He & _ & Hid & Hb & _). exists e, id.
  split; [exact He|]. split; [exact Hid | exact Hb].
Defined.

Definition toy_found : ResultBlockSearch :=
  match (BlockSearch "q" (Some 1) (Some 1) "" toy_two).1 with
  | Ret r => r | _ => mkResultBlockSearch [] 0 end.

(** One block per page: the first page shows height 2. *)
Lemma BlockSearch_page_witness :
  (hdr_Height ∘ blk_Header ∘ rb_Block <$> rbs_Blocks toy_found) = [2] ∧
  ∃ sorted, sorted ≡ₚ [1; 2] ∧ Sorted desc_Z sorted ∧
    page_of (Some 1) (Some 1) sorted =
      Ret ((λ b, hdr_Height (blk_Header (rb_Block b))) <$> rbs_Blocks toy_found).
Proof.
  split; [vm_compute; reflexivity|].
  destruct (BlockSearch_page "q" (Some 1) (Some 1) "" toy_two toy_found
    (BlockSearch "q" (Some 1) (Some 1) "" toy_two).2 (proj1 toy_two_ready) (proj2 toy_two_ready))
    as (q & found & sorted & Hq & Hf & Hp & Hs & _ & Hpage & _).
  - apply run_pair. vm_compute. reflexivity.
  - vm_compute. discriminate.
  - exists sorted. injection Hf as <-. split; [exact Hp|]. split; [exact Hs | exact Hpage].
Defined.

Definition toy_txs_found : ResultTxSearch :=
  match (TxSearch "q" true None None "" toy_two).1 with
  | Ret r => r | _ => mkResultTxSearch [] 0 end.

Lemma TxSearch_page_witness :
  (rt_Tx <$> rts_Txs toy_txs_found) = ["a"; "b"] ∧ rts_TotalCount toy_txs_found = 2.
Proof.
  destruct (TxSearch_page "q" true None None "" toy_two toy_txs_found
    (TxSearch "q" true None None "" toy_two).2) as (_ & q & found & sorted & xs & _ & Hf & _ & _ & Ht & _).
  - apply run_pair. vm_compute. reflexivity.
  - vm_compute. discriminate.
  - injection Hf as <-. split; [vm_compute; reflexivity | exact Ht].
Defined.

