(* ===== verification/Reach.v ===== *)
(** * Reachable processes

    Every process that can come about from genesis by requests and rounds of the
    production loop, one after another, whatever their outcome ([any_step]), and
    those that come about by calls in good order only ([orderly_step]). *)

From S2P Require Import Prelude.
From S2P Require Import CometTypes.
From S2P Require Import Toy.
From S2P Require Import Storage.
From S2P Require Import TimeHandler.
From S2P Require Import Utils.
From S2P Require Import Client.
From S2P Require Import UpdateState.
From S2P Require Import Evidence.
From S2P Require Import RunBlock.
From S2P Require Import Example.
From S2P Require Import Frames.
From S2P Require Import RunBlockSpec.
From S2P Require Import UpdateSpec.
From S2P Require Import Chain.
From S2P Require Import Sound.
From S2P Require Import RunBlockProps.
From S2P Require Import Txs.
From S2P Require Import Pagination.
From S2P Require Import Routes.
From S2P Require Import RoutesProps.
#[local] Open Scope Z_scope.

(** ** Requests and rounds *)

Section steps.
Context {CT : CometTypes} {CO : CometOps} {EN : Env} {RO : RpcOps} {ST TH : Type}.
Context {SO : StorageOps ST} {SL : StorageLaws ST} {TO : TimeHandlerOps TH}.
#[local] Abbreviation Sys := (Sys ST TH).
Implicit Types s : Sys.

(** A request to any endpoint, a round of the production loop ([RunBlockWithEvidence
    []] is [RunBlock]), or a block at a given time by a given proposer (the first
    block), with any outcome. *)
Inductive any_step : Sys → Sys → Prop :=
  | any_request r s : any_step s (serve r s).2
  | any_round mis s : any_step s (RunBlockWithEvidence mis s).2
  | any_block t p mis s : any_step s (RunBlockWithTimeAndProposer t p mis s).2.

(** The endpoints that make blocks while they answer. *)
Definition makes_blocks (r : rpc_request) : bool :=
  match r with
  | RpcAdvanceBlocks _ | RpcCauseDoubleSign _ | RpcCauseLightClientAttack _ _ => true
  | _ => false
  end.

(** The same, except that the calls that make blocks return without error, or are
    refused before the commit of the block is made. *)
Inductive orderly_step : Sys → Sys → Prop :=
  | orderly_request r s o s' :
      Routes r s = (o, s') → makes_blocks r = false ∨ is_Ret o = true → orderly_step s s'
  | orderly_round mis s s' : RunBlockWithEvidence mis s = (Ret tt, s') → orderly_step s s'
  | orderly_block t p mis s s' :
      RunBlockWithTimeAndProposer t p mis s = (Ret tt, s') → orderly_step s s'
  | orderly_refused t p mis s err s' :
      RunBlockWithTimeAndProposer t p mis s = (Err err, s') →
      CurState (client s') = CurState (client s) →
      LastCommit (client s') = LastCommit (client s) →
      st_locked (Storage (client s')) = false → orderly_step s s'.
End steps.

(** ** Whatever happens, the chain stays sound *)

Section safety.
Context {CT : CometTypes} {CO : CometOps} {CL : CometLaws} {EN : Env} {RO : RpcOps} {ST TH : Type}.
Context {SO : StorageOps ST} {SL : StorageLaws ST} {TO : TimeHandlerOps TH}.
#[local] Abbreviation Sys := (Sys ST TH).
Implicit Types s : Sys.

Lemma within_safe_frame {A} (m : M Sys A) : within (frame true false) m → within safe m.
Proof. intros Hm s. eapply frame_safe, Hm. Qed.

Lemma safe_cl {A} (f : AbciClient ST TH → A) : within safe (cl f).
Proof. apply within_safe_frame, within_cl. Qed.
Lemma safe_env {A} ev (f : list io_event → outcome A) :
  within safe (call_env (ST:=ST) (TH:=TH) ev f).
Proof. apply within_safe_frame, within_call_env. Qed.
Lemma safe_set_time th : within safe (upd (set_Time_Handler th) : M Sys unit).
Proof. intros s H. exact H. Qed.
Lemma safe_set_signing m : within safe (upd (set_signingStatus m) : M Sys unit).
Proof. intros s H. exact H. Qed.
Lemma safe_append_fresh tx :
  within safe (upd (λ a, set_FreshTxQueue (FreshTxQueue a ++ [tx]) a) : M Sys unit).
Proof. intros s H. exact H. Qed.
#[local] Hint Resolve safe_cl safe_env safe_set_time safe_set_signing safe_append_fresh : within.

Lemma safe_next_block_time : within safe (next_block_time : M Sys Z).
Proof. unfold next_block_time, time_now. within_auto. Qed.
Lemma safe_default_proposer : within safe (default_proposer : M Sys _).
Proof. unfold default_proposer. within_auto. Qed.
#[local] Hint Resolve safe_next_block_time safe_default_proposer : within.

Lemma safe_RunBlockWithEvidence mis : within safe (RunBlockWithEvidence mis : M Sys unit).
Proof. unfold RunBlockWithEvidence. within_auto. Qed.
Lemma safe_RunBlock : within safe (RunBlock : M Sys unit).
Proof. apply (safe_RunBlockWithEvidence []). Qed.
#[local] Hint Resolve safe_RunBlockWithEvidence safe_RunBlock : within.
Lemma safe_run_n n : within safe (run_n n : M Sys unit).
Proof. induction n as [|n IH]; cbn [run_n]; [within_auto|]. within_step; [within_auto | exact IH]. Qed.
Lemma safe_GetValidatorFromAddress a : within safe (GetValidatorFromAddress a : M Sys _).
Proof. unfold GetValidatorFromAddress. within_auto. Qed.
Lemma safe_QueueTx tx : within safe (QueueTx tx : M Sys unit).
Proof. unfold QueueTx. within_auto. Qed.
Lemma safe_SendCheckTx ty tx : within safe (SendCheckTx ty tx : M Sys _).
Proof. apply within_safe_frame, within_SendCheckTx. Qed.
#[local] Hint Resolve safe_run_n safe_GetValidatorFromAddress safe_QueueTx safe_SendCheckTx : within.
Lemma safe_BroadcastTx tx : within safe (BroadcastTx tx : M Sys _).
Proof. unfold BroadcastTx, go_RunBlock. within_auto. Qed.
#[local] Hint Resolve safe_BroadcastTx : within.

Lemma safe_Routes r : within safe (Routes r : M Sys _).
Proof.
  destruct (is_query r) eqn:Hq.
  - apply within_safe_frame, within_queries, Hq.
  - destruct r; try done; unfold Routes, answer; (within_step; [|within_auto]).
    + unfold BroadcastTxSync. within_auto.
    + unfold BroadcastTxAsync. within_auto.
    + unfold Route_AdvanceBlocks, RunEmptyBlocks. within_auto.
    + unfold Route_SetSigningStatus, SetSigningStatus, GetSigningStatusMap. within_auto.
    + unfold Route_AdvanceTime, time_now. within_auto.
    + unfold Route_CauseDoubleSign, CauseDoubleSign. within_auto.
    + unfold Route_CauseLightClientAttack, CauseLightClientAttack. within_auto.
Qed.

Lemma serve_final r s : (serve r s).2 = (Routes r s).2.
Proof. unfold serve. by destruct (Routes r s) as [[] ?]. Qed.

Lemma any_step_safe s s' : any_step s s' → safe s s'.
Proof.
  intros [r s1|mis s1|t p mis s1].
  - rewrite serve_final. apply safe_Routes.
  - apply safe_RunBlockWithEvidence.
  - apply run_safe.
Qed.
End safety.

(** ** In good order, the chain stays well formed *)

Section order.
Context {CT : CometTypes} {CO : CometOps} {CL : CometLaws} {EN : Env} {RO : RpcOps} {ST TH : Type}.
Context {SO : StorageOps ST} {SL : StorageLaws ST} {TO : TimeHandlerOps TH}.
#[local] Abbreviation Sys := (Sys ST TH).
Implicit Types s : Sys.

Definition ready s : Prop := idle s ∧ chain_inv (abs s).
Definition keeps_ready s s' : Prop := ready s → ready s'.
#[export] Instance keeps_ready_preorder : PreOrder keeps_ready.
Proof. split; [by intros s H|]. intros s1 s2 s3 H1 H2 H. by apply H2, H1. Qed.

Lemma same_ready s s' : (idle s → idle s' ∧ abs s' = abs s) → keeps_ready s s'.
Proof. intros H [Hi Hc]. destruct (H Hi) as [Hi' Habs]. split; [done|]. by rewrite Habs. Qed.

Lemma within_ready_frame {A} (m : M Sys A) : within (frame false false) m → within keeps_ready m.
Proof. intros Hm s. apply same_ready, frame_abs, Hm. Qed.
Lemma ready_cl {A} (f : AbciClient ST TH → A) : within keeps_ready (cl f).
Proof. apply within_ready_frame, within_cl. Qed.
Lemma ready_env {A} ev (f : list io_event → outcome A) :
  within keeps_ready (call_env (ST:=ST) (TH:=TH) ev f).
Proof. apply within_ready_frame, within_call_env. Qed.
Lemma ready_set_time th : within keeps_ready (upd (set_Time_Handler th) : M Sys unit).
Proof. intros s H. exact H. Qed.
Lemma ready_set_signing m : within keeps_ready (upd (set_signingStatus m) : M Sys unit).
Proof. intros s H. exact H. Qed.
Lemma ready_SendCheckTx ty tx : within keeps_ready (SendCheckTx ty tx : M Sys _).
Proof. apply within_ready_frame, within_SendCheckTx. Qed.
Lemma ready_QueueTx tx : within keeps_ready (QueueTx tx : M Sys unit).
Proof.
  intros s. apply same_ready. intros Hidle. apply (QueueTx_abs tx); [|done].
  unfold QueueTx, lock_blockMutex, unlock_blockMutex, upd, modify, mbind, M_bind.
  by rewrite (proj1 Hidle).
Qed.
#[local] Hint Resolve ready_cl ready_env ready_set_time ready_set_signing ready_SendCheckTx
  ready_QueueTx : within.
Lemma ready_BroadcastTx tx : within keeps_ready (BroadcastTx tx : M Sys _).
Proof. unfold BroadcastTx, go_RunBlock. within_auto. Qed.
#[local] Hint Resolve ready_BroadcastTx : within.

Lemma ready_Routes r : makes_blocks r = false → within keeps_ready (Routes r : M Sys _).
Proof.
  intros Hm. destruct (is_query r) eqn:Hq.
  - apply within_ready_frame, within_queries, Hq.
  - destruct r; try done; unfold Routes, answer; (within_step; [|within_auto]).
    + unfold BroadcastTxSync. within_auto.
    + unfold BroadcastTxAsync. within_auto.
    + unfold Route_SetSigningStatus, SetSigningStatus, GetSigningStatusMap. within_auto.
    + unfold Route_AdvanceTime, time_now. within_auto.
Qed.

(** The calls that make blocks, when they return. *)
Lemma block_ready t p mis s s' :
  RunBlockWithTimeAndProposer t p mis s = (Ret tt, s') → keeps_ready s s'.
Proof.
  intros H [Hi Hc]. destruct (run_step _ _ _ _ _ Hi H) as (Hi' & (v & _ & Hst) & _).
  split; [done | by eapply chain_step_inv].
Qed.

Lemma round_ready mis s s' : RunBlockWithEvidence mis s = (Ret tt, s') → keeps_ready s s'.
Proof.
  unfold RunBlockWithEvidence. intros H.
  apply bind_ret_inv in H as (t & s1 & H1 & H). apply next_block_time_ret in H1 as [_ Hs1].
  apply bind_ret_inv in H as (p & s2 & H2 & H). apply cl_ret in H2 as [_ ->].
  etrans; [|by eapply block_ready]. apply same_ready. by rewrite Hs1.
Qed.

Lemma rounds_ready n s s' : run_n n s = (Ret tt, s') → keeps_ready s s'.
Proof.
  revert s. induction n as [|n IH]; intros s H; cbn [run_n] in H.
  - by injection H as <-.
  - apply bind_ret_inv in H as ([] & s1 & H1 & H). etrans; [by apply (round_ready [])|]. by apply IH.
Qed.

Lemma validator_run address s v s' : GetValidatorFromAddress address s = (Ret v, s') → s' = s.
Proof.
  unfold GetValidatorFromAddress. rewrite (bind_ret _ _ _ _ _ (cl_run _ _)).
  destruct (list_find _ _) as [[? ?]|]; unfold mret, M_ret, throw; by intros [= _ ->].
Qed.

Lemma makers_ready r s a s' : makes_blocks r = true → Routes r s = (Ret a, s') → keeps_ready s s'.
Proof.
  intros Hm H. destruct r; try done; unfold Routes, answer in H;
    apply bind_ret_inv in H as ([] & s1 & H & Ha); injection Ha as _ <-.
  - unfold Route_AdvanceBlocks, RunEmptyBlocks in H. case_decide; [done|]. by eapply rounds_ready.
  - unfold Route_CauseDoubleSign, CauseDoubleSign in H.
    apply bind_ret_inv in H as (v & s2 & H1 & H). apply validator_run in H1 as ->. by eapply round_ready.
  - unfold Route_CauseLightClientAttack, CauseLightClientAttack in H.
    apply bind_ret_inv in H as (v & s2 & H1 & H). apply validator_run in H1 as ->.
    apply bind_ret_inv in H as (m & s2 & H1 & H).
    assert (s2 = s) as ->; [|by eapply round_ready].
    repeat case_decide; unfold mret, M_ret, throw in H1; by injection H1.
Qed.

Lemma orderly_step_ready s s' : orderly_step s s' → keeps_ready s s'.
Proof.
  intros [r s1 o s2 H Ho|mis s1 s2 H|t p mis s1 s2 H|t p mis s1 err s2 H Hcs Hlc Hlk].
  - destruct (makes_blocks r) eqn:Hm.
    + destruct Ho as [Ho|Ho]; [done|]. destruct o; try done. by eapply makers_ready.
    + by eapply within_run; [apply ready_Routes|].
  - by eapply round_ready.
  - by eapply block_ready.
  - intros [Hi Hc]. destruct (refused_abs _ _ _ _ _ _ Hi H Hcs Hlc Hlk) as [? Habs].
    split; [done|]. by rewrite Habs.
Qed.

Lemma genesis_ready s : genesis s → ready s.
Proof.
  intros (Hidle & Hh & Hv). split; [done|]. unfold abs. rewrite Hv. by apply chain_inv_genesis.
Qed.

Lemma ready_sound s : ready s → sound s.
Proof. intros [(_ & Hwf & _) Hc]. split; [done|]. intros _. by apply chain_inv_sound. Qed.

(** C2 From genesis, whatever requests are made and rounds of the production loop
    are run, and however each ends: as long as the storage is not left locked, the
    chain is sound.  It stores exactly the heights 1 to the current one, each entry
    with its own height, a block, and a commit for it with a place for every
    validator of the state it was run in, and consecutive entries and the current
    state are linked by block identifier, time and validators; only the application
    hash may be missing (after a failed [Commit]) and the commit a block carries may
    be one made for its own height (by a run that failed before).  If moreover every
    call that makes blocks returned without error, or was one block run refused
    before a commit was made, then the process is idle and nothing is missing: every
    link, commits and application hashes included, is exact. *)
Theorem reachable_chain_inv s0 s (Hgen : genesis s0) :
  (rtc any_step s0 s → st_locked (Storage (client s)) = false → chain_sound (abs s)) ∧
  (rtc orderly_step s0 s → idle s ∧ chain_inv (abs s)).
Proof.
  apply genesis_ready in Hgen. split.
  - intros Hreach. assert (sound s) as [_ Hs]; [|exact Hs]. apply ready_sound in Hgen.
    induction Hreach as [s|s1 s2 s3 Hstep _ IH]; [done|]. apply IH, (any_step_safe _ _ Hstep), Hgen.
  - intros Hreach. induction Hreach as [s|s1 s2 s3 Hstep _ IH]; [done|].
    apply IH, (orderly_step_ready _ _ Hstep), Hgen.
Qed.
End order.

(** ** Instances *)

Import ToyInstances.

(** A block that failed in FinalizeBlock, and two more afterwards. *)
Definition toy_recovered : ToySys :=
  (serve (RpcAdvanceBlocks 2) (RunBlock (toy_sys 1 0 ["crash"])).2).2.
(** A transaction and two blocks, asked for by requests. *)
Definition toy_asked : ToySys :=
  (Routes (RpcAdvanceBlocks 2) (Routes (RpcBroadcastTxSync "a") (toy_sys 1 0 [])).2).2.

(** Block 1 of the first process carries a commit for height 1. *)
Lemma reachable_chain_inv_witness :
  chain_sound (abs toy_recovered) ∧
  (∃ e commit, ch_entries (abs toy_recovered) !! 1 = Some e ∧
     blk_LastCommit (e_block e) = Some commit ∧ cm_Height commit = 1) ∧
  idle toy_asked ∧ chain_inv (abs toy_asked) ∧ st_LastBlockHeight (ch_state (abs toy_asked)) = 2.
Proof.
  split; [|split].
  - eapply (proj1 (reachable_chain_inv (toy_sys 1 0 ["crash"]) toy_recovered ltac:(done)));
      [|vm_compute; reflexivity].
    eapply rtc_l; [apply (any_round [])|]. eapply rtc_l; [apply (any_request (RpcAdvanceBlocks 2))|].
    apply rtc_refl.
  - assert (option_map (λ e, option_map cm_Height (blk_LastCommit (e_block e)))
      (ch_entries (abs toy_recovered) !! 1) = Some (Some 1)) as H by (vm_compute; reflexivity).
    destruct (ch_entries (abs toy_recovered) !! 1) as [e|]; [|discriminate H].
    destruct (blk_LastCommit (e_block e)) as [commit|] eqn:C; cbn in H; rewrite C in H; [|discriminate H].
    exists e, commit. split; [reflexivity|]. split; [exact C|]. by injection H.
  - assert (rtc orderly_step (toy_sys 1 0 []) toy_asked) as Hreach.
    { eapply rtc_l; [eapply (orderly_request (RpcBroadcastTxSync "a")); [apply surjective_pairing | by left]|].
      eapply rtc_l; [eapply (orderly_request (RpcAdvanceBlocks 2));
        [apply surjective_pairing | right; vm_compute; reflexivity]|].
      apply rtc_refl. }
    destruct (proj2 (reachable_chain_inv (toy_sys 1 0 []) toy_asked ltac:(done)) Hreach) as [Hi Hc].
    split; [exact Hi|]. split; [exact Hc|]. vm_compute. reflexivity.
Defined.
