(* ===== verification/Goroutines.v ===== *)
(** * Goroutines

    Every RPC request runs in a goroutine of its own, a broadcast starts one more
    with [go a.RunBlock()], and the production loop runs in main's.  Here these are
    cut into steps between which other goroutines can run: the two readings of
    [RunBlock] before it takes the block mutex; taking it; [runBlock_helper] phase
    by phase; releasing it; and the three parts of a broadcast.  A goroutine that
    needs the mutex while it is held has no step.  [alone_RunBlock] and
    [alone_BroadcastTx] show that without anything in between, the steps are the
    functions of RunBlock.v and Routes.v.

    A phase is one step: what it reads of the client while it runs (state, last
    commit, queues) is changed by nobody but the holder of the mutex, or read only
    once (the answers of the applications, signing status).  A time read during the
    state update sees the last block before or after it is assigned, as a reading
    before or after that step does. *)

From S2P Require Import Prelude.
From S2P Require Import CometTypes.
From S2P Require Import Storage.
From S2P Require Import TimeHandler.
From S2P Require Import Utils.
From S2P Require Import Client.
From S2P Require Import UpdateState.
From S2P Require Import Evidence.
From S2P Require Import RunBlock.
From S2P Require Import Frames.
From S2P Require Import RunBlockSpec.
From S2P Require Import Pagination.
From S2P Require Import Routes.
#[local] Open Scope Z_scope.

(** ** The phases of a block run *)

Section phases.
Context {CT : CometTypes} {CO : CometOps} {EN : Env} {ST TH : Type}.
Context {SO : StorageOps ST} {TO : TimeHandlerOps TH}.
#[local] Abbreviation Sys := (Sys ST TH).

(** Where [runBlock_helper] is, with its local variables. *)
Inductive phase :=
  | CheckFresh
  | CheckStale
  | TakeQueue
  | CollectEvidence (txs : list bytes)
  | FindProposer (txs : list bytes) (ev : list Evidence)
  | Propose (txs : list bytes) (ev : list Evidence) (app : AbciCounterpartyClient)
  | ListVoters (b : Block)
  | ListNonProposers (b : Block) (vals : list Validator)
  | AskOthers (b : Block) (vals : list Validator) (nps : list AbciCounterpartyClient)
  | CastVotes (b : Block) (vals : list Validator)
  | VerifyVotes (b : Block) (vals : list Validator) (votes : list (option Vote))
  | CommitVotes (b : Block) (votes : list (option Vote))
  | FinalizeBlock (b : Block)
  | UpdateBoth (b : Block) (res : ResponseFinalizeBlock)
  | CommitApps (res : ResponseFinalizeBlock)
  | Returns.

Section run.
Context (blockTime : Z) (proposer : option Validator).
Context (misbehavingValidators : list (Validator * MisbehaviourType)) (newHeight : Z).

Definition phase_step (ph : phase) : M Sys phase :=
  let proposerAddress := from_option val_Address "" proposer in
  match ph with
  | CheckFresh => check_fresh_txs ;; mret CheckStale
  | CheckStale => recheck_stale_txs ;; mret TakeQueue
  | TakeQueue => txs ← new_tx_queue; mret (CollectEvidence txs)
  | CollectEvidence txs => ev ← collect_evidence misbehavingValidators; mret (FindProposer txs ev)
  | FindProposer txs ev => app ← find_proposer_app proposerAddress; mret (Propose txs ev app)
  | Propose txs ev app => b ← propose_block blockTime proposer app txs ev; mret (ListVoters b)
  | ListVoters b =>
      vals ← cl (λ a, vs_Validators (st_Validators (CurState a))); mret (ListNonProposers b vals)
  | ListNonProposers b vals => nps ← non_proposers proposerAddress vals; mret (AskOthers b vals nps)
  | AskOthers b vals nps => process_proposals nps b ;; mret (CastVotes b vals)
  | CastVotes b vals => votes ← collect_votes vals b; mret (VerifyVotes b vals votes)
  | VerifyVotes b vals votes =>
      enabled ← cl (λ a, VoteExtensionsEnabled (cp_ABCI (st_ConsensusParams (CurState a)))
                           (hdr_Height (blk_Header b)));
      (if (enabled : bool) then verify_extensions vals b votes else mret tt) ;;
      mret (CommitVotes b votes)
  | CommitVotes b votes => commit_votes b votes ;; mret (FinalizeBlock b)
  | FinalizeBlock b => res ← finalize_block b; mret (UpdateBoth b res)
  | UpdateBoth b res => update_stores_and_state newHeight b res ;; mret (CommitApps res)
  | CommitApps res => commit_block res ;; mret Returns
  | Returns => mret Returns
  end.

Definition phases_left (ph : phase) : nat :=
  match ph with
  | CheckFresh => 15 | CheckStale => 14 | TakeQueue => 13 | CollectEvidence _ => 12
  | FindProposer _ _ => 11 | Propose _ _ _ => 10 | ListVoters _ => 9 | ListNonProposers _ _ => 8
  | AskOthers _ _ _ => 7 | CastVotes _ _ => 6 | VerifyVotes _ _ _ => 5 | CommitVotes _ _ => 4
  | FinalizeBlock _ => 3 | UpdateBoth _ _ => 2 | CommitApps _ => 1 | Returns => 0
  end.

(** [n] phases without interruption. *)
Fixpoint run_phases (n : nat) (ph : phase) : M Sys unit :=
  match n with
  | O => mret tt
  | S n' => ph' ← phase_step ph; run_phases n' ph'
  end.

Lemma phase_step_left ph s ph' s' :
  phase_step ph s = (Ret ph', s') → ph ≠ Returns → phases_left ph = S (phases_left ph').
Proof.
  intros H Hne. destruct ph; try done; cbn [phase_step] in H; cbv zeta in H;
    repeat (apply bind_ret_inv in H as (? & ? & _ & H)); by injection H as <- _.
Qed.

(** Return from a phase to the next one. *)
Ltac next_phase :=
  lazymatch goal with |- (mret ?a ≫= ?k) ?s = ?r => change (k a s = r) end; cbn [phase_step]; cbv zeta.

(** The phases in a row are [runBlock_helper]. *)
Lemma run_phases_helper s : newHeight = st_LastBlockHeight (CurState (client s)) + 1 →
  run_phases 15 CheckFresh s = runBlock_helper blockTime proposer misbehavingValidators s.
Proof.
  intros Hh. unfold runBlock_helper. rewrite (bind_ret _ _ _ _ _ (cl_run _ _)), <-Hh.
  unfold execute_block. cbv zeta.
  cbn [run_phases phase_step]. cbv zeta. do 14 (rewrite 2!bind_assoc; apply bind_ext; intros ? ?; try next_phase).
  match goal with |- _ = (mret ?x ≫= ?k) ?s1 => change ((mret x ≫= k) s1) with (k x s1) end.
  rewrite bind_assoc. apply bind_ext. intros ? ?. next_phase.
  rewrite bind_assoc. unfold mbind, M_bind. by destruct (commit_block _ _) as [[[]| | |] ?].
Qed.
End run.
End phases.

(** ** Goroutines and their steps *)

Section goroutines.
Context {CT : CometTypes} {CO : CometOps} {EN : Env} {RO : RpcOps} {ST TH : Type}.
Context {SO : StorageOps ST} {TO : TimeHandlerOps TH}.
#[local] Abbreviation Sys := (Sys ST TH).
Implicit Types s : Sys.

Abbreviation misbehaving := (list (Validator * MisbehaviourType)).

(** Where a goroutine is.  [made]: the state update of its block went through. *)
Inductive goroutine :=
  (** [RunBlock] or [RunBlockWithEvidence] *)
  | RunsBlock (mis : misbehaving)
  | HasTime (mis : misbehaving) (t : Z)
  | WaitsForMutex (mis : misbehaving) (t : Z) (p : option Validator)
  | Inside (mis : misbehaving) (t : Z) (p : option Validator) (newHeight : Z) (ph : phase)
  | Leaves (made : bool) (res : error + unit)
  | RunOver (made : bool) (o : outcome unit)
  (** [BroadcastTx] *)
  | Broadcasts (tx : bytes)
  | Checked (tx : bytes) (c : ResponseCheckTx)
  | Queued (tx : bytes) (c : ResponseCheckTx)
  | BroadcastOver (o : outcome ResultBroadcastTxCommit)
  (** a query, [set_signing_status] or [advance_time] *)
  | Requests (r : rpc_request)
  | Answered (o : outcome rpc_response).

Definition has_made (ph : phase) : bool :=
  match ph with CommitApps _ | Returns => true | _ => false end.

(** Requests that neither make blocks nor broadcast. *)
Definition small_request (r : rpc_request) : bool :=
  is_query r || match r with RpcSetSigningStatus _ _ | RpcAdvanceTime _ => true | _ => false end.

(** One step of a goroutine: none if it waits for the mutex or is over.  A panic in
    a block run ends the goroutine with the mutex held, and a call that never
    returns leaves it hanging there. *)
Definition advance (g : goroutine) (s : Sys) : option (goroutine * Sys) :=
  match g with
  | RunsBlock mis =>
      match next_block_time s with
      | (Ret t, s') => Some (HasTime mis t, s')
      | _ => None
      end
  | HasTime mis t =>
      match default_proposer s with
      | (Ret p, s') => Some (WaitsForMutex mis t p, s')
      | _ => None
      end
  | WaitsForMutex mis t p =>
      match lock_blockMutex s with
      | (Ret _, s') => Some (Inside mis t p (st_LastBlockHeight (CurState (client s')) + 1) CheckFresh, s')
      | _ => None
      end
  | Inside mis t p h Returns => Some (Leaves true (inr tt), s)
  | Inside mis t p h ph =>
      match phase_step t p mis h ph s with
      | (Ret ph', s') => Some (Inside mis t p h ph', s')
      | (Err e, s') => Some (Leaves (has_made ph) (inl e), s')
      | (Panic pv, s') => Some (RunOver (has_made ph) (Panic pv), s')
      | (Blocked, s') => Some (RunOver (has_made ph) Blocked, s')
      end
  | Leaves made res =>
      let '(o, s') := (unlock_blockMutex ;; match res with inl e => throw e | inr _ => mret tt end) s in
      Some (RunOver made o, s')
  | Broadcasts tx =>
      match SendCheckTx CheckTxType_New tx s with
      | (Ret c, s') => Some (Checked tx c, s')
      | (Err e, s') => Some (BroadcastOver (Err e), s')
      | (Panic pv, s') => Some (BroadcastOver (Panic pv), s')
      | (Blocked, s') => Some (BroadcastOver Blocked, s')
      end
  | Checked tx c =>
      match QueueTx tx s with
      | (Ret _, s') => Some (Queued tx c, s')
      | _ => None
      end
  | Queued tx c =>
      let '(o, s') := (auto ← cl AutoIncludeTx;
        (if (auto : bool) then go_RunBlock else mret tt) ;;
        height ← cl (λ a, st_LastBlockHeight (CurState a));
        mret {| rbc_CheckTx := c; rbc_Hash := Tx_Hash tx; rbc_Height := height |}) s in
      Some (BroadcastOver o, s')
  | Requests r =>
      if small_request r then let '(o, s') := serve r s in Some (Answered o, s') else None
  | RunOver _ _ | BroadcastOver _ | Answered _ => None
  end.

Lemma Returns_dec (ph : phase) : ph = Returns ∨ ph ≠ Returns.
Proof. destruct ph; auto; by right. Qed.

Lemma advance_inside mis t p h ph s : ph ≠ Returns →
  advance (Inside mis t p h ph) s = Some
    match phase_step t p mis h ph s with
    | (Ret ph', s') => (Inside mis t p h ph', s')
    | (Err e, s') => (Leaves (has_made ph) (inl e), s')
    | (Panic pv, s') => (RunOver (has_made ph) (Panic pv), s')
    | (Blocked, s') => (RunOver (has_made ph) Blocked, s')
    end.
Proof. intros Hne. destruct ph; try done; cbn [advance]; by destruct (phase_step t p mis h _ s) as [[] ?]. Qed.

(** *** Without interruption *)

(** At most [n] steps of one goroutine. *)
Fixpoint alone (n : nat) (g : goroutine) (s : Sys) : goroutine * Sys :=
  match n with
  | O => (g, s)
  | S n' => match advance g s with Some (g', s') => alone n' g' s' | None => (g, s) end
  end.

(** What the function that a goroutine runs has come to. *)
Definition run_outcome (g : goroutine) : outcome unit :=
  match g with RunOver _ o => o | _ => Blocked end.
Definition broadcast_outcome (g : goroutine) : outcome ResultBroadcastTxCommit :=
  match g with BroadcastOver o => o | _ => Blocked end.

Lemma alone_S n g s :
  alone (S n) g s = match advance g s with Some (g', s') => alone n g' s' | None => (g, s) end.
Proof. done. Qed.
Lemma alone_over n made o s : alone n (RunOver made o) s = (RunOver made o, s).
Proof. by destruct n. Qed.

(** From inside the mutex to the end. *)
Lemma alone_phases mis t p h n ph s : phases_left ph = n →
  (let '(g', s') := alone (S (S n)) (Inside mis t p h ph) s in (run_outcome g', s')) =
  (err ← try_ (run_phases t p mis h n ph);
   unlock_blockMutex ;; match err with inl e => throw e | inr _ => mret tt end) s.
Proof.
  revert ph s. induction n as [|n IH]; intros ph s Hn.
  - destruct ph; try done. unfold alone, advance, run_phases, try_, unlock_blockMutex, mret, M_ret, mbind, M_bind.
    destruct (blockMutex s); reflexivity.
  - assert (ph ≠ Returns) as Hph by (by intros ->).
    pose proof (phase_step_left t p mis h ph s) as Hleft.
    cbn [run_phases]. unfold try_, mbind, M_bind.
    cbn [alone]. rewrite advance_inside by done. destruct (phase_step t p mis h ph s) as [[ph'|e|pv|] s1].
    + specialize (IH ph' s1). cbn [alone] in IH. rewrite IH by (specialize (Hleft ph' s1 eq_refl Hph); lia).
      unfold try_, mbind, M_bind. by destruct (run_phases t p mis h n ph' s1) as [[] ?].
    + cbn [advance]. unfold unlock_blockMutex, mbind, M_bind.
      destruct (blockMutex s1); cbn [throw]; destruct n; cbn [alone]; by rewrite ?alone_over.
    + destruct n; cbn [alone]; by rewrite ?alone_over.
    + destruct n; cbn [alone]; by rewrite ?alone_over.
Qed.

(** [RunBlockWithEvidence], of which [RunBlock] is an instance, is the steps of its
    goroutine. *)
Lemma alone_RunBlock mis s :
  RunBlockWithEvidence mis s =
    let '(g', s') := alone 20 (RunsBlock mis) s in (run_outcome g', s').
Proof.
  unfold RunBlockWithEvidence.
  assert (∃ t s1, next_block_time s = (Ret t, s1)) as (t & s1 & Ht).
  { unfold next_block_time, time_now, call_env, cl, gets, upd, modify, mbind, M_bind. cbn.
    destruct (GetBlockTime _ _ _). eexists _, _. reflexivity. }
  rewrite (bind_ret _ _ _ _ _ Ht). unfold default_proposer. rewrite (bind_ret _ _ _ _ _ (cl_run _ _)).
  rewrite (alone_S 19). cbn [advance]. rewrite Ht. rewrite (alone_S 18). cbn [advance].
  unfold default_proposer. rewrite cl_run. rewrite (alone_S 17). cbn [advance].
  unfold RunBlockWithTimeAndProposer, mbind at 1, M_bind, lock_blockMutex.
  destruct (blockMutex s1); [done|]. cbn [client].
  rewrite (alone_phases mis t _ _ 15 CheckFresh _ eq_refl).
  pose proof (run_phases_helper t (vs_Proposer (st_LastValidators (CurState (client s1)))) mis _
    (mkSys (client s1) true (io s1)) eq_refl) as Hp.
  cbn [client] in Hp. unfold try_, mbind, M_bind. by rewrite Hp.
Qed.

Lemma alone_BroadcastTx tx s :
  BroadcastTx tx s = let '(g', s') := alone 3 (Broadcasts tx) s in (broadcast_outcome g', s').
Proof.
  rewrite (alone_S 2). cbn [advance]. unfold BroadcastTx, mbind at 1, M_bind.
  destruct (SendCheckTx CheckTxType_New tx s) as [[c|e|pv|] s1]; [|by cbn [alone advance]..].
  rewrite (alone_S 1). cbn [advance]. unfold QueueTx, lock_blockMutex, unlock_blockMutex, upd, modify, mbind, M_bind.
  destruct (blockMutex s1); [done|]. cbn [client blockMutex io]. rewrite (alone_S 0). cbn [advance alone].
  unfold mbind, M_bind. cbn. by destruct (AutoIncludeTx (client s1)).
Qed.
End goroutines.

(** ** Interleavings *)

Section interleaving.
Context {CT : CometTypes} {CO : CometOps} {EN : Env} {RO : RpcOps} {ST TH : Type}.
Context {SO : StorageOps ST} {TO : TimeHandlerOps TH}.
#[local] Abbreviation Sys := (Sys ST TH).
Implicit Types s : Sys.

Definition is_go_call (e : io_event) : bool := match e with IoGoRunBlock => true | _ => false end.
(** How many goroutines a history has started. *)
Definition go_calls (h : list io_event) : nat := length (filter (λ e, is_go_call e = true) h).

#[global] Arguments go_calls : simpl never.

Lemma go_calls_cons e h : go_calls (e :: h) = ((if is_go_call e then 1 else 0) + go_calls h)%nat.
Proof. unfold go_calls. rewrite filter_cons. by destruct (is_go_call e). Qed.

(** The goroutines a step has started: [BroadcastTx] has the only [go] statement. *)
Definition spawned g s s' : list goroutine :=
  match g with
  | Queued _ _ => replicate (go_calls (io s') - go_calls (io s)) (RunsBlock [])
  | _ => []
  end.

(** One goroutine makes a step. *)
Inductive pstep : Sys * list goroutine → Sys * list goroutine → Prop :=
  | p_step s g s' g' l1 l2 :
      advance g s = Some (g', s') →
      pstep (s, l1 ++ g :: l2) (s', l1 ++ g' :: l2 ++ spawned g s s').

(** The block mutex is this goroutine's: it is in a block run, or stopped there. *)
Definition holds (g : goroutine) : bool :=
  match g with
  | Inside _ _ _ _ _ | Leaves _ _ | RunOver _ (Panic _) | RunOver _ Blocked => true
  | _ => false
  end.
(** A block run that has failed. *)
Definition failed (g : goroutine) : bool :=
  match g with Leaves _ (inl _) => true | RunOver _ o => negb (is_Ret o) | _ => false end.
(** A block run whose block is in stores and state. *)
Definition made (g : goroutine) : bool :=
  match g with Inside _ _ _ _ ph => has_made ph | Leaves m _ | RunOver m _ => m | _ => false end.
Definition is_block_run (g : goroutine) : bool :=
  match g with
  | RunsBlock _ | HasTime _ _ | WaitsForMutex _ _ _ | Inside _ _ _ _ _ | Leaves _ _ | RunOver _ _ => true
  | _ => false
  end.
Definition is_broadcasted (g : goroutine) : bool :=
  match g with BroadcastOver (Ret _) => true | _ => false end.
(** A goroutine that has not begun. *)
Definition fresh (g : goroutine) : bool :=
  match g with RunsBlock _ | Broadcasts _ | Requests _ => true | _ => false end.

Definition count (f : goroutine → bool) (l : list goroutine) : nat := sum_list_with (Nat.b2n ∘ f) l.

Lemma count_step f l1 g g' l2 new :
  (count f (l1 ++ g' :: l2 ++ new) + Nat.b2n (f g) =
     count f (l1 ++ g :: l2) + Nat.b2n (f g') + count f new)%nat.
Proof. unfold count. rewrite !sum_list_with_app. simpl. rewrite sum_list_with_app. lia. Qed.

Lemma count_replicate f n g : count f (replicate n g) = (n * Nat.b2n (f g))%nat.
Proof. unfold count. induction n as [|n IH]; simpl; lia. Qed.

Lemma count_zero f l : (∀ g, g ∈ l → f g = false) → count f l = 0%nat.
Proof.
  unfold count. induction l as [|g l IH]; intros H; [done|]. simpl.
  rewrite (H g), IH by (intros; try apply H; set_solver). done.
Qed.

Lemma count_in f l g : g ∈ l → f g = true → (1 ≤ count f l)%nat.
Proof.
  unfold count. induction 1 as [x l|x y l _ IH]; intros Hf; simpl; [rewrite Hf; simpl; lia|].
  specialize (IH Hf). lia.
Qed.
End interleaving.

(** ** Schedules

    The goroutines that make the steps, by their places in the list. *)

Section schedules.
Context {CT : CometTypes} {CO : CometOps} {EN : Env} {RO : RpcOps} {ST TH : Type}.
Context {SO : StorageOps ST} {TO : TimeHandlerOps TH}.
#[local] Abbreviation Sys := (Sys ST TH).

Fixpoint schedule (l : list nat) (cfg : Sys * list goroutine) : option (Sys * list goroutine) :=
  match l with
  | [] => Some cfg
  | i :: l' =>
      let '(s, gs) := cfg in
      match gs !! i with
      | Some g =>
          match advance g s with
          | Some (g', s') => schedule l' (s', take i gs ++ g' :: drop (S i) gs ++ spawned g s s')
          | None => None
          end
      | None => None
      end
  end.

Definition possible (l : list nat) (cfg : Sys * list goroutine) : bool :=
  match schedule l cfg with Some _ => true | None => false end.

Lemma schedule_steps l cfg : possible l cfg = true →
  rtc pstep cfg (default cfg (schedule l cfg)).
Proof.
  unfold possible. destruct (schedule l cfg) as [cfg'|] eqn:H; [|done]. intros _. cbn. revert cfg H. induction l as [|i l IH]; intros [s gs] H; cbn [schedule] in H.
  - injection H as <-. apply rtc_refl.
  - destruct (gs !! i) as [g|] eqn:Hi; [|done]. destruct (advance g s) as [[g' s']|] eqn:Ha; [|done].
    eapply rtc_l; [|exact (IH _ H)]. rewrite <-(take_drop_middle gs i g Hi) at 1. by constructor.
Qed.
End schedules.
