(* ===== verification/Interleave.v ===== *)
(** * Block runs and broadcasts at the same time

    What a broadcast does, and what any interleaving of the goroutines of
    Goroutines.v does to the chain: the block mutex keeps block runs apart, so the
    chain is built one block at a time, but the time of a block is read before the
    mutex is taken, so timestamps can coincide.

    A goroutine that panics in a block run ends here with the mutex held and the
    others go on.  That is what happens if it serves a request (CometBFT's server
    recovers the panic); one started by a broadcast would end the process, that is,
    no more steps follow. *)

From S2P Require Import Prelude.
From S2P Require Import CometTypes.
From S2P Require Import Toy.
From S2P Require Import Storage.
From S2P Require Import TimeHandler.
From S2P Require Import Utils.
From S2P Require Import Client.
From S2P Require Import UpdateState.
From S2P Require Import Evidence.
From S2P Require Import RunBlock.
From S2P Require Import Example.
From S2P Require Import Frames.
From S2P Require Import RunBlockSpec.
From S2P Require Import UpdateSpec.
From S2P Require Import Chain.
From S2P Require Import Sound.
From S2P Require Import RunBlockProps.
From S2P Require Import BlockFacts.
From S2P Require Import Txs.
From S2P Require Import Pagination.
From S2P Require Import Routes.
From S2P Require Import RoutesProps.
From S2P Require Import Reach.
From S2P Require Import Goroutines.
#[local] Open Scope Z_scope.

(** ** What a broadcast does *)

Section broadcast_tx.
Context {CT : CometTypes} {CO : CometOps} {EN : Env} {ST TH : Type}.
Context {SO : StorageOps ST} {SL : StorageLaws ST} {TO : TimeHandlerOps TH}.
#[local] Abbreviation Sys := (Sys ST TH).
Implicit Types s : Sys.

Definition same_go_calls s s' : Prop := go_calls (io s') = go_calls (io s).
#[export] Instance same_go_calls_preorder : PreOrder same_go_calls.
Proof. split; [done|]. unfold same_go_calls. intros ? ? ? ? ?. congruence. Qed.

Lemma SendCheckTx_go_calls ty tx : within same_go_calls (SendCheckTx ty tx : M Sys _).
Proof.
  unfold SendCheckTx, send_all. within_step.
  - intros s. unfold same_go_calls, range_clients. simpl. by rewrite go_calls_cons.
  - within_step.
    + within_step. intros s. unfold same_go_calls, abci_call, call_env. simpl. by rewrite go_calls_cons.
    + within_step; [apply within_gets, _ | within_auto].
Qed.

(** The three parts of a broadcast that went through. *)
Lemma BroadcastTx_ret tx s r s' : BroadcastTx tx s = (Ret r, s') →
  ∃ s1, SendCheckTx CheckTxType_New tx s = (Ret (rbc_CheckTx r), s1) ∧ blockMutex s1 = false ∧
    rbc_Hash r = Tx_Hash tx ∧ rbc_Height r = st_LastBlockHeight (CurState (client s1)) ∧
    s' = mkSys (set_FreshTxQueue (FreshTxQueue (client s1) ++ [tx]) (client s1)) false
           ((if AutoIncludeTx (client s1) then [IoGoRunBlock] else []) ++ io s1).
Proof.
  unfold BroadcastTx. intros H. apply bind_ret_inv in H as (c & s1 & Hc & H). exists s1.
  unfold QueueTx, lock_blockMutex, unlock_blockMutex, go_RunBlock, call_env, cl, gets, upd, modify,
    mbind, M_bind, mret, M_ret in H.
  destruct (blockMutex s1); [done|]. cbn in H. destruct (AutoIncludeTx (client s1)); cbn in H;
    injection H as <- <-; done.
Qed.

(** C16 A transaction that is broadcast is queued whatever the applications'
    CheckTx said about it: the answer is only handed back.  It is appended to the
    fresh queue, no block is made by the call itself, and one goroutine that runs
    a block is started exactly if automatic inclusion is on.  The call waits while
    the block mutex is held, so it comes back only if the mutex was free; if it does
    not come back, or the applications cannot be asked, nothing is queued and nothing
    is started. *)
Theorem BroadcastTx_spec (tx : bytes) s :
  match BroadcastTx tx s with
  | (Ret r, s') =>
      blockMutex s = false ∧
      (SendCheckTx CheckTxType_New tx s).1 = Ret (rbc_CheckTx r) ∧
      FreshTxQueue (client s') = FreshTxQueue (client s) ++ [tx] ∧
      StaleTxQueue (client s') = StaleTxQueue (client s) ∧
      rbc_Hash r = Tx_Hash tx ∧ rbc_Height r = st_LastBlockHeight (CurState (client s)) ∧
      go_calls (io s') = (go_calls (io s) + if AutoIncludeTx (client s) then 1 else 0)%nat
  | (o, s') =>
      (is_Ret (SendCheckTx CheckTxType_New tx s).1 = false ∨ blockMutex s = true ∧ o = Blocked) ∧
      FreshTxQueue (client s') = FreshTxQueue (client s) ∧
      StaleTxQueue (client s') = StaleTxQueue (client s) ∧ go_calls (io s') = go_calls (io s)
  end ∧
  CurState (client (BroadcastTx tx s).2) = CurState (client s) ∧
  LastBlock (client (BroadcastTx tx s).2) = LastBlock (client s) ∧
  (st_wf (Storage (client s)) → abs (BroadcastTx tx s).2 = abs s) ∧
  blockMutex (BroadcastTx tx s).2 = blockMutex s.
Proof.
  pose proof (within_SendCheckTx false false CheckTxType_New tx s) as F.
  pose proof (SendCheckTx_go_calls CheckTxType_New tx s) as G. unfold same_go_calls in G.
  destruct (fr_queues _ _ _ _ F eq_refl) as [Hfq Hsq]. pose proof (fr_mutex _ _ _ _ F) as Hm.
  pose proof (fr_CurState _ _ _ _ F) as Hcs. pose proof (fr_LastBlock _ _ _ _ F) as Hlb.
  assert (st_wf (Storage (client s)) → abs (SendCheckTx CheckTxType_New tx s).2 = abs s) as Habs
    by (intros Hwf; exact (proj2 (proj2 (frame_chain_same _ _ _ F Hwf)))).
  unfold BroadcastTx, QueueTx, lock_blockMutex, unlock_blockMutex, go_RunBlock, call_env, cl, gets, upd,
    modify, mbind, M_bind, mret, M_ret.
  destruct (SendCheckTx CheckTxType_New tx s) as [[c|e|p|] s1]; cbn [fst snd is_Ret] in *; [|by auto 10..].
  rewrite Hm. destruct (blockMutex s); [by auto 10|]. cbn. rewrite (fr_auto _ _ _ _ F).
  destruct (AutoIncludeTx (client s)); cbn; rewrite ?go_calls_cons, G, Hfq, Hsq,
    (fr_CurState _ _ _ _ F); split_and!; try done; simpl; lia.
Qed.
End broadcast_tx.

(** ** What the phases do to the chain *)

Section phases.
Context {CT : CometTypes} {CO : CometOps} {CL : CometLaws} {EN : Env} {ST TH : Type}.
Context {SO : StorageOps ST} {SL : StorageLaws ST} {TO : TimeHandlerOps TH}.
#[local] Abbreviation Sys := (Sys ST TH).
Implicit Types s : Sys.
Context (t : Z) (p : option Validator) (mis : list (Validator * MisbehaviourType)) (h : Z).

(** The phases that change nothing of the chain. *)
Definition quiet_phase (ph : phase) : bool :=
  match ph with CommitVotes _ _ | UpdateBoth _ _ | CommitApps _ => false | _ => true end.

Lemma within_quiet_phase ph : quiet_phase ph = true →
  within (frame true false) (phase_step t p mis h ph : M Sys phase).
Proof. intros Hq. destruct ph; try done; cbn [phase_step]; cbv zeta; within_auto. Qed.

Lemma within_kept_phase ph : within kept (phase_step t p mis h ph : M Sys phase).
Proof.
  destruct (quiet_phase ph) eqn:Hq; [by apply (within_kept_frame true false), within_quiet_phase|].
  destruct ph; try done; cbn [phase_step]; (within_step; [|within_auto]).
  - apply (within_kept_frame false true), within_commit_votes.
  - apply within_kept_update_stores.
  - apply within_kept_commit_block.
Qed.

(** Well formed after good runs, sound in any case. *)
Definition good (clean : bool) (c : Chain) : Prop := if clean then chain_inv c else chain_sound c.

Lemma good_sound clean c : good clean c → chain_sound c.
Proof. destruct clean; [apply chain_inv_sound | done]. Qed.
Lemma good_weaken clean b c : good clean c → good (clean && b) c.
Proof. destruct clean, b; try done. apply chain_inv_sound. Qed.
Lemma good_step clean t' v c c' : good clean c → chain_step t' v c c' → good clean c'.
Proof. destruct clean; [apply chain_step_inv | apply sound_step]. Qed.

(** A proposal for the next height. *)
Definition proposed (v : Validator) (c : Chain) (b : Block) : Prop :=
  hdr_Height (blk_Header b) = st_LastBlockHeight (ch_state c) + 1 ∧
  hdr_Time (blk_Header b) = t ∧ hdr_ProposerAddress (blk_Header b) = val_Address v ∧
  blk_LastCommit b = Some (ch_commit c).

(** The chain and the local variables at each phase, while the storage is free. *)
Definition phase_ok (clean : bool) (ph : phase) (c : Chain) : Prop :=
  match ph with
  | CheckFresh | CheckStale | TakeQueue | CollectEvidence _ | FindProposer _ _ | Propose _ _ _ =>
      good clean c ∧ h = st_LastBlockHeight (ch_state c) + 1
  | ListVoters b | ListNonProposers b _ | AskOthers b _ _ | CastVotes b _ | VerifyVotes b _ _
  | CommitVotes b _ =>
      good clean c ∧ h = st_LastBlockHeight (ch_state c) + 1 ∧ ∃ v, p = Some v ∧ proposed v c b
  | FinalizeBlock b | UpdateBoth b _ =>
      h = st_LastBlockHeight (ch_state c) + 1 ∧ ∃ v old, p = Some v ∧
        good clean (with_commit old c) ∧ extends t v (with_commit old c) b (ch_commit c)
  | CommitApps res =>
      st_AppHash (ch_state c) = "" ∧ ∃ v c0, good clean c0 ∧
        chain_step t v c0 (with_hash (rsf_AppHash res) c)
  | Returns => good clean c
  end.

Lemma with_commit_same c : with_commit (ch_commit c) c = c.
Proof. by destruct c. Qed.
Lemma with_hash_twice a a' c : with_hash a (with_hash a' c) = with_hash a c.
Proof. done. Qed.

Lemma phase_ok_sound clean ph c : phase_ok clean ph c → chain_sound c.
Proof.
  assert (∀ v old b, good clean (with_commit old c) → extends t v (with_commit old c) b (ch_commit c) →
    chain_sound c) as Hext.
  { intros v old b Hg (_ & _ & _ & _ & Hcm & _). rewrite <-(with_commit_same c).
    apply (sound_recommit (with_commit old c) (ch_commit c)); [by eapply good_sound | by right]. }
  destruct ph; cbn [phase_ok]; intros H; try (by eapply good_sound, H);
    try (destruct H as (_ & v & old & _ & Hg & He); by eapply Hext).
  destruct H as (Ha & v & c0 & Hg & Hst). rewrite <-(with_hash_same c), Ha.
  rewrite <-(with_hash_twice _ (rsf_AppHash res)).
  eapply sound_append; [by eapply good_sound | exact Hst | by right].
Qed.

(** A quiet phase that is done. *)
Lemma quiet_phase_ok clean ph s ph' s' : st_wf (Storage (client s)) → quiet_phase ph = true →
  phase_step t p mis h ph s = (Ret ph', s') → phase_ok clean ph (abs s) → phase_ok clean ph' (abs s').
Proof.
  intros Hwf Hq Hrun.
  assert (frame true false s s') as F by (eapply within_run; [by apply within_quiet_phase | exact Hrun]).
  destruct (frame_chain_same _ _ _ F Hwf) as (_ & _ & ->).
  destruct ph; try done; cbn [phase_step] in Hrun; cbv zeta in Hrun.
  6: { apply bind_ret_inv in Hrun as (b & s1 & Hp & Hrun). injection Hrun as <- _.
       apply propose_block_ret in Hp as (v & txl & -> & -> & _). intros [Hg Hh].
       split_and!; [done..|]. exists v. split; [done|].
       destruct (MakeBlock_law (CurState (client s)) (st_LastBlockHeight (CurState (client s)) + 1) txl
         (ExtendedCommit_ToCommit (LastCommit (client s))) ev (val_Address v)) as (Hbh & _ & Hl & _ & Ha).
       done. }
  all: try (repeat (apply bind_ret_inv in Hrun as (? & ? & _ & Hrun)); injection Hrun as <- _; done).
Qed.

(** The phase in which the last commit is replaced. *)
Lemma CommitVotes_ok clean b votes s o s' : st_wf (Storage (client s)) →
  phase_step t p mis h (CommitVotes b votes) s = (o, s') → phase_ok clean (CommitVotes b votes) (abs s) →
  match o with Ret ph' => phase_ok clean ph' (abs s') | _ => chain_sound (abs s') end.
Proof.
  intros Hwf Hrun (Hg & Hh & v & -> & Hb & Ht & Hpr & Hl). cbn [phase_step] in Hrun.
  pose proof (within_commit_votes false b votes s) as F. pose proof (commit_votes_recommitted b votes s) as R.
  unfold mbind, M_bind in Hrun. destruct (commit_votes b votes s) as [[[]|e|pv|] s1] eqn:Hc; cbn [snd] in F, R;
    injection Hrun as <- <-; destruct (frame_chain _ _ _ F Hwf) as (_ & _ & Habs).
  - apply commit_votes_ret in Hc as (ec & (Hech & Hecr & Heclen & _) & ->).
    split; [exact Hh|]. exists v, (ch_commit (abs s)). split; [done|].
    change (with_commit (ch_commit (abs s)) (abs (mkSys (set_LastCommit ec (client s)) (blockMutex s) (io s))))
      with (abs s).
    split; [exact Hg|]. unfold extends. cbn [abs ch_commit client set_LastCommit LastCommit].
    rewrite (ToCommit_law ec). cbn [cm_Height cm_Round cm_Signatures]. rewrite length_fmap.
    cbn [abs ch_state ch_commit] in *. split_and!; congruence.
  - rewrite Habs. apply sound_recommit; [by eapply good_sound|]. apply recommitted_after.
    cbn [abs ch_state] in Hb. by rewrite <-Hb.
  - rewrite Habs. apply sound_recommit; [by eapply good_sound|]. apply recommitted_after.
    cbn [abs ch_state] in Hb. by rewrite <-Hb.
  - rewrite Habs. apply sound_recommit; [by eapply good_sound|]. apply recommitted_after.
    cbn [abs ch_state] in Hb. by rewrite <-Hb.
Qed.

(** The phase in which stores and state are updated, with the storage free. *)
Lemma UpdateBoth_ok clean b res s o s' : st_wf (Storage (client s)) →
  st_locked (Storage (client s)) = false →
  phase_step t p mis h (UpdateBoth b res) s = (o, s') → phase_ok clean (UpdateBoth b res) (abs s) →
  st_wf (Storage (client s')) ∧ st_locked (Storage (client s')) = negb (is_Ret o) ∧
  (is_Ret o = true → o = Ret (CommitApps res) ∧ phase_ok clean (CommitApps res) (abs s') ∧
     st_LastBlockHeight (ch_state (abs s')) = st_LastBlockHeight (ch_state (abs s)) + 1).
Proof.
  intros Hwf Hl Hrun (Hh & v & old & -> & Hg & Hext). cbn [phase_step] in Hrun.
  unfold mbind, M_bind in Hrun. destruct (update_stores_and_state h b res s) as [o1 s1] eqn:Hu.
  destruct (update_stores_and_state_cases _ _ _ _ _ _ Hwf Hl Hu) as [(Hlb & Hlc & _ & _ & Hwf1 & Hv1) Hcases].
  destruct Hcases as [(-> & Hl1 & id & ups & Hid & Hval & Hpb & Hup)|(Ho & Hl1 & _)].
  - injection Hrun as <- <-. split_and!; [done..|]. intros _. split; [done|].
    assert (chain_step t v (with_commit old (abs s)) (with_hash (rsf_AppHash res) (abs s1))) as Hstep.
    { destruct Hext as (? & ? & ? & ? & ? & ? & ?). unfold with_hash, abs.
      cbn [ch_entries ch_state ch_last ch_commit]. rewrite Hv1, Hlb, Hlc, Hh.
      by eapply (chain_append t v (with_commit old (abs s))). }
    pose proof (UpdateState_ret _ _ _ _ _ _ Hup) as (_ & _ & _ & Hht & _ & _ & _ & _ & _ & _ & Happ).
    split; [|cbn [abs ch_state]; by rewrite Hht, (proj1 Hext)].
    split; [exact Happ|]. by exists v, (with_commit old (abs s)).
  - destruct o1; [done|..]; injection Hrun as <- <-; done.
Qed.

(** The phase in which the applications commit. *)
Lemma CommitApps_ok clean res s o s' : st_wf (Storage (client s)) →
  phase_step t p mis h (CommitApps res) s = (o, s') → phase_ok clean (CommitApps res) (abs s) →
  st_wf (Storage (client s')) ∧ st_locked (Storage (client s')) = st_locked (Storage (client s)) ∧
  st_LastBlockHeight (ch_state (abs s')) = st_LastBlockHeight (ch_state (abs s)) ∧
  match o with Ret ph' => ph' = Returns ∧ good clean (abs s') | _ => chain_sound (abs s') end.
Proof.
  intros Hwf Hrun Hok. pose proof (phase_ok_sound _ _ _ Hok) as Hsound.
  destruct Hok as (Ha & v & c0 & Hg & Hst). cbn [phase_step] in Hrun.
  unfold commit_block, wrap_err in Hrun. pose proof (within_SendCommit false false s) as F.
  unfold mbind, M_bind in Hrun. destruct (SendCommit s) as [oc s1]. cbn [snd] in F.
  destruct (frame_chain_same _ _ _ F Hwf) as (Hwf1 & Hl1 & Habs).
  destruct oc as [rc|e|pv|]; unfold upd_state, upd, modify in Hrun; injection Hrun as <- <-;
    [|by rewrite Habs..].
  change (abs (mkSys (set_CurState (with_AppHash (rsf_AppHash res) (CurState (client s1))) (client s1))
    (blockMutex s1) (io s1))) with (with_hash (rsf_AppHash res) (abs s1)).
  rewrite Habs. split_and!; [done..|]. by eapply good_step.
Qed.

Definition made_by (ph : phase) : Z := Z.b2z (has_made ph).

(** Any phase: it goes on, or ends the run. *)
Lemma phase_cases clean ph s o s' : st_wf (Storage (client s)) →
  phase_step t p mis h ph s = (o, s') →
  (st_locked (Storage (client s)) = false → phase_ok clean ph (abs s)) →
  st_wf (Storage (client s')) ∧
  (st_locked (Storage (client s')) = true → st_locked (Storage (client s)) = true ∨ is_Ret o = false) ∧
  (st_locked (Storage (client s')) = false → st_locked (Storage (client s)) = false ∧
   match o with
   | Ret ph' => phase_ok clean ph' (abs s') ∧
       st_LastBlockHeight (ch_state (abs s')) + made_by ph =
         st_LastBlockHeight (ch_state (abs s)) + made_by ph'
   | _ => chain_sound (abs s') ∧
       st_LastBlockHeight (ch_state (abs s')) = st_LastBlockHeight (ch_state (abs s))
   end).
Proof.
  intros Hwf Hrun Hok.
  destruct (quiet_phase ph) eqn:Hq; [|destruct ph as [| | | | | | | | | | |b votes| |b res|res|]; try done].
  - assert (frame true false s s') as F by (eapply within_run; [by apply within_quiet_phase | exact Hrun]).
    destruct (frame_chain_same _ _ _ F Hwf) as (Hwf' & Hl & Habs).
    split_and!; [done | rewrite Hl; by left |]. rewrite Hl. intros Hfree. split; [done|].
    specialize (Hok Hfree). rewrite Habs. destruct o as [ph'|e|pv|];
      [|by split; [eapply phase_ok_sound | done]..].
    split; [rewrite <-Habs; exact (quiet_phase_ok clean ph s ph' s' Hwf Hq Hrun Hok)|].
    destruct ph; try done; cbn [phase_step] in Hrun; cbv zeta in Hrun;
      try (repeat (apply bind_ret_inv in Hrun as (? & ? & _ & Hrun)); by injection Hrun as <- _).
  - assert (frame false true s s') as F.
    { eapply within_run; [|exact Hrun]. cbn [phase_step]. within_auto. }
    destruct (frame_chain _ _ _ F Hwf) as (Hwf' & Hl & Habs).
    split_and!; [done | rewrite Hl; by left |]. rewrite Hl. intros Hfree. split; [done|].
    pose proof (CommitVotes_ok _ _ _ _ _ _ Hwf Hrun (Hok Hfree)) as Hc.
    assert (st_LastBlockHeight (ch_state (abs s')) = st_LastBlockHeight (ch_state (abs s))) as Hh
      by (by rewrite Habs).
    destruct o as [ph'|e|pv|]; [|done..]. split; [done|].
    cbn [phase_step] in Hrun. apply bind_ret_inv in Hrun as (? & ? & _ & Hrun). injection Hrun as <- _. by rewrite Hh.
  - destruct (st_locked (Storage (client s))) eqn:Hl.
    + destruct (update_stores_blocked h b res s Hwf Hl) as (s1 & Hu & F).
      cbn [phase_step] in Hrun. unfold mbind, M_bind in Hrun. rewrite Hu in Hrun. injection Hrun as <- <-.
      destruct (frame_chain_same _ _ _ F Hwf) as (Hwf' & Hl' & _). rewrite Hl', Hl.
      split_and!; [done | by left | done].
    + destruct (UpdateBoth_ok _ _ _ _ _ _ Hwf Hl Hrun (Hok eq_refl)) as (Hwf' & Hl' & Hr). rewrite Hl'.
      split_and!; [done | by destruct o; auto |]. destruct o; try done. intros _.
      destruct (Hr eq_refl) as ([= ->] & Hp & Hh). split; [done|]. split; [done|].
      unfold made_by. cbn [has_made Z.b2z]. lia.
  - destruct (st_locked (Storage (client s))) eqn:Hl.
    + assert (frame false false s (SendCommit s).2) as F by apply within_SendCommit.
      assert (st_wf (Storage (client s')) ∧ st_locked (Storage (client s')) = true) as [Hwf' Hl'].
      { destruct (frame_chain_same _ _ _ F Hwf) as (Hwf1 & Hl1 & _). rewrite Hl in Hl1.
        cbn [phase_step] in Hrun. unfold commit_block, wrap_err, upd_state, upd, modify, mbind, M_bind in Hrun.
        destruct (SendCommit s) as [[] s1]; by injection Hrun as <- <-. }
      rewrite Hl'. split_and!; [done | by left | done].
    + destruct (CommitApps_ok _ _ _ _ _ Hwf Hrun (Hok eq_refl)) as (Hwf' & Hl' & Hh & Hr).
      rewrite Hl', Hl. split_and!; [done..|]. intros _. split; [done|].
      destruct o as [ph'|e|pv|]; [|done..]. destruct Hr as [-> Hr]. split; [done|].
      unfold made_by. cbn [has_made Z.b2z]. lia.
Qed.
End phases.

(** ** Steps of goroutines *)

Section steps.
Context {CT : CometTypes} {CO : CometOps} {CL : CometLaws} {EN : Env} {RO : RpcOps} {ST TH : Type}.
Context {SO : StorageOps ST} {SL : StorageLaws ST} {TO : TimeHandlerOps TH}.
#[local] Abbreviation Sys := (Sys ST TH).
Implicit Types s : Sys.

Definition height s : Z := st_LastBlockHeight (CurState (client s)).

(** What the holder of the mutex knows of the chain. *)
Definition run_ok (clean : bool) (g : goroutine) (c : Chain) : Prop :=
  match g with Inside _ t p h ph => phase_ok t p h clean ph c | _ => good clean c end.

Lemma run_ok_sound clean g c : run_ok clean g c → chain_sound c.
Proof. destruct g; simpl; try apply good_sound. apply phase_ok_sound. Qed.

(** A step outside the mutex. *)
Definition quiet s s' : Prop :=
  blockMutex s' = blockMutex s ∧ AutoIncludeTx (client s') = AutoIncludeTx (client s) ∧
  (st_wf (Storage (client s)) → st_wf (Storage (client s')) ∧
     st_locked (Storage (client s')) = st_locked (Storage (client s)) ∧ abs s' = abs s).

Lemma frame_quiet q s s' : frame q false s s' → quiet s s'.
Proof.
  intros F. split_and!; [apply (fr_mutex _ _ _ _ F) | apply (fr_auto _ _ _ _ F) |].
  by apply (frame_chain_same q).
Qed.

Lemma QueueTx_quiet tx s u s' : QueueTx tx s = (Ret u, s') → quiet s s'.
Proof.
  unfold QueueTx, lock_blockMutex, unlock_blockMutex, upd, modify, mbind, M_bind.
  destruct (blockMutex s) eqn:E; [done|]. cbn. intros [= _ <-]. split_and!; [by rewrite E | done..].
Qed.

Lemma small_request_quiet r s : small_request r = true → quiet s (serve r s).2.
Proof.
  intros Hr. rewrite serve_final. destruct (is_query r) eqn:Hq.
  - apply (frame_quiet false), within_queries, Hq.
  - unfold small_request in Hr. rewrite Hq in Hr. destruct r; try done; unfold Routes, answer.
    + unfold Route_SetSigningStatus, SetSigningStatus, GetSigningStatusMap, try_, cl, gets, upd, modify,
        throw, mbind, M_bind. case_decide; [done|].
      by destruct (signingStatus (client s) !! private_key_address).
    + unfold Route_AdvanceTime, time_now, call_env, cl, gets, upd, modify, throw, mbind, M_bind.
      case_decide; [done|]. cbn. by destruct (AdvanceTime _ _ _).
Qed.

(** The goroutines that are not in a block run. *)
Lemma advance_quiet g s g' s' : advance g s = Some (g', s') → holds g = false → holds g' = false →
  quiet s s' ∧ failed g' = false ∧ made g = false ∧ made g' = false ∧ failed g = false.
Proof.
  intros Ha Hh Hh'. destruct g as [mis|mis t|mis t p|mis t p h ph|m res|m o|tx|tx c|tx c|o|r|o];
    try done; cbn [advance] in Ha.
  - destruct (next_block_time s) as [[t| | |] s1] eqn:E; [|done..]. injection Ha as <- <-.
    apply next_block_time_ret in E as [_ ->]. done.
  - unfold default_proposer in Ha. rewrite cl_run in Ha. by injection Ha as <- <-.
  - unfold lock_blockMutex in Ha. destruct (blockMutex s); [done|]. by injection Ha as <- <-.
  - pose proof (frame_quiet false _ _ (within_SendCheckTx false false CheckTxType_New tx s)) as Q.
    by destruct (SendCheckTx CheckTxType_New tx s) as [[] s1]; injection Ha as <- <-.
  - destruct (QueueTx tx s) as [[u| | |] s1] eqn:E; [|done..]. injection Ha as <- <-.
    split; [by eapply QueueTx_quiet | done].
  - unfold go_RunBlock, call_env, cl, gets, mbind, M_bind in Ha. cbn in Ha.
    destruct (AutoIncludeTx (client s)) eqn:E; cbn in Ha; injection Ha as <- <-; done.
  - destruct (small_request r) eqn:Hr; [|done]. pose proof (small_request_quiet r s Hr) as Q.
    destruct (serve r s) as [o s1]. by injection Ha as <- <-.
Qed.

(** Taking the mutex. *)
Lemma advance_lock g s g' s' : advance g s = Some (g', s') → holds g = false → holds g' = true →
  blockMutex s = false ∧ s' = mkSys (client s) true (io s) ∧ failed g' = false ∧ failed g = false ∧
  made g = false ∧ made g' = false ∧ ∀ clean, good clean (abs s) → run_ok clean g' (abs s).
Proof.
  intros Ha Hh Hh'. destruct g as [mis|mis t|mis t p|mis t p h ph|m res|m o|tx|tx c|tx c|o|r|o];
    try done; cbn [advance] in Ha.
  - destruct (next_block_time s) as [[t| | |] s1]; [|done..]. by injection Ha as <- <-.
  - unfold default_proposer in Ha. rewrite cl_run in Ha. by injection Ha as <- <-.
  - unfold lock_blockMutex in Ha. destruct (blockMutex s); [done|]. by injection Ha as <- <-.
  - by destruct (SendCheckTx CheckTxType_New tx s) as [[] s1]; injection Ha as <- <-.
  - destruct (QueueTx tx s) as [[u| | |] s1]; [|done..]. by injection Ha as <- <-.
  - unfold go_RunBlock, call_env, cl, gets, mbind, M_bind in Ha. cbn in Ha.
    destruct (AutoIncludeTx (client s)); cbn in Ha; by injection Ha as <- <-.
  - destruct (small_request r); [|done]. destruct (serve r s). by injection Ha as <- <-.
Qed.

(** A step of the holder. *)
Lemma advance_held clean g s g' s' : advance g s = Some (g', s') → holds g = true →
  blockMutex s = true → st_wf (Storage (client s)) →
  (failed g = true → clean = false) →
  (st_locked (Storage (client s)) = false → run_ok clean g (abs s)) →
  st_wf (Storage (client s')) ∧ AutoIncludeTx (client s') = AutoIncludeTx (client s) ∧
  blockMutex s' = holds g' ∧ (failed g = true → failed g' = true) ∧
  (st_locked (Storage (client s')) = true → st_locked (Storage (client s)) = true ∨ failed g' = true) ∧
  (st_locked (Storage (client s')) = false → st_locked (Storage (client s)) = false ∧
     height s' + Z.b2z (made g) = height s + Z.b2z (made g') ∧
     run_ok (clean && negb (failed g')) g' (abs s')).
Proof.
  intros Ha Hh Hm Hwf Hclean Hok. destruct g as [mis|mis t|mis t p|mis t p h ph|m res|m o|tx|tx c|tx c|o|r|o];
    try done.
  - destruct (Returns_dec ph) as [->|Hne].
    { cbn [advance] in Ha. injection Ha as <- <-. cbn [failed negb]. rewrite andb_true_r.
      split_and!; try done; [by left|]. intros Hl. split_and!; [done..|]. by apply Hok. }
    rewrite advance_inside in Ha by done. injection Ha as Ha.
    pose proof (within_kept_phase t p mis h ph s) as K.
    destruct (phase_step t p mis h ph s) as [o s1] eqn:Hrun. cbn [snd] in K.
    destruct (phase_cases t p mis h clean ph s o s1 Hwf Hrun Hok) as (Hwf' & Hlk & Hun).
    pose proof (kp_mutex _ _ K) as Hkm. rewrite Hm in Hkm. pose proof (kp_auto _ _ K) as Hka.
    destruct o as [ph'|e|pv|]; injection Ha as <- <-; cbn [holds failed is_Ret negb made] in *;
      rewrite ?andb_true_r, ?andb_false_r;
      (split_and!; [done | done | done | done | intros Hl'; destruct (Hlk Hl'); auto; done |]);
      intros Hl'; destruct (Hun Hl') as (? & ? & ?); unfold height in *; cbn [abs ch_state] in *;
      (split_and!; [done | | done]); unfold made_by in *; lia.
  - cbn [advance] in Ha. unfold unlock_blockMutex, mbind, M_bind in Ha. rewrite Hm in Ha.
    destruct res as [e|u]; injection Ha as <- <-; cbn [holds failed is_Ret negb made] in *;
      rewrite ?andb_true_r, ?andb_false_r; (split_and!; try done; auto).
    intros Hl. split_and!; [done..|]. specialize (Hok Hl). by rewrite (Hclean eq_refl) in Hok.
Qed.

(** A broadcast adds a block run if automatic inclusion is on; nothing else does. *)
Lemma advance_counts g s g' s' : advance g s = Some (g', s') →
  (∀ f, count f (spawned g s s') =
     if AutoIncludeTx (client s) then (Nat.b2n (is_broadcasted g') * Nat.b2n (f (RunsBlock [])))%nat else 0%nat) ∧
  is_block_run g' = is_block_run g ∧ is_broadcasted g = false.
Proof.
  intros Ha. destruct g as [mis|mis t|mis t p|mis t p h ph|m res|m o|tx|tx c|tx c|o|r|o];
    try done; cbn [advance] in Ha.
  - destruct (next_block_time s) as [[]]; try done. injection Ha as <- <-. by destruct (AutoIncludeTx _).
  - destruct (default_proposer s) as [[]]; try done. injection Ha as <- <-. by destruct (AutoIncludeTx _).
  - destruct (lock_blockMutex s) as [[]]; try done. injection Ha as <- <-. by destruct (AutoIncludeTx _).
  - destruct (Returns_dec ph) as [->|Hne].
    { injection Ha as <- <-. by destruct (AutoIncludeTx _). }
    fold (advance (Inside mis t p h ph) s) in Ha. rewrite advance_inside in Ha by done.
    destruct (phase_step t p mis h ph s) as [[]]; injection Ha as <- <-; by destruct (AutoIncludeTx _).
  - destruct ((unlock_blockMutex ;; _) s) as [o s1]. injection Ha as <- <-. by destruct (AutoIncludeTx _).
  - destruct (SendCheckTx _ _ s) as [[]]; injection Ha as <- <-; by destruct (AutoIncludeTx _).
  - destruct (QueueTx tx s) as [[]]; try done. injection Ha as <- <-. by destruct (AutoIncludeTx _).
  - unfold go_RunBlock, call_env, cl, gets, mbind, M_bind in Ha. cbn in Ha.
    split; [intros f|by destruct (AutoIncludeTx (client s)); cbn in Ha; injection Ha as <- <-].
    unfold spawned. rewrite count_replicate.
    destruct (AutoIncludeTx (client s)); cbn in Ha; injection Ha as <- <-; cbn [io is_broadcasted Nat.b2n];
      rewrite ?go_calls_cons; cbn [is_go_call]; lia.
  - destruct (small_request r); [|done]. destruct (serve r s). injection Ha as <- <-.
    by destruct (AutoIncludeTx _).
Qed.
End steps.

(** ** One block at a time *)

Section serialize.
Context {CT : CometTypes} {CO : CometOps} {CL : CometLaws} {EN : Env} {RO : RpcOps} {ST TH : Type}.
Context {SO : StorageOps ST} {SL : StorageLaws ST} {TO : TimeHandlerOps TH}.
#[local] Abbreviation Sys := (Sys ST TH).
Implicit Types s : Sys.

(** No block run has failed. *)
Definition clean (gs : list goroutine) : bool := Nat.eqb (count failed gs) 0.

(** The chain, seen from the holder of the mutex if there is one. *)
Definition chain_ok (gs : list goroutine) s : Prop :=
  if blockMutex s then ∀ g, g ∈ gs → holds g = true → run_ok (clean gs) g (abs s)
  else good (clean gs) (abs s).

Record pinv (auto : bool) (h0 : Z) (n0 : nat) (cfg : Sys * list goroutine) : Prop := {
  pi_wf : st_wf (Storage (client cfg.1));
  pi_auto : AutoIncludeTx (client cfg.1) = auto;
  pi_mutex : count holds cfg.2 = Nat.b2n (blockMutex cfg.1);
  pi_locked : st_locked (Storage (client cfg.1)) = true → clean cfg.2 = false;
  pi_chain : st_locked (Storage (client cfg.1)) = false →
    chain_ok cfg.2 cfg.1 ∧ height cfg.1 = h0 + Z.of_nat (count made cfg.2);
  pi_blocks : count is_block_run cfg.2 =
    (n0 + if auto then count is_broadcasted cfg.2 else 0)%nat }.

(** Among several goroutines at most one holds the mutex. *)
Lemma other_holders (l1 l2 : list goroutine) g x : count holds (l1 ++ g :: l2) = Nat.b2n (holds g) →
  x ∈ l1 ∨ x ∈ l2 → holds x = false.
Proof.
  intros Hc Hx. destruct (holds x) eqn:E; [|done]. exfalso.
  assert (1 ≤ count holds l1 + count holds l2)%nat.
  { destruct Hx as [Hx|Hx]; pose proof (count_in holds _ _ Hx E); lia. }
  unfold count in *. rewrite sum_list_with_app in Hc. simpl in Hc. lia.
Qed.

Lemma clean_step_eq l1 g g' l2 new : (failed g = true → failed g' = true) →
  (∀ x, x ∈ new → failed x = false) →
  clean (l1 ++ g' :: l2 ++ new) = clean (l1 ++ g :: l2) && negb (failed g').
Proof.
  intros Hf Hn. pose proof (count_step failed l1 g g' l2 new) as C.
  rewrite (count_zero failed new Hn) in C. unfold clean.
  destruct (failed g) eqn:Eg, (failed g') eqn:Eg'; cbn [Nat.b2n negb] in *;
    try (by specialize (Hf eq_refl)); rewrite ?andb_false_r, ?andb_true_r.
  - apply Nat.eqb_neq. assert (1 ≤ count failed (l1 ++ g :: l2))%nat; [|lia].
    eapply count_in; [|exact Eg]. rewrite elem_of_app, elem_of_cons. tauto.
  - apply Nat.eqb_neq. lia.
  - f_equal. lia.
Qed.

Lemma spawned_fresh g s s' x : x ∈ spawned g s s' → x = RunsBlock [].
Proof.
  unfold spawned. destruct g; try (by intros ?%elem_of_nil). by intros [-> _]%elem_of_replicate.
Qed.

(** What one step does to the chain, whoever makes it. *)
Lemma chain_ok_step l1 l2 g s g' s' :
  let gs := l1 ++ g :: l2 in let gs' := l1 ++ g' :: l2 ++ spawned g s s' in
  advance g s = Some (g', s') → count holds gs = Nat.b2n (blockMutex s) → st_wf (Storage (client s)) →
  (st_locked (Storage (client s)) = false → chain_ok gs s) →
  st_wf (Storage (client s')) ∧ AutoIncludeTx (client s') = AutoIncludeTx (client s) ∧
  Nat.b2n (blockMutex s') = count holds gs' ∧ (failed g = true → failed g' = true) ∧
  (st_locked (Storage (client s')) = true → st_locked (Storage (client s)) = true ∨ failed g' = true) ∧
  (st_locked (Storage (client s')) = false → st_locked (Storage (client s)) = false ∧
     height s' + Z.b2z (made g) = height s + Z.b2z (made g') ∧ chain_ok gs' s').
Proof.
  intros gs gs' Ha Hm Hwf Hok.
  assert (∀ x, x ∈ spawned g s s' → failed x = false ∧ holds x = false) as Hnew
    by (by intros x ->%spawned_fresh).
  pose proof (count_step holds l1 g g' l2 (spawned g s s')) as Hch.
  rewrite (count_zero holds (spawned g s s')) in Hch by (intros; by apply Hnew).
  fold gs gs' in Hch. rewrite Hm in Hch.
  assert (g ∈ gs) as Hin by (unfold gs; rewrite elem_of_app, elem_of_cons; tauto).
  pose proof (λ Hf, clean_step_eq l1 g g' l2 (spawned g s s') Hf (λ x Hx, proj1 (Hnew x Hx))) as Hclean.
  fold gs gs' in Hclean.
  assert (∀ x, x ∈ gs' → holds x = true → (x ∈ l1 ∨ x ∈ l2) ∨ x = g') as Hin'.
  { intros x Hx Hhx. unfold gs' in Hx. rewrite elem_of_app, elem_of_cons, elem_of_app in Hx.
    destruct Hx as [?|[?|[?|Hx]]]; [tauto..|]. destruct (Hnew x Hx). congruence. }
  destruct (holds g) eqn:Hg; [|destruct (holds g') eqn:Hg'].
  - assert (blockMutex s = true) as Hb.
    { pose proof (count_in holds gs g Hin Hg). destruct (blockMutex s); [done|]. simpl in *. lia. }
    assert (failed g = true → clean gs = false) as Hfc.
    { intros Hf. apply Nat.eqb_neq. pose proof (count_in failed gs g Hin Hf). lia. }
    destruct (advance_held (clean gs) g s g' s' Ha Hg Hb Hwf Hfc) as (Hwf' & Hau & Hb' & Hff & Hl & Hc).
    { intros Hl. specialize (Hok Hl). unfold chain_ok in Hok. rewrite Hb in Hok. by apply Hok. }
    split_and!; [done | done | rewrite Hb' in *; rewrite Hb in Hch; simpl in Hch; lia | done | done |].
    intros Hl'. destruct (Hc Hl') as (Hl0 & Hh & Hr). split_and!; [done | done |].
    unfold chain_ok. rewrite (Hclean Hff), Hb'. destruct (holds g') eqn:Hg'.
    + intros x Hx Hhx. destruct (Hin' x Hx Hhx) as [Hx'| ->]; [|done].
      rewrite (other_holders l1 l2 g x) in Hhx; [done | by fold gs; rewrite Hm, Hb, Hg | done].
    + destruct g'; try done.
  - destruct (advance_lock g s g' s' Ha Hg Hg') as (Hb & -> & Hf & Hf0 & Hm0 & Hm' & Hr).
    split_and!; [done | done | rewrite Hb in Hch; simpl in *; lia | congruence | by left |].
    intros Hl. split_and!; [done | by rewrite Hm0, Hm' |].
    specialize (Hok Hl). unfold chain_ok in *. rewrite Hb in Hok. cbn [blockMutex].
    rewrite Hclean, Hf by congruence. cbn [negb]. rewrite andb_true_r.
    intros x Hx Hhx. destruct (Hin' x Hx Hhx) as [Hx'| ->]; [|by apply Hr].
    rewrite (other_holders l1 l2 g x) in Hhx; [done | by fold gs; rewrite Hm, Hb, Hg | done].
  - destruct (advance_quiet g s g' s' Ha Hg Hg') as ((Hb & Hau & Hq) & Hf & Hm0 & Hm' & Hf0).
    destruct (Hq Hwf) as (Hwf' & Hl & Habs). rewrite Hl.
    split_and!; [done | done | rewrite Hb; simpl in *; lia | congruence | by left |].
    intros Hl'. specialize (Hok Hl'). split_and!; [done | |].
    + rewrite Hm0, Hm'. change (height s') with (st_LastBlockHeight (ch_state (abs s'))). by rewrite Habs.
    + unfold chain_ok in *. rewrite Hb, Habs, Hclean, Hf by congruence. cbn [negb]. rewrite andb_true_r.
      destruct (blockMutex s); [|done]. intros x Hx Hhx. apply Hok; [|done].
      destruct (Hin' x Hx Hhx) as [Hx'| ->]; [|congruence].
      unfold gs. rewrite elem_of_app, elem_of_cons. tauto.
Qed.

Lemma pstep_inv auto h0 n0 cfg cfg' : pstep cfg cfg' → pinv auto h0 n0 cfg → pinv auto h0 n0 cfg'.
Proof.
  intros [s g s' g' l1 l2 Ha] [Hwf Hau Hm Hl Hc Hb]. cbn [fst snd] in *.
  destruct (chain_ok_step l1 l2 g s g' s' Ha Hm Hwf) as (Hwf' & Hau' & Hm' & Hff & Hl' & Hc').
  { intros Hfree. by apply Hc. }
  destruct (advance_counts g s g' s' Ha) as (Hn & Hrun & Hbr).
  pose proof (count_step made l1 g g' l2 (spawned g s s')) as Cm.
  pose proof (count_step is_block_run l1 g g' l2 (spawned g s s')) as Cb.
  pose proof (count_step is_broadcasted l1 g g' l2 (spawned g s s')) as Cd.
  pose proof (λ H, clean_step_eq l1 g g' l2 (spawned g s s') Hff H) as Hclean.
  rewrite Hn, Hrun in Cb. rewrite Hn in Cm, Cd. rewrite Hau in Cb, Cm, Cd.
  split; cbn [fst snd]; [done | congruence | done | | |].
  - intros Hk. rewrite Hclean by (by intros x ->%spawned_fresh).
    destruct (Hl' Hk) as [Hk'| ->]; [by rewrite (Hl Hk') | by rewrite andb_false_r].
  - intros Hk. destruct (Hc' Hk) as (Hk0 & Hh & Hok). split; [exact Hok|]. destruct (Hc Hk0) as [_ Hh0].
    destruct auto, (made g), (made g'); simpl in *; lia.
  - rewrite Hbr in Cd. destruct auto, (is_broadcasted g'); simpl in *; lia.
Qed.

Lemma rtc_pstep_inv auto h0 n0 cfg cfg' :
  rtc pstep cfg cfg' → pinv auto h0 n0 cfg → pinv auto h0 n0 cfg'.
Proof. induction 1 as [|c1 c2 c3 Hstep _ IH]; [done|]. intros H. by eapply IH, pstep_inv. Qed.

(** Wherever the holder of the mutex is, the chain is sound. *)
Lemma chain_ok_sound gs s : count holds gs = Nat.b2n (blockMutex s) → chain_ok gs s → chain_sound (abs s).
Proof.
  unfold chain_ok. intros Hm Hok. destruct (blockMutex s); [|by eapply good_sound].
  destruct (decide (Exists (λ g, holds g = true) gs)) as [Hex|Hno].
  - apply Exists_exists in Hex as (g & Hin & Hg). eapply run_ok_sound, Hok; eauto.
  - exfalso. rewrite count_zero in Hm; [done|]. intros g Hin. destruct (holds g) eqn:E; [|done].
    destruct Hno. apply Exists_exists. eauto.
Qed.

(** C7 The goroutines' steps are those of the functions: without interruption they
    are [RunBlock] (with or without evidence) and [BroadcastTx].  From an idle process
    with a well-formed chain, whatever the interleaving of any number of block runs
    (a call that makes several blocks is as many of them), broadcasts, queries and
    requests for signing status or time, and whether or not block runs fail: the block mutex is held
    exactly while one goroutine, never two, is in a block run (or was stopped there
    by a panic or a call that does not return); unless a failed run has left the
    storage locked, the chain is sound at every point and its height has grown by
    the number of runs that have made their block; as long as no run has failed, the
    storage is free and the chain is well formed whenever the mutex is; and the
    number of block runs is that of the runs asked for plus, with automatic
    inclusion, one for every broadcast that went through. *)
Theorem concurrent_blocks_serialize (s0 s : Sys) (gs0 gs : list goroutine)
    (Hidle : idle s0) (Hinv : chain_inv (abs s0)) (Hfresh : ∀ g, g ∈ gs0 → fresh g = true)
    (Hreach : rtc pstep (s0, gs0) (s, gs)) :
  (∀ mis s1, RunBlockWithEvidence mis s1 =
     let '(g, s2) := alone 20 (RunsBlock mis) s1 in (run_outcome g, s2)) ∧
  (∀ tx s1, BroadcastTx tx s1 =
     let '(g, s2) := alone 3 (Broadcasts tx) s1 in (broadcast_outcome g, s2)) ∧
  count holds gs = (if blockMutex s then 1 else 0)%nat ∧
  (st_locked (Storage (client s)) = false →
     chain_sound (abs s) ∧ height s = height s0 + Z.of_nat (count made gs)) ∧
  (count failed gs = 0%nat →
     st_locked (Storage (client s)) = false ∧ (blockMutex s = false → chain_inv (abs s))) ∧
  count is_block_run gs =
    (count is_block_run gs0 + if AutoIncludeTx (client s0) then count is_broadcasted gs else 0)%nat.
Proof.
  split; [intros; apply alone_RunBlock|]. split; [intros; apply alone_BroadcastTx|].
  assert (∀ f, (∀ g, fresh g = true → f g = false) → count f gs0 = 0%nat) as Hzero
    by (intros f Hf; apply count_zero; auto).
  destruct Hidle as (Hm & Hwf & Hl).
  assert (clean gs0 = true) as Hc0.
  { unfold clean. rewrite (Hzero failed); [done|]. by intros []. }
  assert (pinv (AutoIncludeTx (client s0)) (height s0) (count is_block_run gs0) (s0, gs0)) as H0.
  { split; cbn [fst snd]; [done | done | | congruence | |].
    - rewrite Hm, (Hzero holds); [done|]. by intros [].
    - intros _. rewrite (Hzero made); [|by intros []]. unfold chain_ok. rewrite Hm, Hc0. split; [done | lia].
    - rewrite (Hzero is_broadcasted); [|by intros []]. destruct (AutoIncludeTx _); lia. }
  assert (pinv (AutoIncludeTx (client s0)) (height s0) (count is_block_run gs0) (s, gs)) as [_ _ Hm' Hl' Hc' Hb'].
  { exact (rtc_pstep_inv _ _ _ _ _ Hreach H0). }
  cbn [fst snd] in *. split_and!; [by rewrite Hm'; destruct (blockMutex s) | | | done].
  - intros Hfree. destruct (Hc' Hfree) as [Hok Hh]. split; [by eapply chain_ok_sound | done].
  - intros Hf. assert (clean gs = true) as Hcl by (unfold clean; by rewrite Hf).
    assert (st_locked (Storage (client s)) = false) as Hfree
      by (apply not_true_is_false; intros Hk; specialize (Hl' Hk); congruence).
    split; [done|]. intros Hmf. destruct (Hc' Hfree) as [Hok _]. unfold chain_ok in Hok.
    by rewrite Hmf, Hcl in Hok.
Qed.
End serialize.

(** ** Instances *)

Import ToyInstances.

(** Refused by CheckTx with code 1, queued all the same. *)
Lemma BroadcastTx_spec_witness :
  match (BroadcastTx "bad" toy_two).1 with Ret r => rsc_Code (rbc_CheckTx r) = 1 | _ => False end ∧
  FreshTxQueue (client (BroadcastTx "bad" toy_two).2) = FreshTxQueue (client toy_two) ++ ["bad"].
Proof.
  pose proof (BroadcastTx_spec "bad" toy_two) as [H _].
  assert (match (BroadcastTx "bad" toy_two).1 with Ret r => rsc_Code (rbc_CheckTx r) = 1 | _ => False end) as Hc
    by (vm_compute; reflexivity).
  split; [exact Hc|]. destruct (BroadcastTx "bad" toy_two) as [[r|e|p|] s'].
  - exact (proj1 (proj2 (proj2 H))).
  - destruct Hc.
  - destruct Hc.
  - destruct Hc.
Defined.

(** A broadcast with automatic inclusion while a block is run, and a query in the
    middle of it; then the block that the broadcast asked for. *)
Definition toy_auto : ToySys := mkSys (set_AutoIncludeTx true (client toy_two)) (blockMutex toy_two) (io toy_two).
Definition toy_start : list goroutine := [Broadcasts "x"; RunsBlock []; Requests RpcStatus].
Definition toy_order : list nat := [1; 1; 1; 1; 0; 1; 1; 2]%nat ++ replicate 14 1%nat ++ [0; 0]%nat ++ replicate 20 3%nat.
Definition toy_overlap : ToySys * list goroutine :=
  default (toy_auto, toy_start) (schedule toy_order (toy_auto, toy_start)).

Lemma toy_overlap_steps : rtc pstep (toy_auto, toy_start) (toy_overlap.1, toy_overlap.2).
Proof.
  rewrite <-surjective_pairing. apply schedule_steps. vm_compute. reflexivity.
Qed.

Lemma toy_auto_ready : idle toy_auto ∧ chain_inv (abs toy_auto).
Proof. exact (clean_step_inv _ _ (op_auto true toy_two) toy_two_ready). Qed.

Lemma concurrent_blocks_serialize_witness :
  chain_inv (abs toy_overlap.1) ∧ height toy_overlap.1 = height toy_auto + 2 ∧
  count is_block_run toy_overlap.2 = 2%nat.
Proof.
  assert (∀ g, g ∈ toy_start → fresh g = true) as Hfresh.
  { intros g Hg. unfold toy_start in Hg. rewrite !elem_of_cons, elem_of_nil in Hg.
    by destruct Hg as [->|[->|[->|[]]]]. }
  destruct (concurrent_blocks_serialize toy_auto toy_overlap.1 toy_start toy_overlap.2
    (proj1 toy_auto_ready) (proj2 toy_auto_ready) Hfresh toy_overlap_steps)
    as (_ & _ & _ & Hh & Hc & Hn).
  assert (count failed toy_overlap.2 = 0%nat) as Hf by (vm_compute; reflexivity).
  destruct (Hc Hf) as [Hl Hci].
  split; [apply Hci; vm_compute; reflexivity|]. split.
  - assert (count made toy_overlap.2 = 2%nat) as Hk by (vm_compute; reflexivity).
    rewrite (proj2 (Hh Hl)), Hk. reflexivity.
  - rewrite Hn. vm_compute. reflexivity.
Defined.
