(* ===== verification/Race.v ===== *)
(** * Runs that overlap can have the same timestamp

    [RunBlock] reads the last block's time before it takes the block mutex.  When
    several goroutines have read it before the first of them goes on, the blocks
    they make, one after another, all have one and the same time. *)

From S2P Require Import Prelude.
From S2P Require Import CometTypes.
From S2P Require Import Toy.
From S2P Require Import Storage.
From S2P Require Import TimeHandler.
From S2P Require Import Utils.
From S2P Require Import Client.
From S2P Require Import UpdateState.
From S2P Require Import Evidence.
From S2P Require Import RunBlock.
From S2P Require Import Example.
From S2P Require Import Frames.
From S2P Require Import RunBlockSpec.
From S2P Require Import UpdateSpec.
From S2P Require Import Chain.
From S2P Require Import Sound.
From S2P Require Import RunBlockProps.
From S2P Require Import BlockFacts.
From S2P Require Import Txs.
From S2P Require Import Pagination.
From S2P Require Import Routes.
From S2P Require Import RoutesProps.
From S2P Require Import Reach.
From S2P Require Import Goroutines.
From S2P Require Import Interleave.
#[local] Open Scope Z_scope.

(** ** Timestamps when several runs have started *)

Section race.
Context {CT : CometTypes} {CO : CometOps} {CL : CometLaws} {EN : Env} {RO : RpcOps} {ST : Type}.
Context {SO : StorageOps ST} {SL : StorageLaws ST}.
#[local] Abbreviation Sys := (Sys ST AnyTimeHandler).
Implicit Types s : Sys.

Definition takes_time (g : goroutine) : bool := match g with HasTime _ _ => true | _ => false end.
Definition past_reading (g : goroutine) : bool :=
  match g with WaitsForMutex _ _ _ | Inside _ _ _ _ _ | Leaves _ _ | RunOver _ _ => true | _ => false end.

Lemma advance_past g s g' s' : advance g s = Some (g', s') → past_reading g = true → past_reading g' = true.
Proof.
  intros Ha Hp. destruct g as [mis|mis t|mis t p|mis t p h ph|m res|m o|tx|tx c|tx c|o|r|o]; try done;
    cbn [advance] in Ha.
  - destruct (lock_blockMutex s) as [[]]; try done. by injection Ha as <- <-.
  - destruct (Returns_dec ph) as [->|Hne]; [by injection Ha as <- <-|].
    fold (advance (Inside mis t p h ph) s) in Ha. rewrite advance_inside in Ha by done.
    destruct (phase_step t p mis h ph s) as [[]]; by injection Ha as <- <-.
  - destruct ((unlock_blockMutex ;; _) s) as [o s1]. by injection Ha as <- <-.
Qed.

(** A goroutine that has gone on does not come back. *)
Lemma past_reading_stays (c c' : Sys * list goroutine) : rtc pstep c c' →
  (∃ g, g ∈ c.2 ∧ past_reading g = true) → ∃ g, g ∈ c'.2 ∧ past_reading g = true.
Proof.
  intros Hreach. induction Hreach as [c|c1 c2 c3 Hstep _ IH]; intros (g & Hin & Hp); [by eauto|].
  apply IH. destruct Hstep as [s x s' x' l1 l2 Ha]. cbn [snd] in *.
  rewrite elem_of_app, elem_of_cons in Hin. destruct Hin as [Hin|[->|Hin]].
  - exists g. split; [|done]. rewrite elem_of_app. tauto.
  - exists x'. split; [rewrite elem_of_app, elem_of_cons; tauto|]. by eapply advance_past.
  - exists g. split; [|done]. rewrite elem_of_app, elem_of_cons, elem_of_app. tauto.
Qed.

(** The time of the block that a phase is about, if there is one, is [T]. *)
Definition phase_time (T : Z) (ph : phase) : Prop :=
  match ph with
  | ListVoters b | ListNonProposers b _ | AskOthers b _ _ | CastVotes b _ | VerifyVotes b _ _
  | CommitVotes b _ | FinalizeBlock b | UpdateBoth b _ => hdr_Time (blk_Header b) = T
  | _ => True
  end.

(** All times that were read are [T]. *)
Definition timed (T : Z) (g : goroutine) : Prop :=
  match g with
  | HasTime _ t | WaitsForMutex _ t _ => t = T
  | Inside _ t _ _ ph => t = T ∧ phase_time T ph
  | Leaves _ _ | RunOver _ _ => True
  | _ => False
  end.

(** No offset is pending, so the handler gives block time after the last block. *)
Definition fixed_times s (T : Z) : Prop :=
  ∃ f, Time_Handler (client s) = UseFixedBlock f ∧ curBlockOffset f = 0 ∧
    last_time s + wrap64 (blockTime f) = T.

Lemma next_block_time_fixed t s s' T : next_block_time s = (Ret t, s') → fixed_times s T →
  t = T ∧ fixed_times s' T.
Proof.
  intros H (f & Hf & Hoff & HT). apply next_block_time_ret in H as [(now & Hn) ->].
  rewrite Hf in Hn. cbn in Hn. rewrite Hoff, Z.add_0_r in Hn. injection Hn as <- Hf'.
  split; [done|]. unfold fixed_times, last_time. cbn [client set_Time_Handler Time_Handler LastBlock].
  rewrite <-Hf'. eexists. split_and!; [done | done | exact HT].
Qed.

(** While every goroutine only reads the time, all get the same. *)
Lemma reading_phase T c c' : rtc pstep c c' →
  (∀ g, g ∈ c'.2 → takes_time g = true) →
  (∀ g, g ∈ c.2 → ∃ mis, g = RunsBlock mis ∨ g = HasTime mis T) → fixed_times c.1 T →
  (∀ g, g ∈ c'.2 → timed T g) ∧ Storage (client c'.1) = Storage (client c.1).
Proof.
  intros Hreach Hend. induction Hreach as [c|c1 c2 c3 Hstep Hrest IH]; intros Hg HT.
  - split; [|done]. intros g Hin. destruct (Hg g Hin) as (mis & [->| ->]); [|done]. by apply Hend in Hin.
  - destruct Hstep as [s g s' g' l1 l2 Ha]. cbn [fst snd] in *.
    assert (g ∈ l1 ++ g :: l2) as Hing by (rewrite elem_of_app, elem_of_cons; tauto).
    destruct (Hg g Hing) as (mis & [->| ->]).
    + cbn [advance] in Ha. destruct (next_block_time s) as [[t| | |] s1] eqn:Ht; try done.
      injection Ha as <- <-. destruct (next_block_time_fixed _ _ _ _ Ht HT) as [-> HT'].
      apply next_block_time_ret in Ht as [_ Hs1].
      assert (Storage (client s) = Storage (client s1)) as -> by (by rewrite Hs1).
      apply IH; [done | | done].
      intros g Hin. cbn [spawned] in Hin. rewrite app_nil_r, elem_of_app, elem_of_cons in Hin.
      destruct Hin as [Hin|[->|Hin]]; [|by eauto|]; apply Hg; rewrite elem_of_app, elem_of_cons; tauto.
    + exfalso. destruct (past_reading_stays _ _ Hrest) as (x & Hx & Hpast).
      * exists g'. split; [cbn [snd]; rewrite elem_of_app, elem_of_cons; tauto|].
        cbn [advance] in Ha. destruct (default_proposer s) as [[]]; try done. by injection Ha as <- <-.
      * apply Hend in Hx. by destruct x.
Qed.

(** All blocks stored above [h0] have the time [T]. *)
Definition stored_at (h0 T : Z) s : Prop :=
  st_wf (Storage (client s)) ∧
  ∀ k e, h0 < k → st_view (Storage (client s)) !! k = Some e → hdr_Time (blk_Header (e_block e)) = T.

Lemma frame_stored_at q lc h0 T s s' : frame q lc s s' → stored_at h0 T s → stored_at h0 T s'.
Proof. intros F [Hwf H]. destruct (fr_Storage _ _ _ _ F Hwf) as (Hwf' & _ & Hv). split; [done|]. by rewrite Hv. Qed.

Lemma phase_times h0 T p mis h ph s o s' : phase_step T p mis h ph s = (o, s') →
  phase_time T ph → stored_at h0 T s →
  stored_at h0 T s' ∧ ∀ ph', o = Ret ph' → phase_time T ph'.
Proof.
  intros Hrun Hph Hs.
  assert (∀ ph', o = Ret ph' → phase_time T ph') as Hph'.
  { intros ph' ->. destruct ph; cbn [phase_step] in Hrun; cbv zeta in Hrun.
    6: { apply bind_ret_inv in Hrun as (b & s1 & Hp & Hrun). injection Hrun as <- _.
         by apply propose_block_ret in Hp as (v & txl & -> & -> & _). }
    all: repeat (apply bind_ret_inv in Hrun as (? & ? & _ & Hrun)); by injection Hrun as <- _. }
  split; [|exact Hph'].
  destruct (quiet_phase ph) eqn:Hq; [|destruct ph as [| | | | | | | | | | |b votes| |b res|res|]; try done].
  - eapply (frame_stored_at true false); [|exact Hs].
    eapply within_run; [by apply within_quiet_phase | exact Hrun].
  - eapply (frame_stored_at false true); [|exact Hs].
    eapply within_run; [|exact Hrun]. cbn [phase_step]. within_auto.
  - cbn [phase_step] in Hrun. destruct Hs as [Hwf Hs].
    assert (s' = (update_stores_and_state h b res s).2) as ->.
    { unfold mbind, M_bind in Hrun. by destruct (update_stores_and_state h b res s) as [[] ?]; injection Hrun. }
    destruct (st_locked (Storage (client s))) eqn:Hl.
    + destruct (update_stores_blocked h b res s Hwf Hl) as (s1 & -> & F).
      by eapply frame_stored_at; [exact F|].
    + destruct (update_stores_and_state h b res s) as [o1 s1] eqn:Hu.
      destruct (update_stores_and_state_cases _ _ _ _ _ _ Hwf Hl Hu) as [(_ & _ & _ & _ & Hwf1 & Hv1) _].
      split; [done|]. cbn [snd]. rewrite Hv1. intros k e Hk. destruct (decide (h = k)) as [<-|Hne].
      * rewrite lookup_insert_eq. by intros [= <-].
      * rewrite lookup_insert_ne by done. by apply Hs.
  - cbn [phase_step] in Hrun. unfold commit_block, wrap_err, upd_state, upd, modify, mbind, M_bind in Hrun.
    pose proof (frame_stored_at _ _ h0 T _ _ (within_SendCommit false false s) Hs) as Hs1.
    destruct (SendCommit s) as [[] s1]; by injection Hrun as <- <-.
Qed.

(** From then on every block made has that time. *)
Lemma running_phase h0 T c c' : rtc pstep c c' →
  (∀ g, g ∈ c.2 → timed T g) → stored_at h0 T c.1 → stored_at h0 T c'.1.
Proof.
  intros Hreach. induction Hreach as [c|c1 c2 c3 Hstep _ IH]; intros Hg Hs; [done|].
  destruct Hstep as [s g s' g' l1 l2 Ha]. cbn [fst snd] in *.
  assert (timed T g) as Htg by (apply Hg; rewrite elem_of_app, elem_of_cons; tauto).
  assert (timed T g' ∧ stored_at h0 T s' ∧ spawned g s s' = []) as (Htg' & Hs' & Hnew).
  { destruct g as [mis|mis t|mis t p|mis t p h ph|m res|m o|tx|tx c|tx c|o|r|o]; try done.
    - cbn [advance] in Ha. unfold default_proposer in Ha. rewrite cl_run in Ha. by injection Ha as <- <-.
    - cbn [advance] in Ha. unfold lock_blockMutex in Ha. destruct (blockMutex s); [done|].
      by injection Ha as <- <-.
    - destruct (Returns_dec ph) as [->|Hne]; [by injection Ha as <- <-|].
      rewrite advance_inside in Ha by done. injection Ha as Ha. destruct Htg as [-> Hph].
      destruct (phase_step T p mis h ph s) as [o s1] eqn:Hrun.
      destruct (phase_times h0 T _ _ _ _ _ _ _ Hrun Hph Hs) as [Hs1 Hph'].
      destruct o as [ph'|e|pv|]; injection Ha as <- <-; cbn [timed]; auto.
    - cbn [advance] in Ha. unfold unlock_blockMutex, mbind, M_bind in Ha.
      by destruct (blockMutex s), res; injection Ha as <- <-. }
  apply IH; [|done]. rewrite Hnew, app_nil_r. intros x Hin.
  rewrite elem_of_app, elem_of_cons in Hin. destruct Hin as [Hin|[->|Hin]]; [|done|];
    apply Hg; rewrite elem_of_app, elem_of_cons; tauto.
Qed.

(** C40 The block time is read before the block mutex is taken, so with the fixed
    handler and no [advance_time] pending, several runs can get the same: if, on an
    idle process with a well-formed chain, any number of them have read the time before the first one reads the proposer, then
    all the blocks they make, in whatever interleaving and whether or not some of
    them fail, have one and the same timestamp, the last block's plus one block
    time. *)
Theorem simultaneous_blocks_same_time (s s1 s' : Sys) (gs gs1 gs' : list goroutine)
    (f : FixedBlockTimeHandler) (Hidle : idle s) (Hinv : chain_inv (abs s))
    (Hf : Time_Handler (client s) = UseFixedBlock f) (Hoff : curBlockOffset f = 0)
    (Hruns : ∀ g, g ∈ gs → ∃ mis, g = RunsBlock mis)
    (Hread : rtc pstep (s, gs) (s1, gs1))
    (Hall : ∀ g, g ∈ gs1 → takes_time g = true)
    (Hrun : rtc pstep (s1, gs1) (s', gs')) :
  ∀ k e, height s < k → ch_entries (abs s') !! k = Some e →
    hdr_Time (blk_Header (e_block e)) = last_time s + wrap64 (blockTime f).
Proof.
  set (T := last_time s + wrap64 (blockTime f)).
  destruct (reading_phase T _ _ Hread Hall) as (Hg1 & Hst1); [| by exists f |].
  { intros g Hin. destruct (Hruns g Hin) as [mis ->]. by exists mis; left. }
  cbn [fst snd] in *. apply (running_phase (height s) T _ _ Hrun); [done|].
  cbn [fst]. unfold stored_at. rewrite Hst1. split; [apply Hidle|]. intros k e Hk He. exfalso.
  assert (1 ≤ k ≤ height s); [|lia]. apply (ci_dom _ Hinv). eauto.
Qed.
End race.

(** ** Instances *)

Import ToyInstances.

(** Two runs, both of which read the time of block 2 first; then one overtakes the
    other. *)
Definition toy_both : list goroutine := [RunsBlock []; RunsBlock []].
Definition toy_read : ToySys * list goroutine :=
  default (toy_two, toy_both) (schedule [0; 1]%nat (toy_two, toy_both)).
Definition toy_fourth : ToySys * list goroutine :=
  default toy_read (schedule ([0; 1]%nat ++ replicate 18 1%nat ++ replicate 18 0%nat) toy_read).

Lemma toy_reading : rtc pstep (toy_two, toy_both) (toy_read.1, toy_read.2).
Proof. rewrite <-surjective_pairing. apply schedule_steps. vm_compute. reflexivity. Qed.
Lemma toy_running : rtc pstep (toy_read.1, toy_read.2) (toy_fourth.1, toy_fourth.2).
Proof. rewrite <-!surjective_pairing. apply schedule_steps. vm_compute. reflexivity. Qed.
Lemma toy_read_times : toy_read.2 = [HasTime [] 1006; HasTime [] 1006].
Proof. vm_compute. reflexivity. Qed.

(** Blocks 3 and 4 have the same timestamp. *)
Lemma simultaneous_blocks_same_time_witness :
  ∃ e3 e4, ch_entries (abs toy_fourth.1) !! 3 = Some e3 ∧ ch_entries (abs toy_fourth.1) !! 4 = Some e4 ∧
    hdr_Time (blk_Header (e_block e3)) = last_time toy_two + wrap64 1000 ∧
    hdr_Time (blk_Header (e_block e4)) = last_time toy_two + wrap64 1000.
Proof.
  assert (∀ g, g ∈ toy_both → ∃ mis, g = RunsBlock mis) as Hruns.
  { intros g Hg. exists []. unfold toy_both in Hg. rewrite !elem_of_cons, elem_of_nil in Hg.
    by destruct Hg as [->|[->|[]]]. }
  assert (∀ g, g ∈ toy_read.2 → takes_time g = true) as Hall.
  { intros g Hg. rewrite toy_read_times, !elem_of_cons, elem_of_nil in Hg.
    by destruct Hg as [->|[->|[]]]. }
  pose proof (simultaneous_blocks_same_time toy_two toy_read.1 toy_fourth.1 toy_both toy_read.2
    toy_fourth.2 (NewFixedBlockTimeHandler 1000) (proj1 toy_two_ready) (proj2 toy_two_ready)
    eq_refl eq_refl Hruns toy_reading Hall toy_running) as H.
  assert (height toy_two = 2) as Hh by (vm_compute; reflexivity). rewrite Hh in H.
  assert ((λ k, match ch_entries (abs toy_fourth.1) !! k with Some _ => true | None => false end) <$> [3; 4] =
    [true; true]) as He by (vm_compute; reflexivity).
  cbn [fmap list_fmap] in He.
  destruct (ch_entries (abs toy_fourth.1) !! 3) as [e3|] eqn:E3; [|discriminate He].
  destruct (ch_entries (abs toy_fourth.1) !! 4) as [e4|] eqn:E4; [|discriminate He].
  exists e3, e4. split; [reflexivity|]. split; [reflexivity|].
  split; [exact (H 3 e3 eq_refl E3) | exact (H 4 e4 eq_refl E4)].
Defined.
