(* ===== verification/Main.v ===== *)
(** * main.go: from the command line to the running chain

    Reading keys and genesis, choosing the starting time and the time handler,
    connecting to the applications, making the client; then [InitChain], the
    first block and the production loop.  Files, connections and CometBFT's
    genesis functions are outside code ([MainOps]).  Before the client exists the
    process is just its history. *)

From Stdlib Require Import Ascii.
From S2P Require Import Prelude.
From S2P Require Import CometTypes.
From S2P Require Import Toy.
From S2P Require Import Storage.
From S2P Require Import TimeHandler.
From S2P Require Import Utils.
From S2P Require Import Client.
From S2P Require Import UpdateState.
From S2P Require Import Evidence.
From S2P Require Import RunBlock.
From S2P Require Import Example.
From S2P Require Import Frames.
From S2P Require Import RunBlockSpec.
From S2P Require Import UpdateSpec.
From S2P Require Import Chain.
From S2P Require Import RunBlockProps.
From S2P Require Import BlockFacts.
From S2P Require Import Txs.
#[local] Open Scope Z_scope.

(** ** Outside code *)

Class MainOps `{CometTypes} := {
  PrivKey : Type;
  AppGenesis : Type;
  (** the private key of [privval.LoadFilePV(keyFile, stateFile)] *)
  LoadFilePV : string → string → outcome PrivKey;
  NewMockPVWithParams : PrivKey → bool → bool → PrivValidator;
  AppGenesisFromFile : string → outcome AppGenesis;
  (** the receiver may be nil *)
  ToGenesisDoc : option AppGenesis → outcome GenesisDoc;
  MakeGenesisState : GenesisDoc → outcome State;
  NewGRPCClient : string → bool → ABCIHandle;
  NewSocketClient : string → bool → ABCIHandle;
  (** zero values *)
  zero_HeaderRest : HeaderRest;
  zero_PartSetHeader : PartSetHeader;
}.

(** "LastBlockHeight=0 at genesis (ie. block(H=0) does not exist)" *)
Class MainLaws `{MainOps} := {
  MakeGenesisState_law : ∀ doc st, MakeGenesisState doc = Ret st → st_LastBlockHeight st = 0;
}.

(** ** The command line *)

(** [strings.Split(s, ",")] *)
Fixpoint split_comma (s : string) : list string :=
  match s with
  | EmptyString => [""]
  | String c s' =>
      if decide (c = ","%char) then "" :: split_comma s'
      else match split_comma s' with
           | w :: ws => String c w :: ws
           | [] => [String c ""]
           end
  end.

(** Arguments and flags; the flags' values are [int64]. *)
Record Config := mkConfig {
  cfg_Args : list string;
  flag_block_time : Z;
  flag_auto_tx : bool;
  flag_block_production_interval : Z;
  flag_starting_timestamp : Z;
  flag_starting_timestamp_from_genesis : bool }.

(** The flags' default values. *)
Definition default_config (args : list string) : Config :=
  {| cfg_Args := args;
     flag_block_time := -1;
     flag_auto_tx := true;
     flag_block_production_interval := 1000;
     flag_starting_timestamp := -1;
     flag_starting_timestamp_from_genesis := false |}.

(** [time.Duration(ms) * time.Millisecond] *)
Definition milliseconds (ms : Z) : Z := wrap64 (ms * 1000000).

Definition block_time (c : Config) : Z := milliseconds (flag_block_time c).

(** [panic(err)] *)
Definition or_panic {A} (o : outcome A) : outcome A :=
  match o with Err e => Panic (PanicErr e) | _ => o end.

Section main.
Context {CT : CometTypes} {CO : CometOps} {EN : Env} {MO : MainOps}.
#[local] Abbreviation Sys := (Sys MapStorage AnyTimeHandler).
Implicit Types s : Sys.

Definition GetMockPVsFromNodeHomes (nodeHomes : list string) : outcome (list PrivValidator) :=
  collectO (λ _ nodeHome,
    validator ← LoadFilePV (nodeHome +:+ "/config/priv_validator_key.json")
                           (nodeHome +:+ "/data/priv_validator_state.json");
    Ret (NewMockPVWithParams validator false false)) nodeHomes.

(** The genesis file; an error of reading it is only logged. *)
Definition read_app_genesis (genesisFile : string) : outcome (option AppGenesis) :=
  match AppGenesisFromFile genesisFile with
  | Ret g => Ret (Some g)
  | Err _ => Ret None
  | Panic p => Panic p
  | Blocked => Blocked
  end.

Definition read_genesis (genesisFile : string) : outcome (GenesisDoc * State) :=
  appGenesis ← read_app_genesis genesisFile;
  genesisDoc ← or_panic (ToGenesisDoc appGenesis);
  curState ← or_panic (MakeGenesisState genesisDoc);
  Ret (genesisDoc, curState).

(** [time.Now()] *)
Definition now_ : M (list io_event) Z := λ h, (Ret (env_Now h), IoNow :: h).

Definition starting_time (c : Config) (genesisDoc : GenesisDoc) : M (list io_event) Z :=
  if flag_starting_timestamp_from_genesis c then mret (gd_GenesisTime genesisDoc)
  else if decide (flag_starting_timestamp c < 0) then now_
  else mret (0 + milliseconds (flag_starting_timestamp c)).

(** One client per application, keyed by its validator's address. *)
Fixpoint connect_clients (connectionMode : string) (i : nat) (appAddresses : list string)
    (privVals : list PrivValidator) (clientMap : gmap string AbciCounterpartyClient)
  : outcome (gmap string AbciCounterpartyClient) :=
  match appAddresses with
  | [] => Ret clientMap
  | appAddress :: rest =>
      (* an error of [client.Start()] is dropped *)
      let client := if decide (connectionMode = "grpc") then NewGRPCClient appAddress true
                    else NewSocketClient appAddress true in
      match privVals !! i with
      | None => Panic IndexOutOfRange
      | Some privVal =>
          pubkey ← or_panic (GetPubKey privVal);
          let validatorAddress := Address_String (PubKey_Address pubkey) in
          connect_clients connectionMode (S i) rest privVals
            (<[validatorAddress :=
                 NewAbciCounterpartyClient client appAddress validatorAddress privVal]> clientMap)
      end
  end.

Definition time_handler (blockTime startingTime : Z) : M (list io_event) AnyTimeHandler :=
  if decide (blockTime < 0) then
    now ← now_; mret (UseSystemClock (NewSystemClockTimeHandler now startingTime))
  else mret (UseFixedBlock (NewFixedBlockTimeHandler blockTime)).

(** [&types.Block{}], [&types.ExtendedCommit{}] *)
Definition zero_Block : Block := mkBlock (mkHeader 0 zero_time "" "" "" zero_HeaderRest) [] [] None.
Definition zero_ExtendedCommit : ExtendedCommit :=
  mkExtendedCommit 0 0 (mkBlockID "" zero_PartSetHeader) [].

Definition usage_error (what : string) : error := ExtErr what.

(** What is known when the client has been made. *)
Record Setup := mkSetup {
  su_client : AbciClient MapStorage AnyTimeHandler;
  su_genesisDoc : GenesisDoc;
  su_curState : State;
  su_startingTime : Z }.

Definition set_up (c : Config) : M (list io_event) Setup :=
  match cfg_Args c with
  | arg0 :: genesisFile :: _ :: nodeHomesString :: connectionMode :: _ =>
      let appAddresses := split_comma arg0 in
      if decide (connectionMode ≠ "socket" ∧ connectionMode ≠ "grpc") then
        throw (usage_error "Invalid connection mode")
      else
        let nodeHomes := split_comma nodeHomesString in
        privVals ← liftO (GetMockPVsFromNodeHomes nodeHomes);
        '(genesisDoc, curState) ← liftO (read_genesis genesisFile);
        startingTime ← starting_time c genesisDoc;
        let blockTime := block_time c in
        clientMap ← liftO (connect_clients connectionMode 0 appAddresses privVals ∅);
        timeHandler ← time_handler blockTime startingTime;
        let globalClient := NewAbciClient clientMap curState zero_Block zero_ExtendedCommit
          empty_MapStorage timeHandler true in
        mret {| su_client := set_AutoIncludeTx (flag_auto_tx c) globalClient;
                su_genesisDoc := genesisDoc;
                su_curState := curState;
                su_startingTime := startingTime |}
  | _ => throw (usage_error "Not enough arguments.")
  end.

Definition first_block_time (c : Config) (startingTime : Z) : Z :=
  if decide (block_time c < 0) then startingTime else startingTime + block_time c.

(** [SendInitChain], then the first block. *)
Definition start_chain (c : Config) (su : Setup) : M Sys unit :=
  must (SendInitChain (su_curState su) (su_genesisDoc su)) ;;
  must (RunBlockWithTime (first_block_time c (su_startingTime su))).

(** The production loop, [n] rounds of it. *)
Fixpoint produce (n : nat) : M Sys unit :=
  match n with
  | O => mret tt
  | S n' => must RunBlock ;; produce n'
  end.

(** The first [rounds] rounds of the program, without the requests it serves. *)
Definition main_ (c : Config) (rounds : nat) (h : list io_event) : outcome unit * option Sys :=
  match set_up c h with
  | (Ret su, h') =>
      let '(o, s) := (start_chain c su ;;
        if decide (0 < flag_block_production_interval c) then produce rounds else mret tt)
        (mkSys (su_client su) false h') in (o, Some s)
  | (Err e, _) => (Err e, None)
  | (Panic p, _) => (Panic p, None)
  | (Blocked, _) => (Blocked, None)
  end.
End main.

(** ** Theorems *)

Section theorems.
Context {CT : CometTypes} {CO : CometOps} {CL : CometLaws} {EN : Env} {MO : MainOps} {ML : MainLaws}.
#[local] Abbreviation Sys := (Sys MapStorage AnyTimeHandler).
Implicit Types s : Sys.

(** The key of the [i]-th application's validator, and its address. *)
Definition key_of (privVals : list PrivValidator) (i : nat) (pv : PrivValidator) (addr : string) : Prop :=
  privVals !! i = Some pv ∧ ∃ pk, GetPubKey pv = Ret pk ∧ addr = Address_String (PubKey_Address pk).
Definition key_address (privVals : list PrivValidator) (i : nat) (addr : string) : Prop :=
  ∃ pv, key_of privVals i pv addr.

(** The connection to an application. *)
Definition connection (mode appAddress : string) : ABCIHandle :=
  if decide (mode = "grpc") then NewGRPCClient appAddress true else NewSocketClient appAddress true.

(** The client of the last application whose key has this address. *)
Definition connected (mode : string) (privVals : list PrivValidator) (i : nat) (addrs : list string)
    (addr : string) (c : AbciCounterpartyClient) : Prop :=
  ∃ j a pv, addrs !! j = Some a ∧ key_of privVals (i + j) pv addr ∧
    c = NewAbciCounterpartyClient (connection mode a) a addr pv ∧
    ∀ j' b, (j < j')%nat → addrs !! j' = Some b → ¬ key_address privVals (i + j') addr.
Definition unused (privVals : list PrivValidator) (i : nat) (addrs : list string) (addr : string) : Prop :=
  ∀ j b, addrs !! j = Some b → ¬ key_address privVals (i + j) addr.

Lemma connected_cons mode pvs i a addrs k c :
  connected mode pvs i (a :: addrs) k c ↔
  connected mode pvs (S i) addrs k c ∨
  (unused pvs (S i) addrs k ∧ ∃ pv, key_of pvs i pv k ∧
     c = NewAbciCounterpartyClient (connection mode a) a k pv).
Proof.
  split.
  - intros ([|j] & a' & pv & Ha & Hk & Hc & Hlast); cbn in Ha.
    + injection Ha as ->. right. rewrite Nat.add_0_r in Hk. split; [|by exists pv].
      intros j b Hb. rewrite Nat.add_succ_comm. by apply (Hlast (S j) b); [lia|].
    + left. exists j, a', pv. rewrite Nat.add_succ_comm. split_and!; [done..|].
      intros j' b Hj Hb. rewrite Nat.add_succ_comm. by apply (Hlast (S j') b); [lia|].
  - intros [(j & a' & pv & Ha & Hk & Hc & Hlast)|(Hun & pv & Hk & Hc)].
    + exists (S j), a', pv. rewrite <-Nat.add_succ_comm. split_and!; [done..|].
      intros [|j'] b Hj Hb; [lia|]. rewrite <-Nat.add_succ_comm. by apply (Hlast j' b); [lia|].
    + exists 0%nat, a, pv. rewrite Nat.add_0_r. split_and!; [done..|].
      intros [|j'] b Hj Hb; [lia|]. rewrite <-Nat.add_succ_comm. by apply (Hun j' b).
Qed.

Lemma connect_clients_keys mode i addrs pvs m m' :
  connect_clients mode i addrs pvs m = Ret m' →
  (∀ j a, addrs !! j = Some a → ∃ addr, key_address pvs (i + j) addr ∧ is_Some (m' !! addr)) ∧
  (∀ k, is_Some (m !! k) → is_Some (m' !! k)).
Proof.
  revert i m. induction addrs as [|a addrs IH]; intros i m H; cbn [connect_clients] in H.
  - injection H as <-. done.
  - destruct (pvs !! i) as [pv|] eqn:Hpv; [|done].
    destruct (GetPubKey pv) as [pk| | |] eqn:Hpk; cbn in H; try done.
    destruct (IH _ _ H) as [Hall Hkeep]. split.
    + intros [|j] a' Ha; simplify_eq/=.
      * exists (Address_String (PubKey_Address pk)). rewrite Nat.add_0_r. split.
        { exists pv. split; [done|]. by exists pk. }
        apply Hkeep. rewrite lookup_insert_eq. eauto.
      * rewrite <-Nat.add_succ_comm. by apply (Hall j a').
    + intros k Hk. apply Hkeep. rewrite lookup_insert_is_Some'. tauto.
Qed.

Lemma connect_clients_ret mode i addrs pvs m m' :
  connect_clients mode i addrs pvs m = Ret m' →
  ∀ k c, m' !! k = Some c ↔
    connected mode pvs i addrs k c ∨ (unused pvs i addrs k ∧ m !! k = Some c).
Proof.
  revert i m. induction addrs as [|a addrs IH]; intros i m H; cbn [connect_clients] in H.
  - injection H as <-. intros k c. split; [|by intros [(j & ? & ? & ? & _)|[_ ?]]].
    intros Hk. right. split; [|done]. by intros j b Hb.
  - destruct (pvs !! i) as [pv|] eqn:Hpv; [|done].
    destruct (GetPubKey pv) as [pk| | |] eqn:Hpk; cbn in H; try done.
    set (addr0 := Address_String (PubKey_Address pk)) in *.
    assert (key_of pvs i pv addr0) as Hkey by (split; [done|]; by exists pk).
    assert (∀ pv' k, key_of pvs i pv' k → pv' = pv ∧ k = addr0) as Hdet.
    { intros pv' k (Hpv' & pk' & Hpk' & ->). rewrite Hpv in Hpv'. injection Hpv' as <-.
      rewrite Hpk in Hpk'. by injection Hpk' as <-. }
    intros k c. rewrite (IH _ _ H), connected_cons. fold (connection mode a).
    assert (unused pvs i (a :: addrs) k ↔ k ≠ addr0 ∧ unused pvs (S i) addrs k) as Hun.
    { split.
      - intros Hu. split.
        + intros ->. apply (Hu 0%nat a eq_refl). exists pv. by rewrite Nat.add_0_r.
        + intros j b Hb. rewrite Nat.add_succ_comm. by apply (Hu (S j) b).
      - intros [Hne Hu] [|j] b Hb.
        + rewrite Nat.add_0_r. intros (pv' & Hk). by apply Hdet in Hk as [_ ->].
        + rewrite <-Nat.add_succ_comm. by apply (Hu j b). }
    rewrite Hun. destruct (decide (addr0 = k)) as [<-|Hne].
    + rewrite lookup_insert_eq. split.
      { intros [?|[? [= <-]]]; [by do 2 left|]. left. right. split; [done|]. by exists pv. }
      { intros [[?|[? (pv' & Hk & ->)]]|[[? _] _]]; [by left | | done]. right. split; [done|].
        by apply Hdet in Hk as [-> _]. }
    + rewrite lookup_insert_ne by done. split.
      { intros [?|[? ?]]; [by do 2 left|]. right. by split; [split|]. }
      { intros [[?|[? (pv' & Hk & ->)]]|[[_ ?] ?]]; [by left | | by right].
        by apply Hdet in Hk as [_ ->]. }
Qed.

(** Every client signs at the start. *)
Lemma all_signing (l : list string) k : k ∈ l →
  foldr (λ addr acc, <[addr := true]> acc) (∅ : gmap string bool) l !! k = Some true.
Proof.
  induction l as [|a l IH]; [by intros ?%elem_of_nil|]. rewrite elem_of_cons. intros Hin. simpl.
  destruct (decide (a = k)) as [->|Hne]; [apply lookup_insert_eq|].
  rewrite lookup_insert_ne by done. apply IH. destruct Hin; [congruence | done].
Qed.

Definition height_of s : Z := st_LastBlockHeight (CurState (client s)).

(** [InitChain] moves the state on, but not its height, and nothing else. *)
Record settled s s' : Prop := {
  se_height : height_of s' = height_of s;
  se_storage : Storage (client s') = Storage (client s);
  se_mutex : blockMutex s' = blockMutex s;
  se_signing : signingStatus (client s') = signingStatus (client s);
  se_time : Time_Handler (client s') = Time_Handler (client s);
  se_auto : AutoIncludeTx (client s') = AutoIncludeTx (client s);
  se_last : LastBlock (client s') = LastBlock (client s);
  se_clients : Clients (client s') = Clients (client s) }.

#[export] Instance settled_preorder : PreOrder settled.
Proof. split; [by intros s; split|]. intros s1 s2 s3 [] []. split; congruence. Qed.

Lemma frame_settled s s' : Storage (client s') = Storage (client s) → frame false false s s' → settled s s'.
Proof. intros Hs []. split; try done. unfold height_of. by rewrite fr_CurState. Qed.

Lemma within_settled_upd_state f : (∀ st, st_LastBlockHeight (f st) = st_LastBlockHeight st) →
  within settled (upd_state (ST:=MapStorage) (TH:=AnyTimeHandler) f).
Proof. intros Hf. apply within_modify. intros s. split; try done. apply Hf. Qed.

Lemma within_settled_InitChain st doc : within settled (SendInitChain st doc : M Sys unit).
Proof.
  unfold SendInitChain. within_step; [within_auto|]. within_step.
  - intros s. apply frame_settled.
    + unfold send_all. revert s. change (within (λ s s' : Sys, Storage (client s') = Storage (client s))
        (send_all (abci_call (ReqInitChain a) (λ h c, env_InitChain h c a)))).
      assert (PreOrder (λ s s' : Sys, Storage (client s') = Storage (client s))) as P
        by (split; [by intros ? | by intros ? ? ? -> ->]).
      unfold send_all. apply within_bind; [done | by intros s | intros cs].
      apply within_bind; [done | apply within_collect; [done | by intros ? ? s] | intros rs].
      apply within_bind; [done | by intros s | intros chk].
      destruct rs as [|r0 rs]; [by intros s|]. by destruct (_ && _); intros s.
    + apply within_send_all. intros c. apply within_abci_call.
  - unfold UpdateStateFromInit.
    repeat (within_step; try (apply within_settled_upd_state; by intros [])).
Qed.

(** A step of the program that panics where the code has [panic(err)]. *)
Lemma must_cases {A} (m : M Sys A) s :
  match must m s with
  | (Ret a, s') => m s = (Ret a, s')
  | (Err _, _) => False
  | _ => True
  end.
Proof. unfold must. by destruct (m s) as [[] ?]. Qed.

(** The client that is set up, in the process it starts in. *)
Definition launched (su : Setup) (h : list io_event) : Sys := mkSys (su_client su) false h.

Lemma set_up_ret c h su h' : set_up c h = (Ret su, h') →
  ∃ clientMap addrs privVals now h1 h2,
    starting_time c (su_genesisDoc su) h1 = (Ret (su_startingTime su), h2) ∧
    connect_clients (nth 4 (cfg_Args c) "") 0 addrs privVals ∅ = Ret clientMap ∧
    split_comma <$> head (cfg_Args c) = Some addrs ∧
    GetMockPVsFromNodeHomes (split_comma (nth 3 (cfg_Args c) "")) = Ret privVals ∧
    MakeGenesisState (su_genesisDoc su) = Ret (su_curState su) ∧
    su_client su = set_AutoIncludeTx (flag_auto_tx c)
      (NewAbciClient clientMap (su_curState su) zero_Block zero_ExtendedCommit empty_MapStorage
        (if decide (block_time c < 0) then UseSystemClock (NewSystemClockTimeHandler now (su_startingTime su))
         else UseFixedBlock (NewFixedBlockTimeHandler (block_time c))) true).
Proof.
  unfold set_up. intros H. destruct (cfg_Args c) as [|arg0 [|gf [|la [|nh [|mode rest]]]]]; try done.
  case_decide; [done|]. cbn [nth head fmap option_fmap option_map].
  apply bind_ret_inv in H as (pvs & h1 & Hpv & H). unfold liftO in Hpv. injection Hpv as Hpv <-.
  apply bind_ret_inv in H as ([doc st] & h2 & Hgen & H). unfold liftO in Hgen. injection Hgen as Hgen <-.
  apply bind_ret_inv in H as (t0 & h3 & Ht0 & H). cbv zeta in H.
  apply bind_ret_inv in H as (cm & h4 & Hcm & H). unfold liftO in Hcm. injection Hcm as Hcm <-.
  apply bind_ret_inv in H as (th & h5 & Hth & H). unfold mret, M_ret in H. injection H as <- <-.
  assert (MakeGenesisState doc = Ret st) as Hst.
  { unfold read_genesis in Hgen. destruct (read_app_genesis gf) as [g| | |]; try done. cbn in Hgen.
    destruct (ToGenesisDoc g) as [d| | |]; try done. cbn in Hgen.
    destruct (MakeGenesisState d) as [x| | |] eqn:E; try done. cbn in Hgen. by injection Hgen as <- <-. }
  unfold time_handler in Hth. exists cm, (split_comma arg0), pvs.
  case_decide.
  - apply bind_ret_inv in Hth as (now & h6 & _ & Hth). unfold mret, M_ret in Hth. injection Hth as <- <-.
    exists now, h, h3. done.
  - unfold mret, M_ret in Hth. injection Hth as <- <-. exists 0, h, h3. done.
Qed.

(** Milliseconds up to the year 2262 are not cut off. *)
Lemma milliseconds_exact ms : 0 ≤ ms ≤ 9223372036854 → milliseconds ms = ms * 1000000.
Proof. intros H. apply wrap64_id. unfold in_int64, min_int64, max_int64. lia. Qed.

(** C14 When the program has come up, its chain has exactly one block, whose
    timestamp is the starting time, plus one block time if the block time is
    fixed; the starting time is the genesis time or the given milliseconds if the
    flags say so (and the milliseconds fit); every listed application
    has a key, that of the node home at the same place, and the validator with the
    key's address signs; the clients are, under the address of each key, a
    connection of the given mode to the application with that key (the last one of
    them if several have the same key) and nothing else; automatic inclusion is as
    the flag says. *)
Theorem startup_spec (c : Config) (su : Setup) (h h' : list io_event) (s' : Sys)
    (Hset : set_up c h = (Ret su, h'))
    (Hrun : start_chain c su (launched su h') = (Ret tt, s')) :
  idle s' ∧ chain_inv (abs s') ∧ height_of s' = 1 ∧
  last_time s' = su_startingTime su + Z.max 0 (block_time c) ∧
  (flag_starting_timestamp_from_genesis c = true → su_startingTime su = gd_GenesisTime (su_genesisDoc su)) ∧
  (flag_starting_timestamp_from_genesis c = false → 0 ≤ flag_starting_timestamp c ≤ 9223372036854 →
     su_startingTime su = flag_starting_timestamp c * 1000000) ∧
  AutoIncludeTx (client s') = flag_auto_tx c ∧
  ∃ privVals addrs, GetMockPVsFromNodeHomes (split_comma (nth 3 (cfg_Args c) "")) = Ret privVals ∧
    split_comma <$> head (cfg_Args c) = Some addrs ∧
    (∀ i a, addrs !! i = Some a → ∃ addr, key_address privVals i addr ∧
       signingStatus (client s') !! addr = Some true) ∧
    ∀ addr cl, Clients (client s') !! addr = Some cl ↔
      ∃ i a pv, addrs !! i = Some a ∧ key_of privVals i pv addr ∧
        cl = NewAbciCounterpartyClient (connection (nth 4 (cfg_Args c) "") a) a addr pv ∧
        ∀ j b, (i < j)%nat → addrs !! j = Some b → ¬ key_address privVals j addr.
Proof.
  destruct (set_up_ret c h su h' Hset) as (cm & addrs & pvs & now & h1 & h2 & Hst & Hcm & Ha & Hpv & Hgen & Hsu).
  unfold start_chain in Hrun. apply bind_ret_inv in Hrun as ([] & s1 & Hinit & Hrun).
  apply must_ret in Hinit, Hrun.
  pose proof (within_run _ _ _ _ _ (within_settled_InitChain _ _) Hinit) as [S1 S2 S3 S4 S5 S6 S7 S8].
  unfold launched in *. cbn [client blockMutex] in *. unfold height_of in S1. cbn [client] in S1.
  rewrite Hsu in S1, S2, S4, S6, S8.
  cbn [set_AutoIncludeTx NewAbciClient CurState Storage signingStatus AutoIncludeTx Clients] in *.
  assert (genesis s1) as (Hidle & Hh & Hview).
  { unfold genesis, idle. rewrite S1, S2, S3, (MakeGenesisState_law _ _ Hgen).
    split_and!; apply empty_MapStorage_wf || done. }
  assert (chain_inv (abs s1)) as Hinv by (unfold abs; rewrite Hview; by apply chain_inv_genesis).
  unfold RunBlockWithTime, default_proposer in Hrun. rewrite (bind_ret _ _ _ _ _ (cl_run _ _)) in Hrun.
  pose proof (run_locked (first_block_time c (su_startingTime su))
    (vs_Proposer (st_LastValidators (CurState (client s1)))) [] s1 (proj1 Hidle)) as HR.
  pose proof (within_kept_helper (first_block_time c (su_startingTime su))
    (vs_Proposer (st_LastValidators (CurState (client s1)))) [] (mkSys (client s1) true (io s1))) as K.
  destruct (run_step _ _ _ _ _ Hidle Hrun) as (Hidle' & (v & _ & Hstep) & _).
  destruct (runBlock_helper _ _ _ _) as [oh sh]. destruct HR as [_ HR]. rewrite HR in Hrun.
  destruct oh as [[]| | |]; simplify_eq. destruct K as [Kcl _ Ksig _ Kauto _ _]. cbn [client snd] in *.
  set (s2 := mkSys (client sh) false (io sh)) in *.
  split_and!; [done | exact (chain_step_inv _ _ _ _ Hinv Hstep) | | | | | congruence |].
  - change (height_of s2) with (st_LastBlockHeight (ch_state (abs s2))).
    rewrite (nsteps_height 1 (abs s1) (abs s2)); [cbn [abs ch_state]; lia|].
    eapply nsteps_l; [by eauto | constructor].
  - assert (last_time s2 = first_block_time c (su_startingTime su)) as ->.
    { unfold last_time. change (LastBlock (client s2)) with (ch_last (abs s2)). by destruct Hstep. }
    unfold first_block_time. case_decide; lia.
  - intros Hg. unfold starting_time in Hst. rewrite Hg in Hst. unfold mret, M_ret in Hst. congruence.
  - intros Hg Hms. unfold starting_time in Hst. rewrite Hg in Hst. rewrite decide_False in Hst by lia.
    unfold mret, M_ret in Hst. rewrite milliseconds_exact in Hst by lia. injection Hst as Hst _. lia.
  - exists pvs, addrs. pose proof (connect_clients_ret _ _ _ _ _ _ Hcm) as Hiff.
    destruct (connect_clients_keys _ _ _ _ _ _ Hcm) as [Hkeys _].
    assert (∀ addr cl, Clients (client s1) !! addr = Some cl ↔ connected (nth 4 (cfg_Args c) "") pvs 0 addrs addr cl) as Hcl.
    { intros addr cl. rewrite Hiff, lookup_empty. split; [by intros [?|[_ ?]] | by left]. }
    split_and!; [done | done | |].
    + intros i a Hi. destruct (Hkeys i a Hi) as (addr & Hkey & [cl Hin]). exists addr. split; [exact Hkey|].
      rewrite Ksig, S4. apply all_signing. apply list_elem_of_fmap.
      exists (addr, cl). split; [done|]. by apply elem_of_map_to_list.
    + intros addr cl. rewrite Kcl. apply Hcl.
Qed.

Lemma RunBlock_ready s s' : idle s → chain_inv (abs s) → RunBlock s = (Ret tt, s') →
  idle s' ∧ chain_inv (abs s') ∧ height_of s' = height_of s + 1.
Proof.
  intros Hidle Hinv H. destruct (RunBlock_step s s' Hidle H) as (Hidle' & now & v & t & th & _ & _ & Hstep & _).
  split_and!; [done | exact (chain_step_inv _ _ _ _ Hinv Hstep) |].
  change (height_of s') with (st_LastBlockHeight (ch_state (abs s'))).
  rewrite (nsteps_height 1 (abs s) (abs s')); [done|]. eapply nsteps_l; [by eauto | constructor].
Qed.

(** C15 Each round of the production loop either adds exactly one block to a chain
    that stays well formed, or is the last thing the program does: the loop never
    goes on after a failed block, since an error of [RunBlock] is turned into a
    panic of the main goroutine. *)
Theorem production_loop (n : nat) s (Hidle : idle s) (Hinv : chain_inv (abs s)) :
  match produce n s with
  | (Ret _, s') => idle s' ∧ chain_inv (abs s') ∧ height_of s' = height_of s + Z.of_nat n
  | (Err _, _) => False
  | (_, s') => ∃ m s1, (m < n)%nat ∧ produce m s = (Ret tt, s1) ∧ chain_inv (abs s1) ∧
      height_of s1 = height_of s + Z.of_nat m ∧
      is_Ret (RunBlock s1).1 = false ∧ s' = (RunBlock s1).2
  end.
Proof.
  revert s Hidle Hinv. induction n as [|n IH]; intros s Hidle Hinv; [by split_and!; [..|lia]|].
  cbn [produce]. pose proof (must_cases RunBlock s) as Hm. unfold mbind at 1, M_bind at 1.
  unfold must in *. destruct (RunBlock s) as [[[]|e|p|] s1] eqn:Hrun;
    [|exists 0%nat, s; rewrite Hrun; split_and!; try done; lia..].
  destruct (RunBlock_ready s s1 Hidle Hinv Hrun) as (Hi1 & Hc1 & Hh1).
  specialize (IH s1 Hi1 Hc1). destruct (produce n s1) as [[u|e|p|] s'] eqn:Hp.
  - destruct IH as (? & ? & ?). split_and!; [done..|lia].
  - done.
  - destruct IH as (m & s2 & Hm2 & Hpm & Hc2 & Hh2 & Hr & ->). exists (S m), s2. cbn [produce].
    unfold mbind, M_bind, must. rewrite Hrun. split_and!; [lia | done..| lia | done | done].
  - destruct IH as (m & s2 & Hm2 & Hpm & Hc2 & Hh2 & Hr & ->). exists (S m), s2. cbn [produce].
    unfold mbind, M_bind, must. rewrite Hrun. split_and!; [lia | done..| lia | done | done].
Qed.
End theorems.

(** ** Instances *)

Import ToyInstances.

Definition toy_doc : GenesisDoc :=
  mkGenesisDoc 7000000000 [mkGenesisValidator ("alice" : PubKey) 10; mkGenesisValidator ("bob" : PubKey) 3] "".

#[export] Instance toy_main : MainOps := {
  PrivKey := string;
  AppGenesis := string;
  LoadFilePV := λ key _,
    if decide (key = "/home/alice/config/priv_validator_key.json") then Ret "alice"
    else if decide (key = "/home/bob/config/priv_validator_key.json") then Ret "bob"
    else Panic (PanicMsg "no such file");
  NewMockPVWithParams := λ k _ _, k : PrivValidator;
  AppGenesisFromFile := λ f, if decide (f = "genesis.json") then Ret f else Err (ExtErr "no such file");
  ToGenesisDoc := λ g, match g with Some _ => Ret toy_doc | None => Panic NilDereference end;
  MakeGenesisState := λ _, Ret (toy_genesis_state 1 0);
  NewGRPCClient := λ a _, a;
  NewSocketClient := λ a _, a;
  zero_HeaderRest := tt;
  zero_PartSetHeader := 0;
}.

#[export] Instance toy_main_laws : MainLaws.
Proof. constructor. by intros doc st [= <-]. Defined.

Definition toy_config : Config :=
  mkConfig ["tcp://a,tcp://b"; "genesis.json"; "tcp://0.0.0.0:22331"; "/home/alice,/home/bob"; "socket"]
    2000 false 0 5000 false.

Definition toy_setup : Setup :=
  match (set_up toy_config []).1 with
  | Ret su => su
  | _ => mkSetup (client toy_two) toy_doc (toy_genesis_state 1 0) 0
  end.

Lemma toy_set_up : set_up toy_config [] = (Ret toy_setup, (set_up toy_config []).2).
Proof. run_toy. Defined.
Definition toy_launched : Sys MapStorage AnyTimeHandler := launched toy_setup (set_up toy_config []).2.
Lemma toy_start : start_chain toy_config toy_setup toy_launched =
  (Ret tt, (start_chain toy_config toy_setup toy_launched).2).
Proof. run_toy. Defined.

(** Started at 5 seconds with a block time of 2 seconds. *)
Lemma startup_spec_witness :
  let s := (start_chain toy_config toy_setup toy_launched).2 in
  height_of s = 1 ∧ last_time s = 7000000000 ∧ AutoIncludeTx (client s) = false.
Proof.
  cbv zeta.
  pose proof (startup_spec toy_config toy_setup [] (set_up toy_config []).2
    (start_chain toy_config toy_setup toy_launched).2 toy_set_up toy_start)
    as (_ & _ & Hh & Ht & _ & _ & Ha & _).
  split; [exact Hh|]. split; [|exact Ha]. rewrite Ht. vm_compute. reflexivity.
Defined.

Lemma production_loop_witness :
  (produce 2 toy_two).1 = Ret tt ∧ height_of (produce 2 toy_two).2 = 4.
Proof.
  pose proof (production_loop 2 toy_two (proj1 toy_two_ready) (proj2 toy_two_ready)) as H.
  assert ((produce 2 toy_two).1 = Ret tt) as Hr by (vm_compute; reflexivity).
  split; [exact Hr|]. destruct (produce 2 toy_two) as [[u|e|p|] s'].
  - destruct H as (_ & _ & H). unfold snd. rewrite H. vm_compute. reflexivity.
  - destruct H.
  - discriminate Hr.
  - discriminate Hr.
Defined.
