(* ===== verification/Websocket.v ===== *)
(** * rpc_server/websocket.go: subscriptions

    [Subscribe] registers with the event bus and starts a goroutine that forwards
    the subscription's messages to the client until the subscription is canceled.
    The event bus is outside code: its state is a parameter, and what it does to a
    subscription (putting messages on its channel, canceling it) are steps of the
    environment, in any order. *)

From S2P Require Import Prelude.
From S2P Require Import CometTypes.
From S2P Require Import Toy.
From S2P Require Import Storage.
From S2P Require Import TimeHandler.
From S2P Require Import Client.
From S2P Require Import RunBlock.
From S2P Require Import Routes.
#[local] Open Scope Z_scope.

(** [types.EventBus], as far as subscriptions go; [Bus] is its state. *)
Class EventBusOps `{CometTypes} := {
  Bus : Type;
  EventBus_Subscribe : string → Query → Z → M Bus unit;   (** subscriber, query, capacity *)
  EventBus_Unsubscribe : string → Query → M Bus unit;
  EventBus_UnsubscribeAll : string → M Bus unit;
}.

Definition SubscriptionBufferSize : Z := 100.
Definition closeIfSlow : bool := false.

(** [sub.Err()] *)
Inductive sub_err := ErrNil | ErrUnsubscribed | ErrReason (what : string).

#[export] Instance sub_err_eq : EqDecision sub_err.
Proof. solve_decision. Defined.

Section requests.
Context {CT : CometTypes} {RO : RpcOps} {BO : EventBusOps}.

Definition parse_query (query : string) : M Bus Query :=
  liftO (wrapO "failed to parse query: %w" (query_New query)).

(** The context's timeout is the bus's to observe. *)
Definition Subscribe (addr query : string) : M Bus unit :=
  q ← parse_query query;
  EventBus_Subscribe addr q SubscriptionBufferSize.

Definition Unsubscribe (addr query : string) : M Bus unit :=
  q ← parse_query query;
  EventBus_Unsubscribe addr q.

Definition UnsubscribeAll (addr : string) : M Bus unit := EventBus_UnsubscribeAll addr.
End requests.

(** ** The forwarding goroutine *)

Section forwarding.
Context {Msg ReqID : Type} (id : ReqID) (query : string).

(** [rpctypes.RPCResponse]: a result event, or a server error. *)
Inductive ws_response :=
  | RespEvent (id : ReqID) (query : string) (msg : Msg)
  | RespServerError (id : ReqID) (err : error).

(** What one case of the [select] writes, and whether the loop goes on.
    [written] is whether the client took the response in time. *)
Definition on_message (msg : Msg) (written : bool) : list ws_response * bool :=
  let resp := RespEvent id query msg in
  if negb written && closeIfSlow then
    ([resp; RespServerError id (ExtErr "subscription was canceled (reason: slow client)")], false)
  else ([resp], true).

Definition on_canceled (err : sub_err) : list ws_response * bool :=
  match err with
  | ErrUnsubscribed => ([], false)
  | _ =>
      let reason := match err with ErrReason r => r | _ => "CometBFT exited" end in
      ([RespServerError id (Errorf "subscription was canceled (reason: %s)" [AStr reason])], false)
  end.

(** The channel, whether the subscription is canceled, what the goroutine has
    tried to write (oldest first), and whether it still runs. *)
Record subscription := mkSubscription {
  sub_out : list Msg;
  sub_canceled : option sub_err;
  sub_written : list ws_response;
  sub_running : bool }.

Definition new_subscription : subscription := mkSubscription [] None [] true.

(** The label is the message the bus has put on the channel, if any. *)
Inductive sub_step : subscription → option Msg → subscription → Prop :=
  | sub_put msg out w r :
      sub_step (mkSubscription out None w r) (Some msg) (mkSubscription (out ++ [msg]) None w r)
  | sub_cancel err out w r :
      sub_step (mkSubscription out None w r) None (mkSubscription out (Some err) w r)
  | sub_message msg out c w written :
      sub_step (mkSubscription (msg :: out) c w true) None
        (mkSubscription out c (w ++ (on_message msg written).1) (on_message msg written).2)
  | sub_end err out w :
      sub_step (mkSubscription out (Some err) w true) None
        (mkSubscription out (Some err) (w ++ (on_canceled err).1) (on_canceled err).2).

(** Runs, with the messages put on the channel so far. *)
Inductive sub_run : list Msg → subscription → Prop :=
  | sub_start : sub_run [] new_subscription
  | sub_next puts s l s' : sub_run puts s → sub_step s l s' →
      sub_run (puts ++ option_list l) s'.

(** What the client has been sent once the goroutine has ended. *)
Definition farewell (s : subscription) : list ws_response :=
  if sub_running s then [] else
  match sub_canceled s with
  | None | Some ErrUnsubscribed => []
  | Some ErrNil =>
      [RespServerError id (Errorf "subscription was canceled (reason: %s)" [AStr "CometBFT exited"])]
  | Some (ErrReason r) =>
      [RespServerError id (Errorf "subscription was canceled (reason: %s)" [AStr r])]
  end.

(** C37 The client of a subscription is sent the messages of the event bus in
    order, none twice and none left out in between, whether or not it takes them
    in time: at any point what it was sent are the first messages put on the
    channel, and the rest is still there.  The goroutine ends only when the
    subscription is canceled, with one error that tells why, or silently if the
    client unsubscribed; until then a waiting message can always be forwarded. *)
Theorem subscription_delivers (puts : list Msg) (s : subscription) (Hrun : sub_run puts s) :
  (∃ sent, puts = sent ++ sub_out s ∧ sub_written s = (RespEvent id query <$> sent) ++ farewell s) ∧
  (sub_running s = false → is_Some (sub_canceled s)) ∧
  (sub_running s = true → ∀ msg out, sub_out s = msg :: out → ∀ written : bool,
     ∃ s', sub_step s None s' ∧ sub_out s' = out ∧
       sub_written s' = sub_written s ++ [RespEvent id query msg] ∧ sub_running s' = true).
Proof.
  assert ((∃ sent, puts = sent ++ sub_out s ∧
      sub_written s = (RespEvent id query <$> sent) ++ farewell s) ∧
    (sub_running s = false → is_Some (sub_canceled s))) as [H1 H2].
  { induction Hrun as [|puts s l s' Hrun [(sent & -> & Hw) Hc] Hstep]; [split; [by exists [] | done]|].
    destruct Hstep as [msg out w r|err out w r|msg out c w written|err out w]; simpl in *.
    - destruct r; [|by destruct (Hc eq_refl)]. split; [|done]. exists sent. by rewrite app_assoc.
    - destruct r; [|by destruct (Hc eq_refl)]. split; [|done]. exists sent. by rewrite app_nil_r.
    - unfold on_message, farewell in *. rewrite andb_false_r. simpl in *. split; [|done].
      exists (sent ++ [msg]). rewrite app_nil_r in *. subst w. rewrite fmap_app, app_nil_r. simpl.
      by rewrite <-app_assoc.
    - unfold farewell in *. simpl in *. rewrite app_nil_r in *. subst w.
      split; [|by destruct err]. exists sent. split; [done|]. by destruct err; rewrite ?app_nil_r. }
  split_and!; [exact H1 | exact H2 |]. intros Hr msg out Hout written.
  destruct s as [o c w r]. simpl in *. subst. eexists. split; [apply (sub_message msg out c w written)|].
  unfold on_message. by rewrite andb_false_r.
Qed.
End forwarding.

(** ** Instances *)

(** "a" is forwarded to a slow client, then the bus gives up on the subscription;
    "b" stays on the channel. *)
Definition toy_sub_end : subscription (Msg:=string) (ReqID:=Z) :=
  mkSubscription ["b"] (Some (ErrReason "out of capacity"))
    [RespEvent 7 "tm.event='Tx'" "a";
     RespServerError 7 (Errorf "subscription was canceled (reason: %s)" [AStr "out of capacity"])] false.

Lemma toy_sub_run : sub_run 7 "tm.event='Tx'" ["a"; "b"] toy_sub_end.
Proof.
  pose proof (sub_start (Msg:=string) 7 "tm.event='Tx'") as H.
  eapply sub_next in H; [|apply (sub_put _ _ "a")].
  eapply sub_next in H; [|apply (sub_message _ _ "a" [] None _ false)].
  eapply sub_next in H; [|apply (sub_put _ _ "b")].
  eapply sub_next in H; [|apply (sub_cancel _ _ (ErrReason "out of capacity"))].
  eapply sub_next in H; [|apply sub_end].
  exact H.
Qed.

Lemma subscription_delivers_witness :
  ∃ sent, ["a"; "b"] = sent ++ ["b"] ∧
    sub_written toy_sub_end = (RespEvent 7 "tm.event='Tx'" <$> sent) ++ farewell 7 toy_sub_end.
Proof.
  exact (proj1 (subscription_delivers 7 "tm.event='Tx'" ["a"; "b"] toy_sub_end toy_sub_run)).
Defined.
